(** * compressedPhil: the varint / zigzag / dictionary-colour SVG codec

    A shallow embedding of [compress.js] and [decompress.js] (the paired
    binary codec), of the encoders and decoders of the spikes,
    background and Phil scripts, and of the record-dispatch loops of
    the nose and top decoders, followed by the properties of the
    specification that concern them.

    Conventions of the embedding.
    - A [Buffer] is a [list Z] whose elements are bytes; [Buffer.from]
      reduces every element modulo 256 as Node does.
    - JavaScript integers are [Z]; the 32-bit operators ([&], [|], [^],
      [<<], [>>], [>>>]) are written out with their wrap-around.
    - A value read from a buffer is an [option Z]: [None] is [undefined]
      (an index outside the buffer).
    - The numbers of the encoders (coordinates, opacity, stroke width)
      are [JS.number]: a double is the rational it denotes, [NaN] or an
      infinity, and [parseFloat], the product, the difference and the
      quotient round to the nearest double, ties to even, as IEEE 754
      does.  The two zeros are one.  The decoders divide integers by
      powers of ten and print the result with [toFixed]; their values
      are exact rationals.
    - Strings are [string], a character standing for a code unit below
      256.  Case mapping and [Buffer.from(string)] are the ASCII ones:
      a statement that depends on them asks for ASCII strings
      ([is_ascii]).
    - A computation that may throw returns an [outcome]; loops that the
      source writes with [while] carry a fuel argument, and [Diverge] is
      the result of an exhausted fuel. *)

From Stdlib Require Import ZArith QArith Qround Qabs Qpower List String Ascii Bool Lia.
From Stdlib Require Import DecimalString HexadecimalString.
From Stdlib Require DecimalFacts DecimalPos DecimalZ.
From Stdlib Require Import Lqa.
Import ListNotations.
Local Open Scope string_scope.
Local Open Scope list_scope.
Local Open Scope Z_scope.

(* ================================================================== *)
(** * JavaScript primitives used by the scripts *)
(* ================================================================== *)

Module JS.

(** [ToInt32] and [ToUint32] of ECMAScript, on integers. *)
Definition ToInt32 (z : Z) : Z := (z + 2 ^ 31) mod 2 ^ 32 - 2 ^ 31.
Definition ToUint32 (z : Z) : Z := z mod 2 ^ 32.

(** [a & b], [a | b], [a ^ b]. *)
Definition band (a b : Z) : Z := Z.land (ToInt32 a) (ToInt32 b).
Definition bor (a b : Z) : Z := Z.lor (ToInt32 a) (ToInt32 b).
Definition bxor (a b : Z) : Z := Z.lxor (ToInt32 a) (ToInt32 b).

(** [a << s], [a >> s], [a >>> s]: the shift count is taken modulo 32. *)
Definition shl (a s : Z) : Z := ToInt32 (Z.shiftl (ToInt32 a) (ToUint32 s mod 32)).
Definition sar (a s : Z) : Z := Z.shiftr (ToInt32 a) (ToUint32 s mod 32).
Definition shr (a s : Z) : Z := Z.shiftr (ToUint32 a) (ToUint32 s mod 32).

(** [ToNumber] followed by an integer conversion sends [undefined] and
    [NaN] to 0. *)
Definition num_of (v : option Z) : Z :=
  match v with Some z => z | None => 0 end.

(** ** Strings *)

Definition is_upper (c : ascii) : bool :=
  let n := nat_of_ascii c in (Nat.leb 65 n && Nat.leb n 90)%bool.
Definition is_lower (c : ascii) : bool :=
  let n := nat_of_ascii c in (Nat.leb 97 n && Nat.leb n 122)%bool.
Definition is_letter (c : ascii) : bool := (is_upper c || is_lower c)%bool.
Definition is_digit (c : ascii) : bool :=
  let n := nat_of_ascii c in (Nat.leb 48 n && Nat.leb n 57)%bool.

(** [\s] and the white space skipped by [parseInt], [parseFloat] and
    [trim], among the characters below 256: tab, line feed, vertical
    tab, form feed, carriage return, space, no-break space. *)
Definition is_space (c : ascii) : bool :=
  let n := nat_of_ascii c in
  ((Nat.leb 9 n && Nat.leb n 13) || Nat.eqb n 32 || Nat.eqb n 160)%bool.

Definition upper_char (c : ascii) : ascii :=
  if is_lower c then ascii_of_nat (nat_of_ascii c - 32) else c.
Definition lower_char (c : ascii) : ascii :=
  if is_upper c then ascii_of_nat (nat_of_ascii c + 32) else c.

Fixpoint map_string (f : ascii -> ascii) (s : string) : string :=
  match s with
  | EmptyString => EmptyString
  | String c s' => String (f c) (map_string f s')
  end.

(** [s.toUpperCase()], [s.toLowerCase()] *)
Definition toUpperCase (s : string) : string := map_string upper_char s.
Definition toLowerCase (s : string) : string := map_string lower_char s.

(** [s.startsWith(p)] *)
Definition startsWith (s p : string) : bool := String.prefix p s.

(** [s.slice(1)] *)
Definition slice1 (s : string) : string :=
  match s with EmptyString => EmptyString | String _ s' => s' end.

(** [s.substring(a, b)] for [a <= b] *)
Definition substring (a b : nat) (s : string) : string := String.substring a (b - a) s.

(** [s.split('').map(c => c + c).join('')] *)
Fixpoint double_chars (s : string) : string :=
  match s with
  | EmptyString => EmptyString
  | String c s' => String c (String c (double_chars s'))
  end.

Fixpoint repeat_char (c : ascii) (n : nat) : string :=
  match n with O => EmptyString | S n' => String c (repeat_char c n') end.

(** [s.padStart(n, '0')] *)
Definition padStart0 (n : nat) (s : string) : string :=
  (repeat_char "0"%char (n - String.length s) ++ s)%string.

(** [String(z)] of an integer: decimal digits, with a minus sign. *)
Definition string_of_Z (z : Z) : string := DecimalString.NilZero.string_of_int (Z.to_int z).

(** [z.toString(16)] of an integer: lower-case digits, with a minus sign. *)
Definition toString16 (z : Z) : string :=
  HexadecimalString.NilZero.string_of_int (Z.to_hex_int z).

(** [String.fromCharCode(byte)] *)
Definition fromCharCode (z : Z) : ascii := ascii_of_nat (Z.to_nat (z mod 256)).

(** Value of a character as a digit in a radix up to 36. *)
Definition digit_value (c : ascii) : option Z :=
  let n := Z.of_nat (nat_of_ascii c) in
  if is_digit c then Some (n - 48)
  else if is_lower c then Some (n - 87)
  else if is_upper c then Some (n - 55)
  else None.

Fixpoint skip_space (s : string) : string :=
  match s with
  | String c s' => if is_space c then skip_space s' else s
  | EmptyString => EmptyString
  end.

(** The longest prefix of radix-[R] digits, read as a number; [None]
    when there is no digit. *)
Fixpoint radix_digits (R : Z) (s : string) (acc : option Z) : option Z :=
  match s with
  | EmptyString => acc
  | String c s' =>
      match digit_value c with
      | Some d =>
          if d <? R then radix_digits R s' (Some (num_of acc * R + d)) else acc
      | None => acc
      end
  end.

(** [parseInt(s, radix)]; [radix = 0] stands for an absent radix.
    [None] is [NaN]. *)
Definition parseInt (s : string) (radix : Z) : option Z :=
  let s := skip_space s in
  let '(sign, s) :=
    match s with
    | String "-"%char s' => (-1, s')
    | String "+"%char s' => (1, s')
    | _ => (1, s)
    end in
  if ((radix <? 2) || (36 <? radix))%bool && negb (radix =? 0) then None
  else
    let stripPrefix := ((radix =? 0) || (radix =? 16))%bool in
    let R := if radix =? 0 then 10 else radix in
    let '(R, s) :=
      match s with
      | String "0"%char (String x s') =>
          if (stripPrefix && (Ascii.eqb x "x" || Ascii.eqb x "X"))%bool
          then (16, s') else (R, s)
      | _ => (R, s)
      end in
    match radix_digits R s None with
    | Some v => Some (sign * v)
    | None => None
    end.

(** The longest prefix of decimal digits, and the rest. *)
Fixpoint take_digits (s : string) : string * string :=
  match s with
  | String c s' =>
      if is_digit c then let '(d, r) := take_digits s' in (String c d, r)
      else (EmptyString, s)
  | EmptyString => (EmptyString, EmptyString)
  end.

(** [Number(d)] of a string of decimal digits. *)
Definition Number_of_digits (d : string) : Z := num_of (radix_digits 10 d None).

Definition strip_prefix (p s : string) : option string :=
  if String.prefix p s then Some (String.substring (String.length p) (String.length s - String.length p) s)
  else None.

(** [\s*(\d+)\s*] followed by the character [stop]: the captured number
    and the rest of the string. *)
Definition rgb_component (stop : ascii) (s : string) : option (Z * string) :=
  let '(d, r) := take_digits (skip_space s) in
  match d with
  | EmptyString => None
  | _ =>
      match skip_space r with
      | String c r' => if Ascii.eqb c stop then Some (Number_of_digits d, r') else None
      | EmptyString => None
      end
  end.

(** A match of [/rgb\(\s*(\d+)\s*,\s*(\d+)\s*,\s*(\d+)\s*\)/] starting
    at the head of [s]. *)
Definition rgb_match_here (s : string) : option (Z * Z * Z) :=
  match strip_prefix "rgb(" s with
  | None => None
  | Some s1 =>
      match rgb_component ","%char s1 with
      | None => None
      | Some (r, s2) =>
          match rgb_component ","%char s2 with
          | None => None
          | Some (g, s3) =>
              match rgb_component ")"%char s3 with
              | None => None
              | Some (b, _) => Some (r, g, b)
              end
          end
      end
  end.

(** [s.match(/rgb\(...\)/)] mapped through [Number]: the leftmost match. *)
Fixpoint rgb_match (s : string) : option (Z * Z * Z) :=
  match rgb_match_here s with
  | Some m => Some m
  | None =>
      match s with
      | EmptyString => None
      | String _ s' => rgb_match s'
      end
  end.

(** ** Numbers *)

(** A number: a finite double (a rational here, the two zeros being
    one number), [NaN], or an infinity with its sign. *)
Inductive number : Type :=
| Num (q : Q)
| NaN
| Infinity (negative : bool).

(** [2^k] for an integer exponent. *)
Definition pow2 (k : Z) : Q := (2 ^ k)%Q.

(** The exponent of the binade of a positive rational: the integer
    part of its binary logarithm. *)
Definition ilog2 (x : Q) : Z :=
  let k := Z.log2 (Qnum x) - Z.log2 (Zpos (Qden x)) in
  if Qle_bool (pow2 k) x then k else k - 1.

(** The nearest integer, a tie going to the even one. *)
Definition round_half_even (x : Q) : Z :=
  let f := Qfloor x in
  match (x - inject_Z f ?= 1 # 2)%Q with
  | Lt => f
  | Gt => f + 1
  | Eq => if Z.even f then f else f + 1
  end.

(** The double nearest to a rational (IEEE 754 binary64, round to
    nearest, ties to even): 53 significant bits in the binade of the
    number, the binades below [2^-1022] sharing the spacing [2^-1074],
    and an infinity from [2^1024] on. *)
Definition double_round (x : Q) : number :=
  if Qeq_bool x 0 then Num 0
  else
    let a := Qabs x in
    let ulp := pow2 (Z.max (ilog2 a) (- 1022) - 52) in
    let r := (inject_Z (round_half_even (a / ulp)) * ulp)%Q in
    if Qle_bool (pow2 1024) r then Infinity (Qnum x <? 0)
    else Num (Qred (if Qnum x <? 0 then - r else r)).

(** [a * b] *)
Definition fmul (a b : number) : number :=
  match a, b with
  | Num x, Num y => double_round (x * y)
  | NaN, _ | _, NaN => NaN
  | Infinity s, Num y | Num y, Infinity s =>
      if Qeq_bool y 0 then NaN else Infinity (xorb s (Qnum y <? 0))
  | Infinity s, Infinity t => Infinity (xorb s t)
  end.

(** [a - b] *)
Definition fsub (a b : number) : number :=
  match a, b with
  | Num x, Num y => double_round (x - y)
  | NaN, _ | _, NaN => NaN
  | Infinity s, Num _ => Infinity s
  | Num _, Infinity t => Infinity (negb t)
  | Infinity s, Infinity t => if Bool.eqb s t then NaN else Infinity s
  end.

(** [a / b] *)
Definition fdiv (a b : number) : number :=
  match a, b with
  | Num x, Num y =>
      if Qeq_bool y 0 then
        if Qeq_bool x 0 then NaN else Infinity (Qnum x <? 0)
      else double_round (x / y)
  | NaN, _ | _, NaN => NaN
  | Infinity s, Num y => Infinity (xorb s (Qnum y <? 0))
  | Num _, Infinity _ => Num 0
  | Infinity _, Infinity _ => NaN
  end.

(** [a === b] on numbers *)
Definition number_eqb (a b : number) : bool :=
  match a, b with
  | Num x, Num y => Qeq_bool x y
  | Infinity s, Infinity t => Bool.eqb s t
  | _, _ => false
  end.

(** [isNaN(a)] *)
Definition isNaN (a : number) : bool :=
  match a with NaN => true | _ => false end.

(** The integer part of a rational, towards zero. *)
Definition trunc (x : Q) : Z := if Qle_bool 0 x then Qfloor x else Qceiling x.

(** The integer that the 32-bit operators and [Buffer.from] start
    from: the integer part of a finite number, 0 for [NaN] and the
    infinities. *)
Definition to_integer (a : number) : Z :=
  match a with Num q => trunc q | _ => 0 end.

(** The nearest integer, a tie going upwards. *)
Definition round_half_up (x : Q) : Z := Qfloor (x + (1 # 2))%Q.

(** [Math.round(x)]; [NaN] and the infinities are kept. *)
Definition Math_round (x : number) : number :=
  match x with
  | Num q => Num (inject_Z (round_half_up q))
  | _ => x
  end.

(** [x.toFixed(digits)]: the sign, then the nearest multiple of
    [10^-digits] of the absolute value (ties upwards), written with
    exactly [digits] decimals. *)
Definition toFixed (digits : nat) (x : Q) : string :=
  let negative := Qnum x <? 0 in
  let n := Qfloor (Qabs x * inject_Z (10 ^ Z.of_nat digits) + (1 # 2))%Q in
  let ds := padStart0 (S digits) (string_of_Z n) in
  let k := (String.length ds - digits)%nat in
  ((if negative then "-" else "") ++ String.substring 0 k ds ++
   (if Nat.eqb digits 0 then "" else "." ++ String.substring k digits ds))%string.

(** An optional sign at the head of [s]: whether it is a minus, and
    what follows it. *)
Definition take_sign (s : string) : bool * string :=
  match s with
  | String "-"%char s' => (true, s')
  | String "+"%char s' => (false, s')
  | _ => (false, s)
  end.

(** The exponent part of a decimal literal at the head of [s]: [e] or
    [E], an optional sign and at least one digit; 0 when there is
    none. *)
Definition exponent_part (s : string) : Z :=
  match s with
  | String c s' =>
      if (Ascii.eqb c "e" || Ascii.eqb c "E")%bool then
        let '(negative, s'') := take_sign s' in
        match fst (take_digits s'') with
        | EmptyString => 0
        | ds => if negative then - Number_of_digits ds else Number_of_digits ds
        end
      else 0
  | EmptyString => 0
  end.

(** [parseFloat(s)]: after the leading white space, the longest prefix
    that is a decimal literal (optional sign, then [Infinity], or
    digits with an optional fraction, or a fraction, and an optional
    exponent), as the nearest double; [NaN] when there is none. *)
Definition parseFloat (s : string) : number :=
  let '(negative, s) := take_sign (skip_space s) in
  if String.prefix "Infinity" s then Infinity negative
  else
    let '(ip, r) := take_digits s in
    let '(fp, r) :=
      match r with
      | String "."%char r' => take_digits r'
      | _ => (EmptyString, r)
      end in
    match ip, fp with
    | EmptyString, EmptyString => NaN
    | _, _ =>
        double_round
          ((if negative then - (1) else 1) *
           (inject_Z (Number_of_digits ip) +
            inject_Z (Number_of_digits fp) / inject_Z (10 ^ Z.of_nat (String.length fp))) *
           inject_Z 10 ^ exponent_part r)%Q
    end.

(** [s.replace(/\s+/g, ' ')] *)
Fixpoint collapse_space (s : string) : string :=
  match s with
  | EmptyString => EmptyString
  | String c s' =>
      if is_space c then
        match s' with
        | String c' _ => if is_space c' then collapse_space s' else String " "%char (collapse_space s')
        | EmptyString => String " "%char EmptyString
        end
      else String c (collapse_space s')
  end.

(** [s.replace(/([a-zA-Z])/g, ' $1 ')] *)
Fixpoint space_letters (s : string) : string :=
  match s with
  | EmptyString => EmptyString
  | String c s' =>
      if is_letter c then String " "%char (String c (String " "%char (space_letters s')))
      else String c (space_letters s')
  end.

Fixpoint rev_string (s acc : string) : string :=
  match s with
  | EmptyString => acc
  | String c s' => rev_string s' (String c acc)
  end.

(** [s.trim()] *)
Definition trim (s : string) : string :=
  rev_string (skip_space (rev_string (skip_space s) EmptyString)) EmptyString.

(** [s.split(' ')]: the pieces between single spaces, [cur] being the
    piece under construction (reversed). *)
Fixpoint split_on (sep : ascii -> bool) (s : string) (cur : string) : list string :=
  match s with
  | EmptyString => [rev_string cur EmptyString]
  | String c s' =>
      if sep c then rev_string cur EmptyString :: split_on sep s' EmptyString
      else split_on sep s' (String c cur)
  end.
Definition split_space (s : string) : list string :=
  split_on (fun c => Ascii.eqb c " "%char) s EmptyString.

(** [s.split(/\s+/)]: a run of white space is one separator. *)
Definition split_spaces (s : string) : list string :=
  split_on (fun c => Ascii.eqb c " "%char) (collapse_space s) EmptyString.

(** [Buffer.from(s)] for a string of ASCII characters. *)
Fixpoint bytes_of_string (s : string) : list Z :=
  match s with
  | EmptyString => []
  | String c s' => Z.of_nat (nat_of_ascii c) :: bytes_of_string s'
  end.

(** The double quote character, for the generated markup. *)
Definition dq : string := String (ascii_of_nat 34) EmptyString.

(** [array.join(sep)] *)
Fixpoint join (sep : string) (l : list string) : string :=
  match l with
  | [] => EmptyString
  | [x] => x
  | x :: rest => (x ++ sep ++ join sep rest)%string
  end.

(** The line feed character. *)
Definition nl : string := String (ascii_of_nat 10) EmptyString.

End JS.

(* ================================================================== *)
(** * Buffers and outcomes *)
(* ================================================================== *)

Definition Buffer := list Z.

(** [Buffer.from(array)]: each element is stored modulo 256; [NaN]
    (here [None]) is stored as 0. *)
Definition byte_of (v : option Z) : Z := JS.num_of v mod 256.
Definition Buffer_from (l : list Z) : Buffer := map (fun v => v mod 256) l.

(** [buffer.length] *)
Definition blength (b : Buffer) : Z := Z.of_nat (List.length b).

(** [buffer[i]]: [undefined] outside the buffer. *)
Definition buf_get (b : Buffer) (i : Z) : option Z :=
  if i <? 0 then None else nth_error b (Z.to_nat i).

(** The [Error]s thrown by the scripts, one constructor per message. *)
Inductive error : Type :=
| VarintOverflow (offset : Z)
| ColorOverflow (offset : Z)
| RGBColorOverflow (offset : Z)
| UnknownColorEncoding (colorCode : option Z) (offset : Z)
| ViewBoxOverflow (offset : Z)
| UnknownViewBoxFormat (format : option Z)
| PathDataOverflow (offset length : Z)
| TooShort
| TypeError.

Inductive outcome (A : Type) : Type :=
| Ret (a : A)
| Throw (e : error)
| Diverge.
Arguments Ret {A} a.
Arguments Throw {A} e.
Arguments Diverge {A}.

Definition bind {A B} (m : outcome A) (k : A -> outcome B) : outcome B :=
  match m with
  | Ret a => k a
  | Throw e => Throw e
  | Diverge => Diverge
  end.

Notation "x <- m ;; k" := (bind m (fun x => k))
  (at level 61, m at next level, right associativity).
Notation "' p <- m ;; k" := (bind m (fun p => k))
  (at level 61, p pattern, m at next level, right associativity).

(** [try { body } catch (error) { handler }] *)
Definition try_catch {A} (body : outcome A) (handler : error -> outcome A) : outcome A :=
  match body with
  | Throw e => handler e
  | r => r
  end.

(* ================================================================== *)
(** * compress.js *)
(* ================================================================== *)

Module Compress.

Definition QUANTIZATION_SCALE : Z := 15.

(** The [while (num >= 128)] loop of [encodeVarInt]; it returns the
    pushed bytes and the final [num]. *)
Fixpoint encodeVarInt_loop (fuel : nat) (num : Z) (bytes : list Z) : outcome (list Z * Z) :=
  match fuel with
  | O => Diverge
  | S fuel' =>
      if 128 <=? num then
        encodeVarInt_loop fuel' (JS.shr num 7) (bytes ++ [JS.bor (JS.band num 127) 128])
      else Ret (bytes, num)
  end.

Definition encodeVarInt (num : Z) : outcome Buffer :=
  if num =? 0 then Ret (Buffer_from [0])
  else
    '(bytes, num') <- encodeVarInt_loop 6 num [] ;;
    Ret (Buffer_from (bytes ++ [num'])).

(** Zigzag encoding for signed values. *)
Definition encodeSignedVarInt (num : Z) : outcome Buffer :=
  let zigzag := JS.bxor (JS.shl num 1) (JS.sar num 31) in
  encodeVarInt zigzag.

(** [encodeVarInt] on a number that need not be an integer: the
    comparisons are made on the number itself, the operators [&] and
    [>>>] of the loop and [Buffer.from] take its integer part.  [NaN]
    and minus infinity fail both comparisons and are pushed alone, to
    be stored as 0; plus infinity enters the loop once, where it is
    taken as 0 by both operators. *)
Definition encodeVarInt_number (num : JS.number) : outcome Buffer :=
  match num with
  | JS.Num x =>
      if Qeq_bool x 0 then Ret (Buffer_from [0])
      else if Qle_bool 128 x then
        '(bytes, num') <- encodeVarInt_loop 6 (JS.trunc x) [] ;;
        Ret (Buffer_from (bytes ++ [num']))
      else Ret (Buffer_from [JS.trunc x])
  | JS.Infinity false => Ret (Buffer_from [128; 0])
  | _ => Ret (Buffer_from [0])
  end.

(** [encodeSignedVarInt] on a number: both shifts start from its
    integer part. *)
Definition encodeSignedVarInt_number (num : JS.number) : outcome Buffer :=
  encodeSignedVarInt (JS.to_integer num).

(** Expanded color dictionary with common SVG colors. *)
Definition COLOR_DICT : list (string * Z) :=
  [ ("000000", 1); ("FFFFFF", 2); ("808080", 3); ("FF0000", 4);
    ("00FF00", 5); ("0000FF", 6); ("FFFF00", 7); ("00FFFF", 8);
    ("FF00FF", 9); ("C0C0C0", 10); ("FFA500", 11); ("800000", 12);
    ("008000", 13); ("000080", 14); ("800080", 15); ("999999", 16);
    ("333333", 17); ("CCCCCC", 18); ("none", 0) ].

(** [dict[key]]: [None] is [undefined].  The properties inherited from
    [Object.prototype] all have a lower-case letter in their name, and
    every key the script looks up is upper-cased or a digit string, so
    only own properties are found. *)
Fixpoint dict_get {V} (dict : list (string * V)) (key : string) : option V :=
  match dict with
  | [] => None
  | (k, v) :: rest => if String.eqb k key then Some v else dict_get rest key
  end.

(** Truthiness of a looked-up number: [undefined] and 0 are falsy. *)
Definition truthy (v : option Z) : bool :=
  match v with Some z => negb (z =? 0) | None => false end.

(** Command dictionary for path data compression. *)
Definition CMD_DICT : list (string * Z) :=
  [ ("M", 1); ("m", 2); ("L", 3); ("l", 4); ("H", 5); ("h", 6);
    ("V", 7); ("v", 8); ("C", 9); ("c", 10); ("S", 11); ("s", 12);
    ("Q", 13); ("q", 14); ("T", 15); ("t", 16); ("A", 17); ("a", 18);
    ("Z", 19); ("z", 19) ].

(** The normalised hex string computed by the first part of
    [encodeColor] (the variable [hex]). *)
Definition encodeColor_hex (color : string) : string :=
  if JS.startsWith color "#" then
    let hex := JS.toUpperCase (JS.slice1 color) in
    if Nat.eqb (String.length hex) 3 then JS.double_chars hex else hex
  else if JS.startsWith color "rgb" then
    match JS.rgb_match color with
    | Some (r, g, b) =>
        JS.toUpperCase
          (JS.padStart0 6 (JS.toString16 (JS.bor (JS.bor (JS.shl r 16) (JS.shl g 8)) b)))
    | None => "000000"
    end
  else if truthy (dict_get COLOR_DICT (JS.toUpperCase color)) then JS.toUpperCase color
  else "000000".

(** Encode color with dictionary lookup. *)
Definition encodeColor (color : string) : Buffer :=
  if (String.eqb color "" || String.eqb color "none")%bool then Buffer_from [0]
  else
    let hex := encodeColor_hex color in
    if truthy (dict_get COLOR_DICT hex) then
      Buffer_from [JS.num_of (dict_get COLOR_DICT hex)]
    else
      [ byte_of (Some 254);
        byte_of (JS.parseInt (JS.substring 0 2 hex) 16);
        byte_of (JS.parseInt (JS.substring 2 4 hex) 16);
        byte_of (JS.parseInt (JS.substring 4 6 hex) 16) ].

(** [/^[A-Za-z]$/.test(token)] *)
Definition is_command_token (token : string) : bool :=
  match token with
  | String c EmptyString => JS.is_letter c
  | _ => false
  end.

Definition scale : JS.number := JS.Num (inject_Z QUANTIZATION_SCALE).

(** [Math.round(x * QUANTIZATION_SCALE)], as [compressed] keeps it:
    every element of [compressed] goes through [encodeSignedVarInt]
    and nowhere else, whose shifts start from its integer part. *)
Definition quantize (x : JS.number) : Z :=
  JS.to_integer (JS.Math_round (JS.fmul x scale)).

(** The body of the token loop of [compressPathData]: [i] is the token
    index, [compressed] the values pushed so far.  Both kinds of pushed
    value (a command code from [CMD_DICT] and a quantized coordinate)
    are numbers. *)
Fixpoint compressPathData_loop (tokens : list string) (i : nat)
    (currentX currentY : JS.number) (lastCommand : string) (compressed : list Z) : list Z :=
  match tokens with
  | [] => compressed
  | token :: rest =>
      if is_command_token token then
        if truthy (dict_get CMD_DICT token) then
          compressPathData_loop rest (S i) currentX currentY token
            (compressed ++ [JS.num_of (dict_get CMD_DICT token)])
        else compressPathData_loop rest (S i) currentX currentY lastCommand compressed
      else
        let num := JS.parseFloat token in
        if JS.isNaN num
        then compressPathData_loop rest (S i) currentX currentY lastCommand compressed
        else
            let notZ := (negb (String.eqb lastCommand "z") && negb (String.eqb lastCommand "Z"))%bool in
            if (String.eqb lastCommand (JS.toLowerCase lastCommand) && notZ)%bool then
              compressPathData_loop rest (S i) currentX currentY lastCommand
                (compressed ++ [quantize num])
            else if notZ then
              if String.eqb lastCommand "H" then
                compressPathData_loop rest (S i) num currentY lastCommand
                  (compressed ++ [quantize (JS.fsub num currentX)])
              else if String.eqb lastCommand "V" then
                compressPathData_loop rest (S i) currentX num lastCommand
                  (compressed ++ [quantize (JS.fsub num currentY)])
              else if Nat.even i then
                compressPathData_loop rest (S i) num currentY lastCommand
                  (compressed ++ [quantize (JS.fsub num currentX)])
              else
                compressPathData_loop rest (S i) currentX num lastCommand
                  (compressed ++ [quantize (JS.fsub num currentY)])
            else
              compressPathData_loop rest (S i) currentX currentY lastCommand
                (compressed ++ [quantize num])
  end.

(** [Buffer.concat(values.map(encode))] *)
Fixpoint concat_map (encode : Z -> outcome Buffer) (values : list Z) : outcome Buffer :=
  match values with
  | [] => Ret []
  | v :: rest =>
      b <- encode v ;;
      bs <- concat_map encode rest ;;
      Ret (b ++ bs)
  end.

(** The [tokens] of [compressPathData]. *)
Definition tokenize (pathData : string) : list string :=
  JS.split_space
    (JS.trim (JS.collapse_space (JS.space_letters (JS.collapse_space pathData)))).

(** Tokenize and compress path data.  Every element of [compressed] is
    a number, so every element goes through [encodeSignedVarInt]. *)
Definition compressPathData (pathData : string) : outcome Buffer :=
  let compressed :=
    compressPathData_loop (tokenize pathData) 0 (JS.Num 0) (JS.Num 0) "" [] in
  concat_map encodeSignedVarInt compressed.

(** Extract and process viewBox for more efficient storage.
    [encodeVarInt(NaN)] pushes [NaN], which [Buffer.from] stores as 0:
    the buffer of [encodeVarInt(0)]; the 32-bit operators of
    [encodeSignedVarInt] send [NaN] to 0 as well. *)
Definition processViewBox_general (viewBox : string) : outcome Buffer :=
  match map (fun p => JS.parseInt p 0) (JS.split_spaces viewBox) with
  | [x; y; w; h] =>
      bx <- encodeSignedVarInt (JS.num_of x) ;;
      by_ <- encodeSignedVarInt (JS.num_of y) ;;
      bw <- encodeVarInt (JS.num_of w) ;;
      bh <- encodeVarInt (JS.num_of h) ;;
      Ret (Buffer_from [3] ++ bx ++ by_ ++ bw ++ bh)
  | _ =>
      let viewBoxBuffer := JS.bytes_of_string viewBox in
      bl <- encodeVarInt (blength viewBoxBuffer) ;;
      Ret (Buffer_from [0] ++ bl ++ viewBoxBuffer)
  end.

Definition processViewBox (viewBox : string) : outcome Buffer :=
  if JS.startsWith viewBox "0 0 " then
    match JS.split_space viewBox with
    | [_; _; p2; p3] =>
        let width := JS.parseInt p2 0 in
        let height := JS.parseInt p3 0 in
        match width, height with
        | Some w, Some h =>
            if w =? h then
              bw <- encodeVarInt w ;;
              Ret (Buffer_from [1] ++ bw)
            else
              bw <- encodeVarInt w ;;
              bh <- encodeVarInt h ;;
              Ret (Buffer_from [2] ++ bw ++ bh)
        | _, _ =>
            bw <- encodeVarInt (JS.num_of width) ;;
            bh <- encodeVarInt (JS.num_of height) ;;
            Ret (Buffer_from [2] ++ bw ++ bh)
        end
    | _ => processViewBox_general viewBox
    end
  else processViewBox_general viewBox.

(** One element of the [paths] array built by [extractPaths]. *)
Record PathRec : Type := mkPath {
  d : string;
  fill : string;
  stroke : string;
  opacity : JS.number;
  strokeWidth : JS.number
}.

Definition hasOpacity (p : PathRec) : bool := negb (JS.number_eqb (opacity p) (JS.Num 1)).
Definition hasStrokeWidth (p : PathRec) : bool :=
  negb (JS.number_eqb (strokeWidth p) (JS.Num 0)).

(** The flags byte: bit 0 for opacity, bit 1 for stroke width. *)
Definition flags (p : PathRec) : Z :=
  JS.bor (if hasOpacity p then 1 else 0) (if hasStrokeWidth p then 2 else 0).

(** The callback of [paths.forEach] in [compressSVG]: the buffer of one
    path record. *)
Definition compressPath (p : PathRec) : outcome Buffer :=
  compressedD <- compressPathData (d p) ;;
  let segments := encodeColor (fill p) ++ encodeColor (stroke p) ++ Buffer_from [flags p] in
  optOpacity <-
    (if hasOpacity p
     then encodeVarInt_number (JS.Math_round (JS.fmul (opacity p) (JS.Num 100)))
     else Ret []) ;;
  optStrokeWidth <-
    (if hasStrokeWidth p
     then encodeVarInt_number (JS.Math_round (JS.fmul (strokeWidth p) (JS.Num 10)))
     else Ret []) ;;
  len <- encodeVarInt (blength compressedD) ;;
  Ret (segments ++ optOpacity ++ optStrokeWidth ++ len ++ compressedD).



End Compress.

(* ================================================================== *)
(** * decompress.js *)
(* ================================================================== *)

Module Decompress.

Definition QUANTIZATION_SCALE : Z := 15.

(** The [do ... while (currentByte & 0x80)] loop of [decodeVarInt]. *)
Fixpoint decodeVarInt_loop (fuel : nat) (buffer : Buffer) (offset : Z)
    (result shift bytesRead : Z) : outcome (Z * Z) :=
  match fuel with
  | O => Diverge
  | S fuel' =>
      if blength buffer <=? offset + bytesRead then Throw (VarintOverflow offset)
      else
        let currentByte := JS.num_of (buf_get buffer (offset + bytesRead)) in
        let result := JS.bor result (JS.shl (JS.band currentByte 127) shift) in
        let shift := shift + 7 in
        let bytesRead := bytesRead + 1 in
        if JS.band currentByte 128 =? 0 then Ret (result, bytesRead)
        else decodeVarInt_loop fuel' buffer offset result shift bytesRead
  end.

(** [decodeVarInt(buffer, offset)] returns [(value, bytesRead)]. *)
Definition decodeVarInt (buffer : Buffer) (offset : Z) : outcome (Z * Z) :=
  decodeVarInt_loop (S (List.length buffer)) buffer offset 0 0 0.

Definition decodeSignedVarInt (buffer : Buffer) (offset : Z) : outcome (Z * Z) :=
  '(value, bytesRead) <- decodeVarInt buffer offset ;;
  let decoded := JS.bxor (JS.shr value 1) (- (JS.band value 1)) in
  Ret (decoded, bytesRead).

(** Dictionary mappings - must match compression script. *)
Definition COLOR_DICT : list (Z * string) :=
  [ (1, "000000"); (2, "FFFFFF"); (3, "808080"); (4, "FF0000");
    (5, "00FF00"); (6, "0000FF"); (7, "FFFF00"); (8, "00FFFF");
    (9, "FF00FF"); (10, "C0C0C0"); (11, "FFA500"); (12, "800000");
    (13, "008000"); (14, "000080"); (15, "800080"); (16, "999999");
    (17, "333333"); (18, "CCCCCC"); (0, "none") ].

Definition CMD_DICT : list (Z * string) :=
  [ (1, "M"); (2, "m"); (3, "L"); (4, "l"); (5, "H"); (6, "h");
    (7, "V"); (8, "v"); (9, "C"); (10, "c"); (11, "S"); (12, "s");
    (13, "Q"); (14, "q"); (15, "T"); (16, "t"); (17, "A"); (18, "a");
    (19, "Z") ].

(** [dict[code]] for a numeric key. *)
Fixpoint code_get {V} (dict : list (Z * V)) (code : Z) : option V :=
  match dict with
  | [] => None
  | (k, v) :: rest => if k =? code then Some v else code_get rest code
  end.

(** [buffer[i].toString(16).padStart(2, '0')]; a [TypeError] when the
    element is [undefined]. *)
Definition hex_byte (buffer : Buffer) (i : Z) : outcome string :=
  match buf_get buffer i with
  | Some v => Ret (JS.padStart0 2 (JS.toString16 v))
  | None => Throw TypeError
  end.

(** Decode color from the binary format: [(color, bytesRead)]. *)
Definition decodeColor (buffer : Buffer) (offset : Z) : outcome (string * Z) :=
  if blength buffer <=? offset then Throw (ColorOverflow offset)
  else
    let bytesRead := 1 in
    let colorCode := buf_get buffer offset in
    match colorCode with
    | Some c =>
        match (if c <? 254 then code_get COLOR_DICT c else None) with
        | Some name =>
            Ret (if c =? 0 then "none" else ("#" ++ name)%string, bytesRead)
        | None =>
            if c =? 254 then
              if blength buffer <=? offset + 3 then Throw (RGBColorOverflow offset)
              else
                r <- hex_byte buffer (offset + 1) ;;
                g <- hex_byte buffer (offset + 2) ;;
                b <- hex_byte buffer (offset + 3) ;;
                Ret (JS.toUpperCase ("#" ++ r ++ g ++ b)%string, 4)
            else Throw (UnknownColorEncoding colorCode offset)
        end
    | None => Throw (UnknownColorEncoding colorCode offset)
    end.

(** The string loop of [decodeViewBox], format 0: [rest] is the buffer
    from index [offset + bytesRead] on (a positive index, the format
    byte having been read), [i] the loop counter. *)
Fixpoint read_chars (rest : list Z) (i length : Z) : string :=
  match rest with
  | [] => EmptyString
  | b :: rest' =>
      if i <? length then String (JS.fromCharCode b) (read_chars rest' (i + 1) length)
      else EmptyString
  end.

(** Decode viewBox format: [(viewBox, bytesRead)]. *)
Definition decodeViewBox (buffer : Buffer) (offset : Z) : outcome (string * Z) :=
  if blength buffer <=? offset then Throw (ViewBoxOverflow offset)
  else
    let format := buf_get buffer offset in
    let bytesRead := 1 in
    match format with
    | Some 0 =>
        '(length, lengthBytes) <- decodeVarInt buffer (offset + bytesRead) ;;
        let bytesRead := bytesRead + lengthBytes in
        let viewBox := read_chars (skipn (Z.to_nat (offset + bytesRead)) buffer) 0 length in
        Ret (viewBox, bytesRead + length)
    | Some 1 =>
        '(size, sizeBytes) <- decodeVarInt buffer (offset + bytesRead) ;;
        let bytesRead := bytesRead + sizeBytes in
        Ret (("0 0 " ++ JS.string_of_Z size ++ " " ++ JS.string_of_Z size)%string, bytesRead)
    | Some 2 =>
        '(width, widthBytes) <- decodeVarInt buffer (offset + bytesRead) ;;
        let bytesRead := bytesRead + widthBytes in
        '(height, heightBytes) <- decodeVarInt buffer (offset + bytesRead) ;;
        let bytesRead := bytesRead + heightBytes in
        Ret (("0 0 " ++ JS.string_of_Z width ++ " " ++ JS.string_of_Z height)%string, bytesRead)
    | Some 3 =>
        '(x, xBytes) <- decodeSignedVarInt buffer (offset + bytesRead) ;;
        let bytesRead := bytesRead + xBytes in
        '(y, yBytes) <- decodeSignedVarInt buffer (offset + bytesRead) ;;
        let bytesRead := bytesRead + yBytes in
        '(w, wBytes) <- decodeVarInt buffer (offset + bytesRead) ;;
        let bytesRead := bytesRead + wBytes in
        '(h, hBytes) <- decodeVarInt buffer (offset + bytesRead) ;;
        let bytesRead := bytesRead + hBytes in
        Ret ((JS.string_of_Z x ++ " " ++ JS.string_of_Z y ++ " " ++
              JS.string_of_Z w ++ " " ++ JS.string_of_Z h)%string, bytesRead)
    | _ => Throw (UnknownViewBoxFormat format)
    end.

Definition scale : Q := inject_Z QUANTIZATION_SCALE.

(** [nextByte >= 1 && nextByte <= 19 && CMD_DICT[nextByte]] *)
Definition command_of (nextByte : option Z) : option string :=
  match nextByte with
  | Some b => if ((1 <=? b) && (b <=? 19))%bool then code_get CMD_DICT b else None
  | None => None
  end.

(** What one decoded number appends to [pathData] and how it moves the
    pen: the chain of [if]s in the loop of [decodePathData]. *)
Definition placeNumber (decodedNum : Q) (currentX currentY : Q) (currentCommand : string)
    (isFirstCoordinate : bool) (coordCount : Z) : string * Q * Q :=
  let notZ := (negb (String.eqb currentCommand "z") && negb (String.eqb currentCommand "Z"))%bool in
  let isRelative := (String.eqb currentCommand (JS.toLowerCase currentCommand) && notZ)%bool in
  if isRelative then
    if Z.even coordCount then (JS.toFixed 2 decodedNum, (currentX + decodedNum)%Q, currentY)
    else (JS.toFixed 2 decodedNum, currentX, (currentY + decodedNum)%Q)
  else if String.eqb currentCommand "H" then
    let absX := (currentX + decodedNum)%Q in (JS.toFixed 2 absX, absX, currentY)
  else if String.eqb currentCommand "V" then
    let absY := (currentY + decodedNum)%Q in (JS.toFixed 2 absY, currentX, absY)
  else if notZ then
    if Z.even coordCount then
      let absX := if isFirstCoordinate then decodedNum else (currentX + decodedNum)%Q in
      (JS.toFixed 2 absX, absX, currentY)
    else
      let absY := if isFirstCoordinate then decodedNum else (currentY + decodedNum)%Q in
      (JS.toFixed 2 absY, currentX, absY)
  else (JS.toFixed 2 decodedNum, currentX, currentY).

(** The [while (currentOffset < endOffset)] loop of [decodePathData]. *)
Fixpoint decodePathData_loop (fuel : nat) (buffer : Buffer) (endOffset : Z)
    (currentOffset : Z) (pathData : string) (currentX currentY : Q)
    (currentCommand : string) (isFirstCoordinate : bool) (coordCount : Z)
    : outcome string :=
  match fuel with
  | O => Diverge
  | S fuel' =>
      if endOffset <=? currentOffset then Ret pathData
      else
        let nextByte := buf_get buffer currentOffset in
        match command_of nextByte with
        | Some cmd =>
            decodePathData_loop fuel' buffer endOffset (currentOffset + 1)
              (pathData ++ cmd ++ " ")%string currentX currentY cmd true 0
        | None =>
            '(encodedNum, bytesRead) <- decodeSignedVarInt buffer currentOffset ;;
            let decodedNum := (inject_Z encodedNum / scale)%Q in
            let '(text, newX, newY) :=
              placeNumber decodedNum currentX currentY currentCommand
                isFirstCoordinate coordCount in
            let coordCount := coordCount + 1 in
            decodePathData_loop fuel' buffer endOffset (currentOffset + bytesRead)
              (pathData ++ text ++ " ")%string newX newY currentCommand
              (if coordCount =? 2 then false else isFirstCoordinate) coordCount
        end
  end.

(** Decode path data from binary format with proper command handling. *)
Definition decodePathData (buffer : Buffer) (offset length : Z) : outcome string :=
  if blength buffer <? offset + length then Throw (PathDataOverflow offset length)
  else
    pathData <- decodePathData_loop (S (Z.to_nat length)) buffer (offset + length)
                  offset "" 0 0 "" true 0 ;;
    Ret (JS.trim pathData).

(** The values read for one path record by the body of the [for] loop
    of [decompressSVG], and the offset after the record. *)
Record PathFields : Type := mkFields {
  fill : string;
  stroke : string;
  opacity : Q;
  strokeWidth : Q;
  pathData : string;
  nextOffset : Z
}.

(** The first reads of the [try] block of the loop of [decompressSVG]:
    the two colors, the flags byte and the optional parameters.  The
    result is [(fill, stroke, opacity, strokeWidth)] and the offset
    reached. *)
Definition readPathHeader (buffer : Buffer) (currentOffset : Z)
    : outcome (string * string * Q * Q * Z) :=
  '(fill, fillBytes) <- decodeColor buffer currentOffset ;;
  let currentOffset := currentOffset + fillBytes in
  '(stroke, strokeBytes) <- decodeColor buffer currentOffset ;;
  let currentOffset := currentOffset + strokeBytes in
  let flags := JS.num_of (buf_get buffer currentOffset) in
  let currentOffset := currentOffset + 1 in
  let hasOpacity := 0 <? JS.band flags 1 in
  let hasStrokeWidth := 0 <? JS.band flags 2 in
  '(opacity, currentOffset) <-
    (if hasOpacity then
       '(opacityValue, opacityBytes) <- decodeVarInt buffer currentOffset ;;
       Ret ((inject_Z opacityValue / inject_Z 100)%Q, currentOffset + opacityBytes)
     else Ret (1%Q, currentOffset)) ;;
  '(strokeWidth, currentOffset) <-
    (if hasStrokeWidth then
       '(strokeWidthValue, strokeWidthBytes) <- decodeVarInt buffer currentOffset ;;
       Ret ((inject_Z strokeWidthValue / inject_Z 10)%Q, currentOffset + strokeWidthBytes)
     else Ret (0%Q, currentOffset)) ;;
  Ret (fill, stroke, opacity, strokeWidth, currentOffset).

(** The reads of the [try] block of the loop of [decompressSVG]: the
    header above, then the path data with its length. *)
Definition readPath (buffer : Buffer) (currentOffset : Z) : outcome PathFields :=
  '(fill, stroke, opacity, strokeWidth, currentOffset) <- readPathHeader buffer currentOffset ;;
  '(pathDataLength, lengthBytes) <- decodeVarInt buffer currentOffset ;;
  let currentOffset := currentOffset + lengthBytes in
  pathData <- decodePathData buffer currentOffset pathDataLength ;;
  let currentOffset := currentOffset + pathDataLength in
  Ret (mkFields fill stroke opacity strokeWidth pathData currentOffset).

(** The [<path .../>] element built from the values read. *)
Definition pathElement (f : PathFields) : string :=
  ("<path d=" ++ JS.dq ++ pathData f ++ JS.dq ++ " fill=" ++ JS.dq ++ fill f ++ JS.dq ++
   (if String.eqb (stroke f) "none" then ""
    else " stroke=" ++ JS.dq ++ stroke f ++ JS.dq ++
         (if Qlt_le_dec 0 (strokeWidth f)
          then " stroke-width=" ++ JS.dq ++ JS.toFixed 1 (strokeWidth f) ++ JS.dq
          else "")) ++
   (if Qlt_le_dec (opacity f) 1
    then " opacity=" ++ JS.dq ++ JS.toFixed 2 (opacity f) ++ JS.dq
    else "") ++
   "/>")%string.

(** The [for (i = 0; i < pathCount && currentOffset < buffer.length; i++)]
    loop of [decompressSVG]; [remaining] is [pathCount - i].  An error
    in the body is caught and leaves the loop. *)
Fixpoint decompressSVG_loop (remaining : nat) (buffer : Buffer) (currentOffset : Z)
    (paths : list string) : outcome (list string) :=
  match remaining with
  | O => Ret paths
  | S remaining' =>
      if blength buffer <=? currentOffset then Ret paths
      else
        match readPath buffer currentOffset with
        | Ret f =>
            decompressSVG_loop remaining' buffer (nextOffset f) (paths ++ [pathElement f])
        | Throw _ => Ret paths
        | Diverge => Diverge
        end
  end.

(** The SVG text assembled from the view box and the path elements. *)
Definition svgContent (viewBox : string) (paths : list string) : string :=
  ("<svg xmlns=" ++ JS.dq ++ "http://www.w3.org/2000/svg" ++ JS.dq ++
   " viewBox=" ++ JS.dq ++ viewBox ++ JS.dq ++ ">" ++ JS.nl ++
   "  " ++ JS.join (JS.nl ++ "  ") paths ++ JS.nl ++ "</svg>")%string.

(** The minimal fallback SVG of the outer [catch]. *)
Definition fallbackSVG : string :=
  ("<svg xmlns=" ++ JS.dq ++ "http://www.w3.org/2000/svg" ++ JS.dq ++
   " viewBox=" ++ JS.dq ++ "0 0 100 100" ++ JS.dq ++ ">" ++ JS.nl ++
   "  <path d=" ++ JS.dq ++ "M10 10L90 90M10 90L90 10" ++ JS.dq ++
   " stroke=" ++ JS.dq ++ "#FF0000" ++ JS.dq ++
   " stroke-width=" ++ JS.dq ++ "5" ++ JS.dq ++ " fill=" ++ JS.dq ++ "none" ++ JS.dq ++ "/>" ++ JS.nl ++
   "  <circle cx=" ++ JS.dq ++ "50" ++ JS.dq ++ " cy=" ++ JS.dq ++ "50" ++ JS.dq ++
   " r=" ++ JS.dq ++ "40" ++ JS.dq ++ " stroke=" ++ JS.dq ++ "#000000" ++ JS.dq ++
   " fill=" ++ JS.dq ++ "none" ++ JS.dq ++ "/>" ++ JS.nl ++ "</svg>")%string.

(** The outer [try] block of [decompressSVG], on the buffer decoded
    from the base64 text. *)
Definition decompressSVG_try (buffer : Buffer) : outcome string :=
  if blength buffer <? 2 then Throw TooShort
  else
    let pathCount := JS.num_of (buf_get buffer 1) in
    let currentOffset := 2 in
    '(viewBox, viewBoxBytes) <- decodeViewBox buffer currentOffset ;;
    let currentOffset := currentOffset + viewBoxBytes in
    paths <- decompressSVG_loop (Z.to_nat pathCount) buffer currentOffset [] ;;
    Ret (svgContent viewBox paths).

(** Decompress SVG from the binary format. *)
Definition decompressSVG (buffer : Buffer) : outcome string :=
  try_catch (decompressSVG_try buffer) (fun _ => Ret fallbackSVG).

End Decompress.




(* ================================================================== *)
(** * workingCompressionScripts/spikes/decompressSpikes.js *)
(* ================================================================== *)

Module Spikes.

(** Color dictionary matching the compression dictionary. *)
Definition COLOR_DICT : list (Z * string) :=
  [ (1, "000000"); (2, "FFFFFF"); (3, "FF0000"); (4, "00FF00");
    (5, "0000FF"); (0, "none") ].

(** [decodeVarInt] has the text of the one in [decompress.js]. *)
Definition decodeVarInt : Buffer -> Z -> outcome (Z * Z) := Decompress.decodeVarInt.

(** Decode color: dictionary, full RGB, or gradient reference. *)
Definition decodeColor (buffer : Buffer) (offset : Z) : outcome (string * Z) :=
  if blength buffer <=? offset then Throw (ColorOverflow offset)
  else
    let colorCode := buf_get buffer offset in
    match colorCode with
    | Some c =>
        match (if c <? 254 then Decompress.code_get COLOR_DICT c else None) with
        | Some name => Ret (if c =? 0 then "none" else ("#" ++ name)%string, 1)
        | None =>
            if c =? 254 then
              if blength buffer <=? offset + 3 then Throw (RGBColorOverflow offset)
              else
                r <- Decompress.hex_byte buffer (offset + 1) ;;
                g <- Decompress.hex_byte buffer (offset + 2) ;;
                b <- Decompress.hex_byte buffer (offset + 3) ;;
                Ret (JS.toUpperCase ("#" ++ r ++ g ++ b)%string, 4)
            else if c =? 255 then
              '(idLength, idLengthBytes) <- decodeVarInt buffer (offset + 1) ;;
              let idOffset := offset + 1 + idLengthBytes in
              let gradientId :=
                Decompress.read_chars (skipn (Z.to_nat idOffset) buffer) 0 idLength in
              Ret (("url(#" ++ gradientId ++ ")")%string, 1 + idLengthBytes + idLength)
            else Throw (UnknownColorEncoding colorCode offset)
        end
    | None => Throw (UnknownColorEncoding colorCode offset)
    end.

(** Decompress viewBox: [(viewBox, bytesRead)]. *)
Definition decompressViewBox (buffer : Buffer) (offset : Z) : outcome (string * Z) :=
  let currentOffset := offset + 1 in
  '(viewBoxLength, vbLengthBytes) <- decodeVarInt buffer currentOffset ;;
  let currentOffset := currentOffset + vbLengthBytes in
  let viewBox :=
    Decompress.read_chars (skipn (Z.to_nat currentOffset) buffer) 0 viewBoxLength in
  let currentOffset := currentOffset + viewBoxLength in
  Ret (viewBox, currentOffset - offset).

(** The [try] block of [decompressPath]. *)
Definition decompressPath_try (buffer : Buffer) (offset : Z) : outcome (string * Z) :=
  let currentOffset := offset + 1 in
  '(fill, fillBytes) <- decodeColor buffer currentOffset ;;
  let currentOffset := currentOffset + fillBytes in
  '(stroke, strokeBytes) <- decodeColor buffer currentOffset ;;
  let currentOffset := currentOffset + strokeBytes in
  '(strokeWidthRaw, strokeWidthBytes) <- decodeVarInt buffer currentOffset ;;
  let strokeWidth := (inject_Z strokeWidthRaw / inject_Z 10)%Q in
  let currentOffset := currentOffset + strokeWidthBytes in
  '(pathDataLength, pathDataLengthBytes) <- decodeVarInt buffer currentOffset ;;
  let currentOffset := currentOffset + pathDataLengthBytes in
  let pathData :=
    Decompress.read_chars (skipn (Z.to_nat currentOffset) buffer) 0 pathDataLength in
  let currentOffset := currentOffset + pathDataLength in
  let element :=
    ("<path d=" ++ JS.dq ++ pathData ++ JS.dq ++ " fill=" ++ JS.dq ++ fill ++ JS.dq ++
     (if (negb (String.eqb stroke "none") &&
          (if Qlt_le_dec 0 strokeWidth then true else false))%bool
      then " stroke=" ++ JS.dq ++ stroke ++ JS.dq ++
           " stroke-width=" ++ JS.dq ++ JS.toFixed 1 strokeWidth ++ JS.dq
      else "") ++ "/>")%string in
  Ret (element, currentOffset - offset).

(** Decompress path: an error yields a marker path and consumes one byte. *)
Definition decompressPath (buffer : Buffer) (offset : Z) : outcome (string * Z) :=
  try_catch (decompressPath_try buffer offset)
    (fun _ =>
       Ret (("<path d=" ++ JS.dq ++ "M 0 0" ++ JS.dq ++ " fill=" ++ JS.dq ++ "none" ++ JS.dq ++
             " stroke=" ++ JS.dq ++ "#FF0000" ++ JS.dq ++
             " stroke-width=" ++ JS.dq ++ "1" ++ JS.dq ++ "/>")%string, 1)).

(** The loop over the stops of a gradient; [remaining] is
    [stopCount - i]. *)
Fixpoint stops_loop (remaining : nat) (buffer : Buffer) (currentOffset : Z)
    (stops : list string) : outcome (list string * Z) :=
  match remaining with
  | O => Ret (stops, currentOffset)
  | S remaining' =>
      if blength buffer <=? currentOffset then Ret (stops, currentOffset)
      else
        '(offset, offsetBytes) <- decodeVarInt buffer currentOffset ;;
        let currentOffset := currentOffset + offsetBytes in
        '(color, colorBytes) <- decodeColor buffer currentOffset ;;
        let currentOffset := currentOffset + colorBytes in
        stops_loop remaining' buffer currentOffset
          (stops ++ [("<stop offset=" ++ JS.dq ++ JS.string_of_Z offset ++ "%" ++ JS.dq ++
                      " stop-color=" ++ JS.dq ++ color ++ JS.dq ++ "/>")%string])
  end.

(** The [try] block of [decompressGradient]. *)
Definition decompressGradient_try (buffer : Buffer) (offset : Z) : outcome (string * Z) :=
  let currentOffset := offset + 1 in
  '(idLength, idLengthBytes) <- decodeVarInt buffer currentOffset ;;
  let currentOffset := currentOffset + idLengthBytes in
  let gradientId :=
    Decompress.read_chars (skipn (Z.to_nat currentOffset) buffer) 0 idLength in
  let currentOffset := currentOffset + idLength in
  '(x1, x1Bytes) <- decodeVarInt buffer currentOffset ;;
  let currentOffset := currentOffset + x1Bytes in
  '(y1, y1Bytes) <- decodeVarInt buffer currentOffset ;;
  let currentOffset := currentOffset + y1Bytes in
  '(x2, x2Bytes) <- decodeVarInt buffer currentOffset ;;
  let currentOffset := currentOffset + x2Bytes in
  '(y2, y2Bytes) <- decodeVarInt buffer currentOffset ;;
  let currentOffset := currentOffset + y2Bytes in
  '(stopCount, stopCountBytes) <- decodeVarInt buffer currentOffset ;;
  let currentOffset := currentOffset + stopCountBytes in
  '(stops, currentOffset) <- stops_loop (Z.to_nat stopCount) buffer currentOffset [] ;;
  let gradientElement :=
    ("<linearGradient id=" ++ JS.dq ++ gradientId ++ JS.dq ++
     " x1=" ++ JS.dq ++ JS.string_of_Z x1 ++ "%" ++ JS.dq ++
     " y1=" ++ JS.dq ++ JS.string_of_Z y1 ++ "%" ++ JS.dq ++
     " x2=" ++ JS.dq ++ JS.string_of_Z x2 ++ "%" ++ JS.dq ++
     " y2=" ++ JS.dq ++ JS.string_of_Z y2 ++ "%" ++ JS.dq ++ ">" ++ JS.nl ++
     "    " ++ JS.join (JS.nl ++ "    ") stops ++ JS.nl ++
     "  </linearGradient>")%string in
  Ret (gradientElement, currentOffset - offset).

(** Decompress gradient: an error yields a fallback gradient and
    consumes one byte. *)
Definition decompressGradient (buffer : Buffer) (offset : Z) : outcome (string * Z) :=
  try_catch (decompressGradient_try buffer offset)
    (fun _ =>
       Ret (("<linearGradient id=" ++ JS.dq ++ "fallback" ++ JS.dq ++ ">" ++
             "<stop offset=" ++ JS.dq ++ "0%" ++ JS.dq ++
             " stop-color=" ++ JS.dq ++ "#FF0000" ++ JS.dq ++ "/>" ++
             "<stop offset=" ++ JS.dq ++ "100%" ++ JS.dq ++
             " stop-color=" ++ JS.dq ++ "#0000FF" ++ JS.dq ++ "/>" ++
             "</linearGradient>")%string, 1)).

(** Create fallback SVG. *)
Definition createFallbackSVG : string :=
  ("<svg xmlns=" ++ JS.dq ++ "http://www.w3.org/2000/svg" ++ JS.dq ++
   " viewBox=" ++ JS.dq ++ "0 0 420 420" ++ JS.dq ++ ">" ++ JS.nl ++
   "  <defs>" ++ JS.nl ++
   "    <linearGradient id=" ++ JS.dq ++ "fallbackGradient" ++ JS.dq ++
   " x1=" ++ JS.dq ++ "0%" ++ JS.dq ++ " y1=" ++ JS.dq ++ "0%" ++ JS.dq ++
   " x2=" ++ JS.dq ++ "100%" ++ JS.dq ++ " y2=" ++ JS.dq ++ "100%" ++ JS.dq ++ ">" ++ JS.nl ++
   "      <stop offset=" ++ JS.dq ++ "0%" ++ JS.dq ++
   " stop-color=" ++ JS.dq ++ "#FF0000" ++ JS.dq ++ "/>" ++ JS.nl ++
   "      <stop offset=" ++ JS.dq ++ "100%" ++ JS.dq ++
   " stop-color=" ++ JS.dq ++ "#0000FF" ++ JS.dq ++ "/>" ++ JS.nl ++
   "    </linearGradient>" ++ JS.nl ++
   "  </defs>" ++ JS.nl ++
   "  <path d=" ++ JS.dq ++
   "M 210,50 L 250,150 L 350,210 L 250,270 L 210,370 L 170,270 L 70,210 L 170,150 Z" ++
   JS.dq ++ " " ++ JS.nl ++
   "        fill=" ++ JS.dq ++ "url(#fallbackGradient)" ++ JS.dq ++ " " ++ JS.nl ++
   "        stroke=" ++ JS.dq ++ "#000000" ++ JS.dq ++ " " ++ JS.nl ++
   "        stroke-width=" ++ JS.dq ++ "0.5" ++ JS.dq ++ " />" ++ JS.nl ++
   "</svg>")%string.

(** The state of the dispatch loop: the view box and the elements
    collected so far. *)
Record Elements : Type := mkElements {
  viewBox : string;
  gradients : list string;
  paths : list string
}.

(** The [while (offset < buffer.length)] loop of [decompressSVG]: one
    marker byte is read and dispatched on.  An unknown marker is
    logged as skipped and the offset moves on by one. *)
Fixpoint decompressSVG_loop (fuel : nat) (buffer : Buffer) (offset : Z)
    (elements : Elements) : outcome Elements :=
  match fuel with
  | O => Diverge
  | S fuel' =>
      if blength buffer <=? offset then Ret elements
      else
        let markerByte := buf_get buffer offset in
        match markerByte with
        | Some 0 =>
            '(vb, bytesRead) <- decompressViewBox buffer offset ;;
            decompressSVG_loop fuel' buffer (offset + bytesRead)
              (mkElements vb (gradients elements) (paths elements))
        | Some 1 =>
            '(element, bytesRead) <- decompressPath buffer offset ;;
            decompressSVG_loop fuel' buffer (offset + bytesRead)
              (mkElements (viewBox elements) (gradients elements) (paths elements ++ [element]))
        | Some 2 =>
            '(element, bytesRead) <- decompressGradient buffer offset ;;
            decompressSVG_loop fuel' buffer (offset + bytesRead)
              (mkElements (viewBox elements) (gradients elements ++ [element]) (paths elements))
        | _ =>
            decompressSVG_loop fuel' buffer (offset + 1) elements
        end
  end.

(** The reconstruction of the SVG text from the collected elements. *)
Definition reconstruct (elements : Elements) : string :=
  match paths elements with
  | [] => createFallbackSVG
  | _ =>
      ("<svg xmlns=" ++ JS.dq ++ "http://www.w3.org/2000/svg" ++ JS.dq ++
       " viewBox=" ++ JS.dq ++ viewBox elements ++ JS.dq ++ ">" ++
       (match gradients elements with
        | [] => ""
        | gs => JS.nl ++ "  <defs>" ++ JS.nl ++ "    " ++
                JS.join (JS.nl ++ "    ") gs ++ JS.nl ++ "  </defs>" ++ JS.nl
        end) ++
       fold_left (fun acc path => acc ++ JS.nl ++ "  " ++ path) (paths elements) "" ++
       JS.nl ++ "</svg>")%string
  end.

(** Decompress SVG from binary format, on the buffer decoded from the
    base64 text; [fuel] bounds the iterations of the dispatch loop. *)
Definition decompressSVG (fuel : nat) (buffer : Buffer) : outcome string :=
  try_catch
    (if blength buffer <? 2 then Throw TooShort
     else
       elements <- decompressSVG_loop fuel buffer 2 (mkElements "0 0 420 420" [] []) ;;
       Ret (reconstruct elements))
    (fun _ => Ret createFallbackSVG).

End Spikes.

(* ================================================================== *)
(** * workingCompressionScripts/Bg/decompressBg.js: the dispatch loop *)
(* ================================================================== *)

Module Bg.

(** What the loop of [decompressSVG] collects. *)
Record Parts : Type := mkParts {
  viewBox : string;
  rect : string;
  circles : list string;
  defs : string
}.

(** [while (offset < buffer.length && buffer[offset] is no marker) offset++]:
    [rest] is the buffer from index [offset] on. *)
Fixpoint skip_to_marker (rest : list Z) (offset : Z) : Z :=
  match rest with
  | [] => offset
  | b :: rest' =>
      if ((b =? 0) || (b =? 1) || (b =? 2) || (b =? 3))%bool then offset
      else skip_to_marker rest' (offset + 1)
  end.

(** The offset after a record whose decoder reports [bytesRead]: when
    nothing was read, skip the marker and move to the next marker. *)
Definition advance (buffer : Buffer) (offset bytesRead : Z) : Z :=
  if 0 <? bytesRead then offset + bytesRead
  else skip_to_marker (skipn (Z.to_nat (offset + 1)) buffer) (offset + 1).

Section DispatchLoop.

(** The record decoders of the script; the loop is stated over them. *)
Variable decompressMetadata : Buffer -> Z -> outcome (string * Z).
Variable decompressRect : Buffer -> Z -> outcome (string * Z).
Variable decompressCircles : Buffer -> Z -> option Z -> outcome (list string * Z).
Variable decompressGradient : Buffer -> Z -> outcome (string * Z).

(** The [while (offset < buffer.length)] loop of [decompressSVG] with
    its enclosing [try]/[catch], which keeps what was collected before
    an error.  An unknown marker stops the processing: the offset is
    set to the buffer length. *)
Fixpoint decompressSVG_loop (fuel : nat) (buffer : Buffer) (offset : Z)
    (parts : Parts) : outcome Parts :=
  match fuel with
  | O => Diverge
  | S fuel' =>
      if blength buffer <=? offset then Ret parts
      else
        let markerByte := buf_get buffer offset in
        match markerByte with
        | Some 0 =>
            match decompressMetadata buffer offset with
            | Ret (vb, bytesRead) =>
                decompressSVG_loop fuel' buffer (offset + bytesRead)
                  (mkParts vb (rect parts) (circles parts) (defs parts))
            | Throw _ => Ret parts
            | Diverge => Diverge
            end
        | Some 1 =>
            match decompressRect buffer offset with
            | Ret (element, bytesRead) =>
                decompressSVG_loop fuel' buffer (offset + bytesRead)
                  (mkParts (viewBox parts) element (circles parts) (defs parts))
            | Throw _ => Ret parts
            | Diverge => Diverge
            end
        | Some 2 =>
            match decompressCircles buffer offset (buf_get buffer 0) with
            | Ret (elements, bytesRead) =>
                decompressSVG_loop fuel' buffer (advance buffer offset bytesRead)
                  (mkParts (viewBox parts) (rect parts) (circles parts ++ elements) (defs parts))
            | Throw _ => Ret parts
            | Diverge => Diverge
            end
        | Some 3 =>
            match decompressGradient buffer offset with
            | Ret (element, bytesRead) =>
                decompressSVG_loop fuel' buffer (advance buffer offset bytesRead)
                  (mkParts (viewBox parts) (rect parts) (circles parts) element)
            | Throw _ => Ret parts
            | Diverge => Diverge
            end
        | _ =>
            decompressSVG_loop fuel' buffer (blength buffer) parts
        end
  end.

End DispatchLoop.

End Bg.

(* ================================================================== *)
(** * workingScripts/workingPhilCompress.js: the dispatch loop *)
(* ================================================================== *)

Module Phil.

(** What the loop of [decompressSVG] collects. *)
Record Parts : Type := mkParts {
  viewBox : string;
  paths : list string
}.

Section DispatchLoop.

(** The record decoders of the script; the loop is stated over them. *)
Variable decompressMetadata : Buffer -> Z -> outcome (string * Z).
Variable decompressPath : Buffer -> Z -> outcome (string * Z).

(** The [while (offset < buffer.length)] loop of [decompressSVG] with
    its enclosing [try]/[catch].  An unknown marker stops the
    processing: the offset is set to the buffer length. *)
Fixpoint decompressSVG_loop (fuel : nat) (buffer : Buffer) (offset : Z)
    (parts : Parts) : outcome Parts :=
  match fuel with
  | O => Diverge
  | S fuel' =>
      if blength buffer <=? offset then Ret parts
      else
        let markerByte := buf_get buffer offset in
        match markerByte with
        | Some 0 =>
            match decompressMetadata buffer offset with
            | Ret (vb, bytesRead) =>
                decompressSVG_loop fuel' buffer (offset + bytesRead)
                  (mkParts vb (paths parts))
            | Throw _ => Ret parts
            | Diverge => Diverge
            end
        | Some 1 =>
            match decompressPath buffer offset with
            | Ret (element, bytesRead) =>
                decompressSVG_loop fuel' buffer (offset + bytesRead)
                  (mkParts (viewBox parts) (paths parts ++ [element]))
            | Throw _ => Ret parts
            | Diverge => Diverge
            end
        | _ =>
            decompressSVG_loop fuel' buffer (blength buffer) parts
        end
  end.

End DispatchLoop.

End Phil.

(* ================================================================== *)
(** * workingCompressionScripts/nose/decompressNose.js: the dispatch loop *)
(* ================================================================== *)

Module Nose.

(** A decoded path: its element and its type ([shadow] or not). *)
Record PathResult : Type := mkPathResult {
  element : string;
  type : string
}.

(** What the loop of [decompressSVG] collects. *)
Record Parts : Type := mkParts {
  viewBox : string;
  filter : string;
  paths : list PathResult
}.

Section DispatchLoop.

(** The record decoders of the script; the loop is stated over them. *)
Variable decompressMetadata : Buffer -> Z -> outcome (string * Z).
Variable decompressPath : Buffer -> Z -> outcome (PathResult * Z).
Variable decompressGlowFilter : Buffer -> Z -> outcome (string * Z).

(** The [while (offset < buffer.length)] loop of [decompressSVG] with
    its enclosing [try]/[catch], which keeps what was collected before
    an error.  An unknown marker stops the processing: the offset is
    set to the buffer length. *)
Fixpoint decompressSVG_loop (fuel : nat) (buffer : Buffer) (offset : Z)
    (parts : Parts) : outcome Parts :=
  match fuel with
  | O => Diverge
  | S fuel' =>
      if blength buffer <=? offset then Ret parts
      else
        let markerByte := buf_get buffer offset in
        match markerByte with
        | Some 0 =>
            match decompressMetadata buffer offset with
            | Ret (vb, bytesRead) =>
                decompressSVG_loop fuel' buffer (offset + bytesRead)
                  (mkParts vb (filter parts) (paths parts))
            | Throw _ => Ret parts
            | Diverge => Diverge
            end
        | Some 1 =>
            match decompressPath buffer offset with
            | Ret (pathResult, bytesRead) =>
                decompressSVG_loop fuel' buffer (offset + bytesRead)
                  (mkParts (viewBox parts) (filter parts) (paths parts ++ [pathResult]))
            | Throw _ => Ret parts
            | Diverge => Diverge
            end
        | Some 2 =>
            match decompressGlowFilter buffer offset with
            | Ret (element, bytesRead) =>
                decompressSVG_loop fuel' buffer (offset + bytesRead)
                  (mkParts (viewBox parts) element (paths parts))
            | Throw _ => Ret parts
            | Diverge => Diverge
            end
        | _ =>
            decompressSVG_loop fuel' buffer (blength buffer) parts
        end
  end.

End DispatchLoop.

End Nose.

(* ================================================================== *)
(** * workingCompressionScripts/top/noGlitchTopDecompress.js: the dispatch loop *)
(* ================================================================== *)

Module Top.

(** What the loop of [decompressSVG] collects. *)
Record Parts : Type := mkParts {
  viewBox : string;
  mainPath : string;
  lines : list string;
  text : string
}.

Section DispatchLoop.

(** The record decoders of the script; the loop is stated over them.
    [decompressMainPath] is given the version byte, [buffer[0]]. *)
Variable decompressMetadata : Buffer -> Z -> outcome (string * Z).
Variable decompressMainPath : Buffer -> Z -> option Z -> outcome (string * Z).
Variable decompressLine : Buffer -> Z -> outcome (string * Z).
Variable decompressText : Buffer -> Z -> outcome (string * Z).

(** The [while (offset < buffer.length)] loop of [decompressSVG] with
    its enclosing [try]/[catch].  An unknown marker stops the
    processing: the offset is set to the buffer length. *)
Fixpoint decompressSVG_loop (fuel : nat) (buffer : Buffer) (offset : Z)
    (parts : Parts) : outcome Parts :=
  match fuel with
  | O => Diverge
  | S fuel' =>
      if blength buffer <=? offset then Ret parts
      else
        let markerByte := buf_get buffer offset in
        match markerByte with
        | Some 0 =>
            match decompressMetadata buffer offset with
            | Ret (vb, bytesRead) =>
                decompressSVG_loop fuel' buffer (offset + bytesRead)
                  (mkParts vb (mainPath parts) (lines parts) (text parts))
            | Throw _ => Ret parts
            | Diverge => Diverge
            end
        | Some 1 =>
            match decompressMainPath buffer offset (buf_get buffer 0) with
            | Ret (element, bytesRead) =>
                decompressSVG_loop fuel' buffer (offset + bytesRead)
                  (mkParts (viewBox parts) element (lines parts) (text parts))
            | Throw _ => Ret parts
            | Diverge => Diverge
            end
        | Some 2 =>
            match decompressLine buffer offset with
            | Ret (element, bytesRead) =>
                decompressSVG_loop fuel' buffer (offset + bytesRead)
                  (mkParts (viewBox parts) (mainPath parts) (lines parts ++ [element])
                     (text parts))
            | Throw _ => Ret parts
            | Diverge => Diverge
            end
        | Some 3 =>
            match decompressText buffer offset with
            | Ret (element, bytesRead) =>
                decompressSVG_loop fuel' buffer (offset + bytesRead)
                  (mkParts (viewBox parts) (mainPath parts) (lines parts) element)
            | Throw _ => Ret parts
            | Diverge => Diverge
            end
        | _ =>
            decompressSVG_loop fuel' buffer (blength buffer) parts
        end
  end.

End DispatchLoop.

End Top.

(* ================================================================== *)
(** * unnamed/part_001 (the top decoder with filters): the dispatch loop *)
(* ================================================================== *)

Module TopFilter.

(** What the loop of [decompressSVG] collects; [None] is [null]. *)
Record Parts : Type := mkParts {
  viewBox : string;
  mainPath : string;
  lines : list string;
  text : string;
  filter : option string;
  filterId : option string;
  hasFilterGroup : bool
}.

Section DispatchLoop.

(** The record decoders of the script; the loop is stated over them.
    [decompressFilter] returns the element and the identifier. *)
Variable decompressMetadata : Buffer -> Z -> outcome (string * Z).
Variable decompressMainPath : Buffer -> Z -> option Z -> outcome (string * Z).
Variable decompressLine : Buffer -> Z -> outcome (string * Z).
Variable decompressText : Buffer -> Z -> outcome (string * Z).
Variable decompressFilter : Buffer -> Z -> outcome (string * string * Z).
Variable decompressFilterGroup : Buffer -> Z -> outcome (string * Z).

(** The [while (offset < buffer.length)] loop of [decompressSVG] with
    its enclosing [try]/[catch].  An unknown marker stops the
    processing: the offset is set to the buffer length. *)
Fixpoint decompressSVG_loop (fuel : nat) (buffer : Buffer) (offset : Z)
    (parts : Parts) : outcome Parts :=
  match fuel with
  | O => Diverge
  | S fuel' =>
      if blength buffer <=? offset then Ret parts
      else
        let markerByte := buf_get buffer offset in
        match markerByte with
        | Some 0 =>
            match decompressMetadata buffer offset with
            | Ret (vb, bytesRead) =>
                decompressSVG_loop fuel' buffer (offset + bytesRead)
                  (mkParts vb (mainPath parts) (lines parts) (text parts)
                     (filter parts) (filterId parts) (hasFilterGroup parts))
            | Throw _ => Ret parts
            | Diverge => Diverge
            end
        | Some 1 =>
            match decompressMainPath buffer offset (buf_get buffer 0) with
            | Ret (element, bytesRead) =>
                decompressSVG_loop fuel' buffer (offset + bytesRead)
                  (mkParts (viewBox parts) element (lines parts) (text parts)
                     (filter parts) (filterId parts) (hasFilterGroup parts))
            | Throw _ => Ret parts
            | Diverge => Diverge
            end
        | Some 2 =>
            match decompressLine buffer offset with
            | Ret (element, bytesRead) =>
                decompressSVG_loop fuel' buffer (offset + bytesRead)
                  (mkParts (viewBox parts) (mainPath parts) (lines parts ++ [element])
                     (text parts) (filter parts) (filterId parts) (hasFilterGroup parts))
            | Throw _ => Ret parts
            | Diverge => Diverge
            end
        | Some 3 =>
            match decompressText buffer offset with
            | Ret (element, bytesRead) =>
                decompressSVG_loop fuel' buffer (offset + bytesRead)
                  (mkParts (viewBox parts) (mainPath parts) (lines parts) element
                     (filter parts) (filterId parts) (hasFilterGroup parts))
            | Throw _ => Ret parts
            | Diverge => Diverge
            end
        | Some 4 =>
            match decompressFilter buffer offset with
            | Ret (element, id, bytesRead) =>
                decompressSVG_loop fuel' buffer (offset + bytesRead)
                  (mkParts (viewBox parts) (mainPath parts) (lines parts) (text parts)
                     (Some element) (Some id) (hasFilterGroup parts))
            | Throw _ => Ret parts
            | Diverge => Diverge
            end
        | Some 5 =>
            match decompressFilterGroup buffer offset with
            | Ret (id, bytesRead) =>
                decompressSVG_loop fuel' buffer (offset + bytesRead)
                  (mkParts (viewBox parts) (mainPath parts) (lines parts) (text parts)
                     (filter parts) (Some id) true)
            | Throw _ => Ret parts
            | Diverge => Diverge
            end
        | _ =>
            decompressSVG_loop fuel' buffer (blength buffer) parts
        end
  end.

End DispatchLoop.

End TopFilter.

(* ================================================================== *)
(** * compress.js: the extraction of the attributes *)
(* ================================================================== *)

Module Extract.

(** The double quote as a character. *)
Definition quote : ascii := ascii_of_nat 34.

(** The characters before the first [stop], and those after it; [None]
    when [stop] does not occur: a greedy run of characters other than
    [stop] followed by [stop], as in the attribute patterns (up to the
    closing quote) and in the tag pattern (up to [>]). *)
Fixpoint until_char (stop : ascii) (s : string) : option (string * string) :=
  match s with
  | EmptyString => None
  | String c s' =>
      if Ascii.eqb c stop then Some (EmptyString, s')
      else
        match until_char stop s' with
        | Some (v, r) => Some (String c v, r)
        | None => None
        end
  end.

(** A match of the pattern of an attribute (the name, [=], a quote,
    the captured run without quote, a quote) that starts at the head
    of [s]: the captured value. *)
Definition attr_here (name : string) (s : string) : option string :=
  match JS.strip_prefix (name ++ "=" ++ String quote EmptyString) s with
  | Some r =>
      match until_char quote r with
      | Some (v, _) => Some v
      | None => None
      end
  | None => None
  end.

(** [s.match(pattern)] for the pattern of the attribute [name]: the
    value captured by the leftmost match, [None] for [null]. *)
Fixpoint attr_match (name : string) (s : string) : option string :=
  match attr_here name s with
  | Some v => Some v
  | None =>
      match s with
      | EmptyString => None
      | String _ s' => attr_match name s'
      end
  end.

(** Extract SVG viewBox. *)
Definition extractViewBox (svgString : string) : string :=
  match attr_match "viewBox" svgString with
  | Some v => v
  | None => "0 0 420 420"
  end.

(** A match of [/<path[^>]*>/] that starts at the head of [s]: the tag
    and what follows it. *)
Definition tag_here (s : string) : option (string * string) :=
  match JS.strip_prefix "<path" s with
  | Some r =>
      match until_char ">" r with
      | Some (body, rest) => Some (("<path" ++ body ++ ">")%string, rest)
      | None => None
      end
  | None => None
  end.

(** The successive matches of [/<path[^>]*>/g]: [skip] characters of
    [s] belong to the match found last. *)
Fixpoint path_tags (s : string) (skip : nat) : list string :=
  match s with
  | EmptyString => []
  | String _ s' =>
      match skip with
      | S k => path_tags s' k
      | O =>
          match tag_here s with
          | Some (tag, _) => tag :: path_tags s' (String.length tag - 1)
          | None => path_tags s' 0
          end
      end
  end.

(** One element of [paths]. *)
Record Extracted : Type := mkExtracted {
  d : string;
  fill : string;
  stroke : string;
  opacity : JS.number;
  strokeWidth : JS.number
}.

(** The body of the loop of [extractPaths] on one tag: [None] for
    [continue]. *)
Definition extractPath (pathTag : string) : option Extracted :=
  match attr_match "d" pathTag with
  | None => None
  | Some d =>
      let fill := match attr_match "fill" pathTag with Some v => v | None => "none" end in
      let stroke := match attr_match "stroke" pathTag with Some v => v | None => "none" end in
      let opacity :=
        match attr_match "opacity" pathTag with
        | Some v => JS.parseFloat v
        | None => JS.Num 1
        end in
      let strokeWidth :=
        match attr_match "stroke-width" pathTag with
        | Some v => JS.parseFloat v
        | None => JS.Num 0
        end in
      Some (mkExtracted d fill stroke opacity strokeWidth)
  end.

Fixpoint collect (tags : list string) : list Extracted :=
  match tags with
  | [] => []
  | tag :: rest =>
      match extractPath tag with
      | Some p => p :: collect rest
      | None => collect rest
      end
  end.

(** Extract all paths from SVG. *)
Definition extractPaths (svgString : string) : list Extracted :=
  collect (path_tags svgString 0).

End Extract.


(* ================================================================== *)
(** * workingCompressionScripts/spikes/compressSpikes.js *)
(* ================================================================== *)

Module CompressSpikes.

(** Store common colors in a dictionary. *)
Definition COLOR_DICT : list (string * Z) :=
  [ ("000000", 1); ("FFFFFF", 2); ("FF0000", 3); ("00FF00", 4);
    ("0000FF", 5); ("none", 0) ].

(** The property names that [COLOR_DICT] inherits from
    [Object.prototype]: [COLOR_DICT[name]] is a function or an object
    for them, which is truthy and which [Buffer.from] stores as 0. *)
Definition inherited : list string :=
  [ "constructor"; "hasOwnProperty"; "isPrototypeOf"; "propertyIsEnumerable";
    "toLocaleString"; "toString"; "valueOf"; "__defineGetter__";
    "__defineSetter__"; "__lookupGetter__"; "__lookupSetter__"; "__proto__" ].

(** [encodeVarInt] has the text of the one in [compress.js]. *)
Definition encodeVarInt : Z -> outcome Buffer := Compress.encodeVarInt.

(** [encodeVarInt] on a number that need not be an integer. *)
Definition encodeVarInt_number : JS.number -> outcome Buffer :=
  Compress.encodeVarInt_number.

(** What follows the first [#] of [s]. *)
Fixpoint after_sharp (s : string) : option string :=
  match s with
  | EmptyString => None
  | String c s' => if Ascii.eqb c "#" then Some s' else after_sharp s'
  end.

Fixpoint take_while (p : ascii -> bool) (s : string) : string :=
  match s with
  | EmptyString => EmptyString
  | String c s' => if p c then String c (take_while p s') else EmptyString
  end.

(** The characters of a gradient identifier: no quote, no apostrophe,
    no white space, no closing parenthesis. *)
Definition id_char (c : ascii) : bool :=
  negb (Ascii.eqb c Extract.quote || Ascii.eqb c "'" || JS.is_space c || Ascii.eqb c ")").

(** The first capture of the match of [#] followed by a run of
    identifier characters in [color]; a [TypeError] when [color] has
    no [#] (the match is [null]). *)
Definition gradient_id (color : string) : outcome string :=
  match after_sharp color with
  | Some r => Ret (take_while id_char r)
  | None => Throw TypeError
  end.

(** Encode color efficiently. *)
Definition encodeColor (color : string) : outcome Buffer :=
  if (String.eqb color "" || String.eqb color "none")%bool then Ret (Buffer_from [0])
  else if JS.startsWith color "url(#" then
    gradientId <- gradient_id color ;;
    len <- encodeVarInt (Z.of_nat (String.length gradientId)) ;;
    Ret (Buffer_from [255] ++ len ++ JS.bytes_of_string gradientId)
  else
    let hex := if JS.startsWith color "#" then JS.toUpperCase (JS.slice1 color) else color in
    if existsb (String.eqb hex) inherited then Ret (Buffer_from [0])
    else if Compress.truthy (Compress.dict_get COLOR_DICT hex) then
      Ret (Buffer_from [JS.num_of (Compress.dict_get COLOR_DICT hex)])
    else
      Ret [ byte_of (Some 254);
            byte_of (JS.parseInt (JS.substring 0 2 hex) 16);
            byte_of (JS.parseInt (JS.substring 2 4 hex) 16);
            byte_of (JS.parseInt (JS.substring 4 6 hex) 16) ].

(** The attributes that [compressPath] extracts, with their defaults. *)
Definition fill_of (pathElement : string) : string :=
  match Extract.attr_match "fill" pathElement with Some v => v | None => "none" end.
Definition stroke_of (pathElement : string) : string :=
  match Extract.attr_match "stroke" pathElement with Some v => v | None => "none" end.
Definition strokeWidth_of (pathElement : string) : JS.number :=
  match Extract.attr_match "stroke-width" pathElement with
  | Some v => JS.parseFloat v
  | None => JS.Num 0
  end.

(** Compress path: [None] is [null], for an element without [d]
    attribute or after an error. *)
Definition compressPath (pathElement : string) : outcome (option Buffer) :=
  try_catch
    (match Extract.attr_match "d" pathElement with
     | None => Ret None
     | Some d =>
         let pathData := JS.bytes_of_string d in
         fill <- encodeColor (fill_of pathElement) ;;
         stroke <- encodeColor (stroke_of pathElement) ;;
         width <- encodeVarInt_number (JS.fmul (strokeWidth_of pathElement) (JS.Num 10)) ;;
         len <- encodeVarInt (blength pathData) ;;
         Ret (Some (Buffer_from [1] ++ fill ++ stroke ++ width ++ len ++ pathData))
     end)
    (fun _ => Ret None).

End CompressSpikes.


(* ================================================================== *)
(** * workingScripts/workingPhilCompress.js: the binary decoder *)
(* ================================================================== *)

Module PhilDecompress.

Definition TARGET_SIZE : Z := 420.
Definition QUANTIZATION_SCALE : Z := 10.

(** Color dictionary of the decoder. *)
Definition COLOR_DICT : list (Z * string) :=
  [ (1, "000000"); (2, "FFFFFF"); (3, "808080"); (4, "0D00FF");
    (5, "5858FF"); (6, "00B7FF"); (7, "66C9FF"); (8, "FF0000");
    (9, "00FF00"); (10, "0000FF"); (11, "FFFF00"); (12, "00FFFF");
    (13, "FF00FF"); (14, "080055"); (0, "none") ].

(** [decodeVarInt] and [decodeSignedVarInt] have the text of those in
    [decompress.js]. *)
Definition decodeVarInt : Buffer -> Z -> outcome (Z * Z) := Decompress.decodeVarInt.
Definition decodeSignedVarInt : Buffer -> Z -> outcome (Z * Z) :=
  Decompress.decodeSignedVarInt.

(** Decode color from compact representation. *)
Definition decodeColor (buffer : Buffer) (offset : Z) : outcome (string * Z) :=
  if blength buffer <=? offset then Throw (ColorOverflow offset)
  else
    let bytesRead := 1 in
    let colorCode := buf_get buffer offset in
    match colorCode with
    | Some c =>
        match (if c <? 254 then Decompress.code_get COLOR_DICT c else None) with
        | Some name =>
            Ret (if c =? 0 then "none" else ("#" ++ name)%string, bytesRead)
        | None =>
            if c =? 254 then
              if blength buffer <=? offset + 3 then Throw (RGBColorOverflow offset)
              else
                r <- Decompress.hex_byte buffer (offset + 1) ;;
                g <- Decompress.hex_byte buffer (offset + 2) ;;
                b <- Decompress.hex_byte buffer (offset + 3) ;;
                Ret (JS.toUpperCase ("#" ++ r ++ g ++ b)%string, 4)
            else Throw (UnknownColorEncoding colorCode offset)
        end
    | None => Throw (UnknownColorEncoding colorCode offset)
    end.

Section Decoder.

(** The [Error] that [decodeFloat] throws at the end of the buffer. *)
Variable FloatOverflow : Z -> error.

(** Decode float with precision control: [(value, bytesRead)]. *)
Definition decodeFloat (buffer : Buffer) (offset : Z) (isOpacity : bool)
    : outcome (Q * Z) :=
  if blength buffer <=? offset then Throw (FloatOverflow offset)
  else if isOpacity then
    '(value, bytesRead) <- decodeVarInt buffer offset ;;
    Ret ((inject_Z value / inject_Z 100)%Q, bytesRead)
  else
    '(value, bytesRead) <- decodeSignedVarInt buffer offset ;;
    Ret ((inject_Z value / inject_Z QUANTIZATION_SCALE)%Q, bytesRead).

(** The loop over the parameters of a command in [decodePath];
    [remaining] is [paramCount - j]. *)
Fixpoint decodePath_params (remaining : nat) (j : Z) (buffer : Buffer)
    (currentOffset : Z) (pathData : string) (cmdChar : ascii) : outcome (string * Z) :=
  match remaining with
  | O => Ret (pathData, currentOffset)
  | S remaining' =>
      if blength buffer <=? currentOffset then Ret (pathData, currentOffset)
      else
        '(param, paramBytes) <- decodeFloat buffer currentOffset false ;;
        let currentOffset := currentOffset + paramBytes in
        let pathData :=
          if ((0 <? j) ||
              negb (String.eqb (JS.toLowerCase (String cmdChar EmptyString)) "m"))%bool
          then (pathData ++ " ")%string else pathData in
        let pathData := (pathData ++ JS.toFixed 1 param)%string in
        decodePath_params remaining' (j + 1) buffer currentOffset pathData cmdChar
  end.

(** The loop over the commands in [decodePath]; [remaining] is
    [cmdCount - i]. *)
Fixpoint decodePath_commands (remaining : nat) (buffer : Buffer)
    (currentOffset : Z) (pathData : string) : outcome (string * Z) :=
  match remaining with
  | O => Ret (pathData, currentOffset)
  | S remaining' =>
      if blength buffer <=? currentOffset then Ret (pathData, currentOffset)
      else
        let cmdChar := JS.fromCharCode (JS.num_of (buf_get buffer currentOffset)) in
        let currentOffset := currentOffset + 1 in
        '(paramCount, paramCountBytes) <- decodeVarInt buffer currentOffset ;;
        let currentOffset := currentOffset + paramCountBytes in
        let pathData := (pathData ++ String cmdChar EmptyString)%string in
        '(pathData, currentOffset) <-
          decodePath_params (Z.to_nat paramCount) 0 buffer currentOffset pathData cmdChar ;;
        decodePath_commands remaining' buffer currentOffset pathData
  end.

(** Decode path commands: [(pathData, bytesRead)]. *)
Definition decodePath (buffer : Buffer) (offset : Z) : outcome (string * Z) :=
  let currentOffset := offset in
  '(cmdCount, cmdCountBytes) <- decodeVarInt buffer currentOffset ;;
  let currentOffset := currentOffset + cmdCountBytes in
  '(pathData, currentOffset) <-
    decodePath_commands (Z.to_nat cmdCount) buffer currentOffset "" ;;
  Ret (pathData, currentOffset - offset).

(** Decompress path element: [(element, bytesRead)]. *)
Definition decompressPath (buffer : Buffer) (offset : Z) : outcome (string * Z) :=
  let currentOffset := offset + 1 in
  '(fill, fillBytes) <- decodeColor buffer currentOffset ;;
  let currentOffset := currentOffset + fillBytes in
  '(stroke, strokeBytes) <- decodeColor buffer currentOffset ;;
  let currentOffset := currentOffset + strokeBytes in
  '(strokeWidth, strokeWidthBytes) <- decodeFloat buffer currentOffset false ;;
  let currentOffset := currentOffset + strokeWidthBytes in
  '(opacity, opacityBytes) <- decodeFloat buffer currentOffset true ;;
  let currentOffset := currentOffset + opacityBytes in
  '(pathData, pathBytes) <- decodePath buffer currentOffset ;;
  let currentOffset := currentOffset + pathBytes in
  let element :=
    ("<path d=" ++ JS.dq ++ pathData ++ JS.dq ++ " fill=" ++ JS.dq ++ fill ++ JS.dq ++
     (if Qlt_le_dec opacity (99 # 100)
      then " opacity=" ++ JS.dq ++ JS.toFixed 2 opacity ++ JS.dq else "") ++
     (if (negb (String.eqb stroke "none") &&
          (if Qlt_le_dec 0 strokeWidth then true else false))%bool
      then " stroke=" ++ JS.dq ++ stroke ++ JS.dq ++
           " stroke-width=" ++ JS.dq ++ JS.toFixed 1 strokeWidth ++ JS.dq
      else "") ++ "/>")%string in
  Ret (element, currentOffset - offset).

End Decoder.

(** Decompress SVG metadata: [(viewBox, bytesRead)]. *)
Definition decompressMetadata (buffer : Buffer) (offset : Z) : outcome (string * Z) :=
  let currentOffset := offset + 1 in
  '(viewBoxLength, vbLengthBytes) <- decodeVarInt buffer currentOffset ;;
  let currentOffset := currentOffset + vbLengthBytes in
  let viewBox :=
    Decompress.read_chars (skipn (Z.to_nat currentOffset) buffer) 0 viewBoxLength in
  let currentOffset := currentOffset + viewBoxLength in
  Ret (viewBox, currentOffset - offset).

(** Create a minimal fallback Phil. *)
Definition createFallbackPhil : string :=
  ("<svg xmlns=" ++ JS.dq ++ "http://www.w3.org/2000/svg" ++ JS.dq ++
   " viewBox=" ++ JS.dq ++ "0 0 420 420" ++ JS.dq ++ ">" ++ JS.nl ++
   "  <path d=" ++ JS.dq ++
   "M210,100 C260,100 300,140 300,190 C300,240 260,280 210,280 C160,280 120,240 120,190 C120,140 160,100 210,100 Z" ++
   JS.dq ++ " fill=" ++ JS.dq ++ "#0D00FF" ++ JS.dq ++
   " opacity=" ++ JS.dq ++ "0.5" ++ JS.dq ++ " />" ++ JS.nl ++
   "  <path d=" ++ JS.dq ++
   "M210,100 C260,100 300,140 300,190 C300,240 260,280 210,280 C160,280 120,240 120,190 C120,140 160,100 210,100 Z" ++
   JS.dq ++ " fill=" ++ JS.dq ++ "none" ++ JS.dq ++
   " stroke=" ++ JS.dq ++ "#080055" ++ JS.dq ++
   " stroke-width=" ++ JS.dq ++ "1" ++ JS.dq ++ " />" ++ JS.nl ++ "</svg>")%string.

(** Decompress SVG from binary format, on the buffer decoded from the
    base64 text; the loop is the one of [Phil], over the two record
    decoders above, and [fuel] bounds its iterations. *)
Definition decompressSVG (FloatOverflow : Z -> error) (fuel : nat) (buffer : Buffer)
    : outcome string :=
  try_catch
    (if blength buffer <? 2 then Throw TooShort
     else
       parts <-
         Phil.decompressSVG_loop decompressMetadata (decompressPath FloatOverflow)
           fuel buffer 2
           (Phil.mkParts ("0 0 " ++ JS.string_of_Z TARGET_SIZE ++ " " ++
                          JS.string_of_Z TARGET_SIZE) []) ;;
       match Phil.paths parts with
       | [] => Ret createFallbackPhil
       | _ =>
           Ret ("<svg xmlns=" ++ JS.dq ++ "http://www.w3.org/2000/svg" ++ JS.dq ++
                " viewBox=" ++ JS.dq ++ Phil.viewBox parts ++ JS.dq ++ ">" ++
                fold_left (fun acc path => acc ++ path) (Phil.paths parts) "" ++
                "</svg>")%string
       end)
    (fun _ => Ret createFallbackPhil).

End PhilDecompress.

(* ================================================================== *)
(** * workingScripts/workingPhilCompress.js: the binary encoder *)
(* ================================================================== *)

Module PhilCompress.

Definition QUANTIZATION_SCALE : Z := 10.

(** Color dictionary optimized for Phil SVGs. *)
Definition COLOR_DICT : list (string * Z) :=
  [ ("000000", 1); ("FFFFFF", 2); ("808080", 3); ("0D00FF", 4);
    ("5858FF", 5); ("00B7FF", 6); ("66C9FF", 7); ("FF0000", 8);
    ("00FF00", 9); ("0000FF", 10); ("FFFF00", 11); ("00FFFF", 12);
    ("FF00FF", 13); ("080055", 14); ("none", 0) ].

(** [encodeVarInt] and [encodeSignedVarInt] have the text of those in
    [compress.js]. *)
Definition encodeVarInt : Z -> outcome Buffer := Compress.encodeVarInt.
Definition encodeSignedVarInt : Z -> outcome Buffer := Compress.encodeSignedVarInt.

(** Convert RGB color string to hex. *)
Definition rgbToHex (rgb : string) : string :=
  if String.eqb rgb "" then "none"
  else
    match JS.rgb_match rgb with
    | Some (r, g, b) =>
        JS.toUpperCase
          (JS.padStart0 6 (JS.toString16 (JS.bor (JS.bor (JS.shl r 16) (JS.shl g 8)) b)))
    | None =>
        if JS.startsWith rgb "#" then JS.toUpperCase (JS.slice1 rgb)
        else if String.eqb rgb "black" then "000000"
        else if String.eqb rgb "white" then "FFFFFF"
        else "000000"
    end.

(** Encode color efficiently.  The key [hex] is in upper case or
    [000000], so that it is none of the property names that
    [COLOR_DICT] inherits, which all have a lower-case letter. *)
Definition encodeColor (color : string) : Buffer :=
  if (String.eqb color "" || String.eqb color "none")%bool then Buffer_from [0]
  else
    let hex :=
      if JS.startsWith color "rgb" then rgbToHex color
      else if JS.startsWith color "#" then JS.toUpperCase (JS.slice1 color)
      else "000000" in
    if Compress.truthy (Compress.dict_get COLOR_DICT hex) then
      Buffer_from [JS.num_of (Compress.dict_get COLOR_DICT hex)]
    else
      [ byte_of (Some 254);
        byte_of (JS.parseInt (JS.substring 0 2 hex) 16);
        byte_of (JS.parseInt (JS.substring 2 4 hex) 16);
        byte_of (JS.parseInt (JS.substring 4 6 hex) 16) ].

(** Encode float values with precision control. *)
Definition encodeFloat (value : JS.number) (isOpacity : bool) : outcome Buffer :=
  if isOpacity then
    Compress.encodeVarInt_number (JS.Math_round (JS.fmul value (JS.Num 100)))
  else
    let quantized := JS.Math_round (JS.fmul value (JS.Num (inject_Z QUANTIZATION_SCALE))) in
    Compress.encodeSignedVarInt_number quantized.

(** The class of the command letters in the pattern of [parsePath]. *)
Definition is_path_command (c : ascii) : bool :=
  existsb (Ascii.eqb c)
    ["M"; "L"; "H"; "V"; "C"; "S"; "Q"; "T"; "A"; "Z";
     "m"; "l"; "h"; "v"; "c"; "s"; "q"; "t"; "a"; "z"]%char.

(** An optional sign at the head of [s], and what follows it. *)
Definition take_sign (s : string) : string * string :=
  match s with
  | String "-"%char s' => ("-", s')
  | String "+"%char s' => ("+", s')
  | _ => ("", s)
  end.

(** The digits, optional point and digits of the number pattern at
    the head of [s], and what follows them: the digits up to the last
    one may be empty, the point is taken when a digit follows it. *)
Definition number_body (s : string) : option (string * string) :=
  let '(ip, r) := JS.take_digits s in
  let whole := match ip with EmptyString => None | _ => Some (ip, r) end in
  match r with
  | String "."%char r' =>
      let '(fp, r'') := JS.take_digits r' in
      match fp with
      | EmptyString => whole
      | _ => Some ((ip ++ "." ++ fp)%string, r'')
      end
  | _ => whole
  end.

(** The optional exponent of the number pattern at the head of [s]. *)
Definition number_exponent (s : string) : string :=
  match s with
  | String e s' =>
      if (Ascii.eqb e "e" || Ascii.eqb e "E")%bool then
        let '(sign, s1) := take_sign s' in
        let '(d, _) := JS.take_digits s1 in
        match d with
        | EmptyString => EmptyString
        | _ => String e (sign ++ d)
        end
      else EmptyString
  | EmptyString => EmptyString
  end.

(** A match of the number pattern, the second alternative of the
    pattern of [parsePath], that starts at the head of [s]: the
    matched text. *)
Definition number_here (s : string) : option string :=
  let '(sign, s1) := take_sign s in
  match number_body s1 with
  | Some (body, r) => Some (sign ++ body ++ number_exponent r)%string
  | None => None
  end.

(** The variables of the loop of [parsePath]. *)
Record Parser := mkParser {
  currentCmd : option ascii;
  params : list JS.number;
  commands : list (ascii * list JS.number)
}.

(** A command letter is matched: the command at hand, if there is
    one, is pushed with its parameters. *)
Definition on_command (c : ascii) (st : Parser) : Parser :=
  match currentCmd st with
  | Some cmd => mkParser (Some c) [] (commands st ++ [(cmd, params st)])
  | None => mkParser (Some c) (params st) (commands st)
  end.

(** A number is matched. *)
Definition on_number (text : string) (st : Parser) : Parser :=
  mkParser (currentCmd st) (params st ++ [JS.parseFloat text]) (commands st).

(** The loop [while ((match = regex.exec(d)) !== null)] over the
    characters of [d] from the last index on: [skip] counts the
    characters left of the number matched last, which the next search
    passes over; a character at which neither alternative matches is
    passed over too. *)
Fixpoint parsePath_loop (s : string) (skip : nat) (st : Parser) : Parser :=
  match s with
  | EmptyString => st
  | String c s' =>
      match skip with
      | S k => parsePath_loop s' k st
      | O =>
          if is_path_command c then parsePath_loop s' 0 (on_command c st)
          else
            match number_here s with
            | Some text => parsePath_loop s' (String.length text - 1) (on_number text st)
            | None => parsePath_loop s' 0 st
            end
      end
  end.

(** Parse path data with quantization. *)
Definition parsePath (d : string) : list (ascii * list JS.number) :=
  let st := parsePath_loop d 0 (mkParser None [] []) in
  match currentCmd st with
  | Some cmd => commands st ++ [(cmd, params st)]
  | None => commands st
  end.

(** The parameters of a command, each through [encodeFloat]. *)
Fixpoint encodeParams (params : list JS.number) : outcome Buffer :=
  match params with
  | [] => Ret []
  | param :: rest =>
      b <- encodeFloat param false ;;
      bs <- encodeParams rest ;;
      Ret (b ++ bs)
  end.

(** The loop of [encodePath] over the commands, a command being its
    letter and its parameters. *)
Fixpoint encodeCommands (pathCommands : list (ascii * list JS.number)) : outcome Buffer :=
  match pathCommands with
  | [] => Ret []
  | (cmd, params) :: rest =>
      count <- encodeVarInt (Z.of_nat (List.length params)) ;;
      ps <- encodeParams params ;;
      bs <- encodeCommands rest ;;
      Ret (Buffer_from [Z.of_nat (nat_of_ascii cmd)] ++ count ++ ps ++ bs)
  end.

(** Quantize and encode path commands. *)
Definition encodePath (pathCommands : list (ascii * list JS.number)) : outcome Buffer :=
  count <- encodeVarInt (Z.of_nat (List.length pathCommands)) ;;
  bs <- encodeCommands pathCommands ;;
  Ret (count ++ bs).

(** The attributes that [compressPath] extracts, with their defaults. *)
Definition fill_of (path : string) : string :=
  match Extract.attr_match "fill" path with Some v => v | None => "none" end.
Definition stroke_of (path : string) : string :=
  match Extract.attr_match "stroke" path with Some v => v | None => "none" end.
Definition strokeWidth_of (path : string) : JS.number :=
  match Extract.attr_match "stroke-width" path with
  | Some v => JS.parseFloat v
  | None => JS.Num 0
  end.
Definition opacity_of (path : string) : JS.number :=
  match Extract.attr_match "opacity" path with
  | Some v => JS.parseFloat v
  | None => JS.Num 1
  end.

(** Compress path element: [None] is [null], for an element without
    [d] attribute. *)
Definition compressPath (path : string) : outcome (option Buffer) :=
  match Extract.attr_match "d" path with
  | None => Ret None
  | Some d =>
      let pathCommands := parsePath d in
      strokeWidth <- encodeFloat (strokeWidth_of path) false ;;
      opacity <- encodeFloat (opacity_of path) true ;;
      data <- encodePath pathCommands ;;
      Ret (Some (Buffer_from [1] ++ encodeColor (fill_of path) ++
                 encodeColor (stroke_of path) ++ strokeWidth ++ opacity ++ data))
  end.

End PhilCompress.


(* ================================================================== *)
(** * workingCompressionScripts/Bg/decompressBg.js: colors, numbers, rectangle *)
(* ================================================================== *)

Module BgDecompress.

Definition QUANTIZATION_SCALE : Z := 1.

(** Color dictionary of the decoder. *)
Definition COLOR_DICT : list (Z * string) :=
  [ (1, "000000"); (2, "FFFFFF"); (3, "808080"); (4, "FF0000");
    (5, "00FF00"); (6, "0000FF"); (7, "FFFF00"); (8, "00FFFF");
    (9, "FF00FF"); (10, "C0C0C0"); (11, "E8A852"); (12, "294D7A");
    (13, "D67D3E"); (14, "A654AD"); (15, "66CCFF"); (16, "FFDB99");
    (0, "none") ].

(** [decodeVarInt] and [decodeSignedVarInt] have the text of those in
    [decompress.js]. *)
Definition decodeVarInt : Buffer -> Z -> outcome (Z * Z) := Decompress.decodeVarInt.
Definition decodeSignedVarInt : Buffer -> Z -> outcome (Z * Z) :=
  Decompress.decodeSignedVarInt.

(** The loop of a gradient reference in [decodeColor]: the characters
    of the bytes from 32 to 126, up to the first other byte or the end
    of the buffer; [rest] is the buffer from index [offset + 1] on. *)
Fixpoint read_printable (rest : list Z) : string :=
  match rest with
  | b :: rest' =>
      if ((32 <=? b) && (b <=? 126))%bool
      then String (JS.fromCharCode b) (read_printable rest')
      else EmptyString
  | [] => EmptyString
  end.

(** Decode color from compact representation. *)
Definition decodeColor (buffer : Buffer) (offset : Z) : outcome (string * Z) :=
  if blength buffer <=? offset then Throw (ColorOverflow offset)
  else
    let colorCode := buf_get buffer offset in
    match colorCode with
    | Some c =>
        match (if c <? 254 then Decompress.code_get COLOR_DICT c else None) with
        | Some name => Ret (if c =? 0 then "none" else ("#" ++ name)%string, 1)
        | None =>
            if c =? 254 then
              if blength buffer <=? offset + 3 then Throw (RGBColorOverflow offset)
              else
                r <- Decompress.hex_byte buffer (offset + 1) ;;
                g <- Decompress.hex_byte buffer (offset + 2) ;;
                b <- Decompress.hex_byte buffer (offset + 3) ;;
                Ret (JS.toUpperCase ("#" ++ r ++ g ++ b)%string, 4)
            else if c =? 255 then
              let gradientId := read_printable (skipn (Z.to_nat (offset + 1)) buffer) in
              let i := offset + 1 + Z.of_nat (String.length gradientId) in
              Ret (("url(#" ++ gradientId ++ ")")%string, i - offset)
            else Throw (UnknownColorEncoding colorCode offset)
        end
    | None => Throw (UnknownColorEncoding colorCode offset)
    end.

Section Decoder.

(** The [Error] that [decodeFloat] throws at the end of the buffer. *)
Variable FloatOverflow : Z -> error.

(** Decode float with higher precision: [(value, bytesRead)]. *)
Definition decodeFloat (buffer : Buffer) (offset : Z) (isOpacity : bool)
    : outcome (Q * Z) :=
  if blength buffer <=? offset then Throw (FloatOverflow offset)
  else if isOpacity then
    '(value, bytesRead) <- decodeVarInt buffer offset ;;
    Ret ((inject_Z value / inject_Z 1000)%Q, bytesRead)
  else
    '(value, bytesRead) <- decodeSignedVarInt buffer offset ;;
    Ret (((inject_Z value / inject_Z 10) / inject_Z QUANTIZATION_SCALE)%Q, bytesRead).

(** Decompress rectangle: [(element, bytesRead)]. *)
Definition decompressRect (buffer : Buffer) (offset : Z) : outcome (string * Z) :=
  let currentOffset := offset + 1 in
  '(fill, fillBytes) <- decodeColor buffer currentOffset ;;
  let currentOffset := currentOffset + fillBytes in
  '(x, xBytes) <- decodeFloat buffer currentOffset false ;;
  let currentOffset := currentOffset + xBytes in
  '(y, yBytes) <- decodeFloat buffer currentOffset false ;;
  let currentOffset := currentOffset + yBytes in
  '(width, widthBytes) <- decodeFloat buffer currentOffset false ;;
  let currentOffset := currentOffset + widthBytes in
  '(height, heightBytes) <- decodeFloat buffer currentOffset false ;;
  let currentOffset := currentOffset + heightBytes in
  let element :=
    ("<rect x=" ++ JS.dq ++ JS.toFixed 2 x ++ JS.dq ++
     " y=" ++ JS.dq ++ JS.toFixed 2 y ++ JS.dq ++
     " width=" ++ JS.dq ++ JS.toFixed 2 width ++ JS.dq ++
     " height=" ++ JS.dq ++ JS.toFixed 2 height ++ JS.dq ++
     " fill=" ++ JS.dq ++ fill ++ JS.dq ++ "/>")%string in
  Ret (element, currentOffset - offset).

End Decoder.

(** Decompress SVG metadata: [(viewBox, bytesRead)]. *)
Definition decompressMetadata (buffer : Buffer) (offset : Z) : outcome (string * Z) :=
  let currentOffset := offset + 1 in
  '(viewBoxLength, vbLengthBytes) <- decodeVarInt buffer currentOffset ;;
  let currentOffset := currentOffset + vbLengthBytes in
  let viewBox :=
    Decompress.read_chars (skipn (Z.to_nat currentOffset) buffer) 0 viewBoxLength in
  let currentOffset := currentOffset + viewBoxLength in
  Ret (viewBox, currentOffset - offset).

End BgDecompress.

(* ================================================================== *)
(** * workingCompressionScripts/Bg/compressBg.js: colors, numbers, rectangle *)
(* ================================================================== *)

Module BgCompress.

Definition TARGET_SIZE : Z := 420.
Definition QUANTIZATION_SCALE : Z := 1.

(** Color dictionary optimized for galaxy SVGs. *)
Definition COLOR_DICT : list (string * Z) :=
  [ ("000000", 1); ("FFFFFF", 2); ("808080", 3); ("FF0000", 4);
    ("00FF00", 5); ("0000FF", 6); ("FFFF00", 7); ("00FFFF", 8);
    ("FF00FF", 9); ("C0C0C0", 10); ("E8A852", 11); ("294D7A", 12);
    ("D67D3E", 13); ("A654AD", 14); ("66CCFF", 15); ("FFDB99", 16);
    ("none", 0) ].

(** [encodeVarInt] and [encodeSignedVarInt] have the text of those in
    [compress.js]. *)
Definition encodeVarInt : Z -> outcome Buffer := Compress.encodeVarInt.
Definition encodeSignedVarInt : Z -> outcome Buffer := Compress.encodeSignedVarInt.

(** The first capture of the match of [#] followed by a run without
    quote in [color]; a [TypeError] when [color] has no [#] (the match
    is [null]). *)
Definition gradient_id (color : string) : outcome string :=
  match CompressSpikes.after_sharp color with
  | Some r =>
      Ret (CompressSpikes.take_while (fun c => negb (Ascii.eqb c Extract.quote)) r)
  | None => Throw TypeError
  end.

(** Digits followed by the character [stop]: the number and the rest
    of the string. *)
Definition rgb_component (stop : ascii) (s : string) : option (Z * string) :=
  let '(d, r) := JS.take_digits s in
  match d, r with
  | String _ _, String c r' =>
      if Ascii.eqb c stop then Some (JS.Number_of_digits d, r') else None
  | _, _ => None
  end.

(** A match of the [rgb(r, g, b)] pattern of this script, with white
    space allowed after the commas only, starting at the head of [s]. *)
Definition rgb_match_here (s : string) : option (Z * Z * Z) :=
  match JS.strip_prefix "rgb(" s with
  | None => None
  | Some s1 =>
      match rgb_component ","%char s1 with
      | None => None
      | Some (r, s2) =>
          match rgb_component ","%char (JS.skip_space s2) with
          | None => None
          | Some (g, s3) =>
              match rgb_component ")"%char (JS.skip_space s3) with
              | None => None
              | Some (b, _) => Some (r, g, b)
              end
          end
      end
  end.

(** The leftmost match. *)
Fixpoint rgb_match (s : string) : option (Z * Z * Z) :=
  match rgb_match_here s with
  | Some m => Some m
  | None =>
      match s with
      | EmptyString => None
      | String _ s' => rgb_match s'
      end
  end.

(** Encode color efficiently.  The key [hex] is in upper case or
    [000000], so that it is none of the property names that
    [COLOR_DICT] inherits, which all have a lower-case letter. *)
Definition encodeColor (color : string) : outcome Buffer :=
  if (String.eqb color "" || String.eqb color "none")%bool then Ret (Buffer_from [0])
  else if JS.startsWith color "url(#" then
    gradientId <- gradient_id color ;;
    Ret (Buffer_from [255] ++ JS.bytes_of_string gradientId)
  else
    let hex :=
      if JS.startsWith color "#" then
        let hex := JS.toUpperCase (JS.slice1 color) in
        if Nat.eqb (String.length hex) 3 then JS.double_chars hex else hex
      else if JS.startsWith color "rgb" then
        match rgb_match color with
        | Some (r, g, b) =>
            JS.toUpperCase
              (JS.padStart0 6 (JS.toString16 (JS.bor (JS.bor (JS.shl r 16) (JS.shl g 8)) b)))
        | None => "000000"
        end
      else if String.eqb (JS.toLowerCase color) "black" then "000000"
      else "000000" in
    if Compress.truthy (Compress.dict_get COLOR_DICT hex) then
      Ret (Buffer_from [JS.num_of (Compress.dict_get COLOR_DICT hex)])
    else
      Ret [ byte_of (Some 254);
            byte_of (JS.parseInt (JS.substring 0 2 hex) 16);
            byte_of (JS.parseInt (JS.substring 2 4 hex) 16);
            byte_of (JS.parseInt (JS.substring 4 6 hex) 16) ].

(** Encode float values with better precision. *)
Definition encodeFloat (value : JS.number) (isOpacity : bool) : outcome Buffer :=
  if isOpacity then
    Compress.encodeVarInt_number (JS.Math_round (JS.fmul value (JS.Num 1000)))
  else
    let quantized :=
      JS.fdiv
        (JS.Math_round
           (JS.fmul (JS.fmul value (JS.Num (inject_Z QUANTIZATION_SCALE))) (JS.Num 10)))
        (JS.Num 10) in
    Compress.encodeSignedVarInt_number (JS.Math_round (JS.fmul quantized (JS.Num 10))).




(** The fill, [none] when the attribute is missing. *)
Definition fill_of (rect : string) : string :=
  match Extract.attr_match "fill" rect with Some v => v | None => "none" end.


End BgCompress.

(* ================================================================== *)
(** * Auxiliary definitions for the statements *)
(* ================================================================== *)

(** The 7-bit groups of [n], least significant first, each but the
    last with the continuation bit: what a well-formed varint of at
    most [k + 1] bytes looks like. *)
Fixpoint varint_groups (k : nat) (n : Z) : list Z :=
  match k with
  | O => [n]
  | S k' =>
      if 128 <=? n then (n mod 128 + 128) :: varint_groups k' (n / 128)
      else [n]
  end.


(** All elements of a buffer are bytes. *)
Definition bytes (buffer : Buffer) : Prop := Forall (fun b => 0 <= b < 256) buffer.

(** The byte at index [i] has its high (continuation) bit set. *)
Definition high_bit (buffer : Buffer) (i : Z) : Prop :=
  exists b, buf_get buffer i = Some b /\ 128 <= b.

(** A varint read at [offset] is truncated: no byte is left, or every
    byte up to the end of the buffer asks for a continuation. *)
Definition truncated (buffer : Buffer) (offset : Z) : Prop :=
  blength buffer <= offset \/
  forall i, offset <= i < blength buffer -> high_bit buffer i.

(** [j] is the index of the first byte from [offset] on whose high bit
    is unset. *)
Definition first_low (buffer : Buffer) (offset j : Z) : Prop :=
  offset <= j < blength buffer /\
  (exists b, buf_get buffer j = Some b /\ b < 128) /\
  forall i, offset <= i < j -> high_bit buffer i.


(** The two upper-case hex digits of a byte, and the six of a triple. *)
Definition hex2 (x : Z) : string := JS.toUpperCase (JS.padStart0 2 (JS.toString16 x)).
Definition hex6 (r g b : Z) : string := (hex2 r ++ hex2 g ++ hex2 b)%string.

(** [c] is one of the 18 hex keys of the color dictionary of
    [compress.js]. *)
Definition dictionary_hex (c : string) : Prop :=
  c <> "none" /\ exists code, In (c, code) Compress.COLOR_DICT.


(** A computation comes to an end: it returns or throws. *)
Definition terminates {A} (m : outcome A) : Prop := m <> Diverge.


(** The byte at [offset] is the tag of no record type among [known]. *)
Definition unknown_marker (known : list Z) (buffer : Buffer) (offset : Z) : Prop :=
  forall m, buf_get buffer offset = Some m -> ~ In m known.

(** The dispatch loop of the spikes decoder would halt on an unknown
    marker, keeping what was collected so far. *)
Definition spikes_halts_on_unknown_marker : Prop :=
  forall fuel buffer offset elements,
    offset < blength buffer ->
    unknown_marker [0; 1; 2] buffer offset ->
    Spikes.decompressSVG_loop (S (S fuel)) buffer offset elements = Ret elements.

(** A buffer of one byte read as a signed varint: an error, or a
    value of 7 bits. *)
Definition one_byte_signed (b : Z) : bool :=
  match Decompress.decodeSignedVarInt [b] 0 with
  | Ret (v, _) => (- 64 <=? v) && (v <? 64)
  | Throw _ => true
  | Diverge => false
  end.


(** An upper-case hexadecimal digit. *)
Definition is_upper_hex (c : ascii) : bool :=
  let n := nat_of_ascii c in
  (JS.is_digit c || (Nat.leb 65 n && Nat.leb n 70))%bool.

Fixpoint all_chars (p : ascii -> bool) (s : string) : bool :=
  match s with
  | EmptyString => true
  | String c s' => (p c && all_chars p s')%bool
  end.

(** The colors an SVG attribute gets from the decoder: [none], or [#]
    and six upper-case hexadecimal digits. *)
Definition is_hex_color (s : string) : bool :=
  match s with
  | String "#"%char h => (Nat.eqb (String.length h) 6 && all_chars is_upper_hex h)%bool
  | _ => String.eqb s "none"
  end.


(** A hexadecimal digit in either case. *)
Definition is_hex_digit (c : ascii) : bool :=
  let n := nat_of_ascii c in
  (JS.is_digit c || (Nat.leb 65 n && Nat.leb n 70) || (Nat.leb 97 n && Nat.leb n 102))%bool.

(** The six-digit form of the digits after [#]: a shorthand of three
    digits has each digit doubled. *)
Definition expand_shorthand (h : string) : string :=
  if Nat.eqb (String.length h) 3 then JS.double_chars h else h.


(** Every character is below 128. *)
Definition is_ascii (s : string) : bool :=
  all_chars (fun c => Nat.ltb (nat_of_ascii c) 128) s.

(** The text of a view box of four integers. *)
Definition viewBox_text (x y w h : Z) : string :=
  (JS.string_of_Z x ++ " " ++ JS.string_of_Z y ++ " " ++
   JS.string_of_Z w ++ " " ++ JS.string_of_Z h)%string.


(** The zigzag value of [encodeSignedVarInt]. *)
Definition zigzag (n : Z) : Z := JS.bxor (JS.shl n 1) (JS.sar n 31).

(** The integers that the zigzag varint holds: 31 bits with the sign. *)
Definition fits_signed (v : Z) : bool := ((- 2 ^ 30 <=? v) && (v <? 2 ^ 30))%bool.


(** The integer that the encoders make of [Math.round(value * scale)]:
    the product is the one of doubles, and [NaN] and the infinities
    count as 0. *)
Definition stored (value : JS.number) (scale : Z) : Z :=
  JS.to_integer (JS.Math_round (JS.fmul value (JS.Num (inject_Z scale)))).









(** The path data written for the single value [v] is read as the
    command letter with the code [zigzag v]. *)
Definition read_as_command (v : Z) : bool :=
  match Decompress.code_get Decompress.CMD_DICT (zigzag v) with
  | Some c =>
      match Decompress.decodePathData (varint_groups 5 (zigzag v)) 0
              (blength (varint_groups 5 (zigzag v))) with
      | Ret s => String.eqb s c
      | _ => false
      end
  | None => false
  end.


(** A value in tenths, as the Phil codec stores it. *)
Definition tenths (value : JS.number) : Q :=
  (inject_Z (stored value 10) / inject_Z 10)%Q.

(** The text of the parameters of a command in the path data of the
    Phil decoder: one decimal each, a space before each but the first
    one of a move. *)
Fixpoint params_text (cmd : ascii) (j : Z) (params : list JS.number) : string :=
  match params with
  | [] => EmptyString
  | param :: rest =>
      let separator :=
        if ((0 <? j) ||
            negb (String.eqb (JS.toLowerCase (String cmd EmptyString)) "m"))%bool
        then " "%string else EmptyString in
      (separator ++ JS.toFixed 1 (tenths param) ++ params_text cmd (j + 1) rest)%string
  end.

Fixpoint commands_text (pathCommands : list (ascii * list JS.number)) : string :=
  match pathCommands with
  | [] => EmptyString
  | (cmd, params) :: rest =>
      (String cmd EmptyString ++ params_text cmd 0 params ++ commands_text rest)%string
  end.

(** The commands that the Phil codec holds: parameters whose tenths fit
    31 bits with the sign, fewer than [2^31] of them. *)
Definition command_in_range (c : ascii * list JS.number) : bool :=
  (forallb (fun p => fits_signed (stored p 10)) (snd c) &&
   (Z.of_nat (List.length (snd c)) <? 2 ^ 31))%bool.


(** The sixteen upper-case hexadecimal digits, and the test that a
    pair of characters is read by [parseInt] as a byte that is written
    back as the same pair. *)
Definition upper_hex_digits : list ascii :=
  ["0"; "1"; "2"; "3"; "4"; "5"; "6"; "7"; "8"; "9";
   "A"; "B"; "C"; "D"; "E"; "F"]%char.

Definition hex_pair_check (c1 c2 : ascii) : bool :=
  match JS.parseInt (String c1 (String c2 EmptyString)) 16 with
  | Some v =>
      ((0 <=? v) && (v <? 256) &&
       String.eqb (hex2 v) (String c1 (String c2 EmptyString)))%bool
  | None => false
  end.


(** The color that the Phil [decodeColor] reads in the bytes of the
    Phil [encodeColor]. *)
Definition Phil_decoded_color (c : string) : string :=
  match PhilDecompress.decodeColor (PhilCompress.encodeColor c) 0 with
  | Ret (s, _) => s
  | _ => EmptyString
  end.

(** The hexadecimal digits in both cases. *)
Definition hex_digits : list ascii :=
  ["0"; "1"; "2"; "3"; "4"; "5"; "6"; "7"; "8"; "9";
   "A"; "B"; "C"; "D"; "E"; "F"; "a"; "b"; "c"; "d"; "e"; "f"]%char.

(** What the Phil codec makes of a color of three digits: the first
    two are read as the red byte, the third one alone as the green
    byte, and the blue byte is 0. *)
Definition Phil_shorthand_read (c1 c2 c3 : ascii) : string :=
  String "#" (String (JS.upper_char c1) (String (JS.upper_char c2)
    (String "0" (String (JS.upper_char c3) "00")))).

Definition Phil_shorthand_check (c1 c2 c3 : ascii) : bool :=
  let color := String "#" (String c1 (String c2 (String c3 EmptyString))) in
  (String.eqb (Phil_decoded_color color) (Phil_shorthand_read c1 c2 c3) &&
   (blength (PhilCompress.encodeColor color) =? 4))%bool.

(** A text that a number cannot run into: it is empty, or it starts
    with a character that is no digit and no letter of an exponent. *)
Definition number_stop (s : string) : bool :=
  match s with
  | EmptyString => true
  | String c _ => negb (JS.is_digit c || Ascii.eqb c "e" || Ascii.eqb c "E")
  end.

(** A text that is empty or starts with a command letter. *)
Definition command_tail (s : string) : bool :=
  match s with
  | EmptyString => true
  | String c _ => PhilCompress.is_path_command c
  end.

(** What [parsePath] reads in the text that [decodePath] writes for a
    parameter. *)
Definition reparsed (param : JS.number) : JS.number :=
  JS.parseFloat (JS.toFixed 1 (tenths param)).

Definition reparsed_commands (pathCommands : list (ascii * list JS.number))
    : list (ascii * list JS.number) :=
  map (fun c => (fst c, map reparsed (snd c))) pathCommands.



(** A character from 32 to 126, as the Bg decoder takes for a
    gradient reference, other than the double quote. *)
Definition reference_char (c : ascii) : bool :=
  let n := nat_of_ascii c in
  (Nat.leb 32 n && Nat.leb n 126 && negb (Ascii.eqb c Extract.quote))%bool.




(* ================================================================== *)
(** * Properties *)
(* ================================================================== *)

(** ** Integer arithmetic of the 32-bit operators *)

Section Int32.

Lemma ToInt32_small z : - 2 ^ 31 <= z < 2 ^ 31 -> JS.ToInt32 z = z.
Proof.
  intros H. unfold JS.ToInt32.
  rewrite Z.mod_small; lia.
Qed.

Lemma ToUint32_small z : 0 <= z < 2 ^ 32 -> JS.ToUint32 z = z.
Proof.
  intros H. unfold JS.ToUint32. apply Z.mod_small; lia.
Qed.

Lemma ToInt32_range z : - 2 ^ 31 <= JS.ToInt32 z < 2 ^ 31.
Proof.
  unfold JS.ToInt32.
  pose proof (Z.mod_pos_bound (z + 2 ^ 31) (2 ^ 32) ltac:(lia)). lia.
Qed.

(** Bits of a number below [2^s] and of a multiple of [2^s] do not meet. *)
Lemma land_low_shiftl r c s :
  0 <= s -> 0 <= r < 2 ^ s -> Z.land r (Z.shiftl c s) = 0.
Proof.
  intros Hs Hr. apply Z.bits_inj'. intros i Hi.
  rewrite Z.land_spec, Z.bits_0.
  destruct (Z.lt_ge_cases i s) as [Hlt | Hge].
  - rewrite (Z.shiftl_spec_low c s i Hlt). apply andb_false_r.
  - replace (Z.testbit r i) with false; [reflexivity |].
    symmetry. destruct (Z.eq_dec r 0) as [-> | Hnz]; [apply Z.bits_0 |].
    apply Z.bits_above_log2; [lia |].
    apply Z.lt_le_trans with s; [| exact Hge].
    apply Z.log2_lt_pow2; lia.
Qed.

Lemma lor_shiftl_add r c s :
  0 <= s -> 0 <= r < 2 ^ s -> Z.lor r (Z.shiftl c s) = r + c * 2 ^ s.
Proof.
  intros Hs Hr.
  pose proof (land_low_shiftl r c s Hs Hr) as Hdisj.
  rewrite <- Z.lxor_lor by exact Hdisj.
  rewrite <- Z.add_nocarry_lxor by exact Hdisj.
  rewrite Z.shiftl_mul_pow2 by exact Hs. reflexivity.
Qed.

Lemma lor_mul_pow2_add r c s :
  0 <= s -> 0 <= r < 2 ^ s -> Z.lor r (c * 2 ^ s) = r + c * 2 ^ s.
Proof.
  intros Hs Hr. rewrite <- Z.shiftl_mul_pow2 by exact Hs.
  rewrite lor_shiftl_add by assumption.
  rewrite Z.shiftl_mul_pow2 by exact Hs. reflexivity.
Qed.

Lemma band_127 n : - 2 ^ 31 <= n < 2 ^ 31 -> JS.band n 127 = n mod 128.
Proof.
  intros H. unfold JS.band. rewrite (ToInt32_small n H).
  change (JS.ToInt32 127) with (Z.ones 7).
  rewrite Z.land_ones by lia. reflexivity.
Qed.

Lemma bor_128 x : 0 <= x < 128 -> JS.bor x 128 = x + 128.
Proof.
  intros H. unfold JS.bor. rewrite ToInt32_small by lia.
  change (JS.ToInt32 128) with (Z.shiftl 1 7).
  rewrite lor_shiftl_add by lia. lia.
Qed.

Lemma shr_7 n : 0 <= n < 2 ^ 32 -> JS.shr n 7 = n / 128.
Proof.
  intros H. unfold JS.shr. rewrite (ToUint32_small n H).
  change (JS.ToUint32 7 mod 32) with 7.
  rewrite Z.shiftr_div_pow2 by lia. reflexivity.
Qed.

Lemma shl_small c s :
  0 <= s < 32 -> 0 <= c -> c * 2 ^ s < 2 ^ 31 -> JS.shl c s = c * 2 ^ s.
Proof.
  intros Hs Hc Hb. unfold JS.shl.
  assert (c < 2 ^ 31) by (assert (1 <= 2 ^ s) by (apply Z.pow_le_mono_r with (b := 0) (c := s); lia); nia).
  rewrite (ToInt32_small c) by lia.
  unfold JS.ToUint32. rewrite (Z.mod_small s) by lia. rewrite (Z.mod_small s) by lia.
  rewrite Z.shiftl_mul_pow2 by lia.
  apply ToInt32_small. nia.
Qed.

(** A property of all bytes below [n], checked by enumeration. *)
Lemma forall_below (P : Z -> bool) (n : nat) :
  forallb P (map Z.of_nat (seq 0 n)) = true ->
  forall x, 0 <= x < Z.of_nat n -> P x = true.
Proof.
  intros H x Hx. rewrite forallb_forall in H. apply H.
  apply in_map_iff. exists (Z.to_nat x). split; [lia |].
  apply in_seq. lia.
Qed.

Lemma band_low_byte x : 0 <= x < 128 ->
  JS.band x 127 = x /\ JS.band x 128 = 0 /\
  JS.band (x + 128) 127 = x /\ JS.band (x + 128) 128 = 128.
Proof.
  intros H.
  pose proof (forall_below
    (fun x => (JS.band x 127 =? x) && (JS.band x 128 =? 0) &&
              (JS.band (x + 128) 127 =? x) && (JS.band (x + 128) 128 =? 128))%bool
    128 eq_refl x H) as E.
  cbv beta in E. rewrite !andb_true_iff, !Z.eqb_eq in E. tauto.
Qed.

End Int32.

(** ** The varint codec *)

Section VarInt.

Lemma buf_get_app pre x rest i :
  Z.of_nat (List.length pre) = i -> buf_get (pre ++ x :: rest) i = Some x.
Proof.
  intros H. unfold buf_get.
  destruct (i <? 0) eqn:E; [apply Z.ltb_lt in E; lia |].
  subst i. rewrite Nat2Z.id.
  rewrite nth_error_app2 by lia. rewrite Nat.sub_diag. reflexivity.
Qed.

Lemma blength_app (a b : Buffer) : blength (a ++ b) = blength a + blength b.
Proof. unfold blength. rewrite length_app. lia. Qed.

Lemma blength_cons x (b : Buffer) : blength (x :: b) = 1 + blength b.
Proof. unfold blength. cbn [List.length]. lia. Qed.

Lemma blength_nonneg (b : Buffer) : 0 <= blength b.
Proof. unfold blength. lia. Qed.

Lemma varint_groups_length k n : (1 <= List.length (varint_groups k n) <= S k)%nat.
Proof.
  revert n. induction k as [| k IH]; intros n; cbn [varint_groups].
  - cbn. lia.
  - destruct (128 <=? n); cbn [List.length]; [specialize (IH (n / 128)) |]; lia.
Qed.

Lemma varint_groups_bytes k n :
  0 <= n < 128 ^ Z.of_nat (S k) ->
  Forall (fun b => 0 <= b < 256) (varint_groups k n).
Proof.
  revert n. induction k as [| k IH]; intros n H; cbn [varint_groups].
  - constructor; [| constructor]. change (128 ^ Z.of_nat 1) with 128 in H. lia.
  - destruct (128 <=? n) eqn:E.
    + constructor.
      * pose proof (Z.mod_pos_bound n 128 ltac:(lia)). lia.
      * apply IH. rewrite Nat2Z.inj_succ, Z.pow_succ_r in H by lia.
        split; [apply Z.div_pos; lia | apply Z.div_lt_upper_bound; lia].
    + apply Z.leb_gt in E. constructor; [lia | constructor].
Qed.

Lemma Buffer_from_bytes l :
  Forall (fun b => 0 <= b < 256) l -> Buffer_from l = l.
Proof.
  induction 1 as [| x l Hx _ IH]; [reflexivity |].
  cbn. rewrite Z.mod_small by lia. f_equal. exact IH.
Qed.

(** The encoding loop produces the groups of [n]. *)
Lemma encodeVarInt_loop_groups fuel :
  forall n bytes, 0 <= n < 2 ^ 31 -> n < 128 ^ Z.of_nat (S fuel) ->
  exists b n', Compress.encodeVarInt_loop (S fuel) n bytes = Ret (b, n') /\
               b ++ [n'] = bytes ++ varint_groups fuel n.
Proof.
  induction fuel as [| fuel IH]; intros n bytes Hn Hf.
  - change (128 ^ Z.of_nat 1) with 128 in Hf.
    cbn. replace (128 <=? n) with false by (symmetry; apply Z.leb_gt; lia).
    exists bytes, n. split; reflexivity.
  - remember (S fuel) as f eqn:Ef.
    cbn [Compress.encodeVarInt_loop]. subst f.
    cbn [varint_groups].
    destruct (128 <=? n) eqn:E.
    + apply Z.leb_le in E.
      rewrite shr_7 by lia.
      rewrite band_127 by lia.
      rewrite bor_128 by (apply Z.mod_pos_bound; lia).
      destruct (IH (n / 128) (bytes ++ [n mod 128 + 128])) as (b & n' & Hl & Hb).
      * split; [apply Z.div_pos; lia |].
        apply Z.div_lt_upper_bound; lia.
      * rewrite Nat2Z.inj_succ, Z.pow_succ_r in Hf by lia.
        apply Z.div_lt_upper_bound; lia.
      * exists b, n'. split; [exact Hl |].
        rewrite Hb. rewrite <- app_assoc. reflexivity.
    + exists bytes, n. split; reflexivity.
Qed.

Lemma encodeVarInt_groups n :
  0 <= n < 2 ^ 31 -> Compress.encodeVarInt n = Ret (varint_groups 5 n).
Proof.
  intros Hn. unfold Compress.encodeVarInt.
  destruct (n =? 0) eqn:E0.
  - apply Z.eqb_eq in E0. subst n. reflexivity.
  - destruct (encodeVarInt_loop_groups 5 n [] Hn) as (b & n' & Hl & Hb).
    { change (128 ^ Z.of_nat 6) with (2 ^ 42). lia. }
    rewrite Hl. cbn [bind]. rewrite Hb. cbn [app].
    rewrite Buffer_from_bytes; [reflexivity |].
    apply varint_groups_bytes. change (128 ^ Z.of_nat 6) with (2 ^ 42). lia.
Qed.

(** The decoding loop reads the groups back, wherever they lie in the
    buffer and whatever follows them. *)
Lemma decodeVarInt_loop_groups k :
  forall n pre rest fuel offset result shift bytesRead,
  0 <= n < 128 ^ Z.of_nat (S k) ->
  Z.of_nat (List.length pre) = offset + bytesRead ->
  0 <= shift < 32 -> 0 <= result < 2 ^ shift ->
  result + n * 2 ^ shift < 2 ^ 31 ->
  (List.length (varint_groups k n) <= fuel)%nat ->
  Decompress.decodeVarInt_loop fuel (pre ++ varint_groups k n ++ rest)
    offset result shift bytesRead
  = Ret (result + n * 2 ^ shift,
         bytesRead + Z.of_nat (List.length (varint_groups k n))).
Proof.
  assert (Hlast : forall n pre rest fuel offset result shift bytesRead,
    0 <= n < 128 ->
    Z.of_nat (List.length pre) = offset + bytesRead ->
    0 <= shift < 32 -> 0 <= result < 2 ^ shift ->
    result + n * 2 ^ shift < 2 ^ 31 ->
    (1 <= fuel)%nat ->
    Decompress.decodeVarInt_loop fuel (pre ++ [n] ++ rest) offset result shift bytesRead
    = Ret (result + n * 2 ^ shift, bytesRead + 1)).
  { intros n pre rest fuel offset result shift bytesRead Hn Hpre Hs Hr Hb Hf.
    destruct fuel as [| fuel]; [lia |].
    cbn [Decompress.decodeVarInt_loop app].
    replace (blength (pre ++ n :: rest) <=? offset + bytesRead) with false.
    2:{ symmetry. apply Z.leb_gt. rewrite blength_app, blength_cons.
        pose proof (blength_nonneg rest). unfold blength in *. lia. }
    rewrite (buf_get_app pre n rest _ Hpre). cbn [JS.num_of].
    destruct (band_low_byte n Hn) as (E1 & E2 & _).
    rewrite E1, E2. cbn [Z.eqb].
    rewrite shl_small by (try lia; nia).
    unfold JS.bor. rewrite !ToInt32_small by nia.
    rewrite lor_mul_pow2_add by lia. reflexivity. }
  induction k as [| k IH];
    intros n pre rest fuel offset result shift bytesRead Hn Hpre Hs Hr Hb Hf.
  - cbn [varint_groups List.length] in *.
    change (128 ^ Z.of_nat 1) with 128 in Hn.
    apply Hlast; assumption.
  - cbn [varint_groups] in *.
    destruct (128 <=? n) eqn:E.
    2:{ apply Z.leb_gt in E. cbn [List.length] in *. apply Hlast; try assumption; lia. }
    apply Z.leb_le in E.
    cbn [List.length] in Hf |- *.
    destruct fuel as [| fuel]; [lia |].
    cbn [Decompress.decodeVarInt_loop app].
    set (g := n mod 128).
    assert (Hg : 0 <= g < 128) by (apply Z.mod_pos_bound; lia).
    assert (Hdm : n = 128 * (n / 128) + g) by (apply Z.div_mod; lia).
    assert (Hq : 1 <= n / 128) by (apply Z.div_le_lower_bound; lia).
    assert (Hp : 0 < 2 ^ shift) by (apply Z.pow_pos_nonneg; lia).
    assert (Hs7 : shift + 7 < 31).
    { apply (Z.pow_lt_mono_r_iff 2); [lia | lia |].
      rewrite Z.pow_add_r by lia. change (2 ^ 7) with 128. nia. }
    replace (blength (pre ++ g + 128 :: varint_groups k (n / 128) ++ rest)
             <=? offset + bytesRead) with false.
    2:{ symmetry. apply Z.leb_gt. rewrite blength_app, blength_cons.
        pose proof (blength_nonneg (varint_groups k (n / 128) ++ rest)).
        unfold blength in *. lia. }
    rewrite (buf_get_app pre (g + 128) _ _ Hpre). cbn [JS.num_of].
    destruct (band_low_byte g Hg) as (_ & _ & E3 & E4).
    rewrite E3, E4. cbn [Z.eqb].
    rewrite shl_small by (try lia; nia).
    unfold JS.bor at 1. rewrite !ToInt32_small by nia.
    rewrite lor_mul_pow2_add by lia.
    replace (pre ++ g + 128 :: varint_groups k (n / 128) ++ rest)
      with ((pre ++ [g + 128]) ++ varint_groups k (n / 128) ++ rest)
      by (rewrite <- app_assoc; reflexivity).
    rewrite IH.
    + f_equal. f_equal.
      * rewrite Z.pow_add_r by lia. change (2 ^ 7) with 128. nia.
      * lia.
    + rewrite Nat2Z.inj_succ, Z.pow_succ_r in Hn by lia.
      split; [lia | apply Z.div_lt_upper_bound; lia].
    + rewrite length_app. cbn [List.length]. lia.
    + lia.
    + rewrite Z.pow_add_r by lia. change (2 ^ 7) with 128. nia.
    + rewrite Z.pow_add_r by lia. change (2 ^ 7) with 128. nia.
    + lia.
Qed.

(** Reading the encoding of [n] placed anywhere in a buffer. *)
Lemma decodeVarInt_encoded n pre rest :
  0 <= n < 2 ^ 31 ->
  Decompress.decodeVarInt (pre ++ varint_groups 5 n ++ rest) (blength pre)
  = Ret (n, blength (varint_groups 5 n)).
Proof.
  intros Hn. unfold Decompress.decodeVarInt.
  rewrite decodeVarInt_loop_groups.
  - rewrite Z.pow_0_r, Z.mul_1_r, !Z.add_0_l. reflexivity.
  - change (128 ^ Z.of_nat 6) with (2 ^ 42). lia.
  - unfold blength. lia.
  - lia.
  - cbn. lia.
  - lia.
  - rewrite !length_app. lia.
Qed.

End VarInt.

(** C1: for every integer [n] in [0, 2^28), [encodeVarInt n] returns a
    buffer, and [decodeVarInt] at offset 0 of that buffer returns the
    value [n] with [bytesRead] the length of the buffer. *)
Theorem varint_roundtrip n :
  0 <= n < 2 ^ 28 ->
  exists buf, Compress.encodeVarInt n = Ret buf /\
              Decompress.decodeVarInt buf 0 = Ret (n, blength buf).
Proof.
  intros Hn. exists (varint_groups 5 n). split.
  - apply encodeVarInt_groups. lia.
  - pose proof (decodeVarInt_encoded n [] [] ltac:(lia)) as H.
    cbn [app] in H. rewrite app_nil_r in H. exact H.
Qed.

Lemma varint_roundtrip_witness :
  0 <= 300 < 2 ^ 28 /\
  exists buf, Compress.encodeVarInt 300 = Ret buf /\
              Decompress.decodeVarInt buf 0 = Ret (300, blength buf).
Proof.
  split; [lia | apply (varint_roundtrip 300); lia].
Defined.

(** ** Zigzag *)

Section ZigZag.

(** The zigzag map in arithmetic: [2n] for [n >= 0], [-2n - 1] below. *)
Lemma zigzag_value n :
  - 2 ^ 30 <= n < 2 ^ 30 ->
  JS.bxor (JS.shl n 1) (JS.sar n 31) = if n <? 0 then - 2 * n - 1 else 2 * n.
Proof.
  intros Hn.
  assert (Hshl : JS.shl n 1 = 2 * n).
  { unfold JS.shl. rewrite (ToInt32_small n) by lia.
    change (JS.ToUint32 1 mod 32) with 1.
    rewrite Z.shiftl_mul_pow2 by lia. rewrite ToInt32_small by lia. lia. }
  assert (Hsar : JS.sar n 31 = if n <? 0 then -1 else 0).
  { unfold JS.sar. rewrite (ToInt32_small n) by lia.
    change (JS.ToUint32 31 mod 32) with 31.
    rewrite Z.shiftr_div_pow2 by lia.
    destruct (n <? 0) eqn:E.
    - apply Z.ltb_lt in E.
      assert (- 1 * 2 ^ 31 <= n < (- 1 + 1) * 2 ^ 31) by lia.
      symmetry. apply Z.div_unique with (r := n + 2 ^ 31); lia.
    - apply Z.ltb_ge in E. apply Z.div_small. lia. }
  rewrite Hshl, Hsar. unfold JS.bxor.
  rewrite (ToInt32_small (2 * n)) by lia.
  destruct (n <? 0).
  - change (JS.ToInt32 (-1)) with (-1).
    rewrite Z.lxor_m1_r. unfold Z.lnot. lia.
  - change (JS.ToInt32 0) with 0. rewrite Z.lxor_0_r. reflexivity.
Qed.

(** The inverse map of the decoder, on a value below [2^31]. *)
Lemma unzigzag_value v :
  0 <= v < 2 ^ 31 ->
  JS.bxor (JS.shr v 1) (- JS.band v 1) =
  if Z.even v then v / 2 else - (v / 2) - 1.
Proof.
  intros Hv.
  assert (Hshr : JS.shr v 1 = v / 2).
  { unfold JS.shr. rewrite ToUint32_small by lia.
    change (JS.ToUint32 1 mod 32) with 1.
    rewrite Z.shiftr_div_pow2 by lia. reflexivity. }
  assert (Hand : JS.band v 1 = v mod 2).
  { unfold JS.band. rewrite ToInt32_small by lia.
    change (JS.ToInt32 1) with (Z.ones 1).
    rewrite Z.land_ones by lia. reflexivity. }
  rewrite Hshr, Hand. unfold JS.bxor.
  assert (0 <= v / 2 < 2 ^ 31)
    by (split; [apply Z.div_pos; lia | apply Z.div_lt_upper_bound; lia]).
  rewrite (ToInt32_small (v / 2)) by lia.
  rewrite Zmod_even. destruct (Z.even v).
  - change (JS.ToInt32 (- 0)) with 0. rewrite Z.lxor_0_r. reflexivity.
  - change (JS.ToInt32 (- 1)) with (-1).
    rewrite Z.lxor_m1_r. unfold Z.lnot. lia.
Qed.

Lemma unzigzag_zigzag n :
  - 2 ^ 30 <= n < 2 ^ 30 ->
  let v := JS.bxor (JS.shl n 1) (JS.sar n 31) in
  0 <= v < 2 ^ 31 /\ JS.bxor (JS.shr v 1) (- JS.band v 1) = n.
Proof.
  intros Hn v. subst v. rewrite zigzag_value by exact Hn.
  destruct (n <? 0) eqn:E.
  - apply Z.ltb_lt in E. split; [lia |].
    rewrite unzigzag_value by lia.
    replace (- 2 * n - 1) with (1 + 2 * (- n - 1)) by lia.
    rewrite Z.even_add_mul_2. cbn [Z.even].
    replace (1 + 2 * (- n - 1)) with ((- n - 1) * 2 + 1) by lia.
    rewrite Z.div_add_l by lia. change (1 / 2) with 0. lia.
  - apply Z.ltb_ge in E. split; [lia |].
    rewrite unzigzag_value by lia.
    replace (2 * n) with (0 + 2 * n) by lia.
    rewrite Z.even_add_mul_2. cbn [Z.even].
    replace (0 + 2 * n) with (n * 2) by lia.
    apply Z.div_mul. lia.
Qed.

End ZigZag.

(** C2: for every integer [n] in (-2^27, 2^27), [encodeSignedVarInt n]
    returns a buffer, and [decodeSignedVarInt] at offset 0 of that
    buffer returns the value [n]; the encoder sends the zigzag value
    [(n << 1) ^ (n >> 31)] through [encodeVarInt], the decoder applies
    [(v >>> 1) ^ -(v & 1)], both with 32-bit operators. *)
Theorem signed_varint_roundtrip n :
  - 2 ^ 27 < n < 2 ^ 27 ->
  exists buf,
    Compress.encodeSignedVarInt n = Ret buf /\
    Compress.encodeVarInt (JS.bxor (JS.shl n 1) (JS.sar n 31)) = Ret buf /\
    Decompress.decodeSignedVarInt buf 0 = Ret (n, blength buf).
Proof.
  intros Hn.
  destruct (unzigzag_zigzag n ltac:(lia)) as [Hv Hinv].
  set (v := JS.bxor (JS.shl n 1) (JS.sar n 31)) in *.
  exists (varint_groups 5 v).
  assert (He : Compress.encodeVarInt v = Ret (varint_groups 5 v))
    by (apply encodeVarInt_groups; exact Hv).
  split; [exact He | split; [exact He |]].
  unfold Decompress.decodeSignedVarInt.
  pose proof (decodeVarInt_encoded v [] [] Hv) as H.
  cbn [app] in H. rewrite app_nil_r in H.
  change (blength []) with 0 in H. rewrite H. cbn [bind].
  rewrite Hinv. reflexivity.
Qed.

Lemma signed_varint_roundtrip_witness :
  - 2 ^ 27 < -150 < 2 ^ 27 /\
  exists buf,
    Compress.encodeSignedVarInt (-150) = Ret buf /\
    Compress.encodeVarInt (JS.bxor (JS.shl (-150) 1) (JS.sar (-150) 31)) = Ret buf /\
    Decompress.decodeSignedVarInt buf 0 = Ret (-150, blength buf).
Proof.
  split; [lia | apply (signed_varint_roundtrip (-150)); lia].
Defined.

(** ** Truncated varints *)

Section Truncation.

Lemma buf_get_bytes buffer i :
  bytes buffer -> 0 <= i < blength buffer ->
  exists b, buf_get buffer i = Some b /\ 0 <= b < 256.
Proof.
  intros Hb Hi. unfold buf_get, blength in *.
  replace (i <? 0) with false by (symmetry; apply Z.ltb_ge; lia).
  destruct (nth_error buffer (Z.to_nat i)) as [b |] eqn:E.
  - exists b. split; [reflexivity |].
    unfold bytes in Hb. rewrite Forall_forall in Hb.
    apply Hb. eapply nth_error_In. exact E.
  - apply nth_error_None in E. lia.
Qed.

Lemma band_128_high b : 128 <= b < 256 -> JS.band b 128 = 128.
Proof.
  intros H. destruct (band_low_byte (b - 128) ltac:(lia)) as (_ & _ & _ & E).
  replace (b - 128 + 128) with b in E by lia. exact E.
Qed.

Lemma band_128_low b : 0 <= b < 128 -> JS.band b 128 = 0.
Proof. intros H. apply (band_low_byte b H). Qed.

(** With only continuation bytes ahead, the loop runs into the end of
    the buffer and throws. *)
Lemma decodeVarInt_loop_throws fuel :
  forall buffer offset result shift bytesRead,
  bytes buffer -> 0 <= offset + bytesRead ->
  (forall i, offset + bytesRead <= i < blength buffer -> high_bit buffer i) ->
  (Z.to_nat (blength buffer - (offset + bytesRead)) < fuel)%nat ->
  Decompress.decodeVarInt_loop fuel buffer offset result shift bytesRead
  = Throw (VarintOverflow offset).
Proof.
  induction fuel as [| fuel IH]; intros buffer offset result shift bytesRead Hb H0 Hall Hf;
    [lia |].
  cbn [Decompress.decodeVarInt_loop].
  destruct (blength buffer <=? offset + bytesRead) eqn:E; [reflexivity |].
  apply Z.leb_gt in E.
  destruct (Hall (offset + bytesRead) ltac:(lia)) as (b & Hget & Hhigh).
  destruct (buf_get_bytes buffer (offset + bytesRead) Hb ltac:(lia)) as (b' & Hget' & Hrange).
  rewrite Hget in Hget'. injection Hget' as <-.
  rewrite Hget. cbn [JS.num_of].
  rewrite band_128_high by lia. cbn [Z.eqb].
  apply IH; [assumption | lia | intros i Hi; apply Hall; lia | lia].
Qed.

(** With a first byte without continuation bit at [j], the loop
    returns after that byte. *)
Lemma decodeVarInt_loop_returns fuel :
  forall buffer offset result shift bytesRead j,
  bytes buffer -> 0 <= offset + bytesRead ->
  first_low buffer (offset + bytesRead) j ->
  (Z.to_nat (j - (offset + bytesRead)) < fuel)%nat ->
  exists v, Decompress.decodeVarInt_loop fuel buffer offset result shift bytesRead
            = Ret (v, j - offset + 1).
Proof.
  induction fuel as [| fuel IH];
    intros buffer offset result shift bytesRead j Hb H0 (Hj & (b & Hget & Hlow) & Hall) Hf;
    [lia |].
  cbn [Decompress.decodeVarInt_loop].
  replace (blength buffer <=? offset + bytesRead) with false
    by (symmetry; apply Z.leb_gt; lia).
  destruct (Z.eq_dec j (offset + bytesRead)) as [-> | Hne].
  - rewrite Hget. cbn [JS.num_of].
    destruct (buf_get_bytes buffer (offset + bytesRead) Hb ltac:(lia)) as (b' & Hget' & Hrange).
    rewrite Hget in Hget'. injection Hget' as <-.
    rewrite band_128_low by lia. cbn [Z.eqb].
    eexists. f_equal. f_equal. lia.
  - destruct (Hall (offset + bytesRead) ltac:(lia)) as (c & Hc & Hhigh).
    destruct (buf_get_bytes buffer (offset + bytesRead) Hb ltac:(lia)) as (c' & Hc' & Hrange).
    rewrite Hc in Hc'. injection Hc' as <-.
    rewrite Hc. cbn [JS.num_of].
    rewrite band_128_high by lia. cbn [Z.eqb].
    apply IH; [assumption | lia | | lia].
    split; [lia | split; [exists b; split; assumption |]].
    intros i Hi. apply Hall. lia.
Qed.

(** Among the next [n] bytes either all carry the continuation bit or
    there is a first one that does not. *)
Lemma scan_high_bits buffer start :
  bytes buffer -> 0 <= start ->
  forall n : nat, start + Z.of_nat n <= blength buffer ->
  (forall i, start <= i < start + Z.of_nat n -> high_bit buffer i) \/
  (exists j, j < start + Z.of_nat n /\ first_low buffer start j).
Proof.
  intros Hb H0. induction n as [| n IH]; intros Hn.
  - left. intros i Hi. lia.
  - destruct IH as [Hall | (j & Hj & Hfirst)]; [lia | |].
    + destruct (buf_get_bytes buffer (start + Z.of_nat n) Hb ltac:(lia)) as (b & Hget & Hrange).
      destruct (Z_lt_ge_dec b 128) as [Hlow | Hhigh].
      * right. exists (start + Z.of_nat n). split; [lia |].
        split; [lia | split; [exists b; split; assumption | exact Hall]].
      * left. intros i Hi.
        destruct (Z.eq_dec i (start + Z.of_nat n)) as [-> | Hne].
        -- exists b. split; [exact Hget | lia].
        -- apply Hall. lia.
    + right. exists j. split; [lia | exact Hfirst].
Qed.

Lemma high_bit_not_low buffer i b :
  high_bit buffer i -> buf_get buffer i = Some b -> b < 128 -> False.
Proof.
  intros (c & Hc & Hhigh) Hget Hlow. rewrite Hc in Hget. injection Hget as ->. lia.
Qed.

End Truncation.

(** C6: on a buffer of bytes and an offset that is not negative,
    [decodeVarInt] throws exactly when the varint is truncated (the
    offset is at or past the end, or every byte from the offset to the
    end has the high bit set), and the error is the buffer overflow
    one; otherwise it returns, and [bytesRead] counts the bytes up to
    and including the first one whose high bit is unset. *)
Theorem decodeVarInt_throws_iff_truncated buffer offset :
  bytes buffer -> 0 <= offset ->
  ((exists e, Decompress.decodeVarInt buffer offset = Throw e) <-> truncated buffer offset) /\
  (truncated buffer offset ->
   Decompress.decodeVarInt buffer offset = Throw (VarintOverflow offset)) /\
  (forall j, first_low buffer offset j ->
   exists v, Decompress.decodeVarInt buffer offset = Ret (v, j - offset + 1)) /\
  (~ truncated buffer offset -> exists j, first_low buffer offset j).
Proof.
  intros Hb H0.
  assert (Hthrow : truncated buffer offset ->
            Decompress.decodeVarInt buffer offset = Throw (VarintOverflow offset)).
  { intros Ht. unfold Decompress.decodeVarInt.
    apply decodeVarInt_loop_throws; try assumption; try lia.
    - intros i Hi. destruct Ht as [Hend | Hall]; [lia | apply Hall; lia].
    - unfold blength. lia. }
  assert (Hret : forall j, first_low buffer offset j ->
            exists v, Decompress.decodeVarInt buffer offset = Ret (v, j - offset + 1)).
  { intros j Hj. unfold Decompress.decodeVarInt.
    apply decodeVarInt_loop_returns; try assumption; try lia.
    - rewrite Z.add_0_r. exact Hj.
    - destruct Hj as (Hj & _). unfold blength in *. lia. }
  assert (Hscan : truncated buffer offset \/ exists j, first_low buffer offset j).
  { destruct (Z_le_gt_dec (blength buffer) offset) as [Hend | Hin]; [left; left; exact Hend |].
    destruct (scan_high_bits buffer offset Hb H0 (Z.to_nat (blength buffer - offset)) ltac:(lia))
      as [Hall | (j & _ & Hj)].
    - left. right. intros i Hi. apply Hall. lia.
    - right. exists j. exact Hj. }
  split; [| split; [exact Hthrow | split; [exact Hret |]]].
  - split.
    + intros (e & He). destruct Hscan as [Ht | (j & Hj)]; [exact Ht |].
      destruct (Hret j Hj) as (v & Hv). rewrite Hv in He. discriminate.
    + intros Ht. eexists. apply Hthrow. exact Ht.
  - intros Hnt. destruct Hscan as [Ht | Hj]; [contradiction | exact Hj].
Qed.

Lemma decodeVarInt_throws_iff_truncated_witness :
  bytes [172; 2; 128] /\ 0 <= 0 /\
  (exists v, Decompress.decodeVarInt [172; 2; 128] 0 = Ret (v, 1 - 0 + 1)) /\
  Decompress.decodeVarInt [172; 2; 128] 2 = Throw (VarintOverflow 2).
Proof.
  assert (Hb : bytes [172; 2; 128]) by (repeat constructor; lia).
  split; [exact Hb | split; [lia | split]].
  - apply (decodeVarInt_throws_iff_truncated [172; 2; 128] 0 Hb ltac:(lia)).
    split; [cbn; lia | split; [exists 2; split; [reflexivity | lia] |]].
    intros i Hi. assert (i = 0) by lia. subst i.
    exists 172. split; [reflexivity | lia].
  - apply (decodeVarInt_throws_iff_truncated [172; 2; 128] 2 Hb ltac:(lia)).
    right. intros i Hi. assert (i = 2) by (cbn in Hi; lia). subst i.
    exists 128. split; [reflexivity | lia].
Defined.

(** ** The color codec *)

Section Colors.

Lemma startsWith_upper s p :
  JS.startsWith s p = true ->
  JS.startsWith (JS.toUpperCase s) (JS.toUpperCase p) = true.
Proof.
  unfold JS.startsWith. revert p.
  induction s as [| a s IH]; intros [| b p]; cbn; try reflexivity; try discriminate.
  destruct (ascii_dec b a) as [-> | Hne]; [| discriminate].
  intros H. destruct (ascii_dec (JS.upper_char a) (JS.upper_char a)) as [_ | Hn];
    [apply IH; exact H | contradiction].
Qed.

Lemma toUpperCase_app s t :
  JS.toUpperCase (s ++ t) = (JS.toUpperCase s ++ JS.toUpperCase t)%string.
Proof.
  unfold JS.toUpperCase. induction s as [| a s IH]; cbn; [reflexivity | f_equal; exact IH].
Qed.

Lemma toUpperCase_idem s : JS.toUpperCase (JS.toUpperCase s) = JS.toUpperCase s.
Proof.
  unfold JS.toUpperCase. induction s as [| a s IH]; cbn; [reflexivity |].
  f_equal; [| exact IH].
  destruct a as [[] [] [] [] [] [] [] []]; reflexivity.
Qed.

Lemma startsWith_sharp s : JS.startsWith ("#" ++ s) "#" = true.
Proof. destruct s; reflexivity. Qed.

(** The facts about a hex key that the encoder relies on. *)
Lemma dictionary_hex_facts c :
  dictionary_hex c ->
  c <> "NONE" /\ c <> "" /\
  JS.startsWith c "#" = false /\ JS.startsWith c "RGB" = false /\
  String.length c = 6%nat /\ JS.toUpperCase c = c /\
  exists code, Compress.dict_get Compress.COLOR_DICT c = Some code /\
               1 <= code <= 18 /\
               Decompress.code_get Decompress.COLOR_DICT code = Some c.
Proof.
  intros (Hnone & code & Hin).
  cbn in Hin.
  repeat (destruct Hin as [Hin | Hin];
          [injection Hin as <- <-;
           first [ exfalso; apply Hnone; reflexivity
                 | repeat split; try discriminate;
                   eexists; repeat split; try reflexivity; lia ] |]).
  contradiction.
Qed.

(** A string whose upper-case form is a hex key takes the dictionary
    branch, with or without a leading [#]. *)
Lemma encodeColor_hex_key c' :
  dictionary_hex (JS.toUpperCase c') ->
  Compress.encodeColor_hex c' = JS.toUpperCase c' /\
  Compress.encodeColor_hex ("#" ++ c') = JS.toUpperCase c' /\
  (c' =? "")%string = false /\ (c' =? "none")%string = false.
Proof.
  intros Hk.
  destruct (dictionary_hex_facts _ Hk) as
    (HNONE & Hempty & Hsharp & Hrgb & Hlen & _ & code & Hget & Hcode & _).
  assert (H1 : JS.startsWith c' "#" = false).
  { destruct (JS.startsWith c' "#") eqn:E; [| reflexivity].
    apply startsWith_upper in E. change (JS.toUpperCase "#") with "#" in E. congruence. }
  assert (H2 : JS.startsWith c' "rgb" = false).
  { destruct (JS.startsWith c' "rgb") eqn:E; [| reflexivity].
    apply startsWith_upper in E. change (JS.toUpperCase "rgb") with "RGB" in E. congruence. }
  repeat split.
  - unfold Compress.encodeColor_hex. rewrite H1, H2, Hget.
    cbn [Compress.truthy]. replace (code =? 0) with false by (symmetry; apply Z.eqb_neq; lia).
    reflexivity.
  - unfold Compress.encodeColor_hex.
    rewrite startsWith_sharp.
    change (JS.slice1 ("#" ++ c')) with c'.
    rewrite Hlen. reflexivity.
  - apply String.eqb_neq. intros ->. apply Hempty. reflexivity.
  - apply String.eqb_neq. intros ->. apply HNONE. reflexivity.
Qed.

End Colors.

(** C3: every color of the dictionary of [compress.js] survives
    [encodeColor] followed by [decodeColor], up to case: ['none']
    comes back as ['none'] from a one-byte buffer, and a hex key, in
    any mix of upper and lower case and with or without the leading
    [#], comes back as [#] followed by its upper-case six digits, one
    byte being read. *)
Theorem dictionary_color_roundtrip c c' :
  (exists code, In (c, code) Compress.COLOR_DICT) ->
  (if (c =? "none")%string then c' = c else JS.toUpperCase c' = c) ->
  let expected := if (c =? "none")%string then "none" else ("#" ++ c)%string in
  List.length (Compress.encodeColor c') = 1%nat /\
  Decompress.decodeColor (Compress.encodeColor c') 0 = Ret (expected, 1) /\
  Decompress.decodeColor
    (Compress.encodeColor (if (c =? "none")%string then c' else ("#" ++ c')%string)) 0
  = Ret (expected, 1).
Proof.
  intros Hin Hc' expected. subst expected.
  destruct (c =? "none")%string eqn:En.
  - apply String.eqb_eq in En. subst c c'. repeat split; reflexivity.
  - apply String.eqb_neq in En.
    assert (Hk : dictionary_hex (JS.toUpperCase c')) by (rewrite Hc'; split; assumption).
    destruct (encodeColor_hex_key c' Hk) as (Hh1 & Hh2 & Hne & Hnn).
    destruct (dictionary_hex_facts _ Hk) as (_ & _ & _ & _ & _ & _ & code & Hget & Hcode & Hback).
    assert (E1 : Compress.encodeColor c' = [code]).
    { unfold Compress.encodeColor. rewrite Hne, Hnn. cbn [orb].
      rewrite Hh1, Hget. cbn [Compress.truthy JS.num_of Buffer_from map].
      replace (code =? 0) with false by (symmetry; apply Z.eqb_neq; lia).
      cbn [negb]. rewrite Z.mod_small by lia. reflexivity. }
    assert (E2 : Compress.encodeColor ("#" ++ c') = [code]).
    { unfold Compress.encodeColor.
      change (("#" ++ c' =? "")%string) with false.
      replace (("#" ++ c' =? "none")%string) with false by reflexivity.
      cbn [orb]. rewrite Hh2, Hget. cbn [Compress.truthy JS.num_of Buffer_from map].
      replace (code =? 0) with false by (symmetry; apply Z.eqb_neq; lia).
      cbn [negb]. rewrite Z.mod_small by lia. reflexivity. }
    assert (D : Decompress.decodeColor [code] 0 = Ret (("#" ++ c)%string, 1)).
    { unfold Decompress.decodeColor. cbn [blength List.length Z.of_nat].
      change (Z.pos (Pos.of_succ_nat 0) <=? 0) with false. cbv iota.
      change (buf_get [code] 0) with (Some code). cbv beta iota.
      replace (code <? 254) with true by (symmetry; apply Z.ltb_lt; lia).
      rewrite Hback.
      replace (code =? 0) with false by (symmetry; apply Z.eqb_neq; lia).
      rewrite ?Hc'. reflexivity. }
    rewrite E1, E2. repeat split; exact D.
Qed.

Lemma dictionary_color_roundtrip_witness :
  Decompress.decodeColor (Compress.encodeColor "ffa500") 0 = Ret ("#FFA500", 1) /\
  Decompress.decodeColor (Compress.encodeColor "#ffa500") 0 = Ret ("#FFA500", 1) /\
  Decompress.decodeColor (Compress.encodeColor "none") 0 = Ret ("none", 1).
Proof.
  split; [| split].
  - apply (dictionary_color_roundtrip "FFA500" "ffa500").
    + exists 11. cbn. tauto.
    + reflexivity.
  - apply (dictionary_color_roundtrip "FFA500" "ffa500").
    + exists 11. cbn. tauto.
    + reflexivity.
  - apply (dictionary_color_roundtrip "none" "none").
    + exists 0. cbn. tauto.
    + reflexivity.
Defined.

(** ** Colors outside the dictionary *)

Section FullColor.

(** The two hex digits of a byte: their shape, their case, and the
    number [parseInt(..., 16)] reads back from them. *)
Lemma hex2_digits x :
  0 <= x < 256 ->
  exists d1 d2,
    hex2 x = String d1 (String d2 EmptyString) /\
    JS.parseInt (String d1 (String d2 EmptyString)) 16 = Some x.
Proof.
  intros Hx.
  pose proof (forall_below
    (fun x => match hex2 x with
              | String d1 (String d2 EmptyString) =>
                  match JS.parseInt (String d1 (String d2 EmptyString)) 16 with
                  | Some y => y =? x
                  | None => false
                  end
              | _ => false
              end) 256 eq_refl x Hx) as E.
  cbv beta in E.
  destruct (hex2 x) as [| d1 [| d2 [| ? ?]]]; try discriminate.
  exists d1, d2. split; [reflexivity |].
  destruct (JS.parseInt (String d1 (String d2 "")) 16) as [y |]; [| discriminate].
  apply Z.eqb_eq in E. subst y. reflexivity.
Qed.

End FullColor.

(** C5: for every triple of bytes [(r, g, b)] whose six hex digits
    are not a key of the dictionary, [encodeColor] of [#RRGGBB] (the
    digits in any case) is the 4-byte form [254, r, g, b], and
    [decodeColor] reads these 4 bytes back to [#RRGGBB], whose digit
    pairs are the same three byte values. *)
Theorem full_color_roundtrip r g b c' :
  0 <= r < 256 -> 0 <= g < 256 -> 0 <= b < 256 ->
  Compress.dict_get Compress.COLOR_DICT (hex6 r g b) = None ->
  JS.toUpperCase c' = hex6 r g b ->
  Compress.encodeColor ("#" ++ c') = [254; r; g; b] /\
  Decompress.decodeColor [254; r; g; b] 0 = Ret (("#" ++ hex6 r g b)%string, 4) /\
  JS.parseInt (JS.substring 0 2 (hex6 r g b)) 16 = Some r /\
  JS.parseInt (JS.substring 2 4 (hex6 r g b)) 16 = Some g /\
  JS.parseInt (JS.substring 4 6 (hex6 r g b)) 16 = Some b.
Proof.
  intros Hr Hg Hb Hmiss Hc'.
  destruct (hex2_digits r Hr) as (r1 & r2 & Er & Pr).
  destruct (hex2_digits g Hg) as (g1 & g2 & Eg & Pg).
  destruct (hex2_digits b Hb) as (b1 & b2 & Eb & Pb).
  assert (Hsub :
    JS.parseInt (JS.substring 0 2 (hex6 r g b)) 16 = Some r /\
    JS.parseInt (JS.substring 2 4 (hex6 r g b)) 16 = Some g /\
    JS.parseInt (JS.substring 4 6 (hex6 r g b)) 16 = Some b).
  { unfold hex6. rewrite Er, Eg, Eb.
    change (JS.substring 0 2 _) with (String r1 (String r2 "")).
    change (JS.substring 2 4 _) with (String g1 (String g2 "")).
    change (JS.substring 4 6 _) with (String b1 (String b2 "")).
    repeat split; assumption. }
  split; [| split; [| exact Hsub]].
  - unfold Compress.encodeColor.
    replace (("#" ++ c' =? "")%string) with false by reflexivity.
    replace (("#" ++ c' =? "none")%string) with false by reflexivity.
    cbn [orb].
    assert (Hhex : Compress.encodeColor_hex ("#" ++ c') = hex6 r g b).
    { unfold Compress.encodeColor_hex. rewrite startsWith_sharp.
      change (JS.slice1 ("#" ++ c')) with c'. rewrite Hc'.
      unfold hex6. rewrite Er, Eg, Eb. reflexivity. }
    rewrite Hhex, Hmiss. cbn [Compress.truthy].
    destruct Hsub as (S1 & S2 & S3). rewrite S1, S2, S3.
    unfold byte_of. cbn [JS.num_of].
    rewrite !Z.mod_small by lia. reflexivity.
  - unfold Decompress.decodeColor.
    change (blength [254; r; g; b]) with 4.
    change (4 <=? 0) with false. cbv iota.
    change (buf_get [254; r; g; b] 0) with (Some 254). cbv beta iota.
    change (254 <? 254) with false. cbv iota.
    change (254 =? 254) with true. cbv iota.
    change (4 <=? 0 + 3) with false. cbv iota.
    unfold Decompress.hex_byte.
    change (buf_get [254; r; g; b] (0 + 1)) with (Some r).
    change (buf_get [254; r; g; b] (0 + 2)) with (Some g).
    change (buf_get [254; r; g; b] (0 + 3)) with (Some b).
    cbn [bind].
    rewrite !toUpperCase_app. reflexivity.
Qed.

Lemma full_color_roundtrip_witness :
  Compress.encodeColor "#12abEF" = [254; 18; 171; 239] /\
  Decompress.decodeColor [254; 18; 171; 239] 0 = Ret ("#12ABEF", 4).
Proof.
  pose proof (full_color_roundtrip 18 171 239 "12abEF"
                ltac:(lia) ltac:(lia) ltac:(lia) eq_refl eq_refl) as (H1 & H2 & _).
  split; [exact H1 | exact H2].
Defined.

(** C9, as the code has it: a color string of ASCII characters that
    is neither empty nor ['none'], does not start with [#], has no
    match of the [rgb(r,g,b)] pattern if it starts with [rgb], and
    whose upper-case form (the key the code looks up) is no key of the
    dictionary, is encoded without any error as the one byte 1, the
    dictionary index of black, which decodes to [#000000]. *)
Theorem unknown_color_is_black color :
  is_ascii color = true ->
  color <> "" -> color <> "none" ->
  JS.startsWith color "#" = false ->
  (JS.startsWith color "rgb" = true -> JS.rgb_match color = None) ->
  Compress.dict_get Compress.COLOR_DICT (JS.toUpperCase color) = None ->
  Compress.encodeColor color = [1] /\
  Compress.dict_get Compress.COLOR_DICT "000000" = Some 1 /\
  Decompress.decodeColor (Compress.encodeColor color) 0 = Ret ("#000000", 1).
Proof.
  intros _ Hne Hnone Hsharp Hrgb Hkey.
  assert (Hhex : Compress.encodeColor_hex color = "000000").
  { unfold Compress.encodeColor_hex. rewrite Hsharp.
    destruct (JS.startsWith color "rgb") eqn:E.
    - rewrite (Hrgb eq_refl). reflexivity.
    - rewrite Hkey. reflexivity. }
  assert (He : Compress.encodeColor color = [1]).
  { unfold Compress.encodeColor.
    replace ((color =? "")%string) with false
      by (symmetry; apply String.eqb_neq; exact Hne).
    replace ((color =? "none")%string) with false
      by (symmetry; apply String.eqb_neq; exact Hnone).
    cbn [orb]. rewrite Hhex. reflexivity. }
  split; [exact He | split; [reflexivity |]].
  rewrite He. reflexivity.
Qed.

Lemma unknown_color_is_black_witness :
  Compress.encodeColor "rebeccapurple" = [1] /\
  Compress.encodeColor "rgb(1,2" = [1].
Proof.
  split.
  - apply (unknown_color_is_black "rebeccapurple");
      [reflexivity | discriminate | discriminate | reflexivity | discriminate | reflexivity].
  - apply (unknown_color_is_black "rgb(1,2");
      [reflexivity | discriminate | discriminate | reflexivity | reflexivity | reflexivity].
Defined.

(** C9 as stated fails: the six hexadecimal digits [ff0000], without
    [#], are no key of the dictionary (its keys are in upper case),
    they are not empty, not ['none'], not of the [#] form and not of
    the [rgb] form; the code looks up their upper-case form, finds
    red, and writes the index of red, not the one of black. *)
Lemma lower_case_key_is_not_black :
  "ff0000" <> "" /\ "ff0000" <> "none" /\
  JS.startsWith "ff0000" "#" = false /\
  JS.startsWith "ff0000" "rgb" = false /\ JS.rgb_match "ff0000" = None /\
  Compress.dict_get Compress.COLOR_DICT "ff0000" = None /\
  Compress.encodeColor "ff0000" = [4] /\
  Decompress.decodeColor (Compress.encodeColor "ff0000") 0 = Ret ("#FF0000", 1) /\
  ~ (forall color,
       color <> "" -> color <> "none" ->
       JS.startsWith color "#" = false ->
       (JS.startsWith color "rgb" = true -> JS.rgb_match color = None) ->
       Compress.dict_get Compress.COLOR_DICT color = None ->
       Compress.encodeColor color = [1]).
Proof.
  repeat (split; [first [discriminate | reflexivity] |]).
  intros H.
  specialize (H "ff0000" ltac:(discriminate) ltac:(discriminate) eq_refl
                ltac:(discriminate) eq_refl).
  discriminate H.
Qed.

(** ** The minimal path *)

(** C4 (the code departs from the claim): on the path data
    [M0,0 L10,10 Z] the encoder pushes the command codes as numbers,
    so that they are zigzag-encoded like coordinates (M as byte 2, L
    as byte 6, Z as byte 38), and it reads each token [0,0] and
    [10,10] as one number; the decoder takes byte 2 for [m], byte 6
    for [h] and byte 38 for the number 19/15. *)
Theorem minimal_path_is_not_reproduced :
  Compress.tokenize "M0,0 L10,10 Z" = ["M"; "0,0"; "L"; "10,10"; "Z"] /\
  Compress.compressPathData_loop (Compress.tokenize "M0,0 L10,10 Z") 0
    (JS.Num 0) (JS.Num 0) "" []
  = [1; 0; 3; 150; 19] /\
  Compress.compressPathData "M0,0 L10,10 Z" = Ret [2; 0; 6; 172; 2; 38] /\
  Decompress.decodePathData [2; 0; 6; 172; 2; 38] 0 6 = Ret "m 0.00 h 10.00 1.27".
Proof.
  repeat split; vm_compute; reflexivity.
Qed.

(** ** Path records *)

Section PathRecords.


Lemma buf_get_app_r pre l k :
  0 <= k -> buf_get (pre ++ l) (blength pre + k) = buf_get l k.
Proof.
  intros Hk. unfold buf_get, blength.
  replace (Z.of_nat (List.length pre) + k <? 0) with false by (symmetry; apply Z.ltb_ge; lia).
  replace (k <? 0) with false by (symmetry; apply Z.ltb_ge; lia).
  rewrite nth_error_app2 by lia. f_equal. lia.
Qed.

(** The values of the dictionary of [compress.js] are the codes 0..18,
    each of which the dictionary of [decompress.js] knows. *)
Lemma COLOR_DICT_codes key code :
  Compress.dict_get Compress.COLOR_DICT key = Some code -> 0 <= code <= 18.
Proof.
  unfold Compress.COLOR_DICT. cbn [Compress.dict_get].
  repeat (destruct (String.eqb _ key); [intros H; injection H as <-; lia |]).
  discriminate.
Qed.

Lemma decode_COLOR_DICT_total code :
  0 <= code <= 18 -> exists name, Decompress.code_get Decompress.COLOR_DICT code = Some name.
Proof.
  intros H.
  pose proof (forall_below
    (fun c => match Decompress.code_get Decompress.COLOR_DICT c with
              | Some _ => true | None => false end) 19 eq_refl code ltac:(lia)) as E.
  cbv beta in E.
  destruct (Decompress.code_get Decompress.COLOR_DICT code) as [name |]; [| discriminate].
  exists name. reflexivity.
Qed.

(** The two shapes of an encoded color. *)
Lemma encodeColor_shape c :
  (exists code, Compress.encodeColor c = [code] /\ 0 <= code <= 18) \/
  (exists x y z, Compress.encodeColor c = [254; x; y; z] /\
                 0 <= x < 256 /\ 0 <= y < 256 /\ 0 <= z < 256).
Proof.
  unfold Compress.encodeColor.
  destruct ((c =? "")%string || (c =? "none")%string)%bool.
  - left. exists 0. split; [reflexivity | lia].
  - destruct (Compress.dict_get Compress.COLOR_DICT (Compress.encodeColor_hex c))
      as [code |] eqn:E; cbn [Compress.truthy].
    + pose proof (COLOR_DICT_codes _ _ E) as Hc.
      destruct (code =? 0) eqn:E0; cbn [negb].
      * right. do 3 eexists. split; [reflexivity |].
        unfold byte_of. repeat split; apply Z.mod_pos_bound; lia.
      * left. exists code. split; [| exact Hc].
        cbn. rewrite Z.mod_small by lia. reflexivity.
    + right. do 3 eexists. split; [reflexivity |].
      unfold byte_of. repeat split; apply Z.mod_pos_bound; lia.
Qed.






End PathRecords.

Section PathFlags.

Lemma encodeVarInt_nonempty num buf :
  Compress.encodeVarInt num = Ret buf -> buf <> [].
Proof.
  unfold Compress.encodeVarInt.
  destruct (num =? 0); [intros H; injection H as <-; discriminate |].
  destruct (Compress.encodeVarInt_loop 6 num []) as [[b n'] | e |]; cbn [bind];
    try discriminate.
  intros H. injection H as <-. unfold Buffer_from.
  destruct b; discriminate.
Qed.




End PathFlags.

Section StoredNumbers.

Lemma trunc_inject_Z z : JS.trunc (inject_Z z) = z.
Proof.
  unfold JS.trunc. destruct (Qle_bool 0 (inject_Z z)).
  - apply Qfloor_Z.
  - apply Qceiling_Z.
Qed.


(** The two bytes written for plus infinity are read as 0. *)
Lemma decodeVarInt_of_infinity pre rest :
  Decompress.decodeVarInt (pre ++ [128; 0] ++ rest) (blength pre) = Ret (0, 2).
Proof.
  unfold Decompress.decodeVarInt.
  rewrite length_app. cbn [app List.length].
  replace (S (List.length pre + S (S (List.length rest))))%nat
    with (S (S (List.length pre + S (List.length rest))))%nat by lia.
  cbn [Decompress.decodeVarInt_loop].
  assert (Hl : blength (pre ++ 128 :: 0 :: rest) = blength pre + 2 + blength rest).
  { rewrite blength_app, !blength_cons. lia. }
  pose proof (blength_nonneg rest) as Hr.
  rewrite Hl.
  replace (blength pre + 2 + blength rest <=? blength pre + 0) with false
    by (symmetry; apply Z.leb_gt; lia).
  rewrite Z.add_0_r.
  rewrite (buf_get_app pre 128 (0 :: rest)) by reflexivity.
  cbn [JS.num_of]. change (JS.band 128 128 =? 0) with false. cbv iota.
  replace (blength pre + 2 + blength rest <=? blength pre + (0 + 1)) with false
    by (symmetry; apply Z.leb_gt; lia).
  replace (pre ++ 128 :: 0 :: rest) with ((pre ++ [128]) ++ 0 :: rest)
    by (rewrite <- app_assoc; reflexivity).
  rewrite (buf_get_app (pre ++ [128]) 0 rest)
    by (rewrite length_app; unfold blength; cbn [List.length]; lia).
  reflexivity.
Qed.



End StoredNumbers.

(** ** Doubles *)

Section Doubles.

Lemma pow2_pos k : (0 < JS.pow2 k)%Q.
Proof. unfold JS.pow2. apply Qpower_0_lt. reflexivity. Qed.

Lemma pow2_add a b : (JS.pow2 (a + b) == JS.pow2 a * JS.pow2 b)%Q.
Proof. unfold JS.pow2. apply Qpower_plus. discriminate. Qed.

Lemma pow2_inject k : 0 <= k -> (JS.pow2 k == inject_Z (2 ^ k))%Q.
Proof. intros Hk. unfold JS.pow2. symmetry. apply (Zpower_Qpower 2 k Hk). Qed.

Lemma pow2_le a b : a <= b -> (JS.pow2 a <= JS.pow2 b)%Q.
Proof. intros H. unfold JS.pow2. apply Qpower_le_compat_l; [exact H | discriminate]. Qed.

(** The binade of a positive number starts below it. *)
Lemma ilog2_le x : (0 < x)%Q -> (JS.pow2 (JS.ilog2 x) <= x)%Q.
Proof.
  intros Hx. unfold JS.ilog2.
  set (k := Z.log2 (Qnum x) - Z.log2 (Z.pos (Qden x))).
  destruct (Qle_bool (JS.pow2 k) x) eqn:E; [apply Qle_bool_iff; exact E |].
  destruct x as [n d]. cbn [Qnum Qden] in *.
  assert (Hn : 0 < n) by (unfold Qlt in Hx; cbn in Hx; lia).
  pose proof (Z.log2_spec n Hn) as [Hn1 _].
  pose proof (Z.log2_spec (Z.pos d) ltac:(lia)) as [_ Hd2].
  pose proof (Z.log2_nonneg n) as Hln. pose proof (Z.log2_nonneg (Z.pos d)) as Hld.
  set (ln := Z.log2 n) in *. set (ld := Z.log2 (Z.pos d)) in *.
  (* 2^ln <= n and d < 2^(ld+1), so 2^(ln - ld - 1) * d <= n *)
  apply Qle_trans with (inject_Z (2 ^ ln) / inject_Z (2 ^ (ld + 1)))%Q.
  - replace (k - 1) with (ln + - (ld + 1)) by (unfold k; lia).
    rewrite pow2_add, (pow2_inject ln) by lia.
    unfold Qdiv. apply Qmult_le_l.
    + change 0%Q with (inject_Z 0). rewrite <- Zlt_Qlt. apply Z.pow_pos_nonneg; lia.
    + unfold JS.pow2. rewrite Qpower_opp. rewrite <- (Zpower_Qpower 2 (ld + 1)) by lia.
      apply Qle_refl.
  - assert (Hp : 0 < 2 ^ (ld + 1)) by (apply Z.pow_pos_nonneg; lia).
    apply Qle_shift_div_r; [change 0%Q with (inject_Z 0); rewrite <- Zlt_Qlt; exact Hp |].
    unfold Qle, Qmult, inject_Z. cbn [Qnum Qden].
    rewrite Z.mul_1_r.
    assert (0 < 2 ^ ln) by (apply Z.pow_pos_nonneg; lia).
    nia.
Qed.

(** Rounding to the nearest integer moves by a half at most. *)
Lemma round_half_even_near x :
  (Qabs (inject_Z (JS.round_half_even x) - x) <= 1 # 2)%Q.
Proof.
  unfold JS.round_half_even.
  pose proof (Qfloor_le x) as H1. pose proof (Qlt_floor x) as H2.
  rewrite inject_Z_plus in H2. change (inject_Z 1) with 1%Q in H2.
  set (f := Qfloor x) in *.
  apply Qabs_Qle_condition.
  destruct (Qcompare_spec (x - inject_Z f) (1 # 2)) as [E | E | E].
  - destruct (Z.even f).
    + split; lra.
    + rewrite inject_Z_plus. change (inject_Z 1) with 1%Q. split; lra.
  - split; lra.
  - rewrite inject_Z_plus. change (inject_Z 1) with 1%Q. split; lra.
Qed.

Lemma Qabs_neg_sign x : (Qnum x <? 0) = true -> (Qabs x == - x)%Q.
Proof.
  intros H. apply Z.ltb_lt in H. apply Qabs_neg.
  unfold Qle. cbn. lia.
Qed.

Lemma Qabs_pos_sign x : (Qnum x <? 0) = false -> (Qabs x == x)%Q.
Proof.
  intros H. apply Z.ltb_ge in H. apply Qabs_pos.
  unfold Qle. cbn. lia.
Qed.

(** The rounding of a rational to a double: the result, when it is
    finite, lies within half a unit in the last place, the unit being
    [2^-52] of the binade of the number or [2^-1074]. *)
Lemma double_round_ulp x p :
  JS.double_round x = JS.Num p ->
  ~ (x == 0)%Q ->
  let e := Z.max (JS.ilog2 (Qabs x)) (- 1022) in
  (Qabs (p - x) <= JS.pow2 (e - 53))%Q /\
  (- 1022 < e -> (JS.pow2 e <= Qabs x)%Q).
Proof.
  unfold JS.double_round. intros H Hx0.
  destruct (Qeq_bool x 0) eqn:E0; [apply Qeq_bool_iff in E0; contradiction |].
  cbv zeta in H |- *. set (e := Z.max (JS.ilog2 (Qabs x)) (- 1022)) in *.
  set (ulp := JS.pow2 (e - 52)) in *.
  set (m := JS.round_half_even (Qabs x / ulp)) in *.
  destruct (Qle_bool (JS.pow2 1024) (inject_Z m * ulp)); [discriminate |].
  injection H as <-.
  pose proof (pow2_pos (e - 52)) as Hu. fold ulp in Hu.
  pose proof (round_half_even_near (Qabs x / ulp)) as Hm. fold m in Hm.
  assert (Hhalf : (JS.pow2 (e - 53) == (1 # 2) * ulp)%Q).
  { unfold ulp. replace (e - 52) with (1 + (e - 53)) by lia. rewrite pow2_add.
    change (JS.pow2 1) with (2 # 1)%Q. field. }
  assert (Herr : (Qabs (inject_Z m * ulp - Qabs x) <= JS.pow2 (e - 53))%Q).
  { rewrite Hhalf.
    assert (Heq : (inject_Z m * ulp - Qabs x == (inject_Z m - Qabs x / ulp) * ulp)%Q)
      by (field; lra).
    rewrite Heq, Qabs_Qmult, (Qabs_pos ulp) by lra.
    apply Qmult_le_compat_r; [exact Hm | lra]. }
  split.
  - rewrite Qred_correct.
    destruct (Qnum x <? 0) eqn:Es.
    + pose proof (Qabs_neg_sign x Es) as Ha. rewrite Ha in Herr.
      assert (Heq : (- (inject_Z m * ulp) - x == - (inject_Z m * ulp - - x))%Q) by ring.
      rewrite Heq, Qabs_opp. exact Herr.
    + pose proof (Qabs_pos_sign x Es) as Ha. rewrite Ha in Herr. exact Herr.
  - intros He. unfold e in *.
    assert (Hpos : (0 < Qabs x)%Q).
    { apply Qabs_case; intros Hs; apply Qle_lteq in Hs; destruct Hs as [Hs | Hs];
        try lra; exfalso; apply Hx0; lra. }
    pose proof (ilog2_le (Qabs x) Hpos) as Hl.
    replace (Z.max (JS.ilog2 (Qabs x)) (-1022)) with (JS.ilog2 (Qabs x)) by lia.
    exact Hl.
Qed.

End Doubles.

Section DoubleErrors.

Lemma double_round_zero x : (x == 0)%Q -> JS.double_round x = JS.Num 0.
Proof.
  intros H. unfold JS.double_round.
  replace (Qeq_bool x 0) with true by (symmetry; apply Qeq_bool_iff; exact H).
  reflexivity.
Qed.

(** A number of the normal range is rounded with a relative error of
    [2^-53] at most. *)
Lemma double_round_relative x p :
  JS.double_round x = JS.Num p ->
  (JS.pow2 (- 1022) <= Qabs x)%Q ->
  (Qabs (p - x) <= Qabs x * JS.pow2 (- 53))%Q.
Proof.
  intros H Hn.
  assert (Hx0 : ~ (x == 0)%Q).
  { intros E. rewrite E in Hn. pose proof (pow2_pos (- 1022)).
    change (Qabs 0) with 0%Q in Hn. lra. }
  destruct (double_round_ulp x p H Hx0) as [Herr Hbin].
  set (e := Z.max (JS.ilog2 (Qabs x)) (- 1022)) in *.
  eapply Qle_trans; [exact Herr |].
  replace (e - 53) with (e + - 53) by lia. rewrite pow2_add.
  apply Qmult_le_compat_r; [| apply Qlt_le_weak, pow2_pos].
  destruct (Z.eq_dec e (- 1022)) as [-> | Hne]; [exact Hn |].
  apply Hbin. unfold e in *. lia.
Qed.

(** A number up to [2^1000] is rounded to a finite double. *)
Lemma double_round_finite x :
  (Qabs x <= JS.pow2 1000)%Q -> exists p, JS.double_round x = JS.Num p.
Proof.
  intros Hb. unfold JS.double_round.
  destruct (Qeq_bool x 0) eqn:E0; [eexists; reflexivity |].
  cbv zeta.
  set (e := Z.max (JS.ilog2 (Qabs x)) (- 1022)).
  set (ulp := JS.pow2 (e - 52)).
  set (m := JS.round_half_even (Qabs x / ulp)).
  assert (Hx0 : ~ (x == 0)%Q)
    by (intros E; apply Qeq_bool_iff in E; congruence).
  assert (Hpos : (0 < Qabs x)%Q).
  { apply Qabs_case; intros Hs; apply Qle_lteq in Hs; destruct Hs as [Hs | Hs];
      try lra; exfalso; apply Hx0; lra. }
  assert (He : e <= 1000).
  { unfold e. apply Z.max_lub; [| lia].
    apply (Qpower_le_compat_l_inv 2); [| reflexivity].
    apply Qle_trans with (Qabs x); [apply ilog2_le; exact Hpos | exact Hb]. }
  pose proof (pow2_pos (e - 52)) as Hu. fold ulp in Hu.
  pose proof (round_half_even_near (Qabs x / ulp)) as Hm. fold m in Hm.
  assert (Hr : (inject_Z m * ulp <= Qabs x + ulp)%Q).
  { apply Qabs_Qle_condition in Hm. destruct Hm as [_ Hm].
    assert (Hm' : (inject_Z m <= Qabs x / ulp + 1)%Q) by lra.
    apply Qle_trans with ((Qabs x / ulp + 1) * ulp)%Q.
    - apply Qmult_le_compat_r; [exact Hm' | lra].
    - assert (Heq : ((Qabs x / ulp + 1) * ulp == Qabs x + ulp)%Q) by (field; lra).
      rewrite Heq. apply Qle_refl. }
  assert (Hul : (ulp <= JS.pow2 1000)%Q) by (apply pow2_le; lia).
  assert (Hlt : (JS.pow2 1000 + JS.pow2 1000 < JS.pow2 1024)%Q) by reflexivity.
  destruct (Qle_bool (JS.pow2 1024) (inject_Z m * ulp)) eqn:E.
  - apply Qle_bool_iff in E. lra.
  - eexists. reflexivity.
Qed.

Lemma Qfloor_between q k :
  (inject_Z k <= q)%Q -> (q < inject_Z k + 1)%Q -> Qfloor q = k.
Proof.
  intros H1 H2.
  pose proof (Qfloor_le q) as F1. pose proof (Qlt_floor q) as F2.
  rewrite inject_Z_plus in F2. change (inject_Z 1) with 1%Q in F2.
  assert (A : (inject_Z k < inject_Z (Qfloor q) + 1)%Q) by lra.
  assert (B : (inject_Z (Qfloor q) < inject_Z k + 1)%Q) by lra.
  change 1%Q with (inject_Z 1) in A, B. rewrite <- inject_Z_plus in A, B.
  rewrite <- Zlt_Qlt in A, B. lia.
Qed.

Lemma Qabs_cases x : ((0 <= x /\ Qabs x == x) \/ (x <= 0 /\ Qabs x == - x))%Q.
Proof.
  apply Qabs_case; intros H; [left | right]; split; try exact H; apply Qeq_refl.
Qed.

Lemma stored_finite y scale :
  stored (JS.Num y) scale
  = match JS.double_round (y * inject_Z scale) with
    | JS.Num z => JS.round_half_up z
    | _ => 0
    end.
Proof.
  unfold stored. cbn [JS.fmul].
  destruct (JS.double_round (y * inject_Z scale)) as [z | | s];
    cbn [JS.Math_round JS.to_integer]; [apply trunc_inject_Z | reflexivity | reflexivity].
Qed.

(** The tenths of a number of tenths are found again: the double next
    to [k / 10], multiplied by 10 and rounded, is [k]. *)
Lemma stored_tenths k x :
  - 2 ^ 31 <= k <= 2 ^ 31 ->
  (x == inject_Z k / inject_Z 10)%Q ->
  exists y, JS.double_round x = JS.Num y /\ stored (JS.Num y) 10 = k.
Proof.
  intros Hk Hx.
  destruct (Z.eq_dec k 0) as [-> | Hk0].
  { exists 0%Q. split; [apply double_round_zero; rewrite Hx; reflexivity | reflexivity]. }
  assert (Hd : (JS.pow2 (- 53) == 1 # 9007199254740992)%Q) by reflexivity.
  assert (Hmin : (JS.pow2 (- 1022) <= 1 # 20)%Q) by (vm_compute; discriminate).
  assert (Hmax : (inject_Z (2 ^ 31) * 20 <= JS.pow2 1000)%Q) by (vm_compute; discriminate).
  assert (HkQ : (- inject_Z (2 ^ 31) <= inject_Z k <= inject_Z (2 ^ 31))%Q).
  { rewrite <- inject_Z_opp, <- !Zle_Qle. lia. }
  assert (Hk1 : (inject_Z k <= - (1) \/ 1 <= inject_Z k)%Q).
  { change 1%Q with (inject_Z 1). rewrite <- inject_Z_opp, <- !Zle_Qle. lia. }
  assert (Hx10 : (x * 10 == inject_Z k)%Q).
  { rewrite Hx. change (inject_Z 10) with 10%Q. field. }
  set (K := inject_Z k) in *. change (inject_Z (2 ^ 31)) with 2147483648%Q in *.
  destruct (Qabs_cases x) as [[Hs Ha] | [Hs Ha]].
  - destruct (double_round_finite x ltac:(lra)) as (y & Hy).
    pose proof (double_round_relative x y Hy ltac:(lra)) as Hr.
    rewrite Ha, Hd in Hr. apply Qabs_Qle_condition in Hr.
    exists y. split; [exact Hy |].
    rewrite stored_finite. change (inject_Z 10) with 10%Q.
    destruct (Qabs_cases (y * 10)) as [[Hs2 Ha2] | [Hs2 Ha2]]; [| exfalso; lra].
    destruct (double_round_finite (y * 10) ltac:(lra)) as (z & Hz).
    pose proof (double_round_relative (y * 10) z Hz ltac:(lra)) as Hr2.
    rewrite Ha2, Hd in Hr2. apply Qabs_Qle_condition in Hr2.
    rewrite Hz. apply Qfloor_between; fold K; lra.
  - destruct (double_round_finite x ltac:(lra)) as (y & Hy).
    pose proof (double_round_relative x y Hy ltac:(lra)) as Hr.
    rewrite Ha, Hd in Hr. apply Qabs_Qle_condition in Hr.
    exists y. split; [exact Hy |].
    rewrite stored_finite. change (inject_Z 10) with 10%Q.
    destruct (Qabs_cases (y * 10)) as [[Hs2 Ha2] | [Hs2 Ha2]]; [exfalso; lra |].
    destruct (double_round_finite (y * 10) ltac:(lra)) as (z & Hz).
    pose proof (double_round_relative (y * 10) z Hz ltac:(lra)) as Hr2.
    rewrite Ha2, Hd in Hr2. apply Qabs_Qle_condition in Hr2.
    rewrite Hz. apply Qfloor_between; fold K; lra.
Qed.

End DoubleErrors.

Section PathHeaderRoundTrip.



End PathHeaderRoundTrip.

(** ** Termination of the decoder of [decompress.js] *)

Section Termination.

Lemma terminates_bind {A B} (m : outcome A) (k : A -> outcome B) :
  terminates m -> (forall a, m = Ret a -> terminates (k a)) -> terminates (bind m k).
Proof.
  unfold terminates. intros Hm Hk. destruct m as [a | e |]; cbn [bind].
  - apply Hk. reflexivity.
  - discriminate.
  - contradiction.
Qed.

Lemma terminates_Ret {A} (a : A) : terminates (Ret a).
Proof. unfold terminates. discriminate. Qed.

Lemma terminates_Throw {A} e : terminates (@Throw A e).
Proof. unfold terminates. discriminate. Qed.

Lemma band_0_128 : JS.band 0 128 = 0.
Proof. reflexivity. Qed.

(** The loop of [decodeVarInt] ends within the bytes that are left,
    and a returned [bytesRead] has grown. *)
Lemma decodeVarInt_loop_ends fuel :
  forall buffer offset result shift bytesRead,
  (1 <= fuel)%nat ->
  (0 <= offset + bytesRead ->
   (Z.to_nat (blength buffer - (offset + bytesRead)) < fuel)%nat) ->
  match Decompress.decodeVarInt_loop fuel buffer offset result shift bytesRead with
  | Ret (_, bytesRead') => bytesRead < bytesRead'
  | Throw _ => True
  | Diverge => False
  end.
Proof.
  induction fuel as [| fuel IH]; intros buffer offset result shift bytesRead H1 Hm; [lia |].
  cbn [Decompress.decodeVarInt_loop].
  destruct (blength buffer <=? offset + bytesRead) eqn:E; [exact I |].
  apply Z.leb_gt in E.
  destruct (JS.band (JS.num_of (buf_get buffer (offset + bytesRead))) 128 =? 0) eqn:Eb;
    [lia |].
  assert (Hpos : 0 <= offset + bytesRead).
  { destruct (Z_lt_ge_dec (offset + bytesRead) 0) as [Hneg | Hge]; [| lia].
    unfold buf_get in Eb.
    replace (offset + bytesRead <? 0) with true in Eb by (symmetry; apply Z.ltb_lt; lia).
    cbn [JS.num_of] in Eb. rewrite band_0_128 in Eb. discriminate. }
  specialize (Hm Hpos).
  specialize (IH buffer offset
    (JS.bor result (JS.shl (JS.band (JS.num_of (buf_get buffer (offset + bytesRead))) 127) shift))
    (shift + 7) (bytesRead + 1)).
  destruct (Decompress.decodeVarInt_loop fuel buffer offset _ (shift + 7) (bytesRead + 1))
    as [[v br] | e |].
  - assert (bytesRead + 1 < br); [apply IH; lia | lia].
  - exact I.
  - apply IH; lia.
Qed.

Lemma decodeVarInt_ends buffer offset :
  match Decompress.decodeVarInt buffer offset with
  | Ret (_, bytesRead) => 1 <= bytesRead
  | Throw _ => True
  | Diverge => False
  end.
Proof.
  unfold Decompress.decodeVarInt.
  pose proof (decodeVarInt_loop_ends (S (List.length buffer)) buffer offset 0 0 0
                ltac:(lia)) as H.
  destruct (Decompress.decodeVarInt_loop _ buffer offset 0 0 0) as [[v br] | e |].
  - assert (0 < br); [apply H; unfold blength; lia | lia].
  - exact I.
  - apply H. unfold blength. lia.
Qed.

Lemma decodeSignedVarInt_ends buffer offset :
  match Decompress.decodeSignedVarInt buffer offset with
  | Ret (_, bytesRead) => 1 <= bytesRead
  | Throw _ => True
  | Diverge => False
  end.
Proof.
  unfold Decompress.decodeSignedVarInt.
  pose proof (decodeVarInt_ends buffer offset) as H.
  destruct (Decompress.decodeVarInt buffer offset) as [[v br] | e |]; cbn [bind]; exact H.
Qed.

Lemma decodeVarInt_terminates buffer offset :
  terminates (Decompress.decodeVarInt buffer offset).
Proof.
  unfold terminates. intros E. pose proof (decodeVarInt_ends buffer offset) as H.
  rewrite E in H. exact H.
Qed.

Lemma decodeSignedVarInt_terminates buffer offset :
  terminates (Decompress.decodeSignedVarInt buffer offset).
Proof.
  unfold terminates. intros E. pose proof (decodeSignedVarInt_ends buffer offset) as H.
  rewrite E in H. exact H.
Qed.

(** Each round of the loop of [decodePathData] moves the offset
    forward, so the loop ends before the fuel does. *)
Lemma decodePathData_loop_terminates fuel :
  forall buffer endOffset currentOffset pathData currentX currentY
         currentCommand isFirstCoordinate coordCount,
  (Z.to_nat (endOffset - currentOffset) < fuel)%nat ->
  terminates (Decompress.decodePathData_loop fuel buffer endOffset currentOffset pathData
                currentX currentY currentCommand isFirstCoordinate coordCount).
Proof.
  induction fuel as [| fuel IH]; intros buffer endOffset currentOffset pathData currentX
    currentY currentCommand isFirstCoordinate coordCount Hf; [lia |].
  cbn [Decompress.decodePathData_loop].
  destruct (endOffset <=? currentOffset) eqn:E; [apply terminates_Ret |].
  apply Z.leb_gt in E.
  destruct (Decompress.command_of (buf_get buffer currentOffset)) as [cmd |].
  - apply IH. lia.
  - pose proof (decodeSignedVarInt_ends buffer currentOffset) as Hs.
    destruct (Decompress.decodeSignedVarInt buffer currentOffset) as [[v br] | e |];
      cbn [bind].
    + destruct (Decompress.placeNumber _ currentX currentY currentCommand
                  isFirstCoordinate coordCount) as [[text newX] newY].
      apply IH. lia.
    + apply terminates_Throw.
    + contradiction.
Qed.

Lemma decodePathData_terminates buffer offset length :
  terminates (Decompress.decodePathData buffer offset length).
Proof.
  unfold Decompress.decodePathData.
  destruct (blength buffer <? offset + length); [apply terminates_Throw |].
  apply terminates_bind; [| intros; apply terminates_Ret].
  apply decodePathData_loop_terminates. lia.
Qed.

Lemma decodeColor_terminates buffer offset :
  terminates (Decompress.decodeColor buffer offset).
Proof.
  unfold Decompress.decodeColor, Decompress.hex_byte.
  repeat match goal with
         | |- terminates (Ret _) => apply terminates_Ret
         | |- terminates (Throw _) => apply terminates_Throw
         | |- terminates (bind _ _) => apply terminates_bind; [| intros ? _]
         | |- terminates (if ?b then _ else _) => destruct b
         | |- terminates (match ?o with Some _ => _ | None => _ end) => destruct o
         | |- terminates (match (if ?b then _ else _) with _ => _ end) => destruct b
         end.
Qed.

Lemma readPathHeader_terminates buffer offset :
  terminates (Decompress.readPathHeader buffer offset).
Proof.
  unfold Decompress.readPathHeader.
  repeat match goal with
         | |- terminates (Ret _) => apply terminates_Ret
         | |- terminates (Decompress.decodeColor _ _) => apply decodeColor_terminates
         | |- terminates (Decompress.decodeVarInt _ _) => apply decodeVarInt_terminates
         | |- terminates (bind _ _) => apply terminates_bind; [| intros ? _]
         | |- terminates (if ?b then _ else _) => destruct b
         | |- terminates (let '(_, _) := ?x in _) => destruct x
         end.
Qed.

Lemma readPath_terminates buffer offset :
  terminates (Decompress.readPath buffer offset).
Proof.
  unfold Decompress.readPath.
  repeat match goal with
         | |- terminates (Ret _) => apply terminates_Ret
         | |- terminates (Decompress.readPathHeader _ _) => apply readPathHeader_terminates
         | |- terminates (Decompress.decodeVarInt _ _) => apply decodeVarInt_terminates
         | |- terminates (Decompress.decodePathData _ _ _) => apply decodePathData_terminates
         | |- terminates (bind _ _) => apply terminates_bind; [| intros ? _]
         | |- terminates (let '(_, _) := ?x in _) => destruct x
         end.
Qed.

(** The loop over the paths returns the elements read before the
    first error, whatever the buffer. *)
Lemma decompressSVG_loop_returns remaining :
  forall buffer currentOffset paths,
  exists ps, Decompress.decompressSVG_loop remaining buffer currentOffset paths = Ret ps.
Proof.
  induction remaining as [| remaining IH]; intros buffer currentOffset paths;
    cbn [Decompress.decompressSVG_loop].
  - eexists. reflexivity.
  - destruct (blength buffer <=? currentOffset); [eexists; reflexivity |].
    pose proof (readPath_terminates buffer currentOffset) as Ht.
    destruct (Decompress.readPath buffer currentOffset) as [f | e |].
    + apply IH.
    + eexists. reflexivity.
    + exfalso. apply Ht. reflexivity.
Qed.

Lemma decodeViewBox_terminates buffer offset :
  terminates (Decompress.decodeViewBox buffer offset).
Proof.
  unfold Decompress.decodeViewBox.
  destruct (blength buffer <=? offset); [apply terminates_Throw |].
  destruct (buf_get buffer offset) as [[| [p | p |] | p] |];
    repeat match goal with
           | |- terminates (Ret _) => apply terminates_Ret
           | |- terminates (Throw _) => apply terminates_Throw
           | |- terminates (Decompress.decodeVarInt _ _) => apply decodeVarInt_terminates
           | |- terminates (Decompress.decodeSignedVarInt _ _) =>
               apply decodeSignedVarInt_terminates
           | |- terminates (bind _ _) => apply terminates_bind; [| intros ? _]
           | |- terminates (let '(_, _) := ?x in _) => destruct x
           | |- terminates (match ?p with xH => _ | _ => _ end) => destruct p
           end.
Qed.

End Termination.

(** ** Documents *)

Section Documents.







(** [decompressSVG] on any buffer: a string comes back, the fallback
    when the header or the view box cannot be read, and otherwise the
    SVG of the view box and of the paths read before the first error. *)
Lemma decompressSVG_cases buffer :
  (exists s, Decompress.decompressSVG buffer = Ret s) /\
  (blength buffer < 2 -> Decompress.decompressSVG buffer = Ret Decompress.fallbackSVG) /\
  (forall e, Decompress.decodeViewBox buffer 2 = Throw e ->
             Decompress.decompressSVG buffer = Ret Decompress.fallbackSVG) /\
  (forall viewBox n,
     2 <= blength buffer -> Decompress.decodeViewBox buffer 2 = Ret (viewBox, n) ->
     exists ps,
       Decompress.decompressSVG_loop (Z.to_nat (JS.num_of (buf_get buffer 1))) buffer (2 + n) []
       = Ret ps /\
       Decompress.decompressSVG buffer = Ret (Decompress.svgContent viewBox ps)).
Proof.
  unfold Decompress.decompressSVG, Decompress.decompressSVG_try.
  destruct (blength buffer <? 2) eqn:E.
  - apply Z.ltb_lt in E. cbn [try_catch].
    repeat split; try (eexists; reflexivity); try reflexivity.
    intros viewBox n Hlen. lia.
  - apply Z.ltb_ge in E.
    pose proof (decodeViewBox_terminates buffer 2) as Ht.
    destruct (Decompress.decodeViewBox buffer 2) as [[vb n] | e |]; cbn [bind try_catch].
    + destruct (decompressSVG_loop_returns (Z.to_nat (JS.num_of (buf_get buffer 1)))
                  buffer (2 + n) []) as (ps & Hps).
      rewrite Hps. cbn [bind].
      repeat split; try (eexists; reflexivity); try lia; try discriminate.
      intros viewBox n' _ Heq. injection Heq as <- <-.
      exists ps. split; [exact Hps | reflexivity].
    + repeat split; try (eexists; reflexivity); try reflexivity; try lia; try discriminate.
    + exfalso. apply Ht. reflexivity.
Qed.

End Documents.

(** ** Unknown markers in the dispatch loops *)

Section UnknownMarkers.

Lemma blength_leb_refl (buffer : Buffer) : (blength buffer <=? blength buffer) = true.
Proof. apply Z.leb_refl. Qed.

(** The background decoder stops at an unknown marker. *)
Lemma Bg_halts dM dR dC dG fuel buffer offset parts :
  offset < blength buffer ->
  unknown_marker [0; 1; 2; 3] buffer offset ->
  Bg.decompressSVG_loop dM dR dC dG (S (S fuel)) buffer offset parts = Ret parts.
Proof.
  intros Hlt Hunk.
  remember (S fuel) as f eqn:Ef.
  cbn [Bg.decompressSVG_loop].
  replace (blength buffer <=? offset) with false by (symmetry; apply Z.leb_gt; exact Hlt).
  assert (Hend : Bg.decompressSVG_loop dM dR dC dG f buffer (blength buffer) parts = Ret parts).
  { subst f. cbn [Bg.decompressSVG_loop]. rewrite blength_leb_refl. reflexivity. }
  unfold unknown_marker in Hunk.
  destruct (buf_get buffer offset) as [m |]; [| exact Hend].
  specialize (Hunk m eq_refl). cbn [In] in Hunk.
  destruct m as [| [[q | q |] | [q | q |] |] | q];
    try exact Hend; exfalso; apply Hunk; tauto.
Qed.

(** The Phil decoder stops at an unknown marker. *)
Lemma Phil_halts dM dP fuel buffer offset parts :
  offset < blength buffer ->
  unknown_marker [0; 1] buffer offset ->
  Phil.decompressSVG_loop dM dP (S (S fuel)) buffer offset parts = Ret parts.
Proof.
  intros Hlt Hunk.
  remember (S fuel) as f eqn:Ef.
  cbn [Phil.decompressSVG_loop].
  replace (blength buffer <=? offset) with false by (symmetry; apply Z.leb_gt; exact Hlt).
  assert (Hend : Phil.decompressSVG_loop dM dP f buffer (blength buffer) parts = Ret parts).
  { subst f. cbn [Phil.decompressSVG_loop]. rewrite blength_leb_refl. reflexivity. }
  unfold unknown_marker in Hunk.
  destruct (buf_get buffer offset) as [m |]; [| exact Hend].
  specialize (Hunk m eq_refl). cbn [In] in Hunk.
  destruct m as [| [q | q |] | q];
    try exact Hend; exfalso; apply Hunk; tauto.
Qed.

(** The nose decoder stops at an unknown marker. *)
Lemma Nose_halts dM dP dF fuel buffer offset parts :
  offset < blength buffer ->
  unknown_marker [0; 1; 2] buffer offset ->
  Nose.decompressSVG_loop dM dP dF (S (S fuel)) buffer offset parts = Ret parts.
Proof.
  intros Hlt Hunk.
  remember (S fuel) as f eqn:Ef.
  cbn [Nose.decompressSVG_loop].
  replace (blength buffer <=? offset) with false by (symmetry; apply Z.leb_gt; exact Hlt).
  assert (Hend : Nose.decompressSVG_loop dM dP dF f buffer (blength buffer) parts = Ret parts).
  { subst f. cbn [Nose.decompressSVG_loop]. rewrite blength_leb_refl. reflexivity. }
  unfold unknown_marker in Hunk.
  destruct (buf_get buffer offset) as [m |]; [| exact Hend].
  specialize (Hunk m eq_refl). cbn [In] in Hunk.
  destruct m as [| p | p]; [exfalso; apply Hunk; tauto | | exact Hend].
  do 2 (try destruct p as [p | p |]); try exact Hend; exfalso; apply Hunk; tauto.
Qed.

(** The top decoder stops at an unknown marker. *)
Lemma Top_halts dM dP dL dT fuel buffer offset parts :
  offset < blength buffer ->
  unknown_marker [0; 1; 2; 3] buffer offset ->
  Top.decompressSVG_loop dM dP dL dT (S (S fuel)) buffer offset parts = Ret parts.
Proof.
  intros Hlt Hunk.
  remember (S fuel) as f eqn:Ef.
  cbn [Top.decompressSVG_loop].
  replace (blength buffer <=? offset) with false by (symmetry; apply Z.leb_gt; exact Hlt).
  assert (Hend : Top.decompressSVG_loop dM dP dL dT f buffer (blength buffer) parts
                 = Ret parts).
  { subst f. cbn [Top.decompressSVG_loop]. rewrite blength_leb_refl. reflexivity. }
  unfold unknown_marker in Hunk.
  destruct (buf_get buffer offset) as [m |]; [| exact Hend].
  specialize (Hunk m eq_refl). cbn [In] in Hunk.
  destruct m as [| p | p]; [exfalso; apply Hunk; tauto | | exact Hend].
  do 2 (try destruct p as [p | p |]); try exact Hend; exfalso; apply Hunk; tauto.
Qed.

(** The top decoder with filters stops at an unknown marker. *)
Lemma TopFilter_halts dM dP dL dT dF dG fuel buffer offset parts :
  offset < blength buffer ->
  unknown_marker [0; 1; 2; 3; 4; 5] buffer offset ->
  TopFilter.decompressSVG_loop dM dP dL dT dF dG (S (S fuel)) buffer offset parts
  = Ret parts.
Proof.
  intros Hlt Hunk.
  remember (S fuel) as f eqn:Ef.
  cbn [TopFilter.decompressSVG_loop].
  replace (blength buffer <=? offset) with false by (symmetry; apply Z.leb_gt; exact Hlt).
  assert (Hend : TopFilter.decompressSVG_loop dM dP dL dT dF dG f buffer (blength buffer)
                   parts = Ret parts).
  { subst f. cbn [TopFilter.decompressSVG_loop]. rewrite blength_leb_refl. reflexivity. }
  unfold unknown_marker in Hunk.
  destruct (buf_get buffer offset) as [m |]; [| exact Hend].
  specialize (Hunk m eq_refl). cbn [In] in Hunk.
  destruct m as [| p | p]; [exfalso; apply Hunk; tauto | | exact Hend].
  do 3 (try destruct p as [p | p |]); try exact Hend; exfalso; apply Hunk; tauto.
Qed.

(** The spikes decoder steps over an unknown marker and goes on with
    the next byte. *)
Lemma Spikes_skips fuel buffer offset elements :
  offset < blength buffer ->
  unknown_marker [0; 1; 2] buffer offset ->
  Spikes.decompressSVG_loop (S fuel) buffer offset elements
  = Spikes.decompressSVG_loop fuel buffer (offset + 1) elements.
Proof.
  intros Hlt Hunk.
  cbn [Spikes.decompressSVG_loop].
  replace (blength buffer <=? offset) with false by (symmetry; apply Z.leb_gt; exact Hlt).
  unfold unknown_marker in Hunk.
  destruct (buf_get buffer offset) as [m |]; [| reflexivity].
  specialize (Hunk m eq_refl). cbn [In] in Hunk.
  destruct m as [| [q | [q | q |] |] | q];
    try reflexivity; exfalso; apply Hunk; tauto.
Qed.

End UnknownMarkers.

(** C8, as the code has it: in the dispatch loops of the background,
    Phil, nose and top decoders (the top decoder in its two versions,
    without and with filters) a byte that is the tag of no record type
    stops the loop, whatever the record decoders are: the loop ends at
    once with the values collected so far, and no byte after the
    marker is read.  The spikes decoder instead steps over the byte
    and goes on scanning at the next one. *)
Theorem unknown_marker_dispatch :
  (forall dM dR dC dG fuel buffer offset parts,
     offset < blength buffer ->
     unknown_marker [0; 1; 2; 3] buffer offset ->
     Bg.decompressSVG_loop dM dR dC dG (S (S fuel)) buffer offset parts = Ret parts) /\
  (forall dM dP fuel buffer offset parts,
     offset < blength buffer ->
     unknown_marker [0; 1] buffer offset ->
     Phil.decompressSVG_loop dM dP (S (S fuel)) buffer offset parts = Ret parts) /\
  (forall dM dP dF fuel buffer offset parts,
     offset < blength buffer ->
     unknown_marker [0; 1; 2] buffer offset ->
     Nose.decompressSVG_loop dM dP dF (S (S fuel)) buffer offset parts = Ret parts) /\
  (forall dM dP dL dT fuel buffer offset parts,
     offset < blength buffer ->
     unknown_marker [0; 1; 2; 3] buffer offset ->
     Top.decompressSVG_loop dM dP dL dT (S (S fuel)) buffer offset parts = Ret parts) /\
  (forall dM dP dL dT dF dG fuel buffer offset parts,
     offset < blength buffer ->
     unknown_marker [0; 1; 2; 3; 4; 5] buffer offset ->
     TopFilter.decompressSVG_loop dM dP dL dT dF dG (S (S fuel)) buffer offset parts
     = Ret parts) /\
  (forall fuel buffer offset elements,
     offset < blength buffer ->
     unknown_marker [0; 1; 2] buffer offset ->
     Spikes.decompressSVG_loop (S fuel) buffer offset elements
     = Spikes.decompressSVG_loop fuel buffer (offset + 1) elements).
Proof.
  split; [exact Bg_halts |]. split; [exact Phil_halts |].
  split; [exact Nose_halts |]. split; [exact Top_halts |].
  split; [exact TopFilter_halts | exact Spikes_skips].
Qed.

Lemma unknown_marker_dispatch_witness :
  let buffer := [1; 1; 9; 1; 1; 0; 0; 3; 77; 32; 48] in
  Phil.decompressSVG_loop (fun _ _ => Throw TypeError) (fun _ _ => Throw TypeError)
    2 buffer 2 (Phil.mkParts "0 0 420 420" [])
  = Ret (Phil.mkParts "0 0 420 420" []) /\
  TopFilter.decompressSVG_loop
    (fun _ _ => Throw TypeError) (fun _ _ _ => Throw TypeError)
    (fun _ _ => Throw TypeError) (fun _ _ => Throw TypeError)
    (fun _ _ => Throw TypeError) (fun _ _ => Throw TypeError)
    2 buffer 2 (TopFilter.mkParts "0 0 420 420" "" [] "" None None false)
  = Ret (TopFilter.mkParts "0 0 420 420" "" [] "" None None false) /\
  Spikes.decompressSVG_loop 3 buffer 2 (Spikes.mkElements "0 0 420 420" [] [])
  = Spikes.decompressSVG_loop 2 buffer 3 (Spikes.mkElements "0 0 420 420" [] []).
Proof.
  intros buffer.
  assert (H2 : forall known, ~ In 9 known -> unknown_marker known buffer 2).
  { intros known Hk m Hm. injection Hm as <-. exact Hk. }
  destruct unknown_marker_dispatch as (_ & HP & _ & _ & HT & HS).
  split; [| split].
  - apply HP; [reflexivity | apply H2; cbn; lia].
  - apply HT; [reflexivity | apply H2; cbn; lia].
  - apply (HS 2%nat buffer 2); [reflexivity | apply H2; cbn; lia].
Defined.

(** C8 as stated fails for the spikes decoder: after the unknown
    marker 9 it reads the path record that follows and emits it. *)
Lemma spikes_continues_after_unknown_marker :
  let buffer := [1; 1; 9; 1; 1; 0; 0; 3; 77; 32; 48] in
  let start := Spikes.mkElements "0 0 420 420" [] [] in
  unknown_marker [0; 1; 2] buffer 2 /\
  Spikes.decompressSVG_loop 3 buffer 2 start
  = Ret (Spikes.mkElements "0 0 420 420" []
           [("<path d=" ++ JS.dq ++ "M 0" ++ JS.dq ++ " fill=" ++ JS.dq ++ "#000000" ++ JS.dq
             ++ "/>")%string]) /\
  Spikes.decompressSVG 3 buffer <> Ret Spikes.createFallbackSVG /\
  ~ spikes_halts_on_unknown_marker.
Proof.
  intros buffer start.
  assert (Hunk : unknown_marker [0; 1; 2] buffer 2).
  { intros m Hm. injection Hm as <-. cbn. lia. }
  assert (Hrun : Spikes.decompressSVG_loop 3 buffer 2 start
                 = Ret (Spikes.mkElements "0 0 420 420" []
                          [("<path d=" ++ JS.dq ++ "M 0" ++ JS.dq ++ " fill=" ++ JS.dq ++
                            "#000000" ++ JS.dq ++ "/>")%string]))
    by (vm_compute; reflexivity).
  split; [exact Hunk |]. split; [exact Hrun |].
  split; [vm_compute; discriminate |].
  intros Hhalt.
  specialize (Hhalt 1%nat buffer 2 start eq_refl Hunk).
  rewrite Hrun in Hhalt. discriminate Hhalt.
Qed.

(* ================================================================== *)
(** * Further properties of the codec *)
(* ================================================================== *)

(** ** Varints of any size *)

Section VarIntRange.

Lemma ToInt32_cases z :
  0 <= z < 2 ^ 32 -> JS.ToInt32 z = if z <? 2 ^ 31 then z else z - 2 ^ 32.
Proof.
  intros Hz. unfold JS.ToInt32.
  destruct (z <? 2 ^ 31) eqn:E.
  - apply Z.ltb_lt in E. rewrite Z.mod_small; lia.
  - apply Z.ltb_ge in E.
    replace (z + 2 ^ 31) with (z - 2 ^ 31 + 1 * 2 ^ 32) by lia.
    rewrite Z_mod_plus_full. rewrite Z.mod_small; lia.
Qed.

Lemma ToInt32_mod_32 z : JS.ToInt32 (z mod 2 ^ 32) = JS.ToInt32 z.
Proof.
  unfold JS.ToInt32. rewrite Zplus_mod_idemp_l. reflexivity.
Qed.

Lemma ToInt32_mod_128 z : JS.ToInt32 z mod 128 = z mod 128.
Proof.
  unfold JS.ToInt32.
  pose proof (Z.div_mod (z + 2 ^ 31) (2 ^ 32) ltac:(lia)) as H.
  replace ((z + 2 ^ 31) mod 2 ^ 32 - 2 ^ 31)
    with (z + (- (2 ^ 25) * ((z + 2 ^ 31) / 2 ^ 32)) * 128) by lia.
  apply Z_mod_plus_full.
Qed.

(** [num & 0x7F] is the last 7-bit group of any integer. *)
Lemma band_127_any n : JS.band n 127 = n mod 128.
Proof.
  unfold JS.band. change (JS.ToInt32 127) with (Z.ones 7).
  rewrite Z.land_ones by lia. apply ToInt32_mod_128.
Qed.

(** One round of the decoding loop on a byte with the continuation bit. *)
Lemma decodeVarInt_loop_high fuel pre g more offset result shift bytesRead :
  0 <= g < 128 ->
  Z.of_nat (List.length pre) = offset + bytesRead ->
  0 <= shift -> shift + 7 <= 31 -> 0 <= result < 2 ^ shift ->
  Decompress.decodeVarInt_loop (S fuel) (pre ++ (g + 128) :: more)
    offset result shift bytesRead
  = Decompress.decodeVarInt_loop fuel (pre ++ (g + 128) :: more)
      offset (result + g * 2 ^ shift) (shift + 7) (bytesRead + 1).
Proof.
  intros Hg Hpre Hs Hs7 Hr.
  cbn [Decompress.decodeVarInt_loop].
  replace (blength (pre ++ g + 128 :: more) <=? offset + bytesRead) with false.
  2:{ symmetry. apply Z.leb_gt. rewrite blength_app, blength_cons.
      pose proof (blength_nonneg more). unfold blength in *. lia. }
  rewrite (buf_get_app pre (g + 128) more _ Hpre). cbn [JS.num_of].
  destruct (band_low_byte g Hg) as (_ & _ & E3 & E4).
  rewrite E3, E4. cbn [Z.eqb].
  assert (Hp : 0 < 2 ^ shift) by (apply Z.pow_pos_nonneg; lia).
  assert (Hp7 : 2 ^ (shift + 7) <= 2 ^ 31) by (apply Z.pow_le_mono_r; lia).
  rewrite Z.pow_add_r in Hp7 by lia. change (2 ^ 7) with 128 in Hp7.
  rewrite shl_small by (try lia; nia).
  unfold JS.bor. rewrite !ToInt32_small by nia.
  rewrite lor_mul_pow2_add by lia. reflexivity.
Qed.

(** The last round: the value is wrapped to a signed 32-bit integer. *)
Lemma decodeVarInt_loop_last fuel pre n more offset result shift bytesRead :
  0 <= n < 128 ->
  Z.of_nat (List.length pre) = offset + bytesRead ->
  0 <= shift < 32 -> 0 <= result < 2 ^ shift ->
  result + n * 2 ^ shift < 2 ^ 32 ->
  Decompress.decodeVarInt_loop (S fuel) (pre ++ n :: more) offset result shift bytesRead
  = Ret (JS.ToInt32 (result + n * 2 ^ shift), bytesRead + 1).
Proof.
  intros Hn Hpre Hs Hr Hb.
  cbn [Decompress.decodeVarInt_loop].
  replace (blength (pre ++ n :: more) <=? offset + bytesRead) with false.
  2:{ symmetry. apply Z.leb_gt. rewrite blength_app, blength_cons.
      pose proof (blength_nonneg more). unfold blength in *. lia. }
  rewrite (buf_get_app pre n more _ Hpre). cbn [JS.num_of].
  destruct (band_low_byte n Hn) as (E1 & E2 & _).
  rewrite E1, E2. cbn [Z.eqb]. do 2 f_equal.
  assert (Hp : 0 < 2 ^ shift) by (apply Z.pow_pos_nonneg; lia).
  assert (Hp31 : 2 ^ shift < 2 ^ 32) by (apply Z.pow_lt_mono_r; lia).
  assert (Hsplit : 2 ^ 32 = 2 ^ (32 - shift) * 2 ^ shift)
    by (rewrite <- Z.pow_add_r by lia; f_equal; lia).
  assert (Hhalf : 2 ^ 31 = 2 ^ (31 - shift) * 2 ^ shift)
    by (rewrite <- Z.pow_add_r by lia; f_equal; lia).
  assert (Hq : 0 < 2 ^ (31 - shift)) by (apply Z.pow_pos_nonneg; lia).
  assert (Hle : 2 ^ shift <= 2 ^ 31) by (apply Z.pow_le_mono_r; lia).
  unfold JS.shl. rewrite (ToInt32_small n) by lia.
  unfold JS.ToUint32 at 1. rewrite (Z.mod_small shift (2 ^ 32)) by lia.
  rewrite (Z.mod_small shift 32) by lia.
  rewrite Z.shiftl_mul_pow2 by lia.
  unfold JS.bor. rewrite (ToInt32_small result) by lia.
  rewrite (ToInt32_small (JS.ToInt32 (n * 2 ^ shift))) by apply ToInt32_range.
  rewrite (ToInt32_cases (n * 2 ^ shift)) by nia.
  rewrite (ToInt32_cases (result + n * 2 ^ shift)) by nia.
  destruct (n * 2 ^ shift <? 2 ^ 31) eqn:E.
  - apply Z.ltb_lt in E.
    assert (n < 2 ^ (31 - shift)) by nia.
    replace (result + n * 2 ^ shift <? 2 ^ 31) with true by (symmetry; apply Z.ltb_lt; nia).
    apply lor_mul_pow2_add; lia.
  - apply Z.ltb_ge in E.
    replace (result + n * 2 ^ shift <? 2 ^ 31) with false by (symmetry; apply Z.ltb_ge; nia).
    replace (n * 2 ^ shift - 2 ^ 32) with ((n - 2 ^ (32 - shift)) * 2 ^ shift) by nia.
    rewrite lor_mul_pow2_add by lia. nia.
Qed.

(** The decoding loop on the groups of a number below [2^32]. *)
Lemma decodeVarInt_loop_groups32 k :
  forall n pre rest fuel offset result shift bytesRead,
  0 <= n < 128 ^ Z.of_nat (S k) ->
  Z.of_nat (List.length pre) = offset + bytesRead ->
  0 <= shift < 32 -> 0 <= result < 2 ^ shift ->
  result + n * 2 ^ shift < 2 ^ 32 ->
  (List.length (varint_groups k n) <= fuel)%nat ->
  Decompress.decodeVarInt_loop fuel (pre ++ varint_groups k n ++ rest)
    offset result shift bytesRead
  = Ret (JS.ToInt32 (result + n * 2 ^ shift),
         bytesRead + Z.of_nat (List.length (varint_groups k n))).
Proof.
  induction k as [| k IH];
    intros n pre rest fuel offset result shift bytesRead Hn Hpre Hs Hr Hb Hf.
  - cbn [varint_groups List.length app] in *.
    change (128 ^ Z.of_nat 1) with 128 in Hn.
    destruct fuel as [| fuel]; [lia |].
    apply decodeVarInt_loop_last; assumption.
  - cbn [varint_groups] in *.
    destruct (128 <=? n) eqn:E.
    2:{ apply Z.leb_gt in E. cbn [List.length app] in *.
        destruct fuel as [| fuel]; [lia |].
        apply decodeVarInt_loop_last; try assumption; lia. }
    apply Z.leb_le in E.
    cbn [List.length] in Hf |- *. cbn [app].
    destruct fuel as [| fuel]; [lia |].
    set (g := n mod 128).
    assert (Hg : 0 <= g < 128) by (apply Z.mod_pos_bound; lia).
    assert (Hdm : n = 128 * (n / 128) + g) by (apply Z.div_mod; lia).
    assert (Hq : 1 <= n / 128) by (apply Z.div_le_lower_bound; lia).
    assert (Hp : 0 < 2 ^ shift) by (apply Z.pow_pos_nonneg; lia).
    assert (Hs7 : shift + 7 < 32).
    { apply (Z.pow_lt_mono_r_iff 2); [lia | lia |].
      rewrite Z.pow_add_r by lia. change (2 ^ 7) with 128. nia. }
    rewrite decodeVarInt_loop_high by (try assumption; lia).
    replace (pre ++ g + 128 :: varint_groups k (n / 128) ++ rest)
      with ((pre ++ [g + 128]) ++ varint_groups k (n / 128) ++ rest)
      by (rewrite <- app_assoc; reflexivity).
    rewrite IH.
    + f_equal. f_equal.
      * f_equal. rewrite Z.pow_add_r by lia. change (2 ^ 7) with 128. nia.
      * lia.
    + rewrite Nat2Z.inj_succ, Z.pow_succ_r in Hn by lia.
      split; [lia | apply Z.div_lt_upper_bound; lia].
    + rewrite length_app. cbn [List.length]. lia.
    + lia.
    + rewrite Z.pow_add_r by lia. change (2 ^ 7) with 128. nia.
    + rewrite Z.pow_add_r by lia. change (2 ^ 7) with 128. nia.
    + lia.
Qed.

(** The buffer of [encodeVarInt] on any number that is not negative:
    one byte below 128, and otherwise the first group of the number
    followed by the groups of what [>>>] leaves of it. *)
Lemma encodeVarInt_any num :
  0 <= num ->
  Compress.encodeVarInt num =
    Ret (if 128 <=? num
         then (num mod 128 + 128) :: varint_groups 3 (num mod 2 ^ 32 / 128)
         else [num]).
Proof.
  intros Hnum. unfold Compress.encodeVarInt.
  destruct (num =? 0) eqn:E0.
  { apply Z.eqb_eq in E0. subst num. reflexivity. }
  remember 5%nat as k eqn:Ek.
  change 6%nat with (S k). cbn [Compress.encodeVarInt_loop]. subst k.
  destruct (128 <=? num) eqn:E.
  - assert (Hr : 0 <= num mod 2 ^ 32 / 128 < 2 ^ 25).
    { pose proof (Z.mod_pos_bound num (2 ^ 32) ltac:(lia)).
      split; [apply Z.div_pos; lia | apply Z.div_lt_upper_bound; lia]. }
    assert (Hshr : JS.shr num 7 = num mod 2 ^ 32 / 128).
    { unfold JS.shr, JS.ToUint32. change (7 mod 2 ^ 32 mod 32) with 7.
      rewrite Z.shiftr_div_pow2 by lia. reflexivity. }
    rewrite Hshr, band_127_any.
    rewrite bor_128 by (apply Z.mod_pos_bound; lia).
    destruct (encodeVarInt_loop_groups 4 (num mod 2 ^ 32 / 128)
                ([] ++ [num mod 128 + 128])) as (b & n' & Hl & Hb).
    + lia.
    + change (128 ^ Z.of_nat 5) with (2 ^ 35). lia.
    + rewrite Hl. cbn [bind]. rewrite Hb. cbn [app].
      assert (Hg4 : varint_groups 4 (num mod 2 ^ 32 / 128)
                    = varint_groups 3 (num mod 2 ^ 32 / 128)).
      { set (m := num mod 2 ^ 32 / 128) in *.
        cbn [varint_groups].
        destruct (128 <=? m) eqn:E1; [| reflexivity]. f_equal.
        destruct (128 <=? m / 128) eqn:E2; [| reflexivity]. f_equal.
        destruct (128 <=? m / 128 / 128) eqn:E3; [| reflexivity]. f_equal.
        replace (128 <=? m / 128 / 128 / 128) with false; [reflexivity |].
        symmetry. apply Z.leb_gt.
        do 3 (apply Z.div_lt_upper_bound; [lia |]). lia. }
      rewrite Hg4.
      rewrite Buffer_from_bytes; [reflexivity |].
      constructor.
      * pose proof (Z.mod_pos_bound num 128 ltac:(lia)). lia.
      * apply varint_groups_bytes. change (128 ^ Z.of_nat 4) with (2 ^ 28). lia.
  - apply Z.leb_gt in E. apply Z.eqb_neq in E0. cbn [bind app].
    rewrite Buffer_from_bytes; [reflexivity |].
    constructor; [lia | constructor].
Qed.

End VarIntRange.

(** X1: [encodeVarInt] returns on every number that is not negative,
    with 1 to 5 bytes, and [decodeVarInt] reads these bytes back
    wherever they lie in a buffer, consuming exactly them; the value
    read is the number wrapped to a signed 32-bit integer, which is
    the number itself exactly below [2^31]. *)
Theorem varint_reads_back_as_int32 num pre rest :
  0 <= num ->
  exists buf,
    Compress.encodeVarInt num = Ret buf /\
    (1 <= List.length buf <= 5)%nat /\
    Decompress.decodeVarInt (pre ++ buf ++ rest) (blength pre)
    = Ret (JS.ToInt32 num, blength buf) /\
    (JS.ToInt32 num = num <-> num < 2 ^ 31).
Proof.
  intros Hnum.
  assert (Hiff : JS.ToInt32 num = num <-> num < 2 ^ 31).
  { split.
    - intros E. pose proof (ToInt32_range num). lia.
    - intros H. apply ToInt32_small. lia. }
  rewrite (encodeVarInt_any num Hnum).
  destruct (128 <=? num) eqn:E.
  - apply Z.leb_le in E.
    set (g := num mod 128). set (n1 := num mod 2 ^ 32 / 128).
    assert (Hg : 0 <= g < 128) by (apply Z.mod_pos_bound; lia).
    assert (Hn1 : 0 <= n1 < 2 ^ 25).
    { pose proof (Z.mod_pos_bound num (2 ^ 32) ltac:(lia)).
      split; [apply Z.div_pos; lia | apply Z.div_lt_upper_bound; lia]. }
    assert (Hsum : g + n1 * 128 = num mod 2 ^ 32).
    { subst g n1.
      rewrite <- (Z.mod_mod_divide num (2 ^ 32) 128) by
        (exists (2 ^ 25); reflexivity).
      pose proof (Z.div_mod (num mod 2 ^ 32) 128 ltac:(lia)). lia. }
    pose proof (varint_groups_length 3 n1) as Hlen.
    eexists. split; [reflexivity |]. split; [cbn [List.length]; lia |].
    split; [| exact Hiff].
    unfold Decompress.decodeVarInt.
    cbn [app].
    rewrite decodeVarInt_loop_high by (try assumption; try lia; unfold blength; lia).
    replace (pre ++ g + 128 :: varint_groups 3 n1 ++ rest)
      with ((pre ++ [g + 128]) ++ varint_groups 3 n1 ++ rest)
      by (rewrite <- app_assoc; reflexivity).
    rewrite decodeVarInt_loop_groups32.
    + f_equal. f_equal.
      * change (2 ^ 0) with 1. change (2 ^ (0 + 7)) with 128.
        replace (0 + g * 1 + n1 * 128) with (num mod 2 ^ 32) by lia.
        apply ToInt32_mod_32.
      * rewrite blength_cons. unfold blength. lia.
    + change (128 ^ Z.of_nat 4) with (2 ^ 28). lia.
    + rewrite length_app. cbn [List.length]. unfold blength. lia.
    + lia.
    + change (2 ^ 0) with 1. change (2 ^ (0 + 7)) with 128. lia.
    + change (2 ^ 0) with 1. change (2 ^ (0 + 7)) with 128. lia.
    + rewrite !length_app. cbn [List.length]. lia.
  - apply Z.leb_gt in E.
    eexists. split; [reflexivity |]. split; [cbn; lia |].
    split; [| exact Hiff].
    unfold Decompress.decodeVarInt. cbn [app].
    rewrite decodeVarInt_loop_last by (try lia; unfold blength; lia).
    f_equal. f_equal. f_equal. lia.
Qed.

Lemma varint_reads_back_as_int32_witness :
  0 <= 2 ^ 31 + 5 /\
  exists buf,
    Compress.encodeVarInt (2 ^ 31 + 5) = Ret buf /\
    Decompress.decodeVarInt ([7] ++ buf ++ [9]) 1 = Ret (- 2 ^ 31 + 5, blength buf).
Proof.
  split; [lia |].
  destruct (varint_reads_back_as_int32 (2 ^ 31 + 5) [7] [9] ltac:(lia))
    as (buf & He & _ & Hd & _).
  exists buf. split; [exact He | exact Hd].
Defined.

Section NegativeVarInt.

Lemma encodeVarInt_negative num :
  num < 0 -> Compress.encodeVarInt num = Ret [num mod 256].
Proof.
  intros Hneg. unfold Compress.encodeVarInt.
  replace (num =? 0) with false by (symmetry; apply Z.eqb_neq; lia).
  remember 5%nat as k. cbn [Compress.encodeVarInt_loop].
  replace (128 <=? num) with false by (symmetry; apply Z.leb_gt; lia).
  reflexivity.
Qed.

End NegativeVarInt.

(** X2: a negative number is written by [encodeVarInt] as the single
    byte [num & 255], so its value is lost; from -128 on that byte has
    the continuation bit, and [decodeVarInt] runs on into whatever
    follows it, throwing when nothing does. *)
Theorem negative_varint_is_one_byte num :
  num < 0 ->
  Compress.encodeVarInt num = Ret [num mod 256] /\
  (- 128 <= num ->
   forall pre,
     Decompress.decodeVarInt (pre ++ [num mod 256]) (blength pre)
     = Throw (VarintOverflow (blength pre))).
Proof.
  intros Hneg. split.
  - apply encodeVarInt_negative. exact Hneg.
  - intros Hlow pre.
    replace (num mod 256) with (num + 256)
      by (apply Z.mod_unique with (q := -1); lia).
    unfold Decompress.decodeVarInt.
    replace (num + 256) with (num + 128 + 128) by lia.
    rewrite decodeVarInt_loop_high by (try lia; unfold blength; lia).
    rewrite length_app. cbn [List.length].
    replace (List.length pre + 1)%nat with (S (List.length pre)) by lia.
    cbn [Decompress.decodeVarInt_loop].
    replace (blength (pre ++ [num + 128 + 128]) <=? blength pre + (0 + 1)) with true.
    + reflexivity.
    + symmetry. apply Z.leb_le. rewrite blength_app. change (blength [_]) with 1. lia.
Qed.

Lemma negative_varint_is_one_byte_witness :
  - 50 < 0 /\
  Compress.encodeVarInt (- 50) = Ret [206] /\
  Decompress.decodeVarInt ([3] ++ [206]) 1 = Throw (VarintOverflow 1).
Proof.
  split; [lia |].
  destruct (negative_varint_is_one_byte (- 50) ltac:(lia)) as (He & Hd).
  split; [exact He |].
  exact (Hd ltac:(lia) [3]).
Defined.

Section VarIntSize.

Lemma varint_groups_size k :
  forall j n, (j <= k)%nat -> 0 <= n < 128 ^ Z.of_nat (S k) ->
  ((List.length (varint_groups k n) <= S j)%nat <-> n < 128 ^ Z.of_nat (S j)).
Proof.
  induction k as [| k IH]; intros j n Hj Hn; cbn [varint_groups].
  - assert (j = 0%nat) by lia. subst j. cbn [List.length].
    change (128 ^ Z.of_nat 1) with 128 in *. lia.
  - rewrite (Nat2Z.inj_succ (S k)), Z.pow_succ_r in Hn by lia.
    destruct (128 <=? n) eqn:E.
    + apply Z.leb_le in E. cbn [List.length].
      destruct j as [| j].
      * pose proof (varint_groups_length k (n / 128)).
        change (128 ^ Z.of_nat 1) with 128. lia.
      * assert (Hq : 0 <= n / 128 < 128 ^ Z.of_nat (S k))
          by (split; [apply Z.div_pos; lia | apply Z.div_lt_upper_bound; lia]).
        pose proof (IH j (n / 128) ltac:(lia) Hq) as H.
        rewrite (Nat2Z.inj_succ (S j)), Z.pow_succ_r by lia.
        assert (0 < 128 ^ Z.of_nat (S j)) by (apply Z.pow_pos_nonneg; lia).
        assert (n / 128 < 128 ^ Z.of_nat (S j) <-> n < 128 * 128 ^ Z.of_nat (S j)).
        { split; intros H'.
          - pose proof (Z.div_mod n 128 ltac:(lia)).
            pose proof (Z.mod_pos_bound n 128 ltac:(lia)). nia.
          - apply Z.div_lt_upper_bound; lia. }
        split; intros H'; [apply H1, H | apply le_n_S, H, H1]; lia.
    + apply Z.leb_gt in E. cbn [List.length].
      assert (128 ^ 1 <= 128 ^ Z.of_nat (S j)) by (apply Z.pow_le_mono_r; lia).
      change (128 ^ 1) with 128 in *. lia.
Qed.

End VarIntSize.

(** X3: the size of a varint follows the size of the number: for a
    number below [2^31], [encodeVarInt] writes at most [j] bytes
    ([j] from 1 to 5) exactly when the number is below [128^j]. *)
Theorem varint_length_by_magnitude num j :
  0 <= num < 2 ^ 31 -> (1 <= j <= 5)%nat ->
  exists buf,
    Compress.encodeVarInt num = Ret buf /\
    ((List.length buf <= j)%nat <-> num < 128 ^ Z.of_nat j).
Proof.
  intros Hnum Hj. exists (varint_groups 5 num).
  split; [apply encodeVarInt_groups; exact Hnum |].
  destruct j as [| j]; [lia |].
  apply varint_groups_size; [lia |].
  change (128 ^ Z.of_nat 6) with (2 ^ 42). lia.
Qed.

Lemma varint_length_by_magnitude_witness :
  (0 <= 16383 < 2 ^ 31) /\ (1 <= 2 <= 5)%nat /\
  exists buf,
    Compress.encodeVarInt 16383 = Ret buf /\
    ((List.length buf <= 2)%nat <-> 16383 < 128 ^ Z.of_nat 2).
Proof.
  split; [lia |]. split; [lia |].
  apply (varint_length_by_magnitude 16383 2); lia.
Defined.

(** ** Signed varints on their whole range *)

(** X4: [encodeSignedVarInt] and [decodeSignedVarInt] are inverse on
    every integer from [-2^30] to [2^30 - 1], wherever the bytes lie in
    a buffer: the decoder returns the integer and consumes exactly the
    bytes written, at most 5. *)
Theorem signed_varint_roundtrip_in_buffer n pre rest :
  - 2 ^ 30 <= n < 2 ^ 30 ->
  exists buf,
    Compress.encodeSignedVarInt n = Ret buf /\
    (1 <= List.length buf <= 5)%nat /\
    Decompress.decodeSignedVarInt (pre ++ buf ++ rest) (blength pre)
    = Ret (n, blength buf).
Proof.
  intros Hn.
  destruct (unzigzag_zigzag n Hn) as [Hv Hinv].
  unfold Compress.encodeSignedVarInt.
  set (v := JS.bxor (JS.shl n 1) (JS.sar n 31)) in *.
  exists (varint_groups 5 v).
  split; [apply encodeVarInt_groups; exact Hv |].
  split.
  - pose proof (varint_groups_length 5 v) as Hl.
    pose proof (varint_groups_size 5 4 v ltac:(lia)) as Hs.
    change (128 ^ Z.of_nat 6) with (2 ^ 42) in Hs.
    change (128 ^ Z.of_nat 5) with (2 ^ 35) in Hs.
    split; [lia | apply Hs; lia].
  - unfold Decompress.decodeSignedVarInt.
    rewrite (decodeVarInt_encoded v pre rest Hv). cbn [bind].
    rewrite Hinv. reflexivity.
Qed.

Lemma signed_varint_roundtrip_in_buffer_witness :
  - 2 ^ 30 <= - 2 ^ 30 < 2 ^ 30 /\
  exists buf,
    Compress.encodeSignedVarInt (- 2 ^ 30) = Ret buf /\
    (1 <= List.length buf <= 5)%nat /\
    Decompress.decodeSignedVarInt ([1; 2] ++ buf ++ [3]) 2
    = Ret (- 2 ^ 30, blength buf).
Proof.
  split; [lia |].
  apply (signed_varint_roundtrip_in_buffer (- 2 ^ 30) [1; 2] [3]). lia.
Defined.

Section ZigZagOverflow.

(** Past 30 bits the shift [n << 1] wraps, and the zigzag value is
    negative. *)
Lemma zigzag_wraps n :
  2 ^ 30 <= n < 2 ^ 31 \/ - 2 ^ 31 <= n < - 2 ^ 30 ->
  JS.bxor (JS.shl n 1) (JS.sar n 31) < 0.
Proof.
  intros Hn.
  assert (Hshl : JS.shl n 1 = if n <? 0 then 2 * n + 2 ^ 32 else 2 * n - 2 ^ 32).
  { unfold JS.shl. rewrite (ToInt32_small n) by lia.
    change (JS.ToUint32 1 mod 32) with 1.
    rewrite Z.shiftl_mul_pow2 by lia. change (2 ^ 1) with 2.
    rewrite <- ToInt32_mod_32.
    destruct (n <? 0) eqn:E.
    - apply Z.ltb_lt in E.
      replace ((n * 2) mod 2 ^ 32) with (2 * n + 2 ^ 32)
        by (apply Z.mod_unique with (q := -1); lia).
      apply ToInt32_small. lia.
    - apply Z.ltb_ge in E.
      replace ((n * 2) mod 2 ^ 32) with (2 * n)
        by (apply Z.mod_unique with (q := 0); lia).
      rewrite ToInt32_cases by lia.
      replace (2 * n <? 2 ^ 31) with false by (symmetry; apply Z.ltb_ge; lia).
      reflexivity. }
  assert (Hsar : JS.sar n 31 = if n <? 0 then -1 else 0).
  { unfold JS.sar. rewrite (ToInt32_small n) by lia.
    change (JS.ToUint32 31 mod 32) with 31.
    rewrite Z.shiftr_div_pow2 by lia.
    destruct (n <? 0) eqn:E.
    - apply Z.ltb_lt in E.
      symmetry. apply Z.div_unique with (r := n + 2 ^ 31); lia.
    - apply Z.ltb_ge in E. apply Z.div_small. lia. }
  rewrite Hshl, Hsar. unfold JS.bxor.
  destruct (n <? 0) eqn:E.
  - apply Z.ltb_lt in E.
    rewrite (ToInt32_small (2 * n + 2 ^ 32)) by lia.
    change (JS.ToInt32 (-1)) with (-1).
    rewrite Z.lxor_m1_r. unfold Z.lnot. lia.
  - apply Z.ltb_ge in E.
    rewrite (ToInt32_small (2 * n - 2 ^ 32)) by lia.
    change (JS.ToInt32 0) with 0. rewrite Z.lxor_0_r. lia.
Qed.

Lemma one_byte_signed_all b : 0 <= b < 256 -> one_byte_signed b = true.
Proof.
  apply (forall_below one_byte_signed 256). vm_compute. reflexivity.
Qed.

End ZigZagOverflow.

(** X5: past 30 bits the signed varint loses the number: for a 32-bit
    integer outside [-2^30, 2^30), [encodeSignedVarInt] writes a single
    byte, and [decodeSignedVarInt] does not read the integer back from
    it. *)
Theorem signed_varint_beyond_30_bits n :
  2 ^ 30 <= n < 2 ^ 31 \/ - 2 ^ 31 <= n < - 2 ^ 30 ->
  exists b,
    Compress.encodeSignedVarInt n = Ret [b] /\
    0 <= b < 256 /\
    forall r, Decompress.decodeSignedVarInt [b] 0 <> Ret (n, r).
Proof.
  intros Hn. pose proof (zigzag_wraps n Hn) as Hneg.
  unfold Compress.encodeSignedVarInt.
  revert Hneg. generalize (JS.bxor (JS.shl n 1) (JS.sar n 31)). intros v Hneg.
  exists (v mod 256).
  assert (Hb : 0 <= v mod 256 < 256) by (apply Z.mod_pos_bound; lia).
  split; [apply encodeVarInt_negative; exact Hneg |].
  split; [exact Hb |].
  intros r Hd. pose proof (one_byte_signed_all (v mod 256) Hb) as H.
  revert H Hd. generalize (v mod 256). intros b H Hd.
  unfold one_byte_signed in H. rewrite Hd in H.
  apply andb_true_iff in H. destruct H as [H1 H2].
  apply Z.leb_le in H1. apply Z.ltb_lt in H2.
  assert (Hn' : 64 <= n \/ n < - 64) by lia. clear Hn. lia.
Qed.

Lemma signed_varint_beyond_30_bits_witness :
  (2 ^ 30 <= 2 ^ 30 < 2 ^ 31 \/ - 2 ^ 31 <= 2 ^ 30 < - 2 ^ 30) /\
  exists b,
    Compress.encodeSignedVarInt (2 ^ 30) = Ret [b] /\
    0 <= b < 256 /\
    forall r, Decompress.decodeSignedVarInt [b] 0 <> Ret (2 ^ 30, r).
Proof.
  split; [left; lia |].
  apply (signed_varint_beyond_30_bits (2 ^ 30)). left. lia.
Defined.

(** ** Colors *)

Section DecodedColors.

Lemma code_get_COLOR_DICT c name :
  Decompress.code_get Decompress.COLOR_DICT c = Some name ->
  0 <= c <= 18 /\ is_hex_color (if c =? 0 then "none" else ("#" ++ name)%string) = true.
Proof.
  unfold Decompress.COLOR_DICT. cbn [Decompress.code_get].
  repeat match goal with
         | |- (if ?k =? c then _ else _) = _ -> _ =>
             destruct (Z.eqb_spec k c) as [<- | _];
             [intros H; injection H as <-; split; [lia | reflexivity] |]
         end.
  discriminate.
Qed.

Lemma hex2_upper_hex x :
  0 <= x < 256 ->
  String.length (hex2 x) = 2%nat /\ all_chars is_upper_hex (hex2 x) = true.
Proof.
  intros Hx.
  pose proof (forall_below
    (fun x => (Nat.eqb (String.length (hex2 x)) 2 && all_chars is_upper_hex (hex2 x))%bool)
    256 ltac:(vm_compute; reflexivity) x Hx) as H.
  cbv beta in H. apply andb_true_iff in H. destruct H as [H1 H2].
  apply Nat.eqb_eq in H1. split; assumption.
Qed.

Lemma all_chars_app p s t :
  all_chars p (s ++ t) = (all_chars p s && all_chars p t)%bool.
Proof.
  induction s as [| a s IH]; cbn; [reflexivity |].
  rewrite IH. apply andb_assoc.
Qed.

Lemma string_length_app s t :
  String.length (s ++ t) = (String.length s + String.length t)%nat.
Proof. induction s as [| a s IH]; cbn; [reflexivity | rewrite IH; reflexivity]. Qed.

Lemma buf_get_Some buffer i c :
  buf_get buffer i = Some c -> 0 <= i < blength buffer.
Proof.
  unfold buf_get, blength. destruct (i <? 0) eqn:E; [discriminate |].
  apply Z.ltb_ge in E. intros H.
  assert (Z.to_nat i < List.length buffer)%nat
    by (apply nth_error_Some; congruence).
  lia.
Qed.

Lemma buf_get_in buffer i :
  0 <= i < blength buffer -> exists c, buf_get buffer i = Some c /\ In c buffer.
Proof.
  unfold buf_get, blength. intros Hi.
  replace (i <? 0) with false by (symmetry; apply Z.ltb_ge; lia).
  destruct (nth_error buffer (Z.to_nat i)) as [c |] eqn:E.
  - exists c. split; [reflexivity | eapply nth_error_In; exact E].
  - apply nth_error_None in E. lia.
Qed.

Lemma full_color_is_hex_color r g b :
  0 <= r < 256 -> 0 <= g < 256 -> 0 <= b < 256 ->
  is_hex_color
    (JS.toUpperCase
       ("#" ++ JS.padStart0 2 (JS.toString16 r) ++ JS.padStart0 2 (JS.toString16 g) ++
        JS.padStart0 2 (JS.toString16 b))) = true.
Proof.
  intros Hr Hg Hb.
  change (JS.toUpperCase ("#" ++ ?s)) with (String "#" (JS.toUpperCase s)).
  rewrite !toUpperCase_app. fold (hex2 r) (hex2 g) (hex2 b).
  destruct (hex2_upper_hex r Hr) as [Lr Ar].
  destruct (hex2_upper_hex g Hg) as [Lg Ag].
  destruct (hex2_upper_hex b Hb) as [Lb Ab].
  change (is_hex_color (String "#" (hex2 r ++ hex2 g ++ hex2 b)))
    with ((Nat.eqb (String.length (hex2 r ++ hex2 g ++ hex2 b)) 6
           && all_chars is_upper_hex (hex2 r ++ hex2 g ++ hex2 b))%bool).
  rewrite !string_length_app, !all_chars_app, Lr, Lg, Lb, Ar, Ag, Ab.
  reflexivity.
Qed.

End DecodedColors.

(** X6: [decodeColor] returns exactly when the byte at the offset is a
    dictionary code (0 to 18), or is 254 with three more bytes behind
    it in the buffer; at any other offset or byte it throws. *)
Theorem decodeColor_returns_iff buffer offset :
  (exists s k, Decompress.decodeColor buffer offset = Ret (s, k)) <->
  (exists c, buf_get buffer offset = Some c /\
             (0 <= c <= 18 \/ (c = 254 /\ offset + 3 < blength buffer))).
Proof.
  unfold Decompress.decodeColor. split.
  - intros (s & k & H).
    destruct (blength buffer <=? offset) eqn:Eo; [discriminate |].
    cbv zeta in H.
    destruct (buf_get buffer offset) as [c |] eqn:Ec; [| discriminate].
    exists c. split; [reflexivity |].
    destruct (c <? 254) eqn:E254.
    + destruct (Decompress.code_get Decompress.COLOR_DICT c) as [name |] eqn:En.
      * left. apply (code_get_COLOR_DICT c name En).
      * apply Z.ltb_lt in E254.
        replace (c =? 254) with false in H by (symmetry; apply Z.eqb_neq; lia).
        discriminate.
    + destruct (Z.eqb_spec c 254) as [-> | Hne]; [| discriminate].
      right. split; [reflexivity |].
      destruct (blength buffer <=? offset + 3) eqn:E3; [discriminate |].
      apply Z.leb_gt in E3. exact E3.
  - intros (c & Hc & Hcase).
    pose proof (buf_get_Some _ _ _ Hc) as Hoff.
    replace (blength buffer <=? offset) with false by (symmetry; apply Z.leb_gt; lia).
    cbv zeta. rewrite Hc.
    destruct Hcase as [Hdict | [-> H3]].
    + replace (c <? 254) with true by (symmetry; apply Z.ltb_lt; lia).
      destruct (decode_COLOR_DICT_total c Hdict) as (name & ->).
      eexists. eexists. reflexivity.
    + change (254 <? 254) with false. cbv iota.
      change (254 =? 254) with true. cbv iota.
      replace (blength buffer <=? offset + 3) with false
        by (symmetry; apply Z.leb_gt; lia).
      unfold Decompress.hex_byte.
      destruct (buf_get_in buffer (offset + 1) ltac:(lia)) as (r & -> & _).
      destruct (buf_get_in buffer (offset + 2) ltac:(lia)) as (g & -> & _).
      destruct (buf_get_in buffer (offset + 3) ltac:(lia)) as (b & -> & _).
      cbn [bind]. eexists. eexists. reflexivity.
Qed.

(** X7: whatever bytes [decodeColor] is run on, a color it returns is
    [none] or [#] followed by six upper-case hexadecimal digits, and
    the 1 or 4 bytes it reports as read lie inside the buffer. *)
Theorem decodeColor_result_well_formed buffer offset s k :
  bytes buffer ->
  Decompress.decodeColor buffer offset = Ret (s, k) ->
  is_hex_color s = true /\ (k = 1 \/ k = 4) /\ 0 <= offset /\ offset + k <= blength buffer.
Proof.
  intros Hbytes. unfold Decompress.decodeColor.
  destruct (blength buffer <=? offset) eqn:Eo; [discriminate |].
  apply Z.leb_gt in Eo. cbv zeta.
  destruct (buf_get buffer offset) as [c |] eqn:Ec; [| discriminate].
  pose proof (buf_get_Some _ _ _ Ec) as Hoff.
  destruct (c <? 254) eqn:E254.
  - destruct (Decompress.code_get Decompress.COLOR_DICT c) as [name |] eqn:En.
    + intros H. injection H as <- <-.
      destruct (code_get_COLOR_DICT c name En) as [_ Hwf].
      split; [exact Hwf |]. split; [left; reflexivity | lia].
    + apply Z.ltb_lt in E254.
      replace (c =? 254) with false by (symmetry; apply Z.eqb_neq; lia).
      discriminate.
  - destruct (c =? 254); [| discriminate].
    destruct (blength buffer <=? offset + 3) eqn:E3; [discriminate |].
    apply Z.leb_gt in E3.
    unfold Decompress.hex_byte.
    destruct (buf_get_bytes buffer (offset + 1) Hbytes ltac:(lia)) as (r & -> & Hr).
    destruct (buf_get_bytes buffer (offset + 2) Hbytes ltac:(lia)) as (g & -> & Hg).
    destruct (buf_get_bytes buffer (offset + 3) Hbytes ltac:(lia)) as (b & -> & Hb).
    cbn [bind]. intros H. injection H as <- <-.
    split; [| split; [right; reflexivity | lia]].
    apply full_color_is_hex_color; assumption.
Qed.

Lemma decodeColor_result_well_formed_witness :
  bytes [9; 254; 18; 171; 239] /\
  is_hex_color "#12ABEF" = true /\ (4 = 1 \/ 4 = 4) /\ 0 <= 1 /\ 1 + 4 <= 5.
Proof.
  assert (Hb : bytes [9; 254; 18; 171; 239]) by (repeat constructor; lia).
  split; [exact Hb |].
  exact (decodeColor_result_well_formed [9; 254; 18; 171; 239] 1 "#12ABEF" 4 Hb eq_refl).
Defined.

(** X8: [encodeColor] never writes bytes that [decodeColor] rejects:
    for every string, the 1 or 4 bytes of [encodeColor] are read back,
    wherever they lie in a buffer, as a color [none] or [#RRGGBB], and
    exactly these bytes are consumed. *)
Theorem encoded_color_is_read_back c pre rest :
  exists s,
    Decompress.decodeColor (pre ++ Compress.encodeColor c ++ rest) (blength pre)
    = Ret (s, blength (Compress.encodeColor c)) /\
    is_hex_color s = true /\
    (blength (Compress.encodeColor c) = 1 \/ blength (Compress.encodeColor c) = 4).
Proof.
  unfold Decompress.decodeColor.
  destruct (encodeColor_shape c) as [(code & -> & Hc) | (x & y & z & -> & Hx & Hy & Hz)].
  - replace (blength (pre ++ [code] ++ rest) <=? blength pre) with false.
    2:{ symmetry. apply Z.leb_gt. rewrite !blength_app.
        change (blength [code]) with 1. pose proof (blength_nonneg rest). lia. }
    cbn [app]. rewrite (buf_get_app pre code rest) by reflexivity.
    replace (code <? 254) with true by (symmetry; apply Z.ltb_lt; lia).
    destruct (decode_COLOR_DICT_total code Hc) as (name & Hname).
    rewrite Hname. eexists. split; [reflexivity |].
    split; [apply (code_get_COLOR_DICT code name Hname) | left; reflexivity].
  - replace (blength (pre ++ [254; x; y; z] ++ rest) <=? blength pre) with false.
    2:{ symmetry. apply Z.leb_gt. rewrite !blength_app.
        change (blength [254; x; y; z]) with 4. pose proof (blength_nonneg rest). lia. }
    replace (blength (pre ++ [254; x; y; z] ++ rest) <=? blength pre + 3) with false.
    2:{ symmetry. apply Z.leb_gt. rewrite !blength_app.
        change (blength [254; x; y; z]) with 4. pose proof (blength_nonneg rest). lia. }
    unfold Decompress.hex_byte.
    rewrite !buf_get_app_r by lia.
    replace (buf_get (pre ++ [254; x; y; z] ++ rest) (blength pre))
      with (Some 254)
      by (symmetry; rewrite <- (Z.add_0_r (blength pre)); rewrite buf_get_app_r by lia;
          reflexivity).
    cbv beta iota zeta.
    change (254 <? 254) with false. change (254 =? 254) with true. cbv iota.
    change (buf_get ([254; x; y; z] ++ rest) 1) with (Some x).
    change (buf_get ([254; x; y; z] ++ rest) 2) with (Some y).
    change (buf_get ([254; x; y; z] ++ rest) 3) with (Some z).
    cbn [bind]. eexists. split; [reflexivity |].
    split; [apply full_color_is_hex_color; assumption | right; reflexivity].
Qed.

Section HexColors.

Lemma upper_hex_cases c :
  is_upper_hex c = true ->
  In c upper_hex_digits.
Proof.
  destruct c as [[] [] [] [] [] [] [] []]; intros H; try discriminate H; cbn; tauto.
Qed.

Lemma upper_hex_pair c1 c2 :
  is_upper_hex c1 = true -> is_upper_hex c2 = true ->
  exists v, 0 <= v < 256 /\
            JS.parseInt (String c1 (String c2 EmptyString)) 16 = Some v /\
            hex2 v = String c1 (String c2 EmptyString).
Proof.
  intros H1 H2.
  pose proof (upper_hex_cases c1 H1) as Hin1. pose proof (upper_hex_cases c2 H2) as Hin2.
  assert (Hall : forallb (fun a => forallb (hex_pair_check a) upper_hex_digits)
                   upper_hex_digits = true) by (vm_compute; reflexivity).
  rewrite forallb_forall in Hall. specialize (Hall c1 Hin1).
  rewrite forallb_forall in Hall. specialize (Hall c2 Hin2).
  unfold hex_pair_check in Hall.
  destruct (JS.parseInt (String c1 (String c2 EmptyString)) 16) as [v |]; [| discriminate].
  apply andb_true_iff in Hall. destruct Hall as [Hall Hs].
  apply andb_true_iff in Hall. destruct Hall as [Hlo Hhi].
  apply Z.leb_le in Hlo. apply Z.ltb_lt in Hhi. apply String.eqb_eq in Hs.
  exists v. repeat split; assumption.
Qed.

Lemma upper_char_hex c : is_hex_digit c = true -> is_upper_hex (JS.upper_char c) = true.
Proof.
  destruct c as [[] [] [] [] [] [] [] []]; intros H; try discriminate H; reflexivity.
Qed.

Lemma dict_get_In {V} (dict : list (string * V)) key v :
  Compress.dict_get dict key = Some v -> In (key, v) dict.
Proof.
  induction dict as [| [k w] dict IH]; cbn; [discriminate |].
  destruct (String.eqb_spec k key) as [-> | _].
  - intros H. injection H as <-. left. reflexivity.
  - intros H. right. apply IH. exact H.
Qed.

(** A color whose normalised hex string is six upper-case digits. *)
Lemma hex_key_roundtrip color c1 c2 c3 c4 c5 c6 pre rest :
  let K := String c1 (String c2 (String c3 (String c4 (String c5 (String c6 EmptyString))))) in
  is_upper_hex c1 = true -> is_upper_hex c2 = true -> is_upper_hex c3 = true ->
  is_upper_hex c4 = true -> is_upper_hex c5 = true -> is_upper_hex c6 = true ->
  (color =? "")%string = false -> (color =? "none")%string = false ->
  Compress.encodeColor_hex color = K ->
  Decompress.decodeColor (pre ++ Compress.encodeColor color ++ rest) (blength pre)
  = Ret (("#" ++ K)%string, blength (Compress.encodeColor color)).
Proof.
  intros K H1 H2 H3 H4 H5 H6 Hne Hnone Hhex.
  unfold Compress.encodeColor. rewrite Hne, Hnone, Hhex. cbn [orb].
  destruct (Compress.dict_get Compress.COLOR_DICT K) as [code |] eqn:Ed.
  - assert (Hk : dictionary_hex K).
    { split; [discriminate |]. exists code. apply dict_get_In. exact Ed. }
    destruct (dictionary_hex_facts K Hk) as (_ & _ & _ & _ & _ & _ & code' & Hget & Hcode & Hback).
    assert (code' = code) by congruence. subst code'.
    cbn [Compress.truthy JS.num_of].
    replace (code =? 0) with false by (symmetry; apply Z.eqb_neq; lia).
    cbn [negb]. unfold Buffer_from. cbn [map]. unfold byte_of. cbn [JS.num_of].
    rewrite (Z.mod_small code 256) by lia.
    unfold Decompress.decodeColor.
    replace (blength (pre ++ [code] ++ rest) <=? blength pre) with false.
    2:{ symmetry. apply Z.leb_gt. rewrite !blength_app.
        change (blength [code]) with 1. pose proof (blength_nonneg rest). lia. }
    cbn [app]. rewrite (buf_get_app pre code rest) by reflexivity.
    cbv beta iota zeta.
    replace (code <? 254) with true by (symmetry; apply Z.ltb_lt; lia).
    rewrite Hback.
    replace (code =? 0) with false by (symmetry; apply Z.eqb_neq; lia).
    reflexivity.
  - cbn [Compress.truthy].
    destruct (upper_hex_pair c1 c2 H1 H2) as (r & Hr & Pr & Er).
    destruct (upper_hex_pair c3 c4 H3 H4) as (g & Hg & Pg & Eg).
    destruct (upper_hex_pair c5 c6 H5 H6) as (b & Hb & Pb & Eb).
    change (JS.substring 0 2 K) with (String c1 (String c2 EmptyString)).
    change (JS.substring 2 4 K) with (String c3 (String c4 EmptyString)).
    change (JS.substring 4 6 K) with (String c5 (String c6 EmptyString)).
    rewrite Pr, Pg, Pb. unfold byte_of. cbn [JS.num_of].
    rewrite !Z.mod_small by lia.
    unfold Decompress.decodeColor.
    replace (blength (pre ++ [254; r; g; b] ++ rest) <=? blength pre) with false.
    2:{ symmetry. apply Z.leb_gt. rewrite !blength_app.
        change (blength [254; r; g; b]) with 4. pose proof (blength_nonneg rest). lia. }
    replace (blength (pre ++ [254; r; g; b] ++ rest) <=? blength pre + 3) with false.
    2:{ symmetry. apply Z.leb_gt. rewrite !blength_app.
        change (blength [254; r; g; b]) with 4. pose proof (blength_nonneg rest). lia. }
    unfold Decompress.hex_byte.
    rewrite !buf_get_app_r by lia.
    replace (buf_get (pre ++ [254; r; g; b] ++ rest) (blength pre))
      with (Some 254)
      by (symmetry; rewrite <- (Z.add_0_r (blength pre)); rewrite buf_get_app_r by lia;
          reflexivity).
    cbv beta iota zeta.
    change (254 <? 254) with false. change (254 =? 254) with true. cbv iota.
    change (buf_get ([254; r; g; b] ++ rest) 1) with (Some r).
    change (buf_get ([254; r; g; b] ++ rest) 2) with (Some g).
    change (buf_get ([254; r; g; b] ++ rest) 3) with (Some b).
    cbn [bind].
    change (JS.toUpperCase ("#" ++ ?s)) with (String "#" (JS.toUpperCase s)).
    rewrite !toUpperCase_app. fold (hex2 r) (hex2 g) (hex2 b).
    rewrite Er, Eg, Eb. reflexivity.
Qed.

End HexColors.

(** X9: every color written [#] and six hexadecimal digits, or [#] and
    three (the shorthand, each digit standing for two), in any case,
    survives [encodeColor] followed by [decodeColor] as [#] and its six
    digits in upper case, whether the dictionary has it or not, and
    wherever the bytes lie in a buffer. *)
Theorem hex_color_roundtrip h pre rest :
  all_chars is_hex_digit h = true ->
  String.length h = 6%nat \/ String.length h = 3%nat ->
  Decompress.decodeColor (pre ++ Compress.encodeColor ("#" ++ h) ++ rest) (blength pre)
  = Ret (("#" ++ JS.toUpperCase (expand_shorthand h))%string,
         blength (Compress.encodeColor ("#" ++ h))).
Proof.
  intros Hall [Hlen | Hlen].
  - destruct h as [| c1 [| c2 [| c3 [| c4 [| c5 [| c6 [| c7 h]]]]]]]; try discriminate Hlen.
    cbn [all_chars] in Hall.
    repeat (apply andb_true_iff in Hall; destruct Hall as [? Hall]).
    apply hex_key_roundtrip; try (apply upper_char_hex; assumption); reflexivity.
  - destruct h as [| c1 [| c2 [| c3 [| c4 h]]]]; try discriminate Hlen.
    cbn [all_chars] in Hall.
    repeat (apply andb_true_iff in Hall; destruct Hall as [? Hall]).
    apply hex_key_roundtrip; try (apply upper_char_hex; assumption); reflexivity.
Qed.

Lemma hex_color_roundtrip_witness :
  all_chars is_hex_digit "f0a" = true /\
  (String.length "f0a" = 6%nat \/ String.length "f0a" = 3%nat) /\
  Decompress.decodeColor ([7] ++ Compress.encodeColor "#f0a" ++ [8]) 1
  = Ret ("#FF00AA", 4).
Proof.
  split; [reflexivity |]. split; [right; reflexivity |].
  exact (hex_color_roundtrip "f0a" [7] [8] eq_refl (or_intror eq_refl)).
Defined.

(** ** Documents *)

Section PathCount.

Lemma decompressSVG_loop_count remaining :
  forall buffer currentOffset paths ps,
  Decompress.decompressSVG_loop remaining buffer currentOffset paths = Ret ps ->
  exists more, ps = paths ++ more /\ (List.length more <= remaining)%nat.
Proof.
  induction remaining as [| remaining IH]; intros buffer currentOffset paths ps;
    cbn [Decompress.decompressSVG_loop].
  - intros H. injection H as <-. exists []. rewrite app_nil_r. split; [reflexivity | cbn; lia].
  - destruct (blength buffer <=? currentOffset).
    + intros H. injection H as <-. exists []. rewrite app_nil_r.
      split; [reflexivity | cbn; lia].
    + destruct (Decompress.readPath buffer currentOffset) as [f | e |].
      * intros H. destruct (IH _ _ _ _ H) as (more & -> & Hlen).
        exists (Decompress.pathElement f :: more). rewrite <- app_assoc.
        split; [reflexivity | cbn [List.length]; lia].
      * intros H. injection H as <-. exists []. rewrite app_nil_r.
        split; [reflexivity | cbn; lia].
      * discriminate.
Qed.

End PathCount.

(** X10: [decompressSVG] gives an SVG text for every buffer, never an
    error: the fallback picture, or the view box it read with at most
    as many path elements as the count in the second byte of the
    buffer says. *)
Theorem decompressSVG_total buffer :
  Decompress.decompressSVG buffer = Ret Decompress.fallbackSVG \/
  exists viewBox paths,
    Decompress.decompressSVG buffer = Ret (Decompress.svgContent viewBox paths) /\
    (List.length paths <= Z.to_nat (JS.num_of (buf_get buffer 1)))%nat.
Proof.
  destruct (decompressSVG_cases buffer) as (_ & Hshort & Hthrow & Hread).
  destruct (Z.ltb_spec (blength buffer) 2) as [Hlt | Hge].
  - left. apply Hshort. exact Hlt.
  - pose proof (decodeViewBox_terminates buffer 2) as Ht.
    destruct (Decompress.decodeViewBox buffer 2) as [[viewBox n] | e |] eqn:Ev.
    + right. destruct (Hread viewBox n Hge eq_refl) as (ps & Hloop & Hdoc).
      exists viewBox, ps. split; [exact Hdoc |].
      destruct (decompressSVG_loop_count _ _ _ _ _ Hloop) as (more & -> & Hlen).
      cbn [app]. exact Hlen.
    + left. apply (Hthrow e). reflexivity.
    + exfalso. apply Ht. reflexivity.
Qed.

(** ** View boxes *)

Section Decimals.

Lemma string_app_nil_r (s : string) : (s ++ "")%string = s.
Proof. induction s as [| a s IH]; cbn; [reflexivity | rewrite IH; reflexivity]. Qed.

Lemma string_app_assoc (s t u : string) : ((s ++ t) ++ u)%string = (s ++ t ++ u)%string.
Proof. induction s as [| a s IH]; cbn; [reflexivity | rewrite IH; reflexivity]. Qed.

(** The digits of [d] read by [parseInt] after the value [a]. *)
Lemma radix_digits_uint_acc d :
  forall rest a,
  JS.radix_digits 10 (DecimalString.NilEmpty.string_of_uint d ++ rest) (Some (Z.pos a))
  = JS.radix_digits 10 rest (Some (Z.pos (Pos.of_uint_acc d a))).
Proof.
  induction d as [| d IH | d IH | d IH | d IH | d IH | d IH | d IH | d IH | d IH | d IH];
    intros rest a; [reflexivity | ..];
    cbn [DecimalString.NilEmpty.string_of_uint String.append JS.radix_digits];
    match goal with
    | |- context [JS.digit_value ?c] =>
        let v := eval vm_compute in (JS.digit_value c) in
        change (JS.digit_value c) with v
    end;
    cbv beta iota;
    match goal with
    | |- context [?k <? 10] => change (k <? 10) with true
    end;
    cbv iota; cbn [JS.num_of Pos.of_uint_acc]; rewrite <- IH; do 2 f_equal; lia.
Qed.

Lemma radix_digits_uint d :
  forall rest acc,
  d <> Decimal.Nil -> JS.num_of acc = 0 ->
  JS.radix_digits 10 (DecimalString.NilEmpty.string_of_uint d ++ rest) acc
  = JS.radix_digits 10 rest (Some (Z.of_N (Pos.of_uint d))).
Proof.
  induction d as [| d IH | d IH | d IH | d IH | d IH | d IH | d IH | d IH | d IH | d IH];
    intros rest acc Hd Hacc; [contradiction | ..];
    cbn [DecimalString.NilEmpty.string_of_uint String.append JS.radix_digits];
    match goal with
    | |- context [JS.digit_value ?c] =>
        let v := eval vm_compute in (JS.digit_value c) in
        change (JS.digit_value c) with v
    end;
    cbv beta iota;
    match goal with
    | |- context [?k <? 10] => change (k <? 10) with true
    end;
    cbv iota; rewrite Hacc; cbn [Pos.of_uint Z.mul Z.add];
    [ destruct d; [reflexivity | apply IH; [discriminate | reflexivity] ..]
    | apply radix_digits_uint_acc .. ].
Qed.

Lemma string_of_uint_digits d :
  all_chars JS.is_digit (DecimalString.NilEmpty.string_of_uint d) = true.
Proof.
  induction d; cbn [DecimalString.NilEmpty.string_of_uint all_chars]; [reflexivity | ..];
    rewrite IHd; reflexivity.
Qed.

Lemma digit_cases c :
  JS.is_digit c = true ->
  In c ["0"; "1"; "2"; "3"; "4"; "5"; "6"; "7"; "8"; "9"]%char.
Proof.
  destruct c as [[] [] [] [] [] [] [] []]; intros H; try discriminate H; cbn; tauto.
Qed.

Ltac digit_case c H :=
  let Hin := fresh "Hin" in
  pose proof (digit_cases c H) as Hin; cbn [In] in Hin;
  repeat (destruct Hin as [Hin | Hin]; [subst c |]); [.. | contradiction].

(** [parseInt] on a string of digits has no sign and no prefix to deal
    with. *)
Lemma parseInt_digits s :
  all_chars JS.is_digit s = true ->
  JS.parseInt s 0
  = match JS.radix_digits 10 s None with Some v => Some (1 * v) | None => None end.
Proof.
  destruct s as [| c1 s]; [reflexivity |].
  cbn [all_chars]. intros H. apply andb_true_iff in H. destruct H as [H1 H].
  destruct s as [| c2 s].
  - digit_case c1 H1; reflexivity.
  - cbn [all_chars] in H. apply andb_true_iff in H. destruct H as [H2 _].
    digit_case c1 H1; digit_case c2 H2; reflexivity.
Qed.

Lemma parseInt_minus_digits s :
  all_chars JS.is_digit s = true ->
  JS.parseInt (String "-" s) 0
  = match JS.radix_digits 10 s None with Some v => Some (-1 * v) | None => None end.
Proof.
  destruct s as [| c1 s]; [reflexivity |].
  cbn [all_chars]. intros H. apply andb_true_iff in H. destruct H as [H1 H].
  destruct s as [| c2 s].
  - digit_case c1 H1; reflexivity.
  - cbn [all_chars] in H. apply andb_true_iff in H. destruct H as [H2 _].
    digit_case c1 H1; digit_case c2 H2; reflexivity.
Qed.

(** The decimal text of an integer, and what [parseInt] reads in it. *)
Lemma string_of_Z_pos p :
  JS.string_of_Z (Z.pos p) = DecimalString.NilEmpty.string_of_uint (Pos.to_uint p).
Proof.
  unfold JS.string_of_Z. cbn [Z.to_int DecimalString.NilZero.string_of_int].
  pose proof (DecimalPos.Unsigned.to_uint_nonnil p) as Hn.
  unfold DecimalString.NilZero.string_of_uint. destruct (Pos.to_uint p); [contradiction | reflexivity ..].
Qed.

Lemma string_of_Z_neg p :
  JS.string_of_Z (Z.neg p) = String "-" (DecimalString.NilEmpty.string_of_uint (Pos.to_uint p)).
Proof.
  unfold JS.string_of_Z. cbn [Z.to_int DecimalString.NilZero.string_of_int].
  pose proof (DecimalPos.Unsigned.to_uint_nonnil p) as Hn.
  unfold DecimalString.NilZero.string_of_uint. destruct (Pos.to_uint p); [contradiction | reflexivity ..].
Qed.

Lemma radix_digits_to_uint p :
  JS.radix_digits 10 (DecimalString.NilEmpty.string_of_uint (Pos.to_uint p)) None = Some (Z.pos p).
Proof.
  rewrite <- (string_app_nil_r (DecimalString.NilEmpty.string_of_uint (Pos.to_uint p))).
  rewrite radix_digits_uint;
    [| apply DecimalPos.Unsigned.to_uint_nonnil | reflexivity].
  rewrite DecimalPos.Unsigned.of_to. reflexivity.
Qed.

Lemma parseInt_string_of_Z z : JS.parseInt (JS.string_of_Z z) 0 = Some z.
Proof.
  destruct z as [| p | p].
  - reflexivity.
  - rewrite string_of_Z_pos, parseInt_digits by apply string_of_uint_digits.
    rewrite radix_digits_to_uint. reflexivity.
  - rewrite string_of_Z_neg, parseInt_minus_digits by apply string_of_uint_digits.
    rewrite radix_digits_to_uint. reflexivity.
Qed.

End Decimals.

Section Splitting.

Lemma rev_string_rev s : forall acc acc',
  JS.rev_string (JS.rev_string s acc) acc' = JS.rev_string acc (s ++ acc')%string.
Proof.
  induction s as [| c s IH]; intros acc acc'; cbn [JS.rev_string String.append];
    [reflexivity |].
  rewrite IH. reflexivity.
Qed.

Lemma split_on_token sep s : forall t cur,
  all_chars (fun c => negb (sep c)) s = true ->
  JS.split_on sep (s ++ t) cur = JS.split_on sep t (JS.rev_string s cur).
Proof.
  induction s as [| c s IH]; intros t cur H; cbn [String.append JS.rev_string];
    [reflexivity |].
  cbn [all_chars] in H. apply andb_true_iff in H. destruct H as [Hc H].
  cbn [JS.split_on]. apply negb_true_iff in Hc. rewrite Hc. apply IH. exact H.
Qed.

Lemma split_on_four sep (sp : ascii) s1 s2 s3 s4 :
  sep sp = true ->
  all_chars (fun c => negb (sep c)) s1 = true ->
  all_chars (fun c => negb (sep c)) s2 = true ->
  all_chars (fun c => negb (sep c)) s3 = true ->
  all_chars (fun c => negb (sep c)) s4 = true ->
  JS.split_on sep (s1 ++ String sp (s2 ++ String sp (s3 ++ String sp s4))) EmptyString
  = [s1; s2; s3; s4].
Proof.
  intros Hsp H1 H2 H3 H4.
  rewrite split_on_token by exact H1. cbn [JS.split_on]. rewrite Hsp.
  rewrite split_on_token by exact H2. cbn [JS.split_on]. rewrite Hsp.
  rewrite split_on_token by exact H3. cbn [JS.split_on]. rewrite Hsp.
  rewrite <- (string_app_nil_r s4) at 1.
  rewrite split_on_token by exact H4. cbn [JS.split_on].
  rewrite !rev_string_rev. cbn [JS.rev_string]. rewrite !string_app_nil_r. reflexivity.
Qed.

Lemma all_chars_impl (p q : ascii -> bool) s :
  (forall c, p c = true -> q c = true) -> all_chars p s = true -> all_chars q s = true.
Proof.
  intros Hpq. induction s as [| c s IH]; cbn [all_chars]; [reflexivity |].
  intros H. apply andb_true_iff in H. destruct H as [Hc H].
  rewrite (Hpq c Hc), (IH H). reflexivity.
Qed.

(** A run of characters that are not white space is kept by
    [replace(/\s+/g, ' ')]. *)
Lemma collapse_space_token s : forall t,
  all_chars (fun c => negb (JS.is_space c)) s = true ->
  JS.collapse_space (s ++ t) = (s ++ JS.collapse_space t)%string.
Proof.
  induction s as [| c s IH]; intros t H; cbn [String.append]; [reflexivity |].
  cbn [all_chars] in H. apply andb_true_iff in H. destruct H as [Hc H].
  apply negb_true_iff in Hc. cbn [JS.collapse_space]. rewrite Hc, IH by exact H.
  reflexivity.
Qed.

End Splitting.

Section DecimalText.

Lemma to_uint_no_leading_zero p l : Pos.to_uint p <> Decimal.D0 l.
Proof.
  intros E.
  pose proof (DecimalZ.to_of (Z.to_int (Z.pos p))) as H.
  rewrite DecimalZ.of_to in H. cbn [Z.to_int Decimal.norm] in H.
  injection H as H. rewrite E in H. unfold Decimal.unorm in H.
  cbn [Decimal.nzhead] in H.
  destruct (Decimal.nzhead l) eqn:En; try discriminate H.
  - injection H as ->. apply (DecimalPos.Unsigned.to_uint_nonzero p). exact E.
  - apply (DecimalFacts.nzhead_nonzero l u). exact En.
Qed.

(** The decimal text of an integer is a token: no white space in it,
    and a first character that is [0] only for the integer 0. *)
Lemma string_of_Z_token z :
  exists c s, JS.string_of_Z z = String c s /\
              (z <> 0 -> c <> "0"%char) /\
              all_chars (fun c => negb (JS.is_space c)) (String c s) = true.
Proof.
  assert (Hd : forall s, all_chars JS.is_digit s = true ->
                         all_chars (fun c => negb (JS.is_space c)) s = true).
  { intros s. apply all_chars_impl. intros c.
    destruct c as [[] [] [] [] [] [] [] []]; intros H; try discriminate H; reflexivity. }
  destruct z as [| p | p].
  - exists "0"%char, EmptyString. repeat split. intros H. contradiction.
  - rewrite string_of_Z_pos.
    pose proof (string_of_uint_digits (Pos.to_uint p)) as Hall.
    pose proof (DecimalPos.Unsigned.to_uint_nonnil p) as Hn.
    pose proof (to_uint_no_leading_zero p) as Hz.
    destruct (Pos.to_uint p) as [| l | l | l | l | l | l | l | l | l | l];
      [contradiction | exfalso; apply (Hz l); reflexivity | ..];
      (eexists; eexists; split; [reflexivity |]; split;
       [intros _; discriminate | apply Hd; exact Hall]).
  - rewrite string_of_Z_neg. eexists. eexists. split; [reflexivity |].
    split; [intros _; discriminate |].
    cbn [all_chars]. rewrite (Hd _ (string_of_uint_digits (Pos.to_uint p))). reflexivity.
Qed.

Lemma no_space_no_blank s :
  all_chars (fun c => negb (JS.is_space c)) s = true ->
  all_chars (fun c => negb (Ascii.eqb c " ")) s = true.
Proof.
  apply all_chars_impl. intros c.
  destruct (Ascii.eqb_spec c " ") as [-> | _]; [discriminate | reflexivity].
Qed.

(** The text of four integers splits into their four texts, with
    [split(' ')] as with [split(/\s+/)]. *)
Lemma viewBox_text_split x y w h :
  JS.split_space (viewBox_text x y w h)
  = [JS.string_of_Z x; JS.string_of_Z y; JS.string_of_Z w; JS.string_of_Z h] /\
  JS.split_spaces (viewBox_text x y w h)
  = [JS.string_of_Z x; JS.string_of_Z y; JS.string_of_Z w; JS.string_of_Z h].
Proof.
  destruct (string_of_Z_token x) as (cx & sx & Ex & _ & Hx).
  destruct (string_of_Z_token y) as (cy & sy & Ey & _ & Hy).
  destruct (string_of_Z_token w) as (cw & sw & Ew & _ & Hw).
  destruct (string_of_Z_token h) as (ch & sh & Eh & _ & Hh).
  assert (Hsplit :
    JS.split_space (viewBox_text x y w h)
    = [JS.string_of_Z x; JS.string_of_Z y; JS.string_of_Z w; JS.string_of_Z h]).
  { unfold JS.split_space, viewBox_text. rewrite Ex, Ey, Ew, Eh.
    change (" " ++ ?s)%string with (String " " s).
    apply (split_on_four _ " "%char (String cx sx) (String cy sy) (String cw sw)
             (String ch sh)); try reflexivity; apply no_space_no_blank; assumption. }
  split; [exact Hsplit |].
  unfold JS.split_spaces.
  replace (JS.collapse_space (viewBox_text x y w h)) with (viewBox_text x y w h);
    [exact Hsplit |].
  unfold viewBox_text. rewrite Ex, Ey, Ew, Eh.
  assert (Hstep : forall c s t, all_chars (fun c => negb (JS.is_space c)) (String c s) = true ->
            JS.collapse_space (" " ++ String c s ++ t)
            = (" " ++ String c s ++ JS.collapse_space t)%string).
  { intros c s t H. cbn [String.append JS.collapse_space].
    change (JS.is_space " ") with true. cbv iota.
    pose proof H as H'. cbn [all_chars] in H'. apply andb_true_iff in H'.
    destruct H' as [Hc Hs]. apply negb_true_iff in Hc. rewrite Hc.
    rewrite (collapse_space_token s) by exact Hs. reflexivity. }
  rewrite (collapse_space_token (String cx sx)) by exact Hx.
  rewrite (Hstep cy sy) by exact Hy.
  rewrite (Hstep cw sw) by exact Hw.
  pose proof (Hstep ch sh EmptyString Hh) as Hlast.
  change (JS.collapse_space EmptyString) with EmptyString in Hlast.
  rewrite !string_app_nil_r in Hlast. rewrite Hlast. reflexivity.
Qed.

End DecimalText.

Section ViewBoxRoundTrip.

Ltac list_eq := repeat first [rewrite <- app_assoc | progress (cbn [app])]; reflexivity.

Lemma decodeVarInt_at buffer offset pre n rest :
  0 <= n < 2 ^ 31 ->
  buffer = pre ++ varint_groups 5 n ++ rest -> offset = blength pre ->
  Decompress.decodeVarInt buffer offset = Ret (n, blength (varint_groups 5 n)).
Proof. intros Hn -> ->. apply decodeVarInt_encoded. exact Hn. Qed.

Lemma decodeSignedVarInt_at buffer offset pre n rest :
  - 2 ^ 30 <= n < 2 ^ 30 ->
  let v := JS.bxor (JS.shl n 1) (JS.sar n 31) in
  buffer = pre ++ varint_groups 5 v ++ rest -> offset = blength pre ->
  Compress.encodeSignedVarInt n = Ret (varint_groups 5 v) /\
  Decompress.decodeSignedVarInt buffer offset = Ret (n, blength (varint_groups 5 v)).
Proof.
  intros Hn v -> ->. destruct (unzigzag_zigzag n Hn) as [Hv Hinv]. fold v in Hv, Hinv.
  split; [apply encodeVarInt_groups; exact Hv |].
  unfold Decompress.decodeSignedVarInt.
  rewrite (decodeVarInt_encoded v pre rest Hv). cbn [bind]. rewrite Hinv. reflexivity.
Qed.

Lemma viewBox_text_origin w h :
  JS.startsWith (viewBox_text 0 0 w h) "0 0 " = true.
Proof.
  unfold viewBox_text, JS.startsWith.
  destruct (string_of_Z_token w) as (cw & sw & -> & _). reflexivity.
Qed.

Lemma prefix_cons a s1 b s2 :
  String.prefix (String a s1) (String b s2)
  = if Ascii.eqb a b then String.prefix s1 s2 else false.
Proof.
  cbn [String.prefix].
  destruct (ascii_dec a b) as [-> | Hne].
  - rewrite Ascii.eqb_refl. reflexivity.
  - destruct (Ascii.eqb_spec a b); [contradiction | reflexivity].
Qed.

Lemma viewBox_text_elsewhere x y w h :
  x <> 0 \/ y <> 0 -> JS.startsWith (viewBox_text x y w h) "0 0 " = false.
Proof.
  intros Hxy. unfold viewBox_text, JS.startsWith.
  destruct (string_of_Z_token x) as (cx & sx & Ex & Hx & _).
  destruct (string_of_Z_token y) as (cy & sy & Ey & Hy & _).
  destruct (Z.eq_dec x 0) as [-> | Hx0].
  - destruct Hxy as [Hxy | Hy0]; [contradiction |].
    rewrite Ey. change (JS.string_of_Z 0) with "0"%string.
    cbn [String.append]. rewrite !prefix_cons.
    change (Ascii.eqb "0" "0") with true. change (Ascii.eqb " " " ") with true.
    cbv iota.
    destruct (Ascii.eqb_spec "0" cy) as [<- | _]; [| reflexivity].
    exfalso. apply (Hy Hy0). reflexivity.
  - rewrite Ex. cbn [String.append]. rewrite prefix_cons.
    destruct (Ascii.eqb_spec "0" cx) as [<- | _]; [| reflexivity].
    exfalso. apply (Hx Hx0). reflexivity.
Qed.

Lemma buffer_not_before pre (l rest : Buffer) :
  l <> [] -> (blength (pre ++ l ++ rest) <=? blength pre) = false.
Proof.
  intros Hl. destruct l as [| b l]; [contradiction |].
  apply Z.leb_gt. rewrite !blength_app, blength_cons.
  pose proof (blength_nonneg l). pose proof (blength_nonneg rest). lia.
Qed.

(** The full format, for a view box that does not start at the origin. *)
Lemma viewBox_general_roundtrip x y w h pre rest :
  - 2 ^ 30 <= x < 2 ^ 30 -> - 2 ^ 30 <= y < 2 ^ 30 ->
  0 <= w < 2 ^ 31 -> 0 <= h < 2 ^ 31 ->
  exists buf,
    Compress.processViewBox_general (viewBox_text x y w h) = Ret buf /\
    Decompress.decodeViewBox (pre ++ buf ++ rest) (blength pre)
    = Ret (viewBox_text x y w h, blength buf).
Proof.
  intros Hx Hy Hw Hh.
  destruct (viewBox_text_split x y w h) as [_ Hsplits].
  pose proof (encodeVarInt_groups w Hw) as Ew.
  pose proof (encodeVarInt_groups h Hh) as Eh.
  set (vx := JS.bxor (JS.shl x 1) (JS.sar x 31)).
  set (vy := JS.bxor (JS.shl y 1) (JS.sar y 31)).
  set (gx := varint_groups 5 vx). set (gy := varint_groups 5 vy).
  set (gw := varint_groups 5 w). set (gh := varint_groups 5 h).
  set (buffer := pre ++ (3 :: gx ++ gy ++ gw ++ gh) ++ rest).
  destruct (decodeSignedVarInt_at buffer (blength pre + 1) (pre ++ [3]) x
              (gy ++ gw ++ gh ++ rest) Hx) as [Ex Dx];
    [subst buffer; list_eq
    | rewrite blength_app; reflexivity |].
  destruct (decodeSignedVarInt_at buffer (blength pre + (1 + blength gx))
              (pre ++ [3] ++ gx) y (gw ++ gh ++ rest) Hy) as [Ey Dy];
    [subst buffer; list_eq
    | rewrite !blength_app; change (blength [3]) with 1; lia |].
  fold vx gx in Ex, Dx. fold vy gy in Ey, Dy.
  unfold Compress.processViewBox_general.
  rewrite Hsplits. cbn [map]. rewrite !parseInt_string_of_Z. cbn [JS.num_of].
  rewrite Ex. cbn [bind]. rewrite Ey. cbn [bind].
  rewrite Ew. cbn [bind]. rewrite Eh. cbn [bind].
  eexists. split; [reflexivity |].
  change (Buffer_from [3] ++ gx ++ gy ++ varint_groups 5 w ++ varint_groups 5 h)
    with (3 :: gx ++ gy ++ gw ++ gh).
  fold buffer.
  unfold Decompress.decodeViewBox.
  unfold buffer at 1. rewrite buffer_not_before by discriminate.
  replace (buf_get buffer (blength pre)) with (Some 3)
    by (symmetry; apply buf_get_app; reflexivity).
  cbv beta iota zeta.
  rewrite Dx. cbn [bind]. rewrite Dy. cbn [bind].
  rewrite (decodeVarInt_at buffer _ (pre ++ [3] ++ gx ++ gy) w (gh ++ rest) Hw);
    [| subst buffer; list_eq
     | rewrite !blength_app; change (blength [3]) with 1; lia].
  cbn [bind].
  rewrite (decodeVarInt_at buffer _ (pre ++ [3] ++ gx ++ gy ++ gw) h rest Hh);
    [| subst buffer; list_eq
     | rewrite !blength_app; change (blength [3]) with 1; unfold gw; lia].
  cbn [bind]. f_equal. f_equal.
  rewrite blength_cons, !blength_app. unfold gw, gh. lia.
Qed.

End ViewBoxRoundTrip.

Section ViewBoxFormats.

(** The three integer formats of the view box. *)
Lemma viewBox_text_roundtrip x y w h pre rest :
  - 2 ^ 30 <= x < 2 ^ 30 -> - 2 ^ 30 <= y < 2 ^ 30 ->
  0 <= w < 2 ^ 31 -> 0 <= h < 2 ^ 31 ->
  exists buf,
    Compress.processViewBox (viewBox_text x y w h) = Ret buf /\
    Decompress.decodeViewBox (pre ++ buf ++ rest) (blength pre)
    = Ret (viewBox_text x y w h, blength buf).
Proof.
  intros Hx Hy Hw Hh.
  destruct (viewBox_text_split x y w h) as [Hsplit Hsplits].
  pose proof (encodeVarInt_groups w Hw) as Ew.
  pose proof (encodeVarInt_groups h Hh) as Eh.
  unfold Compress.processViewBox.
  destruct (Z.eq_dec x 0) as [-> | Hx0]; [destruct (Z.eq_dec y 0) as [-> | Hy0] |].
  - rewrite viewBox_text_origin, Hsplit, !parseInt_string_of_Z.
    destruct (Z.eqb_spec w h) as [<- | Hne].
    + rewrite Ew. cbn [bind]. eexists. split; [reflexivity |].
      unfold Decompress.decodeViewBox.
      rewrite buffer_not_before by discriminate.
      change (Buffer_from [1] ++ varint_groups 5 w) with (1 :: varint_groups 5 w).
      cbn [app]. rewrite (buf_get_app pre 1) by reflexivity. cbv beta iota zeta.
      rewrite (decodeVarInt_at _ _ (pre ++ [1]) w rest Hw);
        [| rewrite <- app_assoc; reflexivity
         | rewrite blength_app; reflexivity].
      cbn [bind]. f_equal. f_equal. rewrite blength_cons. lia.
    + rewrite Ew. cbn [bind]. rewrite Eh. cbn [bind]. eexists. split; [reflexivity |].
      unfold Decompress.decodeViewBox.
      rewrite buffer_not_before by discriminate.
      change (Buffer_from [2] ++ varint_groups 5 w ++ varint_groups 5 h)
        with (2 :: varint_groups 5 w ++ varint_groups 5 h).
      cbn [app]. rewrite (buf_get_app pre 2) by reflexivity. cbv beta iota zeta.
      rewrite (decodeVarInt_at _ _ (pre ++ [2]) w (varint_groups 5 h ++ rest) Hw);
        [| repeat rewrite <- app_assoc; reflexivity
         | rewrite blength_app; reflexivity].
      cbn [bind].
      rewrite (decodeVarInt_at _ _ (pre ++ [2] ++ varint_groups 5 w) h rest Hh);
        [| repeat rewrite <- app_assoc; reflexivity
         | rewrite !blength_app; change (blength [2]) with 1; lia].
      cbn [bind]. f_equal. f_equal. rewrite blength_cons, blength_app. lia.
  - rewrite (viewBox_text_elsewhere 0 y w h) by (right; exact Hy0).
    apply viewBox_general_roundtrip; assumption.
  - rewrite (viewBox_text_elsewhere x y w h) by (left; exact Hx0).
    apply viewBox_general_roundtrip; assumption.
Qed.

End ViewBoxFormats.

(** X11: a view box of four integers written in decimal with single
    spaces ([x] and [y] of 31 bits with sign, [w] and [h] below [2^31])
    is stored by [processViewBox] in the square, rectangle or full
    format and read back by [decodeViewBox] as the same text, at any
    position of a buffer, exactly the bytes written being consumed. *)
Theorem viewBox_roundtrip x y w h pre rest :
  - 2 ^ 30 <= x < 2 ^ 30 -> - 2 ^ 30 <= y < 2 ^ 30 ->
  0 <= w < 2 ^ 31 -> 0 <= h < 2 ^ 31 ->
  exists buf,
    Compress.processViewBox (viewBox_text x y w h) = Ret buf /\
    Decompress.decodeViewBox (pre ++ buf ++ rest) (blength pre)
    = Ret (viewBox_text x y w h, blength buf).
Proof. exact (viewBox_text_roundtrip x y w h pre rest). Qed.

Lemma viewBox_roundtrip_witness :
  (- 2 ^ 30 <= 0 < 2 ^ 30) /\ (- 2 ^ 30 <= 0 < 2 ^ 30) /\
  (0 <= 420 < 2 ^ 31) /\ (0 <= 420 < 2 ^ 31) /\
  exists buf,
    Compress.processViewBox "0 0 420 420" = Ret buf /\
    Decompress.decodeViewBox ([3; 1] ++ buf ++ [1; 1; 0]) 2
    = Ret ("0 0 420 420", blength buf).
Proof.
  repeat (split; [lia |]).
  apply (viewBox_roundtrip 0 0 420 420 [3; 1] [1; 1; 0]); lia.
Defined.

Section ViewBoxText.

Lemma fromCharCode_byte c : JS.fromCharCode (Z.of_nat (nat_of_ascii c)) = c.
Proof.
  unfold JS.fromCharCode. pose proof (nat_ascii_bounded c) as Hb.
  rewrite Z.mod_small by lia. rewrite Nat2Z.id. apply ascii_nat_embedding.
Qed.

Lemma read_chars_string s : forall rest i,
  Decompress.read_chars (JS.bytes_of_string s ++ rest) i (i + Z.of_nat (String.length s)) = s.
Proof.
  induction s as [| c s IH]; intros rest i.
  - cbn [JS.bytes_of_string String.length app]. rewrite Z.add_0_r.
    destruct rest as [| b rest]; cbn [Decompress.read_chars]; [reflexivity |].
    rewrite Z.ltb_irrefl. reflexivity.
  - cbn [JS.bytes_of_string String.length app Decompress.read_chars].
    replace (i <? i + Z.of_nat (S (String.length s))) with true
      by (symmetry; apply Z.ltb_lt; lia).
    rewrite fromCharCode_byte. f_equal.
    replace (i + Z.of_nat (S (String.length s))) with (i + 1 + Z.of_nat (String.length s))
      by lia.
    apply IH.
Qed.

Lemma blength_bytes_of_string s :
  blength (JS.bytes_of_string s) = Z.of_nat (String.length s).
Proof.
  unfold blength. induction s as [| c s IH]; cbn [JS.bytes_of_string List.length String.length];
    [reflexivity | lia].
Qed.

Lemma skipn_app_exact {A} (l1 l2 : list A) n :
  n = List.length l1 -> skipn n (l1 ++ l2) = l2.
Proof.
  intros ->. induction l1 as [| a l1 IH]; cbn; [reflexivity | exact IH].
Qed.

(** A text without white space is not split, and does not start with
    [0 0 ] followed by a space. *)
Lemma unsplit_text vb :
  all_chars (fun c => negb (JS.is_space c)) vb = true ->
  JS.startsWith vb "0 0 " = false /\ JS.split_spaces vb = [vb].
Proof.
  intros H. split.
  - unfold JS.startsWith. destruct vb as [| c1 [| c2 s]];
      [reflexivity | rewrite prefix_cons; destruct (Ascii.eqb "0" c1); reflexivity |].
    rewrite !prefix_cons.
    cbn [all_chars] in H. apply andb_true_iff in H. destruct H as [_ H].
    apply andb_true_iff in H. destruct H as [H2 _].
    destruct (Ascii.eqb "0" c1); [| reflexivity].
    destruct (Ascii.eqb_spec " " c2) as [<- | _]; [discriminate H2 | reflexivity].
  - unfold JS.split_spaces.
    pose proof (collapse_space_token vb EmptyString H) as Hc.
    rewrite string_app_nil_r in Hc. change (JS.collapse_space EmptyString) with EmptyString in Hc.
    rewrite string_app_nil_r in Hc. rewrite Hc.
    pose proof (split_on_token (fun c => Ascii.eqb c " ") vb EmptyString EmptyString
                  (no_space_no_blank vb H)) as Hs.
    rewrite string_app_nil_r in Hs. rewrite Hs. cbn [JS.split_on].
    rewrite rev_string_rev. cbn [JS.rev_string]. rewrite string_app_nil_r. reflexivity.
Qed.

End ViewBoxText.

(** X12: a view box text without white space (as [0,0,420,420]), of
    ASCII characters, is stored by [processViewBox] in the string
    format, a zero byte, the length and the characters, and is read
    back by [decodeViewBox] unchanged, at any position of a buffer. *)
Theorem viewBox_text_fallback_roundtrip vb pre rest :
  all_chars (fun c => negb (JS.is_space c)) vb = true ->
  is_ascii vb = true ->
  Z.of_nat (String.length vb) < 2 ^ 31 ->
  exists lengthBytes,
    Compress.encodeVarInt (Z.of_nat (String.length vb)) = Ret lengthBytes /\
    Compress.processViewBox vb = Ret ([0] ++ lengthBytes ++ JS.bytes_of_string vb) /\
    Decompress.decodeViewBox
      (pre ++ ([0] ++ lengthBytes ++ JS.bytes_of_string vb) ++ rest) (blength pre)
    = Ret (vb, blength ([0] ++ lengthBytes ++ JS.bytes_of_string vb)).
Proof.
  intros Hns _ Hlen.
  destruct (unsplit_text vb Hns) as [Hstart Hsplit].
  set (n := Z.of_nat (String.length vb)) in *.
  assert (Hn : 0 <= n < 2 ^ 31) by (unfold n; lia).
  exists (varint_groups 5 n).
  pose proof (encodeVarInt_groups n Hn) as En.
  split; [exact En |]. split.
  - unfold Compress.processViewBox. rewrite Hstart.
    unfold Compress.processViewBox_general. rewrite Hsplit. cbn [map].
    rewrite blength_bytes_of_string. fold n. rewrite En. reflexivity.
  - unfold Decompress.decodeViewBox.
    rewrite buffer_not_before by discriminate.
    cbn [app]. rewrite (buf_get_app pre 0) by reflexivity. cbv beta iota zeta.
    rewrite (decodeVarInt_at _ _ (pre ++ [0]) n (JS.bytes_of_string vb ++ rest) Hn);
      [| repeat first [rewrite <- app_assoc | progress (cbn [app])]; reflexivity
       | rewrite blength_app; reflexivity].
    cbn [bind]. f_equal. f_equal.
    + replace (pre ++ 0 :: (varint_groups 5 n ++ JS.bytes_of_string vb) ++ rest)
        with ((pre ++ 0 :: varint_groups 5 n) ++ JS.bytes_of_string vb ++ rest)
        by (repeat first [rewrite <- app_assoc | progress (cbn [app])]; reflexivity).
      rewrite skipn_app_exact.
      * apply (read_chars_string vb rest 0).
      * rewrite length_app. cbn [List.length]. unfold blength.
        pose proof (varint_groups_length 5 n). lia.
    + rewrite blength_cons, blength_app, blength_bytes_of_string. fold n. lia.
Qed.

Lemma viewBox_text_fallback_roundtrip_witness :
  all_chars (fun c => negb (JS.is_space c)) "0,0,420,420" = true /\
  is_ascii "0,0,420,420" = true /\
  Decompress.decodeViewBox
    ([3; 0] ++ ([0] ++ [11] ++ JS.bytes_of_string "0,0,420,420") ++ []) 2
  = Ret ("0,0,420,420", 13).
Proof.
  split; [reflexivity |]. split; [reflexivity |].
  destruct (viewBox_text_fallback_roundtrip "0,0,420,420" [3; 0] [] eq_refl eq_refl
              ltac:(cbn; lia)) as (lb & He & _ & Hd).
  injection He as <-. exact Hd.
Defined.

(** ** Documents, record by record *)

(** Equality of two lists up to the grouping of [++]. *)
Ltac list_eq := repeat first [rewrite <- app_assoc | progress (cbn [app])]; reflexivity.

Section PathDataFrames.

Lemma fits_signed_range v : fits_signed v = true -> - 2 ^ 30 <= v < 2 ^ 30.
Proof.
  unfold fits_signed. intros H. apply andb_true_iff in H. destruct H as [H1 H2].
  apply Z.leb_le in H1. apply Z.ltb_lt in H2. lia.
Qed.





End PathDataFrames.

Section RecordFrames.






End RecordFrames.

Section Records.



End Records.

Section DocumentRoundTrip.


End DocumentRoundTrip.

(** ** The layout of the records *)

Section RecordLayout.






End RecordLayout.

Section WrittenRecords.






End WrittenRecords.



(** ** Documents cut by one byte *)

Section CutVarInt.





End CutVarInt.

Section CutViewBox.


End CutViewBox.

Section CutRecord.




End CutRecord.






(** ** Numbers and commands in the path data *)

Section NumbersAndCommands.

Lemma small_values_read_as_commands v :
  - 10 <= v <= 9 -> v <> 0 -> read_as_command v = true.
Proof.
  intros Hv Hne.
  pose proof (forall_below (fun i => ((i - 10 =? 0) || read_as_command (i - 10))%bool) 20
                ltac:(vm_compute; reflexivity) (v + 10) ltac:(lia)) as H.
  cbv beta in H. replace (v + 10 - 10) with v in H by lia.
  apply orb_true_iff in H. destruct H as [H | H]; [apply Z.eqb_eq in H; lia | exact H].
Qed.

Lemma command_of_first_byte v :
  - 2 ^ 30 <= v < 2 ^ 30 -> ~ (- 10 <= v <= 9 /\ v <> 0) ->
  exists b tl, varint_groups 5 (zigzag v) = b :: tl /\
               Decompress.command_of (Some b) = None.
Proof.
  intros Hr Hv.
  pose proof (zigzag_value v Hr) as Hz. fold (zigzag v) in Hz.
  assert (H0 : 0 <= zigzag v) by (destruct (v <? 0) eqn:E;
    [apply Z.ltb_lt in E | apply Z.ltb_ge in E]; lia).
  assert (Hout : ~ 1 <= zigzag v <= 19).
  { destruct (v <? 0) eqn:E; [apply Z.ltb_lt in E | apply Z.ltb_ge in E]; lia. }
  unfold varint_groups. fold varint_groups.
  destruct (128 <=? zigzag v) eqn:E.
  - pose proof (Z.mod_pos_bound (zigzag v) 128 ltac:(lia)).
    eexists. eexists. split; [reflexivity |].
    unfold Decompress.command_of.
    replace (zigzag v mod 128 + 128 <=? 19) with false by (symmetry; apply Z.leb_gt; lia).
    rewrite andb_false_r. reflexivity.
  - eexists. eexists. split; [reflexivity |].
    unfold Decompress.command_of.
    destruct (Z.leb_spec 1 (zigzag v)); [| reflexivity].
    replace (zigzag v <=? 19) with false by (symmetry; apply Z.leb_gt; lia).
    reflexivity.
Qed.

End NumbersAndCommands.

Lemma zigzag_eq v : zigzag v = JS.bxor (JS.shl v 1) (JS.sar v 31).
Proof. reflexivity. Qed.

Lemma read_as_command_eq v :
  read_as_command v =
  match Decompress.code_get Decompress.CMD_DICT (zigzag v) with
  | Some c =>
      match Decompress.decodePathData (varint_groups 5 (zigzag v)) 0
              (blength (varint_groups 5 (zigzag v))) with
      | Ret s => String.eqb s c
      | _ => false
      end
  | None => false
  end.
Proof. reflexivity. Qed.

Lemma signed_varint_alone v :
  - 2 ^ 30 <= v < 2 ^ 30 ->
  Compress.encodeSignedVarInt v = Ret (varint_groups 5 (zigzag v)) /\
  Decompress.decodeSignedVarInt (varint_groups 5 (zigzag v)) 0
  = Ret (v, blength (varint_groups 5 (zigzag v))).
Proof.
  intros Hr. rewrite zigzag_eq.
  pose proof (decodeSignedVarInt_at _ 0 [] v [] Hr eq_refl eq_refl) as H.
  rewrite app_nil_r, app_nil_l in H. exact H.
Qed.

(** X14: numbers and commands share the bytes of the path data.  A
    quantized value [v] from -10 to 9, other than 0, is written by
    [encodeSignedVarInt] as one byte from 1 to 19, which
    [decodePathData] reads as the command letter of that code; every
    other value is read as a number, [v / 15] with two decimals. *)
Theorem small_number_read_as_command v :
  fits_signed v = true ->
  exists buf,
    Compress.encodeSignedVarInt v = Ret buf /\
    ((- 10 <= v <= 9 /\ v <> 0) ->
       exists c, Decompress.code_get Decompress.CMD_DICT (zigzag v) = Some c /\
                 Decompress.decodePathData buf 0 (blength buf) = Ret c) /\
    (~ (- 10 <= v <= 9 /\ v <> 0) ->
       Decompress.decodePathData buf 0 (blength buf)
       = Ret (JS.trim (JS.toFixed 2 (inject_Z v / Decompress.scale) ++ " "))).
Proof.
  intros Hfits. pose proof (fits_signed_range v Hfits) as Hr.
  exists (varint_groups 5 (zigzag v)).
  destruct (signed_varint_alone v Hr) as [Henc Hdec].
  split; [exact Henc |]. split.
  - intros [Hv Hne]. pose proof (small_values_read_as_commands v Hv Hne) as H.
    rewrite read_as_command_eq in H.
    revert H. generalize (varint_groups 5 (zigzag v)). generalize (zigzag v).
    intros z g H.
    destruct (Decompress.code_get Decompress.CMD_DICT z) as [c |]; [| discriminate H].
    exists c. split; [reflexivity |].
    destruct (Decompress.decodePathData _ 0 _) as [s | e |]; try discriminate H.
    apply String.eqb_eq in H. subst s. reflexivity.
  - intros Hv.
    destruct (command_of_first_byte v Hr Hv) as (b & tl & Hg & Hcmd).
    revert Hdec Hg. generalize (varint_groups 5 (zigzag v)). intros buf Hdec Hg.
    pose proof (blength_nonneg tl) as Htl.
    assert (Hlen : 1 <= blength buf) by (rewrite Hg, blength_cons; lia).
    unfold Decompress.decodePathData.
    replace (blength buf <? 0 + blength buf) with false by (symmetry; apply Z.ltb_ge; lia).
    destruct (Z.to_nat (blength buf)) as [| k] eqn:Ek; [lia |].
    cbn [Decompress.decodePathData_loop].
    replace (0 + blength buf <=? 0) with false by (symmetry; apply Z.leb_gt; lia).
    replace (buf_get buf 0) with (Some b) by (rewrite Hg; reflexivity).
    rewrite Hcmd, Hdec. cbn [bind]. cbv zeta.
    change (Decompress.placeNumber (inject_Z v / Decompress.scale) 0 0 "" true 0)
      with (JS.toFixed 2 (inject_Z v / Decompress.scale),
            (0 + inject_Z v / Decompress.scale)%Q, 0%Q).
    cbv iota beta.
    rewrite Z.leb_refl. reflexivity.
Qed.

Lemma small_number_read_as_command_witness :
  fits_signed 8 = true /\
  exists buf,
    Compress.encodeSignedVarInt 8 = Ret buf /\
    Decompress.decodePathData buf 0 (blength buf) = Ret "t".
Proof.
  split; [reflexivity |].
  destruct (small_number_read_as_command 8 eq_refl) as (buf & He & Hsmall & _).
  exists buf. split; [exact He |].
  destruct (Hsmall ltac:(lia)) as (c & Hc & Hd).
  vm_compute in Hc. injection Hc as <-. exact Hd.
Defined.

(** ** The extraction of the attributes *)

Section Extraction.

Lemma prefix_app p r : String.prefix p (p ++ r) = true.
Proof.
  induction p as [| a p IH]; cbn [String.append].
  - destruct r; reflexivity.
  - rewrite prefix_cons, Ascii.eqb_refl. exact IH.
Qed.

Lemma substring_all r : String.substring 0 (String.length r) r = r.
Proof. induction r as [| a r IH]; cbn; [reflexivity | rewrite IH; reflexivity]. Qed.

Lemma strip_prefix_app p r : JS.strip_prefix p (p ++ r) = Some r.
Proof.
  unfold JS.strip_prefix. rewrite prefix_app. f_equal.
  rewrite string_length_app.
  replace (String.length p + String.length r - String.length p)%nat
    with (String.length r) by lia.
  induction p as [| a p IH]; cbn [String.append String.length String.substring].
  - apply substring_all.
  - exact IH.
Qed.

Lemma until_char_app stop v t :
  all_chars (fun c => negb (Ascii.eqb c stop)) v = true ->
  Extract.until_char stop (v ++ String stop t) = Some (v, t).
Proof.
  induction v as [| c v IH]; cbn [String.append all_chars Extract.until_char].
  - intros _. rewrite Ascii.eqb_refl. reflexivity.
  - intros H. apply andb_true_iff in H. destruct H as [Hc H].
    apply negb_true_iff in Hc. rewrite Hc, (IH H). reflexivity.
Qed.

(** The value of an attribute at the head of the text. *)
Lemma attr_here_value name v t :
  all_chars (fun c => negb (Ascii.eqb c Extract.quote)) v = true ->
  Extract.attr_here name ((name ++ "=" ++ String Extract.quote EmptyString) ++
                          v ++ String Extract.quote t) = Some v.
Proof.
  intros Hv. unfold Extract.attr_here.
  rewrite strip_prefix_app, (until_char_app _ v t Hv). reflexivity.
Qed.

Lemma attr_match_here name s v :
  Extract.attr_here name s = Some v -> Extract.attr_match name s = Some v.
Proof. intros H. destruct s; cbn [Extract.attr_match]; rewrite H; reflexivity. Qed.

Lemma attr_match_step name c s :
  Extract.attr_here name (String c s) = None ->
  Extract.attr_match name (String c s) = Extract.attr_match name s.
Proof. intros H. cbn [Extract.attr_match]. rewrite H. reflexivity. Qed.

Lemma path_tags_skipped s : forall skip,
  (String.length s <= skip)%nat -> Extract.path_tags s skip = [].
Proof.
  induction s as [| c s IH]; intros skip H; cbn [Extract.path_tags]; [reflexivity |].
  cbn [String.length] in H. destruct skip as [| k]; [lia |]. apply IH. lia.
Qed.

End Extraction.

(** X15: [extractViewBox] finds in the text written by [decompressSVG]
    the view box that was written there, whatever the paths, as long
    as it has no double quote in it. *)
Theorem extractViewBox_of_decompressed viewBox paths :
  all_chars (fun c => negb (Ascii.eqb c Extract.quote)) viewBox = true ->
  Extract.extractViewBox (Decompress.svgContent viewBox paths) = viewBox.
Proof.
  intros Hq. unfold Extract.extractViewBox, Decompress.svgContent.
  change (JS.dq ++ viewBox ++ JS.dq ++ ?t)%string
    with (String Extract.quote (viewBox ++ String Extract.quote t)).
  set (t := (">" ++ _)%string).
  change ("<svg xmlns=" ++ JS.dq ++ "http://www.w3.org/2000/svg" ++ JS.dq ++
          " viewBox=" ++ String Extract.quote (viewBox ++ String Extract.quote t))%string
    with ("<svg xmlns=" ++ JS.dq ++ "http://www.w3.org/2000/svg" ++ JS.dq ++ " " ++
          ("viewBox" ++ "=" ++ String Extract.quote EmptyString) ++
          viewBox ++ String Extract.quote t)%string.
  pose proof (attr_here_value "viewBox" viewBox t Hq) as Hhere.
  set (s := (("viewBox" ++ "=" ++ String Extract.quote EmptyString) ++
             viewBox ++ String Extract.quote t)%string) in *.
  cbn [String.append JS.dq].
  repeat (rewrite attr_match_step by reflexivity).
  rewrite (attr_match_here "viewBox" s viewBox Hhere). reflexivity.
Qed.

Lemma extractViewBox_of_decompressed_witness :
  all_chars (fun c => negb (Ascii.eqb c Extract.quote)) "0 0 420 420" = true /\
  Extract.extractViewBox (Decompress.svgContent "0 0 420 420" []) = "0 0 420 420".
Proof.
  split; [reflexivity |].
  apply (extractViewBox_of_decompressed "0 0 420 420" []). reflexivity.
Defined.

(** X16: the pattern of the attribute [d] also matches the end of
    [id]: for a path tag whose [id] attribute comes before its [d]
    attribute, [extractPaths] takes the value of [id] for the path
    data. *)
Theorem extractPaths_takes_id_for_d id data :
  all_chars (fun c => negb (Ascii.eqb c Extract.quote)) id = true ->
  all_chars (fun c => negb (Ascii.eqb c ">")) id = true ->
  all_chars (fun c => negb (Ascii.eqb c ">")) data = true ->
  exists p,
    Extract.extractPaths
      ("<path id=" ++ JS.dq ++ id ++ JS.dq ++ " d=" ++ JS.dq ++ data ++ JS.dq ++ "/>")
    = [p] /\
    Extract.d p = id.
Proof.
  intros Hq Hid Hdata.
  set (tag := ("<path id=" ++ JS.dq ++ id ++ JS.dq ++ " d=" ++ JS.dq ++ data ++ JS.dq ++ "/>")%string).
  assert (Htag : Extract.tag_here tag = Some (tag, EmptyString)).
  { unfold Extract.tag_here.
    replace tag with ("<path" ++ (" id=" ++ JS.dq ++ id ++ JS.dq ++ " d=" ++ JS.dq ++
                                  data ++ JS.dq ++ "/") ++ String ">" EmptyString)%string
      by (unfold tag;
          repeat first [rewrite string_app_assoc | progress (cbn [String.append])];
          reflexivity).
    rewrite strip_prefix_app, until_char_app.
    - repeat first [rewrite string_app_assoc | progress (cbn [String.append])].
      reflexivity.
    - rewrite !all_chars_app, Hid, Hdata. reflexivity. }
  assert (Hd : Extract.attr_match "d" tag = Some id).
  { pose proof (attr_here_value "d" id
                  (" d=" ++ JS.dq ++ data ++ JS.dq ++ "/>")%string Hq) as Hhere.
    unfold tag. cbn [String.append JS.dq].
    repeat (rewrite attr_match_step by reflexivity).
    apply attr_match_here. exact Hhere. }
  unfold Extract.extractPaths.
  assert (Htags : Extract.path_tags tag 0 = [tag]).
  { destruct tag as [| c s] eqn:E; [discriminate Htag |].
    cbn [Extract.path_tags]. rewrite Htag. f_equal.
    apply path_tags_skipped. cbn [String.length]. lia. }
  rewrite Htags. cbn [Extract.collect]. unfold Extract.extractPath. rewrite Hd.
  eexists. split; reflexivity.
Qed.

Lemma extractPaths_takes_id_for_d_witness :
  exists p,
    Extract.extractPaths
      ("<path id=" ++ JS.dq ++ "spike" ++ JS.dq ++ " d=" ++ JS.dq ++ "M0 0L1 1" ++ JS.dq ++ "/>")
    = [p] /\
    Extract.d p = "spike".
Proof.
  apply (extractPaths_takes_id_for_d "spike" "M0 0L1 1"); reflexivity.
Defined.

(** ** The spikes decoder *)

Section SpikesLoop.

Lemma Spikes_loop_stalls buffer offset vb :
  buf_get buffer offset = Some 0 ->
  Spikes.decompressViewBox buffer offset = Ret (vb, 0) ->
  forall fuel elements,
    Spikes.decompressSVG_loop fuel buffer offset elements = Diverge.
Proof.
  intros Hmarker Hvb fuel.
  pose proof (buf_get_Some _ _ _ Hmarker) as Hoff.
  induction fuel as [| fuel IH]; intros elements; cbn [Spikes.decompressSVG_loop];
    [reflexivity |].
  replace (blength buffer <=? offset) with false by (symmetry; apply Z.leb_gt; lia).
  rewrite Hmarker, Hvb. cbn [bind]. rewrite Z.add_0_r. apply IH.
Qed.

End SpikesLoop.

(** X17: the spikes decoder can fail to terminate.  When the record
    behind the header is a view box record whose length varint decodes
    to a negative number that cancels the bytes read (a 5-byte varint
    with the top bits set wraps below zero), the dispatch loop of
    [decompressSVG] comes back to the same offset for ever: it returns
    for no number of iterations. *)
Theorem Spikes_decompressSVG_does_not_terminate buffer vb :
  buf_get buffer 2 = Some 0 ->
  Spikes.decompressViewBox buffer 2 = Ret (vb, 0) ->
  forall fuel, Spikes.decompressSVG fuel buffer = Diverge.
Proof.
  intros Hmarker Hvb fuel. unfold Spikes.decompressSVG.
  pose proof (buf_get_Some _ _ _ Hmarker) as Hoff.
  replace (blength buffer <? 2) with false by (symmetry; apply Z.ltb_ge; lia).
  rewrite (Spikes_loop_stalls buffer 2 vb Hmarker Hvb). reflexivity.
Qed.

Lemma Spikes_decompressSVG_does_not_terminate_witness :
  buf_get [3; 1; 0; 250; 255; 255; 255; 15; 1; 0; 0; 0; 0] 2 = Some 0 /\
  Spikes.decompressViewBox [3; 1; 0; 250; 255; 255; 255; 15; 1; 0; 0; 0; 0] 2 = Ret ("", 0) /\
  Spikes.decompressSVG 1000 [3; 1; 0; 250; 255; 255; 255; 15; 1; 0; 0; 0; 0] = Diverge.
Proof.
  split; [reflexivity |]. split; [reflexivity |].
  apply (Spikes_decompressSVG_does_not_terminate
           [3; 1; 0; 250; 255; 255; 255; 15; 1; 0; 0; 0; 0] ""); reflexivity.
Defined.

Section SpikesColors.

Lemma take_while_app p v c t :
  all_chars p v = true -> p c = false ->
  CompressSpikes.take_while p (v ++ String c t) = v.
Proof.
  intros Hv Hc. induction v as [| a v IH]; cbn [String.append CompressSpikes.take_while].
  - rewrite Hc. reflexivity.
  - cbn [all_chars] in Hv. apply andb_true_iff in Hv. destruct Hv as [Ha Hv].
    rewrite Ha, (IH Hv). reflexivity.
Qed.

Lemma take_while_length p s :
  (String.length (CompressSpikes.take_while p s) <= String.length s)%nat.
Proof.
  induction s as [| a s IH]; cbn [CompressSpikes.take_while String.length]; [lia |].
  destruct (p a); cbn [String.length]; lia.
Qed.

Lemma after_sharp_length s r :
  CompressSpikes.after_sharp s = Some r -> (String.length r <= String.length s)%nat.
Proof.
  induction s as [| a s IH]; cbn [CompressSpikes.after_sharp String.length]; [discriminate |].
  destruct (Ascii.eqb a "#").
  - intros H. injection H as <-. lia.
  - intros H. specialize (IH H). lia.
Qed.

Lemma after_sharp_url color :
  JS.startsWith color "url(#" = true ->
  exists r, CompressSpikes.after_sharp color = Some r.
Proof.
  unfold JS.startsWith.
  destruct color as [| c1 [| c2 [| c3 [| c4 [| c5 r]]]]];
    repeat (rewrite prefix_cons;
            match goal with
            | |- context [Ascii.eqb ?a ?b] => destruct (Ascii.eqb_spec a b) as [<- | _]
            end);
    try discriminate.
  intros _. exists r. reflexivity.
Qed.

Lemma Spikes_code_total code :
  0 <= code <= 5 ->
  exists name, Decompress.code_get Spikes.COLOR_DICT code = Some name.
Proof.
  intros H.
  pose proof (forall_below
    (fun c => match Decompress.code_get Spikes.COLOR_DICT c with
              | Some _ => true | None => false end) 6 eq_refl code ltac:(lia)) as E.
  cbv beta in E.
  destruct (Decompress.code_get Spikes.COLOR_DICT code) as [name |]; [| discriminate].
  exists name. reflexivity.
Qed.

Lemma Spikes_dict_codes key code :
  Compress.dict_get CompressSpikes.COLOR_DICT key = Some code -> 0 <= code <= 5.
Proof.
  unfold CompressSpikes.COLOR_DICT. cbn [Compress.dict_get].
  repeat (destruct (String.eqb _ key); [intros H; injection H as <-; lia |]).
  discriminate.
Qed.

(** One byte from the dictionary, wherever it lies. *)
Lemma Spikes_decodeColor_code code pre rest :
  0 <= code <= 5 ->
  exists s, Spikes.decodeColor (pre ++ [code] ++ rest) (blength pre) = Ret (s, 1).
Proof.
  intros Hc. unfold Spikes.decodeColor.
  rewrite buffer_not_before by discriminate.
  cbn [app]. rewrite (buf_get_app pre code rest) by reflexivity.
  replace (code <? 254) with true by (symmetry; apply Z.ltb_lt; lia).
  destruct (Spikes_code_total code Hc) as (name & ->).
  eexists. reflexivity.
Qed.

(** The bytes of a color are read back by the spikes decoder, to the
    same color wherever they lie. *)
Lemma Spikes_color_frame c :
  Z.of_nat (String.length c) < 2 ^ 31 ->
  exists b s,
    CompressSpikes.encodeColor c = Ret b /\ b <> [] /\
    forall pre rest,
      Spikes.decodeColor (pre ++ b ++ rest) (blength pre) = Ret (s, blength b).
Proof.
  intros Hlen. unfold CompressSpikes.encodeColor.
  assert (Hzero : exists b s : _, Ret (Buffer_from [0]) = Ret b /\ b <> [] /\
            forall pre rest,
              Spikes.decodeColor (pre ++ b ++ rest) (blength pre) = Ret (s, blength b)).
  { exists [0], "none". split; [reflexivity |]. split; [discriminate |].
    intros pre rest. unfold Spikes.decodeColor.
    rewrite buffer_not_before by discriminate.
    cbn [app]. rewrite (buf_get_app pre 0 rest) by reflexivity. reflexivity. }
  destruct ((c =? "")%string || (c =? "none")%string)%bool; [exact Hzero |].
  destruct (JS.startsWith c "url(#") eqn:Eurl.
  - destruct (after_sharp_url c Eurl) as (r & Hr).
    unfold CompressSpikes.gradient_id. rewrite Hr. cbn [bind].
    set (g := CompressSpikes.take_while CompressSpikes.id_char r).
    set (n := Z.of_nat (String.length g)).
    assert (Hn : 0 <= n < 2 ^ 31).
    { pose proof (take_while_length CompressSpikes.id_char r).
      pose proof (after_sharp_length c r Hr). unfold n, g. lia. }
    unfold CompressSpikes.encodeVarInt. rewrite (encodeVarInt_groups n Hn). cbn [bind].
    exists (255 :: varint_groups 5 n ++ JS.bytes_of_string g), ("url(#" ++ g ++ ")")%string.
    split; [reflexivity |]. split; [discriminate |].
    intros pre rest. unfold Spikes.decodeColor.
    rewrite buffer_not_before by discriminate.
    cbn [app]. rewrite (buf_get_app pre 255) by reflexivity.
    cbv beta iota zeta.
    change (255 <? 254) with false. change (255 =? 254) with false.
    change (255 =? 255) with true. cbv iota.
    unfold Spikes.decodeVarInt.
    rewrite (decodeVarInt_at _ _ (pre ++ [255]) n (JS.bytes_of_string g ++ rest) Hn);
      [| list_eq | rewrite blength_app; reflexivity].
    cbn [bind]. f_equal. f_equal.
    + f_equal. f_equal.
      replace (pre ++ 255 :: (varint_groups 5 n ++ JS.bytes_of_string g) ++ rest)
        with ((pre ++ 255 :: varint_groups 5 n) ++ JS.bytes_of_string g ++ rest) by list_eq.
      rewrite skipn_app_exact.
      * apply (read_chars_string g rest 0).
      * rewrite length_app. cbn [List.length]. unfold blength.
        pose proof (varint_groups_length 5 n). lia.
    + rewrite blength_cons, blength_app, blength_bytes_of_string. fold n. lia.
  - set (hex := if JS.startsWith c "#" then JS.toUpperCase (JS.slice1 c) else c).
    destruct (existsb (String.eqb hex) CompressSpikes.inherited); [exact Hzero |].
    destruct (Compress.truthy (Compress.dict_get CompressSpikes.COLOR_DICT hex)) eqn:Et.
    + destruct (Compress.dict_get CompressSpikes.COLOR_DICT hex) as [code |] eqn:Ed;
        [| discriminate Et].
      pose proof (Spikes_dict_codes hex code Ed) as Hc.
      cbn [JS.num_of]. unfold Buffer_from. cbn [map]. unfold byte_of. cbn [JS.num_of].
      rewrite (Z.mod_small code 256) by lia.
      destruct (Spikes_code_total code Hc) as (name & Hname).
      exists [code], (if code =? 0 then "none" else ("#" ++ name)%string).
      split; [reflexivity |]. split; [discriminate |].
      intros pre rest. unfold Spikes.decodeColor.
      rewrite buffer_not_before by discriminate.
      cbn [app]. rewrite (buf_get_app pre code rest) by reflexivity.
      replace (code <? 254) with true by (symmetry; apply Z.ltb_lt; lia).
      rewrite Hname. reflexivity.
    + set (x := byte_of (JS.parseInt (JS.substring 0 2 hex) 16)).
      set (y := byte_of (JS.parseInt (JS.substring 2 4 hex) 16)).
      set (z := byte_of (JS.parseInt (JS.substring 4 6 hex) 16)).
      change (byte_of (Some 254)) with 254.
      exists [254; x; y; z],
        (JS.toUpperCase ("#" ++ JS.padStart0 2 (JS.toString16 x) ++
                         JS.padStart0 2 (JS.toString16 y) ++
                         JS.padStart0 2 (JS.toString16 z))).
      split; [reflexivity |]. split; [discriminate |].
      intros pre rest. unfold Spikes.decodeColor.
      rewrite buffer_not_before by discriminate.
      replace (blength (pre ++ [254; x; y; z] ++ rest) <=? blength pre + 3) with false.
      2:{ symmetry. apply Z.leb_gt. rewrite !blength_app.
          change (blength [254; x; y; z]) with 4. pose proof (blength_nonneg rest). lia. }
      unfold Decompress.hex_byte.
      rewrite !buf_get_app_r by lia.
      replace (buf_get (pre ++ [254; x; y; z] ++ rest) (blength pre))
        with (Some 254)
        by (symmetry; rewrite <- (Z.add_0_r (blength pre)); rewrite buf_get_app_r by lia;
            reflexivity).
      reflexivity.
Qed.

End SpikesColors.

(** X18: a gradient reference [url(#id)], its identifier made of ASCII
    characters other than quotes, white space and the closing
    parenthesis, is written by the spikes [encodeColor] as the byte 255,
    the length and the characters of the identifier, and read back by
    the spikes [decodeColor] as the same text, wherever the bytes lie. *)
Theorem Spikes_gradient_reference_roundtrip id pre rest :
  all_chars CompressSpikes.id_char id = true ->
  is_ascii id = true ->
  Z.of_nat (String.length id) < 2 ^ 31 ->
  exists lengthBytes,
    Compress.encodeVarInt (Z.of_nat (String.length id)) = Ret lengthBytes /\
    CompressSpikes.encodeColor ("url(#" ++ id ++ ")")
    = Ret ([255] ++ lengthBytes ++ JS.bytes_of_string id) /\
    Spikes.decodeColor (pre ++ ([255] ++ lengthBytes ++ JS.bytes_of_string id) ++ rest)
      (blength pre)
    = Ret (("url(#" ++ id ++ ")")%string,
           blength ([255] ++ lengthBytes ++ JS.bytes_of_string id)).
Proof.
  intros Hid _ Hlen.
  set (n := Z.of_nat (String.length id)) in *.
  assert (Hn : 0 <= n < 2 ^ 31) by (unfold n; lia).
  exists (varint_groups 5 n). pose proof (encodeVarInt_groups n Hn) as En.
  split; [exact En |]. split.
  - unfold CompressSpikes.encodeColor.
    change (("url(#" ++ id ++ ")" =? "")%string) with false.
    change (("url(#" ++ id ++ ")" =? "none")%string) with false.
    cbn [orb]. unfold JS.startsWith. rewrite prefix_app.
    unfold CompressSpikes.gradient_id.
    change (CompressSpikes.after_sharp ("url(#" ++ id ++ ")")) with (Some (id ++ ")")%string).
    cbv beta iota.
    rewrite (take_while_app CompressSpikes.id_char id ")" EmptyString Hid eq_refl).
    cbn [bind]. fold n. unfold CompressSpikes.encodeVarInt. rewrite En. reflexivity.
  - unfold Spikes.decodeColor.
    rewrite buffer_not_before by discriminate.
    cbn [app]. rewrite (buf_get_app pre 255) by reflexivity.
    cbv beta iota zeta.
    change (255 <? 254) with false. change (255 =? 254) with false.
    change (255 =? 255) with true. cbv iota.
    unfold Spikes.decodeVarInt.
    rewrite (decodeVarInt_at _ _ (pre ++ [255]) n (JS.bytes_of_string id ++ rest) Hn);
      [| list_eq | rewrite blength_app; reflexivity].
    cbn [bind]. f_equal. f_equal.
    + f_equal. f_equal.
      replace (pre ++ 255 :: (varint_groups 5 n ++ JS.bytes_of_string id) ++ rest)
        with ((pre ++ 255 :: varint_groups 5 n) ++ JS.bytes_of_string id ++ rest) by list_eq.
      rewrite skipn_app_exact.
      * apply (read_chars_string id rest 0).
      * rewrite length_app. cbn [List.length]. unfold blength.
        pose proof (varint_groups_length 5 n). lia.
    + rewrite blength_cons, blength_app, blength_bytes_of_string. fold n. lia.
Qed.

Lemma Spikes_gradient_reference_roundtrip_witness :
  all_chars CompressSpikes.id_char "spikeGradient" = true /\
  is_ascii "spikeGradient" = true /\
  CompressSpikes.encodeColor "url(#spikeGradient)"
  = Ret ([255] ++ [13] ++ JS.bytes_of_string "spikeGradient") /\
  Spikes.decodeColor ([1] ++ ([255] ++ [13] ++ JS.bytes_of_string "spikeGradient") ++ [0]) 1
  = Ret ("url(#spikeGradient)", 15).
Proof.
  split; [reflexivity |]. split; [reflexivity |].
  destruct (Spikes_gradient_reference_roundtrip "spikeGradient" [1] [0] eq_refl eq_refl
              ltac:(cbn; lia)) as (lb & He & Hc & Hd).
  injection He as <-. split; [exact Hc | exact Hd].
Defined.

Section SpikesPaths.

Lemma until_char_facts stop s v r :
  Extract.until_char stop s = Some (v, r) ->
  all_chars (fun c => negb (Ascii.eqb c stop)) v = true /\
  (String.length v <= String.length s)%nat.
Proof.
  revert v r. induction s as [| c s IH]; intros v r; cbn [Extract.until_char];
    [discriminate |].
  destruct (Ascii.eqb c stop) eqn:E.
  - intros H. injection H as <- <-. split; [reflexivity | cbn; lia].
  - destruct (Extract.until_char stop s) as [[v' r'] |]; [| discriminate].
    intros H. injection H as <- <-. destruct (IH v' r' eq_refl) as [Ha Hl].
    cbn [all_chars String.length]. rewrite E, Ha. split; [reflexivity | lia].
Qed.

Lemma substring_length s : forall n m,
  (String.length (String.substring n m s) <= String.length s)%nat.
Proof.
  induction s as [| c s IH]; intros n m.
  - destruct n, m; cbn; lia.
  - destruct n as [| n]; [destruct m as [| m] |]; cbn [String.substring String.length].
    + lia.
    + specialize (IH 0%nat m). lia.
    + specialize (IH n m). lia.
Qed.

(** A captured attribute value has no quote, and is shorter than the
    text it is taken from. *)
Lemma attr_match_facts name s v :
  Extract.attr_match name s = Some v ->
  all_chars (fun c => negb (Ascii.eqb c Extract.quote)) v = true /\
  (String.length v <= String.length s)%nat.
Proof.
  assert (Hhere : forall s, Extract.attr_here name s = Some v ->
            all_chars (fun c => negb (Ascii.eqb c Extract.quote)) v = true /\
            (String.length v <= String.length s)%nat).
  { intros s0. unfold Extract.attr_here, JS.strip_prefix.
    destruct (String.prefix _ s0); [| discriminate].
    match goal with
    | |- context [Extract.until_char ?q ?r] =>
        pose proof (substring_length s0 (String.length (name ++ "=" ++ String Extract.quote "")%string)
                      (String.length s0 - String.length (name ++ "=" ++ String Extract.quote "")%string));
        destruct (Extract.until_char q r) as [[v' r'] |] eqn:E; [| discriminate]
    end.
    intros H'. injection H' as <-.
    destruct (until_char_facts _ _ _ _ E) as [Ha Hl]. split; [exact Ha | lia]. }
  induction s as [| c s IH]; cbn [Extract.attr_match].
  - destruct (Extract.attr_here name "") eqn:E; [| discriminate].
    intros H. injection H as ->. apply (Hhere _ E).
  - destruct (Extract.attr_here name (String c s)) eqn:E.
    + intros H. injection H as ->. apply (Hhere _ E).
    + intros H. destruct (IH H) as [Ha Hl]. split; [exact Ha | cbn [String.length]; lia].
Qed.

(** The varint of a number that is not negative is that of its
    integer part. *)
Lemma encodeVarInt_number_groups x :
  (0 <= x)%Q -> Qfloor x < 2 ^ 31 ->
  CompressSpikes.encodeVarInt_number (JS.Num x) = Ret (varint_groups 5 (Qfloor x)).
Proof.
  intros Hx Hf.
  unfold CompressSpikes.encodeVarInt_number, Compress.encodeVarInt_number, JS.trunc.
  assert (H0 : 0 <= Qfloor x).
  { change 0 with (Qfloor 0). apply Qfloor_resp_le. exact Hx. }
  replace (Qle_bool 0 x) with true by (symmetry; apply Qle_bool_iff; exact Hx).
  destruct (Qeq_bool x 0) eqn:E0.
  - apply Qeq_bool_iff in E0.
    assert (Qfloor x = 0) by (rewrite (Qfloor_comp x 0 E0); reflexivity).
    rewrite H. reflexivity.
  - destruct (Qle_bool 128 x) eqn:E.
    + apply Qle_bool_iff in E.
      assert (H128 : 128 <= Qfloor x).
      { change 128 with (Qfloor (inject_Z 128)). apply Qfloor_resp_le. exact E. }
      pose proof (encodeVarInt_groups (Qfloor x) ltac:(lia)) as Hg.
      unfold Compress.encodeVarInt in Hg.
      replace (Qfloor x =? 0) with false in Hg by (symmetry; apply Z.eqb_neq; lia).
      exact Hg.
    + assert (H128 : Qfloor x < 128).
      { destruct (Z.lt_ge_cases (Qfloor x) 128) as [Hlt | Hge]; [exact Hlt |].
        exfalso. assert (Qle_bool 128 x = true); [| congruence].
        apply Qle_bool_iff. apply Qle_trans with (inject_Z (Qfloor x)).
        - change 128%Q with (inject_Z 128). rewrite <- Zle_Qle. exact Hge.
        - apply Qfloor_le. }
      unfold Buffer_from. cbn [map]. unfold byte_of. cbn [JS.num_of].
      rewrite Z.mod_small by lia.
      unfold varint_groups.
      replace (128 <=? Qfloor x) with false by (symmetry; apply Z.leb_gt; lia).
      reflexivity.
Qed.

End SpikesPaths.

(** X19: in the spikes format the path data survives.  For a path tag
    of ASCII characters with a [d] attribute and a stroke width that
    is not negative, [compressPath] gives a record that
    [decompressPath] reads back whole, wherever it lies in a buffer,
    as a path element whose [d] attribute is the one of the tag. *)
Theorem Spikes_path_data_roundtrip tag d pre rest :
  Extract.attr_match "d" tag = Some d ->
  is_ascii tag = true ->
  Z.of_nat (String.length tag) < 2 ^ 31 ->
  (forall x, JS.fmul (CompressSpikes.strokeWidth_of tag) (JS.Num 10) = JS.Num x ->
             (0 <= x)%Q /\ Qfloor x < 2 ^ 31) ->
  exists record element,
    CompressSpikes.compressPath tag = Ret (Some record) /\
    Spikes.decompressPath (pre ++ record ++ rest) (blength pre)
    = Ret (element, blength record) /\
    Extract.attr_match "d" element = Some d.
Proof.
  intros Hd _ Hlen Hw.
  destruct (attr_match_facts "d" tag d Hd) as [Hdq Hdl].
  assert (Hfl : Z.of_nat (String.length (CompressSpikes.fill_of tag)) < 2 ^ 31).
  { unfold CompressSpikes.fill_of.
    destruct (Extract.attr_match "fill" tag) as [v |] eqn:E; [| cbn; lia].
    destruct (attr_match_facts "fill" tag v E) as [_ Hl]. lia. }
  assert (Hsl : Z.of_nat (String.length (CompressSpikes.stroke_of tag)) < 2 ^ 31).
  { unfold CompressSpikes.stroke_of.
    destruct (Extract.attr_match "stroke" tag) as [v |] eqn:E; [| cbn; lia].
    destruct (attr_match_facts "stroke" tag v E) as [_ Hl]. lia. }
  destruct (Spikes_color_frame _ Hfl) as (cf & fill' & Hcf & _ & Hfill).
  destruct (Spikes_color_frame _ Hsl) as (cs & stroke' & Hcs & _ & Hstroke).
  set (product := JS.fmul (CompressSpikes.strokeWidth_of tag) (JS.Num 10)) in *.
  set (k := match product with JS.Num x => Qfloor x | _ => 0 end).
  assert (Hk : exists gw,
               CompressSpikes.encodeVarInt_number product = Ret gw /\
               forall pre' rest',
                 Spikes.decodeVarInt (pre' ++ gw ++ rest') (blength pre')
                 = Ret (k, blength gw)).
  { unfold k. destruct product as [x | | [|]].
    - destruct (Hw x eq_refl) as [Hx0 Hxf].
      assert (Hf : 0 <= Qfloor x < 2 ^ 31).
      { split; [| exact Hxf]. change 0 with (Qfloor 0). apply Qfloor_resp_le. exact Hx0. }
      exists (varint_groups 5 (Qfloor x)).
      split; [apply encodeVarInt_number_groups; assumption |].
      intros pre' rest'. apply decodeVarInt_encoded. exact Hf.
    - exists [0]. split; [reflexivity |].
      intros pre' rest'. apply (decodeVarInt_encoded 0). lia.
    - exists [0]. split; [reflexivity |].
      intros pre' rest'. apply (decodeVarInt_encoded 0). lia.
    - exists [128; 0]. split; [reflexivity |].
      intros pre' rest'. apply decodeVarInt_of_infinity. }
  destruct Hk as (gw & Hkw & Hkd).
  set (n := Z.of_nat (String.length d)).
  assert (Hn : 0 <= n < 2 ^ 31) by (unfold n; lia).
  set (gl := varint_groups 5 n).
  set (data := JS.bytes_of_string d).
  set (record := [1] ++ cf ++ cs ++ gw ++ gl ++ data).
  set (element := ("<path d=" ++ JS.dq ++ d ++ JS.dq ++ " fill=" ++ JS.dq ++ fill' ++ JS.dq ++
     (if (negb (String.eqb stroke' "none") &&
          (if Qlt_le_dec 0 (inject_Z k / inject_Z 10) then true else false))%bool
      then " stroke=" ++ JS.dq ++ stroke' ++ JS.dq ++
           " stroke-width=" ++ JS.dq ++ JS.toFixed 1 (inject_Z k / inject_Z 10) ++ JS.dq
      else "") ++ "/>")%string).
  exists record, element. split; [| split].
  - unfold CompressSpikes.compressPath. rewrite Hd, Hcf. cbn [bind]. rewrite Hcs. cbn [bind].
    fold product. rewrite Hkw. cbn [bind].
    unfold CompressSpikes.encodeVarInt. rewrite blength_bytes_of_string. fold n.
    rewrite (encodeVarInt_groups n Hn). reflexivity.
  - set (buffer := pre ++ record ++ rest).
    assert (H1 : Spikes.decodeColor buffer (blength pre + 1) = Ret (fill', blength cf)).
    { replace buffer with ((pre ++ [1]) ++ cf ++ (cs ++ gw ++ gl ++ data ++ rest))
        by (subst buffer record; list_eq).
      replace (blength pre + 1) with (blength (pre ++ [1]))
        by (rewrite blength_app; reflexivity).
      apply Hfill. }
    assert (H2 : Spikes.decodeColor buffer (blength pre + 1 + blength cf)
                 = Ret (stroke', blength cs)).
    { replace buffer with ((pre ++ [1] ++ cf) ++ cs ++ (gw ++ gl ++ data ++ rest))
        by (subst buffer record; list_eq).
      replace (blength pre + 1 + blength cf) with (blength (pre ++ [1] ++ cf))
        by (rewrite !blength_app; change (blength [1]) with 1; lia).
      apply Hstroke. }
    assert (H3 : Spikes.decodeVarInt buffer (blength pre + 1 + blength cf + blength cs)
                 = Ret (k, blength gw)).
    { replace buffer with ((pre ++ [1] ++ cf ++ cs) ++ gw ++ (gl ++ data ++ rest))
        by (subst buffer record; list_eq).
      replace (blength pre + 1 + blength cf + blength cs)
        with (blength (pre ++ [1] ++ cf ++ cs))
        by (rewrite !blength_app; change (blength [1]) with 1; lia).
      apply Hkd. }
    assert (H4 : Spikes.decodeVarInt buffer
                   (blength pre + 1 + blength cf + blength cs + blength gw)
                 = Ret (n, blength gl)).
    { apply (decodeVarInt_at buffer _ (pre ++ [1] ++ cf ++ cs ++ gw) n (data ++ rest) Hn);
        [subst buffer record; list_eq
        | rewrite !blength_app; change (blength [1]) with 1; lia]. }
    unfold Spikes.decompressPath, Spikes.decompressPath_try.
    rewrite H1. cbn [bind]. rewrite H2. cbn [bind]. rewrite H3. cbn [bind].
    rewrite H4. cbn [bind]. cbv zeta.
    replace (skipn (Z.to_nat (blength pre + 1 + blength cf + blength cs + blength gw +
                              blength gl)) buffer)
      with (data ++ rest).
    2:{ replace buffer with ((pre ++ [1] ++ cf ++ cs ++ gw ++ gl) ++ data ++ rest)
          by (subst buffer record; list_eq).
        symmetry. apply skipn_app_exact.
        rewrite !length_app. cbn [List.length]. unfold blength. lia. }
    pose proof (read_chars_string d rest 0) as Hrc. rewrite Z.add_0_l in Hrc.
    unfold data, n. rewrite Hrc.
    cbn [try_catch]. fold element. f_equal. f_equal.
    unfold record. rewrite !blength_app. change (blength [1]) with 1.
    unfold data. rewrite blength_bytes_of_string. lia.
  - pose proof (attr_here_value "d" d
                  (" fill=" ++ JS.dq ++ fill' ++ JS.dq ++
     (if (negb (String.eqb stroke' "none") &&
          (if Qlt_le_dec 0 (inject_Z k / inject_Z 10) then true else false))%bool
      then " stroke=" ++ JS.dq ++ stroke' ++ JS.dq ++
           " stroke-width=" ++ JS.dq ++ JS.toFixed 1 (inject_Z k / inject_Z 10) ++ JS.dq
      else "") ++ "/>")%string Hdq) as Hhere.
    unfold element. cbn [String.append JS.dq].
    repeat (rewrite attr_match_step by reflexivity).
    apply attr_match_here. exact Hhere.
Qed.

Lemma Spikes_path_data_roundtrip_witness :
  exists record element,
    CompressSpikes.compressPath
      ("<path d=" ++ JS.dq ++ "M210,50 L250,150 Z" ++ JS.dq ++
       " fill=" ++ JS.dq ++ "url(#g)" ++ JS.dq ++
       " stroke=" ++ JS.dq ++ "#000000" ++ JS.dq ++
       " stroke-width=" ++ JS.dq ++ "0.5" ++ JS.dq ++ "/>")
    = Ret (Some record) /\
    Spikes.decompressPath ([3; 1] ++ record ++ []) 2 = Ret (element, blength record) /\
    Extract.attr_match "d" element = Some "M210,50 L250,150 Z".
Proof.
  apply (Spikes_path_data_roundtrip _ "M210,50 L250,150 Z" [3; 1] []).
  - reflexivity.
  - reflexivity.
  - cbn. lia.
  - intros x H. vm_compute in H. injection H as <-. split; [discriminate | reflexivity].
Defined.

(** ** The Phil codec *)

Section PhilFloats.


(** What [encodeFloat] writes for a coordinate is the signed varint of
    its stored tenths. *)
Lemma Phil_encodeFloat_stored value :
  PhilCompress.encodeFloat value false = PhilCompress.encodeSignedVarInt (stored value 10).
Proof. reflexivity. Qed.

Lemma decodeFloat_quantized FO q pre rest :
  - 2 ^ 30 <= q < 2 ^ 30 ->
  PhilCompress.encodeSignedVarInt q = Ret (varint_groups 5 (zigzag q)) /\
  PhilDecompress.decodeFloat FO (pre ++ varint_groups 5 (zigzag q) ++ rest) (blength pre) false
  = Ret ((inject_Z q / inject_Z 10)%Q, blength (varint_groups 5 (zigzag q))).
Proof.
  intros Hq.
  unfold zigzag.
  destruct (decodeSignedVarInt_at _ (blength pre) pre q rest Hq eq_refl eq_refl)
    as [He Hd].
  split; [exact He |].
  unfold PhilDecompress.decodeFloat.
  rewrite buffer_not_before.
  - unfold PhilDecompress.decodeSignedVarInt. rewrite Hd. reflexivity.
  - intros E. pose proof (varint_groups_length 5 (JS.bxor (JS.shl q 1) (JS.sar q 31))) as Hl.
    rewrite E in Hl. cbn in Hl. lia.
Qed.


End PhilFloats.



Section PhilPaths.

Lemma encodeParams_frame FO cmd params :
  forallb (fun p => fits_signed (stored p 10)) params = true ->
  exists buf,
    PhilCompress.encodeParams params = Ret buf /\
    forall pre rest j pathData,
      PhilDecompress.decodePath_params FO (List.length params) j (pre ++ buf ++ rest)
        (blength pre) pathData cmd
      = Ret ((pathData ++ params_text cmd j params)%string, blength pre + blength buf).
Proof.
  induction params as [| p params IH]; cbn [forallb PhilCompress.encodeParams].
  - intros _. exists []. split; [reflexivity |].
    intros pre rest j pathData. cbn [List.length PhilDecompress.decodePath_params params_text].
    rewrite string_app_nil_r, Z.add_0_r. reflexivity.
  - intros H. apply andb_true_iff in H. destruct H as [Hp H].
    destruct (IH H) as (bs & Hbs & Hdec).
    pose proof (fits_signed_range _ Hp) as Hr.
    rewrite Phil_encodeFloat_stored.
    remember (stored p 10) as q eqn:Eq.
    destruct (decodeFloat_quantized FO q [] [] Hr) as [He _].
    rewrite He. cbn [bind]. rewrite Hbs. cbn [bind].
    set (g := varint_groups 5 (zigzag q)).
    exists (g ++ bs). split; [reflexivity |].
    intros pre rest j pathData.
    cbn [List.length PhilDecompress.decodePath_params].
    assert (Hg : g <> []).
    { intros E. pose proof (varint_groups_length 5 (zigzag q)) as Hl. fold g in Hl.
      rewrite E in Hl. cbn in Hl. lia. }
    replace (pre ++ (g ++ bs) ++ rest) with (pre ++ g ++ (bs ++ rest)) by list_eq.
    rewrite buffer_not_before by exact Hg.
    destruct (decodeFloat_quantized FO q pre (bs ++ rest) Hr) as [_ Hd].
    fold g in Hd. rewrite Hd. cbn [bind]. cbv zeta.
    replace (pre ++ g ++ bs ++ rest) with ((pre ++ g) ++ bs ++ rest) by list_eq.
    rewrite <- blength_app. rewrite Hdec.
    f_equal. f_equal.
    + cbn [params_text]. unfold tenths. rewrite <- Eq. cbv zeta.
      destruct ((0 <? j) || negb (JS.toLowerCase (String cmd "") =? "m")%string)%bool;
        repeat rewrite string_app_assoc; reflexivity.
    + rewrite !blength_app. lia.
Qed.

End PhilPaths.

Section PhilCommands.

Lemma encodeCommands_frame FO cmds :
  forallb command_in_range cmds = true ->
  exists buf,
    PhilCompress.encodeCommands cmds = Ret buf /\
    forall pre rest pathData,
      PhilDecompress.decodePath_commands FO (List.length cmds) (pre ++ buf ++ rest)
        (blength pre) pathData
      = Ret ((pathData ++ commands_text cmds)%string, blength pre + blength buf).
Proof.
  induction cmds as [| [cmd params] cmds IH]; cbn [forallb PhilCompress.encodeCommands].
  - intros _. exists []. split; [reflexivity |].
    intros pre rest pathData.
    cbn [List.length PhilDecompress.decodePath_commands commands_text].
    rewrite string_app_nil_r, Z.add_0_r. reflexivity.
  - intros H. apply andb_true_iff in H. destruct H as [Hc H].
    destruct (IH H) as (bs & Hbs & Hdec).
    unfold command_in_range in Hc. cbn [snd] in Hc.
    apply andb_true_iff in Hc. destruct Hc as [Hps Hlen]. apply Z.ltb_lt in Hlen.
    destruct (encodeParams_frame FO cmd params Hps) as (ps & Hpsb & Hpdec).
    set (n := Z.of_nat (List.length params)) in *.
    assert (Hn : 0 <= n < 2 ^ 31) by (unfold n; lia).
    unfold PhilCompress.encodeVarInt. rewrite (encodeVarInt_groups n Hn). cbn [bind].
    rewrite Hpsb. cbn [bind]. rewrite Hbs. cbn [bind].
    set (code := Z.of_nat (nat_of_ascii cmd)).
    assert (Hcode : Buffer_from [code] = [code]).
    { unfold Buffer_from. cbn [map]. unfold byte_of. cbn [JS.num_of].
      pose proof (nat_ascii_bounded cmd). rewrite Z.mod_small by (unfold code; lia).
      reflexivity. }
    rewrite Hcode. set (gn := varint_groups 5 n).
    exists ([code] ++ gn ++ ps ++ bs). split; [reflexivity |].
    intros pre rest pathData.
    cbn [List.length PhilDecompress.decodePath_commands].
    rewrite buffer_not_before by discriminate.
    replace (buf_get (pre ++ ([code] ++ gn ++ ps ++ bs) ++ rest) (blength pre))
      with (Some code) by (symmetry; apply buf_get_app; reflexivity).
    cbn [JS.num_of]. cbv zeta.
    replace (JS.fromCharCode code) with cmd by (symmetry; apply fromCharCode_byte).
    unfold PhilDecompress.decodeVarInt.
    rewrite (decodeVarInt_at _ _ (pre ++ [code]) n (ps ++ bs ++ rest) Hn);
      [| list_eq | rewrite blength_app; reflexivity].
    cbn [bind]. fold gn. unfold n at 1. rewrite Nat2Z.id.
    replace (pre ++ ([code] ++ gn ++ ps ++ bs) ++ rest)
      with ((pre ++ [code] ++ gn) ++ ps ++ (bs ++ rest)) by list_eq.
    replace (blength pre + 1 + blength gn) with (blength (pre ++ [code] ++ gn))
      by (rewrite !blength_app; change (blength [code]) with 1; lia).
    rewrite Hpdec. cbn [bind].
    replace ((pre ++ [code] ++ gn) ++ ps ++ bs ++ rest)
      with (((pre ++ [code] ++ gn) ++ ps) ++ bs ++ rest) by list_eq.
    rewrite <- blength_app. rewrite Hdec.
    f_equal. f_equal.
    + cbn [commands_text]. repeat rewrite string_app_assoc. reflexivity.
    + rewrite !blength_app. change (blength [code]) with 1. lia.
Qed.

End PhilCommands.

(** X21: the path commands of the Phil codec.  For a list of fewer
    than [2^31] commands, each with fewer than [2^31] parameters whose
    stored tenths ([Math.round] of the product by 10, a product of
    doubles) fit 31 bits with the sign, [decodePath] reads the bytes
    of [encodePath] back to their end, wherever they lie in a buffer,
    as the text of the same commands, each parameter as its stored
    tenths with one decimal. *)
Theorem Phil_path_roundtrip FloatOverflow pathCommands pre rest :
  forallb command_in_range pathCommands = true ->
  Z.of_nat (List.length pathCommands) < 2 ^ 31 ->
  exists buf,
    PhilCompress.encodePath pathCommands = Ret buf /\
    PhilDecompress.decodePath FloatOverflow (pre ++ buf ++ rest) (blength pre)
    = Ret (commands_text pathCommands, blength buf).
Proof.
  intros Hr Hlen.
  destruct (encodeCommands_frame FloatOverflow pathCommands Hr) as (bs & Hbs & Hdec).
  unfold PhilCompress.encodePath, PhilCompress.encodeVarInt.
  set (n := Z.of_nat (List.length pathCommands)) in *.
  assert (Hn : 0 <= n < 2 ^ 31) by (unfold n; lia).
  rewrite (encodeVarInt_groups n Hn). cbn [bind]. rewrite Hbs. cbn [bind].
  set (gn := varint_groups 5 n).
  exists (gn ++ bs). split; [reflexivity |].
  unfold PhilDecompress.decodePath, PhilDecompress.decodeVarInt.
  rewrite (decodeVarInt_at _ _ pre n (bs ++ rest) Hn); [| list_eq | reflexivity].
  cbn [bind]. fold gn. unfold n at 1. rewrite Nat2Z.id.
  replace (pre ++ (gn ++ bs) ++ rest) with ((pre ++ gn) ++ bs ++ rest) by list_eq.
  rewrite <- blength_app. rewrite Hdec. cbn [bind].
  f_equal. f_equal. rewrite !blength_app. lia.
Qed.

Lemma Phil_path_roundtrip_witness :
  exists buf,
    PhilCompress.encodePath
      [("M"%char, [JS.parseFloat "0.35"; JS.parseFloat "20"]);
       ("L"%char, [JS.parseFloat "-3.26"; JS.parseFloat "4.5"]); ("Z"%char, [])]
    = Ret buf /\
    PhilDecompress.decodePath VarintOverflow ([1; 8; 0; 0; 100] ++ buf ++ []) 5
    = Ret ("M0.4 20.0L -3.3 4.5Z", blength buf).
Proof.
  apply (Phil_path_roundtrip VarintOverflow
           [("M"%char, [JS.parseFloat "0.35"; JS.parseFloat "20"]);
            ("L"%char, [JS.parseFloat "-3.26"; JS.parseFloat "4.5"]); ("Z"%char, [])]
           [1; 8; 0; 0; 100] []); [vm_compute; reflexivity | cbn; lia].
Defined.

Section PhilLoop.

Lemma Phil_loop_stalls decompressPath buffer offset vb :
  buf_get buffer offset = Some 0 ->
  PhilDecompress.decompressMetadata buffer offset = Ret (vb, 0) ->
  forall fuel parts,
    Phil.decompressSVG_loop PhilDecompress.decompressMetadata decompressPath
      fuel buffer offset parts = Diverge.
Proof.
  intros Hmarker Hvb fuel.
  pose proof (buf_get_Some _ _ _ Hmarker) as Hoff.
  induction fuel as [| fuel IH]; intros parts; cbn [Phil.decompressSVG_loop];
    [reflexivity |].
  replace (blength buffer <=? offset) with false by (symmetry; apply Z.leb_gt; lia).
  rewrite Hmarker, Hvb. rewrite Z.add_0_r. apply IH.
Qed.

End PhilLoop.

(** X22: the Phil decoder can fail to terminate, as the spikes decoder
    does: when the metadata record behind the header reports no byte
    read (its length varint decodes to a negative number that cancels
    them), the loop of [decompressSVG] stays at the same offset, and
    neither of its [try] blocks ends it. *)
Theorem Phil_decompressSVG_does_not_terminate FloatOverflow buffer vb :
  buf_get buffer 2 = Some 0 ->
  PhilDecompress.decompressMetadata buffer 2 = Ret (vb, 0) ->
  forall fuel, PhilDecompress.decompressSVG FloatOverflow fuel buffer = Diverge.
Proof.
  intros Hmarker Hvb fuel. unfold PhilDecompress.decompressSVG.
  pose proof (buf_get_Some _ _ _ Hmarker) as Hoff.
  replace (blength buffer <? 2) with false by (symmetry; apply Z.ltb_ge; lia).
  rewrite (Phil_loop_stalls _ buffer 2 vb Hmarker Hvb). reflexivity.
Qed.

Lemma Phil_decompressSVG_does_not_terminate_witness :
  buf_get [1; 1; 0; 250; 255; 255; 255; 15; 1; 0; 0; 0; 100; 0] 2 = Some 0 /\
  PhilDecompress.decompressMetadata [1; 1; 0; 250; 255; 255; 255; 15; 1; 0; 0; 0; 100; 0] 2
  = Ret ("", 0) /\
  PhilDecompress.decompressSVG VarintOverflow 1000
    [1; 1; 0; 250; 255; 255; 255; 15; 1; 0; 0; 0; 100; 0] = Diverge.
Proof.
  split; [reflexivity |]. split; [reflexivity |].
  apply (Phil_decompressSVG_does_not_terminate VarintOverflow
           [1; 1; 0; 250; 255; 255; 255; 15; 1; 0; 0; 0; 100; 0] ""); reflexivity.
Defined.

Section PhilColors.

Lemma Phil_COLOR_DICT_codes key code :
  Compress.dict_get PhilCompress.COLOR_DICT key = Some code -> 0 <= code <= 14.
Proof.
  unfold PhilCompress.COLOR_DICT. cbn [Compress.dict_get].
  repeat (destruct (String.eqb _ key); [intros H; injection H as <-; lia |]).
  discriminate.
Qed.

Lemma Phil_code_known code :
  0 <= code <= 14 ->
  exists name, Decompress.code_get PhilDecompress.COLOR_DICT code = Some name.
Proof.
  intros H.
  pose proof (forall_below
    (fun c => match Decompress.code_get PhilDecompress.COLOR_DICT c with
              | Some _ => true | None => false end) 15 eq_refl code ltac:(lia)) as E.
  cbv beta in E.
  destruct (Decompress.code_get PhilDecompress.COLOR_DICT code) as [name |]; [| discriminate].
  exists name. reflexivity.
Qed.

(** The two shapes of a color encoded by the Phil codec. *)
Lemma Phil_encodeColor_shape c :
  (exists code, PhilCompress.encodeColor c = [code] /\ 0 <= code <= 14) \/
  (exists x y z, PhilCompress.encodeColor c = [254; x; y; z] /\
                 0 <= x < 256 /\ 0 <= y < 256 /\ 0 <= z < 256).
Proof.
  unfold PhilCompress.encodeColor.
  destruct ((c =? "")%string || (c =? "none")%string)%bool.
  - left. exists 0. split; [reflexivity | lia].
  - cbv zeta.
    generalize (if JS.startsWith c "rgb" then PhilCompress.rgbToHex c
                else if JS.startsWith c "#" then JS.toUpperCase (JS.slice1 c)
                else "000000"%string).
    intros hex.
    destruct (Compress.dict_get PhilCompress.COLOR_DICT hex) as [code |] eqn:E;
      cbn [Compress.truthy].
    + pose proof (Phil_COLOR_DICT_codes _ _ E) as Hc.
      destruct (code =? 0) eqn:E0; cbn [negb].
      * right. do 3 eexists. split; [reflexivity |].
        unfold byte_of. repeat split; apply Z.mod_pos_bound; lia.
      * left. exists code. split; [| exact Hc].
        cbn. rewrite Z.mod_small by lia. reflexivity.
    + right. do 3 eexists. split; [reflexivity |].
      unfold byte_of. repeat split; apply Z.mod_pos_bound; lia.
Qed.

(** A color encoded by the Phil codec is read back in full wherever it
    lies. *)
Lemma Phil_decodeColor_frame c pre rest :
  PhilDecompress.decodeColor (pre ++ PhilCompress.encodeColor c ++ rest) (blength pre)
  = Ret (Phil_decoded_color c, blength (PhilCompress.encodeColor c)).
Proof.
  unfold Phil_decoded_color.
  destruct (Phil_encodeColor_shape c) as [(code & -> & Hc) | (x & y & z & -> & Hx & Hy & Hz)];
    unfold PhilDecompress.decodeColor.
  - rewrite buffer_not_before by discriminate.
    cbn [app]. rewrite (buf_get_app pre code rest) by reflexivity.
    change (blength [code] <=? 0) with false. change (buf_get [code] 0) with (Some code).
    cbv beta iota zeta.
    replace (code <? 254) with true by (symmetry; apply Z.ltb_lt; lia).
    destruct (Phil_code_known code Hc) as (name & ->). reflexivity.
  - rewrite buffer_not_before by discriminate.
    replace (blength (pre ++ [254; x; y; z] ++ rest) <=? blength pre + 3) with false.
    2:{ symmetry. apply Z.leb_gt. rewrite !blength_app.
        change (blength [254; x; y; z]) with 4. pose proof (blength_nonneg rest). lia. }
    unfold Decompress.hex_byte.
    rewrite !buf_get_app_r by lia.
    replace (buf_get (pre ++ [254; x; y; z] ++ rest) (blength pre))
      with (Some 254)
      by (symmetry; rewrite <- (Z.add_0_r (blength pre)); rewrite buf_get_app_r by lia;
          reflexivity).
    reflexivity.
Qed.

Lemma hex_digit_cases c : is_hex_digit c = true -> In c hex_digits.
Proof.
  destruct c as [[] [] [] [] [] [] [] []]; intros H; try discriminate H; cbn; tauto.
Qed.

End PhilColors.

(** X23: the Phil codec does not expand a color of three digits.  For
    [#] and three hexadecimal digits [encodeColor] writes the marker
    254 and three bytes, the first two digits as one byte, the third
    digit as the next one and 0, so that [decodeColor] reads back the
    six digits [c1 c2 0 c3 0 0], not [c1 c1 c2 c2 c3 c3]. *)
Theorem Phil_shorthand_color_not_expanded c1 c2 c3 pre rest :
  is_hex_digit c1 = true -> is_hex_digit c2 = true -> is_hex_digit c3 = true ->
  PhilDecompress.decodeColor
    (pre ++ PhilCompress.encodeColor (String "#" (String c1 (String c2 (String c3 ""))))
         ++ rest) (blength pre)
  = Ret (Phil_shorthand_read c1 c2 c3, 4).
Proof.
  intros H1 H2 H3.
  assert (Hall : forallb (fun a => forallb (fun b => forallb (Phil_shorthand_check a b)
                   hex_digits) hex_digits) hex_digits = true) by (vm_compute; reflexivity).
  rewrite forallb_forall in Hall.
  pose proof (Hall c1 (hex_digit_cases c1 H1)) as Hb. rewrite forallb_forall in Hb.
  pose proof (Hb c2 (hex_digit_cases c2 H2)) as Hc. rewrite forallb_forall in Hc.
  pose proof (Hc c3 (hex_digit_cases c3 H3)) as Hd.
  unfold Phil_shorthand_check in Hd. cbv zeta in Hd.
  apply andb_true_iff in Hd. destruct Hd as [Hs Hl].
  apply String.eqb_eq in Hs. apply Z.eqb_eq in Hl.
  rewrite Phil_decodeColor_frame, Hs, Hl. reflexivity.
Qed.

Lemma Phil_shorthand_color_not_expanded_witness :
  PhilDecompress.decodeColor ([1; 1] ++ PhilCompress.encodeColor "#f5a" ++ [0]) 2
  = Ret ("#F50A00", 4).
Proof.
  exact (Phil_shorthand_color_not_expanded "f" "5" "a" [1; 1] [0] eq_refl eq_refl eq_refl).
Defined.

(** X24: the Phil codec keeps no color name and no reference.  A
    color of ASCII characters that is not empty, not [none], does not
    start with [#] and, if it starts with [rgb], has no match of the
    [rgb(r, g, b)] pattern, is written as the dictionary code 1, which
    [decodeColor] reads as black. *)
Theorem Phil_other_colors_become_black color pre rest :
  is_ascii color = true ->
  color <> "" -> color <> "none" ->
  JS.startsWith color "#" = false ->
  (JS.startsWith color "rgb" = true -> JS.rgb_match color = None) ->
  PhilCompress.encodeColor color = [1] /\
  PhilDecompress.decodeColor (pre ++ PhilCompress.encodeColor color ++ rest) (blength pre)
  = Ret ("#000000", 1).
Proof.
  intros _ He Hn Hs Hr.
  assert (Henc : PhilCompress.encodeColor color = [1]).
  { unfold PhilCompress.encodeColor, PhilCompress.rgbToHex.
    apply String.eqb_neq in He. apply String.eqb_neq in Hn.
    rewrite He, Hn, Hs. cbn [orb].
    destruct (JS.startsWith color "rgb") eqn:Ergb; [| reflexivity].
    rewrite (Hr eq_refl).
    destruct (String.eqb_spec color "black") as [-> |]; [discriminate Ergb |].
    destruct (String.eqb_spec color "white") as [-> |]; [discriminate Ergb |].
    reflexivity. }
  split; [exact Henc |].
  rewrite Phil_decodeColor_frame. unfold Phil_decoded_color. rewrite Henc. reflexivity.
Qed.

Lemma Phil_other_colors_become_black_witness :
  PhilCompress.encodeColor "url(#sky)" = [1] /\
  PhilDecompress.decodeColor ([1; 1] ++ PhilCompress.encodeColor "url(#sky)" ++ [0]) 2
  = Ret ("#000000", 1).
Proof.
  apply (Phil_other_colors_become_black "url(#sky)" [1; 1] [0]);
    [reflexivity | discriminate | discriminate | reflexivity | discriminate].
Defined.

Section PhilTokens.

Lemma digit_value_digit c :
  JS.is_digit c = true -> exists v, JS.digit_value c = Some v /\ 0 <= v < 10.
Proof.
  intros H. unfold JS.digit_value. rewrite H. eexists. split; [reflexivity |].
  unfold JS.is_digit in H. cbv zeta in H.
  apply andb_true_iff in H. destruct H as [H1 H2].
  apply Nat.leb_le in H1. apply Nat.leb_le in H2. lia.
Qed.

Lemma take_digits_stop rest :
  match rest with String c _ => JS.is_digit c | EmptyString => false end = false ->
  JS.take_digits rest = (EmptyString, rest).
Proof.
  destruct rest as [| c rest]; [reflexivity |].
  intros H. cbn [JS.take_digits]. rewrite H. reflexivity.
Qed.

Lemma take_digits_app ds rest :
  all_chars JS.is_digit ds = true ->
  match rest with String c _ => JS.is_digit c | EmptyString => false end = false ->
  JS.take_digits (ds ++ rest) = (ds, rest).
Proof.
  intros Hd Hr. induction ds as [| c ds IH].
  - apply take_digits_stop. exact Hr.
  - cbn [all_chars] in Hd. apply andb_true_iff in Hd. destruct Hd as [Hc Hd].
    cbn [String.append JS.take_digits]. rewrite Hc, (IH Hd). reflexivity.
Qed.

Lemma radix_digits_snoc ip d :
  all_chars JS.is_digit ip = true -> JS.is_digit d = true ->
  forall acc,
    JS.radix_digits 10 (ip ++ String d "") acc
    = Some (JS.num_of (JS.radix_digits 10 ip acc) * 10 + JS.num_of (JS.digit_value d)).
Proof.
  intros Hip Hd. destruct (digit_value_digit d Hd) as (dv & Edv & Hdv).
  induction ip as [| c ip IH]; intros acc.
  - cbn [String.append JS.radix_digits]. rewrite Edv.
    replace (dv <? 10) with true by (symmetry; apply Z.ltb_lt; lia). reflexivity.
  - cbn [all_chars] in Hip. apply andb_true_iff in Hip. destruct Hip as [Hc Hip].
    destruct (digit_value_digit c Hc) as (cv & Ecv & Hcv).
    cbn [String.append JS.radix_digits]. rewrite Ecv.
    replace (cv <? 10) with true by (symmetry; apply Z.ltb_lt; lia).
    apply IH. exact Hip.
Qed.

Lemma radix_digits_start s :
  all_chars JS.is_digit s = true -> s <> "" ->
  JS.radix_digits 10 s (Some 0) = JS.radix_digits 10 s None.
Proof.
  destruct s as [| c s]; [contradiction |].
  cbn [all_chars]. intros H _. apply andb_true_iff in H. destruct H as [Hc _].
  destruct (digit_value_digit c Hc) as (cv & Ecv & Hcv).
  cbn [JS.radix_digits]. rewrite Ecv.
  replace (cv <? 10) with true by (symmetry; apply Z.ltb_lt; lia). reflexivity.
Qed.

Lemma Number_of_digits_zeros k s :
  all_chars JS.is_digit s = true -> s <> "" ->
  JS.Number_of_digits (JS.repeat_char "0" k ++ s) = JS.Number_of_digits s.
Proof.
  intros Hs Hn. unfold JS.Number_of_digits. f_equal.
  destruct k as [| k]; [reflexivity |].
  cbn [JS.repeat_char String.append JS.radix_digits].
  change (JS.digit_value "0") with (Some 0). cbv iota.
  change (0 <? 10) with true. cbv iota.
  change (JS.num_of None * 10 + 0) with 0.
  induction k as [| k IH].
  - cbn [JS.repeat_char String.append]. apply radix_digits_start; assumption.
  - cbn [JS.repeat_char String.append JS.radix_digits].
    change (JS.digit_value "0") with (Some 0). cbv iota.
    change (0 <? 10) with true. cbv iota.
    change (JS.num_of (Some 0) * 10 + 0) with 0. exact IH.
Qed.

Lemma string_of_Z_digits m :
  0 <= m ->
  all_chars JS.is_digit (JS.string_of_Z m) = true /\ JS.string_of_Z m <> "" /\
  JS.Number_of_digits (JS.string_of_Z m) = m.
Proof.
  intros Hm. destruct m as [| p | p]; [| | lia].
  - repeat split; [discriminate].
  - rewrite string_of_Z_pos. split; [apply string_of_uint_digits |]. split.
    + pose proof (DecimalPos.Unsigned.to_uint_nonnil p) as Hn.
      destruct (Pos.to_uint p); [contradiction | discriminate ..].
    + unfold JS.Number_of_digits. rewrite radix_digits_to_uint. reflexivity.
Qed.

Lemma repeat_char_length c k : String.length (JS.repeat_char c k) = k.
Proof. induction k as [| k IH]; cbn; [reflexivity | rewrite IH; reflexivity]. Qed.

Lemma repeat_zero_digits k : all_chars JS.is_digit (JS.repeat_char "0" k) = true.
Proof. induction k as [| k IH]; cbn [JS.repeat_char all_chars]; [reflexivity | rewrite IH; reflexivity]. Qed.

Lemma string_snoc s :
  (1 <= String.length s)%nat -> exists ip d, s = (ip ++ String d "")%string.
Proof.
  induction s as [| c s IH]; cbn [String.length]; [lia |].
  intros _. destruct s as [| c' s].
  - exists EmptyString, c. reflexivity.
  - destruct IH as (ip & d & E); [cbn; lia |].
    exists (String c ip), d. rewrite E. reflexivity.
Qed.

Lemma substring_head a b : String.substring 0 (String.length a) (a ++ b) = a.
Proof.
  induction a as [| c a IH]; cbn [String.length String.append String.substring].
  - destruct b; reflexivity.
  - rewrite IH. reflexivity.
Qed.

Lemma substring_tail a b n :
  String.substring (String.length a) n (a ++ b) = String.substring 0 n b.
Proof.
  induction a as [| c a IH]; cbn [String.length String.append String.substring];
    [reflexivity | exact IH].
Qed.

(** The text of [toFixed(1)]: sign, digits, point, one digit. *)
Lemma toFixed1_shape x :
  exists ip d,
    all_chars JS.is_digit ip = true /\ ip <> "" /\ JS.is_digit d = true /\
    JS.toFixed 1 x
    = ((if (Qnum x <? 0)%Z then "-" else "") ++ ip ++ "." ++ String d "")%string /\
    JS.Number_of_digits ip * 10 + JS.num_of (JS.digit_value d)
    = Qfloor (Qabs x * inject_Z 10 + (1 # 2)).
Proof.
  unfold JS.toFixed. change (10 ^ Z.of_nat 1) with 10.
  set (m := Qfloor (Qabs x * inject_Z 10 + (1 # 2))).
  assert (Hm : 0 <= m).
  { unfold m. change 0 with (Qfloor 0). apply Qfloor_resp_le.
    pose proof (Qabs_nonneg x) as Ha. change (inject_Z 10) with 10%Q. lra. }
  destruct (string_of_Z_digits m Hm) as (Hdig & Hne & Hval).
  cbv zeta.
  set (ds := JS.padStart0 2 (JS.string_of_Z m)).
  assert (Hlen : (2 <= String.length ds)%nat).
  { unfold ds, JS.padStart0. rewrite string_length_app, repeat_char_length. lia. }
  assert (Hds : all_chars JS.is_digit ds = true).
  { unfold ds, JS.padStart0. rewrite all_chars_app, repeat_zero_digits, Hdig. reflexivity. }
  assert (Hv : JS.Number_of_digits ds = m).
  { unfold ds, JS.padStart0. rewrite Number_of_digits_zeros by assumption. exact Hval. }
  destruct (string_snoc ds ltac:(lia)) as (ip & d & E).
  rewrite E in Hlen, Hds, Hv |- *. clearbody ds. clear E ds.
  rewrite string_length_app in Hlen. cbn [String.length] in Hlen.
  rewrite all_chars_app in Hds. apply andb_true_iff in Hds. destruct Hds as [Hip Hd].
  cbn [all_chars] in Hd. rewrite andb_true_r in Hd.
  exists ip, d. split; [exact Hip |]. split; [destruct ip; [cbn in Hlen; lia | discriminate] |].
  split; [exact Hd |]. split.
  - rewrite string_length_app. cbn [String.length].
    replace (String.length ip + 1 - 1)%nat with (String.length ip) by lia.
    rewrite substring_head, substring_tail.
    change (Nat.eqb 1 0) with false. cbv iota. reflexivity.
  - rewrite <- Hv. unfold JS.Number_of_digits at 2.
    rewrite (radix_digits_snoc ip d Hip Hd). reflexivity.
Qed.

Lemma Qfloor_half n : Qfloor (inject_Z n + (1 # 2)) = n.
Proof.
  pose proof (Qfloor_le (inject_Z n + (1 # 2))) as H1.
  pose proof (Qlt_floor (inject_Z n + (1 # 2))) as H2.
  set (f := Qfloor (inject_Z n + (1 # 2))) in *.
  assert (Ha : (inject_Z f < inject_Z (n + 1))%Q).
  { rewrite inject_Z_plus. change (inject_Z 1) with 1%Q. lra. }
  assert (Hb : (inject_Z n < inject_Z (f + 1))%Q) by lra.
  rewrite <- Zlt_Qlt in Ha, Hb. lia.
Qed.

(** The text of a parameter in tenths: the digits are those of the
    absolute value of the tenths. *)
Lemma tenths_text p :
  let n := stored p 10 in
  exists ip d,
    all_chars JS.is_digit ip = true /\ ip <> "" /\ JS.is_digit d = true /\
    JS.toFixed 1 (tenths p)
    = ((if (n <? 0)%Z then "-" else "") ++ ip ++ "." ++ String d "")%string /\
    JS.Number_of_digits ip * 10 + JS.num_of (JS.digit_value d) = Z.abs n.
Proof.
  intros n. unfold tenths. fold n.
  destruct (toFixed1_shape (inject_Z n / inject_Z 10)) as (ip & d & Hip & Hne & Hd & Ht & Hv).
  exists ip, d. split; [exact Hip |]. split; [exact Hne |]. split; [exact Hd |]. split.
  - rewrite Ht. cbn [Qnum Qdiv Qmult Qinv inject_Z]. rewrite Z.mul_1_r. reflexivity.
  - rewrite Hv.
    assert (E : (Qabs (inject_Z n / inject_Z 10) * inject_Z 10 + (1 # 2)
                 == inject_Z (Z.abs n) + (1 # 2))%Q).
    { change (inject_Z (Z.abs n)) with (Qabs (inject_Z n)).
      assert (E1 : (inject_Z n == inject_Z n / inject_Z 10 * inject_Z 10)%Q)
        by (change (inject_Z 10) with 10%Q; field).
      rewrite E1 at 2. rewrite Qabs_Qmult. reflexivity. }
    rewrite E. apply Qfloor_half.
Qed.

Lemma take_sign_digit c s :
  JS.is_digit c = true ->
  PhilCompress.take_sign (String c s) = (EmptyString, String c s).
Proof.
  intros H. pose proof (digit_cases c H) as Hin. cbn [In] in Hin.
  repeat (destruct Hin as [Hin | Hin]; [subst c; reflexivity |]). contradiction.
Qed.

Lemma digit_no_command c : JS.is_digit c = true -> PhilCompress.is_path_command c = false.
Proof.
  intros H. pose proof (digit_cases c H) as Hin. cbn [In] in Hin.
  repeat (destruct Hin as [Hin | Hin]; [subst c; reflexivity |]). contradiction.
Qed.

Lemma number_stop_digit rest :
  number_stop rest = true ->
  match rest with String c _ => JS.is_digit c | EmptyString => false end = false.
Proof.
  destruct rest as [| c rest]; [reflexivity |].
  cbn [number_stop]. intros H. apply negb_true_iff in H.
  apply orb_false_iff in H. destruct H as [H _].
  apply orb_false_iff in H. destruct H as [H _]. exact H.
Qed.

Lemma number_exponent_stop rest :
  number_stop rest = true -> PhilCompress.number_exponent rest = EmptyString.
Proof.
  destruct rest as [| c rest]; [reflexivity |].
  cbn [number_stop]. intros H. apply negb_true_iff in H.
  apply orb_false_iff in H. destruct H as [H HE].
  apply orb_false_iff in H. destruct H as [_ He].
  cbn [PhilCompress.number_exponent]. rewrite He, HE. reflexivity.
Qed.

(** The digits, point and digit of a text in tenths are one match of
    the number pattern. *)
Lemma number_body_text ip d rest :
  all_chars JS.is_digit ip = true -> JS.is_digit d = true ->
  number_stop rest = true ->
  PhilCompress.number_body (ip ++ "." ++ String d rest)
  = Some ((ip ++ "." ++ String d "")%string, rest).
Proof.
  intros Hip Hd Hr. unfold PhilCompress.number_body.
  rewrite (take_digits_app ip ("." ++ String d rest) Hip eq_refl).
  cbn [String.append JS.take_digits].
  rewrite Hd, (take_digits_stop rest (number_stop_digit rest Hr)).
  reflexivity.
Qed.

Lemma number_here_text (negative : bool) ip d rest :
  all_chars JS.is_digit ip = true -> ip <> "" -> JS.is_digit d = true ->
  number_stop rest = true ->
  PhilCompress.number_here
    ((if negative then "-" else "") ++ ip ++ "." ++ String d rest)
  = Some ((if negative then "-" else "") ++ ip ++ "." ++ String d "")%string.
Proof.
  intros Hip Hne Hd Hr. unfold PhilCompress.number_here.
  assert (Hs : PhilCompress.take_sign
                 ((if negative then "-" else "") ++ ip ++ "." ++ String d rest)
               = ((if negative then "-" else "")%string, (ip ++ "." ++ String d rest)%string)).
  { destruct negative; [reflexivity |].
    destruct ip as [| c ip]; [contradiction |].
    cbn [all_chars] in Hip. apply andb_true_iff in Hip. destruct Hip as [Hc _].
    cbn [String.append]. apply take_sign_digit. exact Hc. }
  rewrite Hs, (number_body_text ip d rest Hip Hd Hr), (number_exponent_stop rest Hr).
  rewrite string_app_nil_r. reflexivity.
Qed.

(** The value that [parseFloat] reads in a text in tenths. *)
Lemma parseFloat_text (negative : bool) ip d :
  all_chars JS.is_digit ip = true -> ip <> "" -> JS.is_digit d = true ->
  JS.parseFloat ((if negative then "-" else "") ++ ip ++ "." ++ String d "")
  = JS.double_round
      ((if negative then - (1) else 1) *
       (inject_Z (JS.Number_of_digits ip) +
        inject_Z (JS.num_of (JS.digit_value d)) / inject_Z 10) * 1)%Q.
Proof.
  intros Hip Hne Hd. unfold JS.parseFloat.
  destruct ip as [| c ip]; [contradiction |].
  cbn [all_chars] in Hip. apply andb_true_iff in Hip. destruct Hip as [Hc Hip].
  assert (Hs : JS.take_sign
                 (JS.skip_space
                    ((if negative then "-" else "") ++ String c ip ++ "." ++ String d ""))
               = (negative, (String c ip ++ "." ++ String d "")%string)).
  { destruct negative; [reflexivity |].
    pose proof (digit_cases c Hc) as Hin. cbn [In] in Hin.
    repeat (destruct Hin as [Hin | Hin]; [subst c; reflexivity |]). contradiction. }
  rewrite Hs.
  replace (String.prefix "Infinity" (String c ip ++ "." ++ String d "")) with false.
  2:{ pose proof (digit_cases c Hc) as Hin. cbn [In] in Hin.
      repeat (destruct Hin as [Hin | Hin]; [subst c; reflexivity |]). contradiction. }
  rewrite (take_digits_app (String c ip) ("." ++ String d "")
             ltac:(cbn [all_chars]; rewrite Hc, Hip; reflexivity) eq_refl).
  cbn [String.append JS.take_digits]. rewrite Hd.
  cbn [String.length JS.exponent_part]. change (10 ^ Z.of_nat 1) with 10.
  change (Qpower (inject_Z 10) 0) with 1%Q.
  destruct (digit_value_digit d Hd) as (dv & Edv & Hdv).
  unfold JS.Number_of_digits at 2. cbn [JS.radix_digits]. rewrite Edv.
  replace (dv <? 10) with true by (symmetry; apply Z.ltb_lt; lia).
  cbn [JS.radix_digits JS.num_of]. change (0 * 10 + dv) with dv.
  reflexivity.
Qed.

(** Reading the text of a parameter back gives the same tenths. *)
Lemma reparsed_round p :
  - 2 ^ 31 <= stored p 10 <= 2 ^ 31 ->
  stored (reparsed p) 10 = stored p 10.
Proof.
  intros Hr. unfold reparsed.
  destruct (tenths_text p) as (ip & d & Hip & Hne & Hd & Ht & Hv). cbv zeta in Ht, Hv.
  set (n := stored p 10) in *.
  rewrite Ht, (parseFloat_text (n <? 0) ip d Hip Hne Hd).
  assert (E : ((if n <? 0 then - (1) else 1) *
               (inject_Z (JS.Number_of_digits ip) +
                inject_Z (JS.num_of (JS.digit_value d)) / inject_Z 10) * 1
               == inject_Z n / inject_Z 10)%Q).
  { assert (En : n = (if n <? 0 then - 1 else 1) *
                     (JS.Number_of_digits ip * 10 + JS.num_of (JS.digit_value d)))
      by (rewrite Hv; destruct (n <? 0) eqn:E; [apply Z.ltb_lt in E | apply Z.ltb_ge in E]; lia).
    rewrite En at 2.
    rewrite inject_Z_mult, inject_Z_plus, inject_Z_mult.
    change (inject_Z 10) with 10%Q.
    destruct (n <? 0); [change (inject_Z (- 1)) with (- (1))%Q
                       | change (inject_Z 1) with 1%Q]; field. }
  destruct (stored_tenths n _ Hr E) as (y & Hy & Hs).
  rewrite Hy. exact Hs.
Qed.

Lemma encodeFloat_reparsed p :
  fits_signed (stored p 10) = true ->
  PhilCompress.encodeFloat (reparsed p) false = PhilCompress.encodeFloat p false.
Proof.
  intros H. pose proof (fits_signed_range _ H) as Hr.
  rewrite !Phil_encodeFloat_stored, reparsed_round by lia. reflexivity.
Qed.

Lemma encodeParams_reparsed ps :
  forallb (fun p => fits_signed (stored p 10)) ps = true ->
  PhilCompress.encodeParams (map reparsed ps) = PhilCompress.encodeParams ps.
Proof.
  induction ps as [| p ps IH]; [reflexivity |].
  cbn [forallb]. intros H. apply andb_true_iff in H. destruct H as [Hp H].
  cbn [map PhilCompress.encodeParams]. rewrite (encodeFloat_reparsed p Hp), (IH H).
  reflexivity.
Qed.

Lemma encodeCommands_reparsed cmds :
  forallb command_in_range cmds = true ->
  PhilCompress.encodeCommands (reparsed_commands cmds) = PhilCompress.encodeCommands cmds.
Proof.
  induction cmds as [| [c ps] cmds IH]; [reflexivity |].
  cbn [forallb]. intros H. apply andb_true_iff in H. destruct H as [Hc H].
  unfold command_in_range in Hc. cbn [snd] in Hc.
  apply andb_true_iff in Hc. destruct Hc as [Hps _].
  cbn [reparsed_commands map fst snd PhilCompress.encodeCommands].
  fold (reparsed_commands cmds).
  rewrite length_map, (encodeParams_reparsed ps Hps), (IH H). reflexivity.
Qed.

Lemma encodePath_reparsed cmds :
  forallb command_in_range cmds = true ->
  PhilCompress.encodePath (reparsed_commands cmds) = PhilCompress.encodePath cmds.
Proof.
  intros H. unfold PhilCompress.encodePath. rewrite (encodeCommands_reparsed cmds H).
  unfold reparsed_commands. rewrite length_map. reflexivity.
Qed.

End PhilTokens.

Section PhilParser.

Lemma parsePath_loop_skip t rest st :
  PhilCompress.parsePath_loop (t ++ rest) (String.length t) st
  = PhilCompress.parsePath_loop rest 0 st.
Proof.
  induction t as [| c t IH]; cbn [String.append String.length].
  - destruct rest; reflexivity.
  - cbn [PhilCompress.parsePath_loop]. exact IH.
Qed.

(** A number at the head of the text is matched, pushed and passed. *)
Lemma parsePath_loop_number c t rest st :
  PhilCompress.is_path_command c = false ->
  PhilCompress.number_here (String c (t ++ rest)) = Some (String c t) ->
  PhilCompress.parsePath_loop (String c (t ++ rest)) 0 st
  = PhilCompress.parsePath_loop rest 0 (PhilCompress.on_number (String c t) st).
Proof.
  intros Hc Hn. cbn [PhilCompress.parsePath_loop]. rewrite Hc, Hn.
  cbn [String.length]. rewrite Nat.sub_1_r. cbn [Nat.pred].
  apply parsePath_loop_skip.
Qed.

Lemma parsePath_loop_text (negative : bool) ip d rest st :
  all_chars JS.is_digit ip = true -> ip <> "" -> JS.is_digit d = true ->
  number_stop rest = true ->
  PhilCompress.parsePath_loop
    ((if negative then "-" else "") ++ ip ++ "." ++ String d rest) 0 st
  = PhilCompress.parsePath_loop rest 0
      (PhilCompress.on_number ((if negative then "-" else "") ++ ip ++ "." ++ String d "") st).
Proof.
  intros Hip Hne Hd Hr.
  pose proof (number_here_text negative ip d rest Hip Hne Hd Hr) as Hn.
  destruct negative.
  - cbn [String.append] in Hn |- *.
    replace (ip ++ String "." (String d rest))%string
      with ((ip ++ String "." (String d "")) ++ rest)%string in Hn |- *
      by (rewrite string_app_assoc; reflexivity).
    apply parsePath_loop_number; [reflexivity | exact Hn].
  - destruct ip as [| c ip]; [contradiction |].
    cbn [all_chars] in Hip. apply andb_true_iff in Hip. destruct Hip as [Hc _].
    cbn [String.append] in Hn |- *.
    replace (ip ++ String "." (String d rest))%string
      with ((ip ++ String "." (String d "")) ++ rest)%string in Hn |- *
      by (rewrite string_app_assoc; reflexivity).
    apply parsePath_loop_number; [apply digit_no_command; exact Hc | exact Hn].
Qed.

Lemma command_no_number c :
  PhilCompress.is_path_command c = true ->
  (JS.is_digit c || Ascii.eqb c "e" || Ascii.eqb c "E")%bool = false.
Proof.
  unfold PhilCompress.is_path_command. cbn [existsb]. intros H.
  repeat (apply orb_true_iff in H; destruct H as [H | H];
          [apply Ascii.eqb_eq in H; subst c; reflexivity |]).
  discriminate H.
Qed.

Lemma command_tail_stop tail : command_tail tail = true -> number_stop tail = true.
Proof.
  destruct tail as [| c tail]; [reflexivity |].
  cbn [command_tail number_stop]. intros H. rewrite (command_no_number c H). reflexivity.
Qed.

Lemma params_text_stop cmd j ps tail :
  0 <= j -> command_tail tail = true ->
  number_stop (params_text cmd (j + 1) ps ++ tail) = true.
Proof.
  intros Hj Ht. destruct ps as [| p ps].
  - apply command_tail_stop. exact Ht.
  - cbn [params_text]. replace (0 <? j + 1) with true by (symmetry; apply Z.ltb_lt; lia).
    reflexivity.
Qed.

(** The parameters that [decodePath] writes are read by the loop of
    [parsePath] one by one. *)
Lemma parsePath_loop_params cmd ps :
  forall j ps0 acc tail,
    0 <= j -> command_tail tail = true ->
    PhilCompress.parsePath_loop (params_text cmd j ps ++ tail) 0
      (PhilCompress.mkParser (Some cmd) ps0 acc)
    = PhilCompress.parsePath_loop tail 0
        (PhilCompress.mkParser (Some cmd) (ps0 ++ map reparsed ps) acc).
Proof.
  induction ps as [| p ps IH]; intros j ps0 acc tail Hj Ht.
  - cbn [params_text map String.append]. rewrite app_nil_r. reflexivity.
  - cbn [params_text]. cbv zeta.
    destruct (tenths_text p) as (ip & d & Hip & Hne & Hd & Htext & _). cbv zeta in Htext.
    pose proof (params_text_stop cmd j ps tail Hj Ht) as Hstop.
    assert (Hstep :
      PhilCompress.parsePath_loop
        ((JS.toFixed 1 (tenths p) ++ params_text cmd (j + 1) ps) ++ tail) 0
        (PhilCompress.mkParser (Some cmd) ps0 acc)
      = PhilCompress.parsePath_loop tail 0
          (PhilCompress.mkParser (Some cmd) (ps0 ++ map reparsed (p :: ps)) acc)).
    { rewrite string_app_assoc. cbn [map].
      unfold reparsed at 1. rewrite Htext.
      repeat rewrite string_app_assoc. cbn [String.append].
      rewrite (parsePath_loop_text _ ip d _ _ Hip Hne Hd Hstop).
      unfold PhilCompress.on_number. cbn [PhilCompress.currentCmd PhilCompress.params
        PhilCompress.commands].
      rewrite (IH (j + 1) _ acc tail ltac:(lia) Ht).
      rewrite <- app_assoc. reflexivity. }
    destruct ((0 <? j) ||
              negb (JS.toLowerCase (String cmd "") =? "m")%string)%bool.
    + rewrite string_app_assoc. cbn [String.append PhilCompress.parsePath_loop].
      change (PhilCompress.is_path_command " ") with false. cbv iota.
      change (PhilCompress.number_here (String " " ?s)) with (@None string).
      cbv iota. exact Hstep.
    + cbn [String.append]. exact Hstep.
Qed.

(** The commands that [decodePath] writes are read by the loop of
    [parsePath] one by one. *)
Lemma parsePath_loop_commands cmds :
  forallb (fun c => PhilCompress.is_path_command (fst c)) cmds = true ->
  forall cmd ps0 acc,
    let st := PhilCompress.parsePath_loop (commands_text cmds) 0
                (PhilCompress.mkParser (Some cmd) ps0 acc) in
    exists last lastParams,
      PhilCompress.currentCmd st = Some last /\
      PhilCompress.params st = lastParams /\
      PhilCompress.commands st ++ [(last, lastParams)]
      = acc ++ (cmd, ps0) :: reparsed_commands cmds.
Proof.
  induction cmds as [| [c ps] cmds IH]; intros Hall cmd ps0 acc.
  - cbn. exists cmd, ps0. repeat split.
  - cbn [forallb fst] in Hall. apply andb_true_iff in Hall. destruct Hall as [Hc Hall].
    cbn [commands_text]. cbv zeta.
    cbn [String.append PhilCompress.parsePath_loop]. rewrite Hc.
    unfold PhilCompress.on_command. cbn [PhilCompress.currentCmd PhilCompress.params
      PhilCompress.commands].
    rewrite (parsePath_loop_params c ps 0 [] _ (commands_text cmds) ltac:(lia)).
    2:{ destruct cmds as [| [c' ps'] cmds]; [reflexivity |].
        cbn [forallb fst] in Hall. apply andb_true_iff in Hall. destruct Hall as [Hc' _].
        cbn [commands_text String.append command_tail]. exact Hc'. }
    cbn [app].
    destruct (IH Hall c (map reparsed ps) (acc ++ [(cmd, ps0)])) as (l & lp & H1 & H2 & H3).
    exists l, lp. split; [exact H1 |]. split; [exact H2 |].
    rewrite H3. rewrite <- app_assoc. reflexivity.
Qed.

(** [parsePath] on the text that [decodePath] writes. *)
Lemma parsePath_commands_text cmds :
  forallb (fun c => PhilCompress.is_path_command (fst c)) cmds = true ->
  PhilCompress.parsePath (commands_text cmds) = reparsed_commands cmds.
Proof.
  intros Hall. destruct cmds as [| [c ps] cmds]; [reflexivity |].
  cbn [forallb fst] in Hall. apply andb_true_iff in Hall. destruct Hall as [Hc Hall].
  unfold PhilCompress.parsePath. cbn [commands_text]. cbv zeta.
  cbn [String.append PhilCompress.parsePath_loop]. rewrite Hc.
  unfold PhilCompress.on_command. cbn [PhilCompress.currentCmd PhilCompress.params
    PhilCompress.commands].
  rewrite (parsePath_loop_params c ps 0 [] [] (commands_text cmds) ltac:(lia)).
  2:{ destruct cmds as [| [c' ps'] cmds]; [reflexivity |].
      cbn [forallb fst] in Hall. apply andb_true_iff in Hall. destruct Hall as [Hc' _].
      cbn [commands_text String.append command_tail]. exact Hc'. }
  cbn [app].
  destruct (parsePath_loop_commands cmds Hall c (map reparsed ps) [])
    as (l & lp & H1 & H2 & H3).
  cbv zeta in H1, H2, H3. rewrite H1, H2, H3. reflexivity.
Qed.

(** Without a command at hand the loop of [parsePath] pushes no
    command. *)
Lemma parsePath_loop_no_command s :
  all_chars (fun c => negb (PhilCompress.is_path_command c)) s = true ->
  forall skip ps,
    let st := PhilCompress.parsePath_loop s skip (PhilCompress.mkParser None ps []) in
    PhilCompress.currentCmd st = None /\ PhilCompress.commands st = [].
Proof.
  induction s as [| c s IH]; intros Hall skip ps.
  - split; reflexivity.
  - cbn [all_chars] in Hall. apply andb_true_iff in Hall. destruct Hall as [Hc Hall].
    apply negb_true_iff in Hc.
    cbv zeta. cbn [PhilCompress.parsePath_loop]. destruct skip as [| k].
    + rewrite Hc. destruct (PhilCompress.number_here (String c s)) as [text |].
      * apply (IH Hall).
      * apply (IH Hall).
    + apply (IH Hall).
Qed.

End PhilParser.

Section PhilRecords.

Variable FO : Z -> error.




Lemma Phil_decodePath_at pathCommands :
  forallb command_in_range pathCommands = true ->
  Z.of_nat (List.length pathCommands) < 2 ^ 31 ->
  exists buf,
    PhilCompress.encodePath pathCommands = Ret buf /\
    forall buffer offset pre rest,
      buffer = pre ++ buf ++ rest -> offset = blength pre ->
      PhilDecompress.decodePath FO buffer offset
      = Ret (commands_text pathCommands, blength buf).
Proof.
  intros Hr Hlen.
  destruct (encodeCommands_frame FO pathCommands Hr) as (bs & Hbs & Hdec).
  unfold PhilCompress.encodePath, PhilCompress.encodeVarInt.
  set (n := Z.of_nat (List.length pathCommands)) in *.
  assert (Hn : 0 <= n < 2 ^ 31) by (unfold n; lia).
  rewrite (encodeVarInt_groups n Hn). cbn [bind]. rewrite Hbs. cbn [bind].
  set (gn := varint_groups 5 n).
  exists (gn ++ bs). split; [reflexivity |].
  intros buffer offset pre rest -> ->.
  unfold PhilDecompress.decodePath, PhilDecompress.decodeVarInt.
  rewrite (decodeVarInt_at _ _ pre n (bs ++ rest) Hn); [| list_eq | reflexivity].
  cbn [bind]. fold gn. unfold n at 1. rewrite Nat2Z.id.
  replace (pre ++ (gn ++ bs) ++ rest) with ((pre ++ gn) ++ bs ++ rest) by list_eq.
  rewrite <- blength_app. rewrite Hdec. cbn [bind].
  f_equal. f_equal. rewrite !blength_app. lia.
Qed.


End PhilRecords.



(** X26: compressing the path data that the Phil decoder writes gives
    the same bytes again.  For commands with letters of the path
    syntax, in the range that the format holds, [decodePath] reads
    the bytes of [encodePath] as a text that [parsePath] and
    [encodePath] turn into these very bytes: the rounding to tenths
    happens once. *)
Theorem Phil_decoded_path_recompresses FloatOverflow pathCommands pre rest :
  forallb (fun c => PhilCompress.is_path_command (fst c)) pathCommands = true ->
  forallb command_in_range pathCommands = true ->
  Z.of_nat (List.length pathCommands) < 2 ^ 31 ->
  exists buf pathData,
    PhilCompress.encodePath pathCommands = Ret buf /\
    PhilDecompress.decodePath FloatOverflow (pre ++ buf ++ rest) (blength pre)
    = Ret (pathData, blength buf) /\
    PhilCompress.encodePath (PhilCompress.parsePath pathData) = Ret buf.
Proof.
  intros Hl Hr Hlen.
  destruct (Phil_decodePath_at FloatOverflow pathCommands Hr Hlen) as (buf & He & Hd).
  exists buf, (commands_text pathCommands). split; [exact He |]. split.
  - apply (Hd _ _ pre rest eq_refl eq_refl).
  - rewrite (parsePath_commands_text _ Hl), (encodePath_reparsed _ Hr). exact He.
Qed.

Lemma Phil_decoded_path_recompresses_witness :
  exists buf pathData,
    PhilCompress.encodePath
      [("M"%char, [JS.parseFloat "10.04"; JS.parseFloat "0.35"]);
       ("l"%char, [JS.parseFloat "-3.26"; JS.parseFloat "4.5"]); ("z"%char, [])]
    = Ret buf /\
    PhilDecompress.decodePath VarintOverflow ([1; 8] ++ buf ++ [0]) 2
    = Ret (pathData, blength buf) /\
    PhilCompress.encodePath (PhilCompress.parsePath pathData) = Ret buf.
Proof.
  apply (Phil_decoded_path_recompresses VarintOverflow
           [("M"%char, [JS.parseFloat "10.04"; JS.parseFloat "0.35"]);
            ("l"%char, [JS.parseFloat "-3.26"; JS.parseFloat "4.5"]); ("z"%char, [])]
           [1; 8] [0]); [reflexivity | vm_compute; reflexivity | cbn; lia].
Defined.

(** X27: [parsePath] keeps numbers only under a command.  Path data
    without any command letter, whatever numbers it holds, is parsed
    to no command at all, and [encodePath] writes the single byte 0
    for it. *)
Theorem Phil_parsePath_needs_a_command d :
  all_chars (fun c => negb (PhilCompress.is_path_command c)) d = true ->
  PhilCompress.parsePath d = [] /\
  PhilCompress.encodePath (PhilCompress.parsePath d) = Ret [0].
Proof.
  intros Hall.
  assert (H : PhilCompress.parsePath d = []).
  { unfold PhilCompress.parsePath.
    destruct (parsePath_loop_no_command d Hall 0%nat []) as [H1 H2].
    cbv zeta in H1, H2 |- *. rewrite H1, H2. reflexivity. }
  split; [exact H |]. rewrite H. reflexivity.
Qed.

Lemma Phil_parsePath_needs_a_command_witness :
  PhilCompress.parsePath "10 20.5 -3e2" = [] /\
  PhilCompress.encodePath (PhilCompress.parsePath "10 20.5 -3e2") = Ret [0].
Proof.
  exact (Phil_parsePath_needs_a_command "10 20.5 -3e2" eq_refl).
Defined.

(** ** The Bg codec *)

Section BgReferences.

Lemma take_while_all p s :
  all_chars p s = true -> CompressSpikes.take_while p s = s.
Proof.
  induction s as [| c s IH]; cbn [all_chars CompressSpikes.take_while]; [reflexivity |].
  intros H. apply andb_true_iff in H. destruct H as [Hc Hs].
  rewrite Hc, (IH Hs). reflexivity.
Qed.

Lemma read_printable_string s rest :
  all_chars reference_char s = true ->
  BgDecompress.read_printable (JS.bytes_of_string s ++ rest)
  = (s ++ BgDecompress.read_printable rest)%string.
Proof.
  induction s as [| c s IH]; cbn [all_chars JS.bytes_of_string app String.append];
    [reflexivity |].
  intros H. apply andb_true_iff in H. destruct H as [Hc Hs].
  unfold reference_char in Hc. cbv zeta in Hc.
  apply andb_true_iff in Hc. destruct Hc as [Hc _].
  apply andb_true_iff in Hc. destruct Hc as [H1 H2].
  apply Nat.leb_le in H1. apply Nat.leb_le in H2.
  cbn [BgDecompress.read_printable].
  replace (32 <=? Z.of_nat (nat_of_ascii c)) with true by (symmetry; apply Z.leb_le; lia).
  replace (Z.of_nat (nat_of_ascii c) <=? 126) with true by (symmetry; apply Z.leb_le; lia).
  cbn [andb]. rewrite fromCharCode_byte, (IH Hs). reflexivity.
Qed.

(** A gradient reference as the Bg encoder writes it and the Bg
    decoder reads it. *)
Lemma Bg_reference_frame id pre rest :
  all_chars reference_char id = true ->
  BgCompress.encodeColor ("url(#" ++ id ++ ")")
  = Ret ([255] ++ JS.bytes_of_string (id ++ ")")) /\
  BgDecompress.decodeColor
    (pre ++ ([255] ++ JS.bytes_of_string (id ++ ")")) ++ rest) (blength pre)
  = Ret (("url(#" ++ (id ++ ")" ++ BgDecompress.read_printable rest) ++ ")")%string,
         blength ([255] ++ JS.bytes_of_string (id ++ ")"))
         + Z.of_nat (String.length (BgDecompress.read_printable rest))).
Proof.
  intros Hid.
  assert (Hall : all_chars reference_char (id ++ ")") = true)
    by (rewrite all_chars_app, Hid; reflexivity).
  split.
  - unfold BgCompress.encodeColor.
    change (String.eqb ("url(#" ++ id ++ ")") "") with false.
    change (String.eqb ("url(#" ++ id ++ ")") "none") with false.
    cbn [orb]. unfold JS.startsWith. rewrite prefix_app.
    unfold BgCompress.gradient_id.
    change (CompressSpikes.after_sharp ("url(#" ++ id ++ ")")) with (Some (id ++ ")")%string).
    cbv iota. rewrite take_while_all.
    + reflexivity.
    + apply (all_chars_impl reference_char); [| exact Hall].
      intros c Hc. unfold reference_char in Hc. cbv zeta in Hc.
      apply andb_true_iff in Hc. destruct Hc as [_ Hc]. exact Hc.
  - unfold BgDecompress.decodeColor.
    rewrite buffer_not_before by discriminate.
    replace (buf_get (pre ++ ([255] ++ JS.bytes_of_string (id ++ ")")) ++ rest) (blength pre))
      with (Some 255) by (symmetry; apply buf_get_app; reflexivity).
    cbv beta iota zeta.
    change (255 <? 254) with false. cbv iota.
    change (255 =? 254) with false. change (255 =? 255) with true. cbv iota.
    replace (skipn (Z.to_nat (blength pre + 1))
               (pre ++ ([255] ++ JS.bytes_of_string (id ++ ")")) ++ rest))
      with (JS.bytes_of_string (id ++ ")") ++ rest).
    2:{ symmetry.
        replace (pre ++ ([255] ++ JS.bytes_of_string (id ++ ")")) ++ rest)
          with ((pre ++ [255]) ++ JS.bytes_of_string (id ++ ")") ++ rest) by list_eq.
        apply skipn_app_exact. rewrite length_app. unfold blength. cbn [List.length]. lia. }
    rewrite (read_printable_string _ rest Hall).
    f_equal. f_equal.
    + repeat rewrite string_app_assoc. reflexivity.
    + rewrite blength_app, blength_bytes_of_string, !string_length_app.
      change (blength [255]) with 1. cbn [String.length]. lia.
Qed.

End BgReferences.

(** X28: the Bg codec does not give back a gradient reference.  For
    [url(#id)] with an identifier of characters from 32 to 126 without
    double quote, [encodeColor] writes the marker 255 and the
    characters that follow the [#], the closing parenthesis included,
    with no length and no end mark; [decodeColor] takes them and every
    following byte from 32 to 126 as the identifier and closes the
    parenthesis again, so that the color it returns is never the one
    that was written. *)
Theorem Bg_gradient_reference_not_restored id pre rest :
  all_chars reference_char id = true ->
  exists enc decoded,
    BgCompress.encodeColor ("url(#" ++ id ++ ")") = Ret enc /\
    BgDecompress.decodeColor (pre ++ enc ++ rest) (blength pre)
    = Ret (decoded,
           blength enc + Z.of_nat (String.length (BgDecompress.read_printable rest))) /\
    decoded = ("url(#" ++ id ++ ")" ++ BgDecompress.read_printable rest ++ ")")%string /\
    decoded <> ("url(#" ++ id ++ ")")%string.
Proof.
  intros Hid. destruct (Bg_reference_frame id pre rest Hid) as [He Hd].
  eexists. eexists. split; [exact He |]. split; [exact Hd |].
  assert (E : ("url(#" ++ (id ++ ")" ++ BgDecompress.read_printable rest) ++ ")")%string
              = ("url(#" ++ id ++ ")" ++ BgDecompress.read_printable rest ++ ")")%string)
    by (repeat rewrite string_app_assoc; reflexivity).
  split; [exact E |].
  rewrite E. intros H. apply (f_equal String.length) in H.
  rewrite !string_length_app in H. cbn [String.length] in H. lia.
Qed.

Lemma Bg_gradient_reference_not_restored_witness :
  exists enc decoded,
    BgCompress.encodeColor "url(#coreGlow)" = Ret enc /\
    BgDecompress.decodeColor ([1; 2; 2] ++ enc ++ [40; 0; 9]) 3
    = Ret (decoded, blength enc + 1) /\
    decoded = "url(#coreGlow)()" /\
    decoded <> "url(#coreGlow)".
Proof.
  exact (Bg_gradient_reference_not_restored "coreGlow" [1; 2; 2] [40; 0; 9] eq_refl).
Defined.

Section BgRectangles.

Variable FO : Z -> error.








End BgRectangles.



(** X30: the loop of the Bg decoder guards the circles and the
    gradient against a record that reports no byte read, but not the
    metadata: when the metadata record at the offset reports no byte
    read (its length varint decodes to a negative number that cancels
    them), the loop stays at this offset for ever, whatever the other
    decoders do. *)
Theorem Bg_metadata_loop_does_not_terminate
    decompressRect decompressCircles decompressGradient buffer offset vb :
  buf_get buffer offset = Some 0 ->
  BgDecompress.decompressMetadata buffer offset = Ret (vb, 0) ->
  forall fuel parts,
    Bg.decompressSVG_loop BgDecompress.decompressMetadata decompressRect
      decompressCircles decompressGradient fuel buffer offset parts = Diverge.
Proof.
  intros Hmarker Hvb fuel.
  pose proof (buf_get_Some _ _ _ Hmarker) as Hoff.
  induction fuel as [| fuel IH]; intros parts; cbn [Bg.decompressSVG_loop];
    [reflexivity |].
  replace (blength buffer <=? offset) with false by (symmetry; apply Z.leb_gt; lia).
  rewrite Hmarker, Hvb. rewrite Z.add_0_r. apply IH.
Qed.

Lemma Bg_metadata_loop_does_not_terminate_witness :
  buf_get [2; 1; 0; 250; 255; 255; 255; 15; 1; 1; 0; 0; 0; 0] 2 = Some 0 /\
  BgDecompress.decompressMetadata [2; 1; 0; 250; 255; 255; 255; 15; 1; 1; 0; 0; 0; 0] 2
  = Ret ("", 0) /\
  forall fuel parts,
    Bg.decompressSVG_loop BgDecompress.decompressMetadata
      (BgDecompress.decompressRect VarintOverflow)
      (fun _ _ _ => Ret ([], 0)) (fun _ _ => Ret ("", 0))
      fuel [2; 1; 0; 250; 255; 255; 255; 15; 1; 1; 0; 0; 0; 0] 2 parts = Diverge.
Proof.
  split; [reflexivity |]. split; [reflexivity |].
  apply (Bg_metadata_loop_does_not_terminate
           (BgDecompress.decompressRect VarintOverflow)
           (fun _ _ _ => Ret ([], 0)) (fun _ _ => Ret ("", 0))
           [2; 1; 0; 250; 255; 255; 255; 15; 1; 1; 0; 0; 0; 0] 2 ""); reflexivity.
Defined.
